(* ===== verification/_CoqProject ===== *)
-Q . S2P
Prelude.v
PyFloat.v
Json.v
JsonFacts.v
Protocol.v
ProtocolFacts.v
ProtocolWire.v
Framing.v
EventBuffer.v
Threads.v
Client.v
ClientInv.v
ClientSafe.v
ClientLive.v
GatewayBase.v
OpenAI.v
OpenAIFacts.v
TokenizerModel.v
Config.v
Metrics.v
Gateway.v
Api.v
ApiFacts.v
CommandLine.v
System.v
GatewayInv.v
GatewaySafe.v
SystemSafe.v
GatewayRuns.v
GatewayLive.v
Served.v
