(* ===== verification/Prelude.v ===== *)
(** * kim-llm-serving: the Python client and Gateway

    ** The program

    A C++ Worker runs a language model and serves requests over a Unix socket.
    The Python side, which this development verifies, is

    - the IPC protocol (clients/python/kim_llm_client/protocol.py): messages as
      JSON objects, each in a frame with a 4-byte length;
    - the client (clients/python/kim_llm_client/generation_client.py): one socket,
      one reader thread, any number of caller threads; requests and health probes
      are registered in tables, their events arrive in bounded buffers;
    - the Gateway (gateway/python/kim_llm_gateway): an asyncio process that turns
      OpenAI chat completions into requests of the client.  A pump per request
      moves events from the client's handle through the tokenizer into the
      session's buffer, from which an HTTP handler reads.  Its command line serves
      a configuration, or prints what a Worker's manifest has to say of a tokenizer.

    ** The files

    - [Prelude]: results of code that may raise, their monad, the tactics and the
      hint database of the development.
    - [PyFloat], [Json], [JsonFacts]: Python's float, the decimal text of numbers,
      UTF-8, [json.dumps] and [json.loads]; they read back what they print, and
      the parser's fuel (twice the length of the text) is always enough.
    - [Protocol], [ProtocolFacts], [ProtocolWire]: protocol.py.  The decoder
      accepts exactly the JSON form the Worker prints, up to the order of members;
      what the encoders send reads back; every error is accounted for.
    - [Framing]: [_receive_exact] and [_receive_frame] on a socket that delivers
      the bytes in arbitrary pieces refine a reference on the whole byte sequence.
      The loop's fuel is the number of pieces, each of which is used once.
    - [EventBuffer]: [_EventBuffer] as a queue that is closed once;
      [GenerationHandle.collect] and [iter_events].
    - [Threads]: programs as trees of atomic regions, their interleavings, and the
      logic of invariants and tokens in which the next two groups are proved.  A
      thread may start others, and one that is over may go on under a name, in
      place.  The tokens a thread owns where it may have to wait are part of the
      logic, and deadlock-freedom follows from them.
    - [Client], [ClientInv], [ClientSafe], [ClientLive]: every method of
      [GenerationClient] as such a program ([world] holds the attributes, the locks
      and the objects shared by reference), the invariant, and what callers can
      rely on under every interleaving: no handle is lost, nothing follows a
      Terminal, tables and buffers are bounded, deltas are consecutive; and no
      thread is left waiting for a lock, for the reader or for a Terminal.
    - [OpenAI], [OpenAIFacts]: openai.py, the parser of requests and the responses
      and server-sent events.
    - [TokenizerModel]: tokenizer.py over a transformers tokenizer that is a
      parameter; it discharges [TokenizerOk], and its fingerprint input determines
      the tokenizer's files.
    - [Config]: config.py, over a file system that is a parameter.
    - [GatewayBase], [Metrics], [Gateway]: runtime.py.  Coroutines interleave at
      their awaits; the client library's answers and the tokenizer ([Class
      Tokenizer], with what is promised of it in [Class TokenizerOk]) are
      parameters.
    - [Api], [ApiFacts]: api.py from one await to the next: bodies are bounded, a
      loaded configuration builds, a session is given back exactly once, and a
      client that reads the stream gets the text.
    - [CommandLine]: __main__.py; [inspect-tokenizer] prints exactly what a
      manifest needs for the service to be built.
    - [System]: the application, [create_app] of api.py: the lifespan, the
      endpoints and both deliveries of a completion as coroutines that share the
      service with its pumps and drains.
    - [GatewayInv], [GatewaySafe], [SystemSafe], [GatewayLive]: the invariant of the
      application, that the coroutines of runtime.py and of api.py keep it, and
      that no coroutine is left waiting, so shutdown returns.
    - [GatewayRuns]: what follows for every reachable state.  Sessions end once, the
      counters are exact, ids are distinct, the text is the tokenizer's, both in the
      session's buffer and as each delivery hands it to the client; when nothing is
      left to do the service holds nothing but what a stream that the server never
      asked for leaves behind.  Also runs that show where the code does
      less than it means to.
    - [Served]: the command line, the configuration, the tokenizer and the
      application put together: the requests built for the client are valid.

    ** How the code is modelled

    Python ints are [Z]; where the code bounds them to a width the bounds are
    explicit.  Strings are the bytes of their UTF-8 form, which preserves prefixes,
    concatenation and the order of characters.  Exceptions are values of [exn],
    [gexn], [config_exn] or [main_exn]; the wording of exceptions that Python or a library
    produces is left out.  A wait on a condition is a guard: every wait of the code
    is a loop that tests its condition again, and every assignment that can make
    the condition true is followed by [notify_all].  Waits with a timeout may end at
    any time, so no theorem depends on the speed of a clock.  What the operating
    system or a library decides is a question to the environment that may be
    answered in any way; that it is answered at all is what deadlock-freedom assumes
    of socket calls and, for the Gateway, of the client library.

    A request to the Gateway is one coroutine: the endpoint reads the body and
    submits, and then goes on as the delivery of its session.  The client can go
    away wherever the delivery awaits, and before a stream's first frame; the code
    before that runs to its end.  [Api] and [System] share the functions that say
    what one round of awaits does, so the theorems on a single delivery and those
    on all interleavings are about the same code.

    ** Not modelled

    The Worker (C++) and the benchmark scripts, which are not part of the Python
    serving path, and the packages' re-exports.  argparse, uvicorn, FastAPI's
    routing and response classes and logging, which are libraries; so is asyncio,
    of which only where a coroutine may be suspended is used.  Cancellation of a
    handler while it submits.  Python's recursion limit in [json.loads]; the time a
    wait takes. *)
From stdpp Require Import base list strings gmap.
From Stdlib Require Import ZArith Lia.

(** ** Results of code that may raise *)

Inductive result (E A : Type) : Type :=
| Ok (a : A)
| Err (e : E).
Arguments Ok {E A} a.
Arguments Err {E A} e.

#[global] Instance result_ret {E} : MRet (result E) := fun A a => Ok a.
#[global] Instance result_bind {E} : MBind (result E) := fun A B k m =>
  match m with Ok a => k a | Err e => Err e end.
#[global] Instance result_fmap {E} : FMap (result E) := fun A B f m =>
  match m with Ok a => Ok (f a) | Err e => Err e end.

#[global] Instance result_eq_dec {E A} `{EqDecision E} `{EqDecision A} :
  EqDecision (result E A).
Proof. solve_decision. Defined.

(** [if cond: raise e]. *)
Definition raise_if {E} (cond : bool) (e : E) : result E unit :=
  if cond then Err e else Ok tt.

(** [try: m except e: handler e]. *)
Definition catch {E F A} (m : result E A) (handler : E -> result F A) : result F A :=
  match m with Ok a => Ok a | Err e => handler e end.

(** Did the computation return normally? *)
Definition is_ok {E A} (m : result E A) : bool :=
  match m with Ok _ => true | Err _ => false end.

(** ** Inversion of monadic code *)

Section ResultLemmas.
Context {E A B : Type}.
Implicit Types (m : result E A) (k : A -> result E B).

Lemma bind_Ok_inv m k b :
  (m ≫= k) = Ok b -> exists a, m = Ok a /\ k a = Ok b.
Proof. destruct m; simpl; [eauto | discriminate]. Qed.

Lemma bind_Err_inv m k e :
  (m ≫= k) = Err e -> m = Err e \/ exists a, m = Ok a /\ k a = Err e.
Proof. destruct m; simpl; [eauto | intros [= ->]; auto]. Qed.

Lemma bind_Ok_l (a : A) k : (Ok a ≫= k) = k a.
Proof. reflexivity. Qed.

(** Unlike [injection], keeps the values as they are written. *)
Lemma Ok_inj (a b : A) : @Ok E A a = Ok b -> a = b.
Proof. congruence. Qed.

Lemma raise_if_Ok (b : bool) (e : E) u : raise_if b e = Ok u -> b = false.
Proof. by destruct b. Qed.

Lemma raise_if_Err (b : bool) (e e' : E) : raise_if b e = Err e' -> b = true /\ e' = e.
Proof. destruct b; naive_solver. Qed.
End ResultLemmas.

Lemma mapM_Ok_Forall2 {E A B} (f : A -> result E B) (l : list A) (r : list B) :
  mapM f l = Ok r <-> Forall2 (fun a b => f a = Ok b) l r.
Proof.
  split.
  - revert r. induction l as [|a l IH]; simpl; intros r Hr.
    + injection Hr as <-. constructor.
    + apply bind_Ok_inv in Hr as (b & Hb & Hr).
      apply bind_Ok_inv in Hr as (bs & Hbs & Hr).
      injection Hr as <-. constructor; auto.
  - induction 1 as [|a b l r Hab _ IH]; simpl; [done|].
    rewrite Hab. simpl. by rewrite IH.
Qed.

#[global] Instance Ok_Inj {E A} : Inj (=) (=) (@Ok E A).
Proof. by intros a b [= ->]. Qed.

Lemma mapM_Ok_fmap {E A B} (f : A -> result E B) (l : list A) (r : list B) :
  mapM f l = Ok r -> Ok <$> r = f <$> l.
Proof. intros H%mapM_Ok_Forall2. induction H as [|a b l r Hab _ IH]; [done|]. by rewrite !fmap_cons, IH, Hab. Qed.

Lemma mapM_Ok_map {E A B} (f : A -> result E B) (g : B -> A) (r : list B) :
  (forall b, b ∈ r -> f (g b) = Ok b) -> mapM f (g <$> r) = Ok r.
Proof.
  intros H. apply mapM_Ok_Forall2. induction r; simpl; constructor; set_solver.
Qed.

(** ** Tactics of the development *)

(** Decompose every hypothesis that says a monadic computation returned
    normally into the facts about its parts. *)
Ltac inv_ok :=
  repeat match goal with
  | H : Ok _ = Ok _ |- _ => injection H as H
  | H : Err _ = Ok _ |- _ => discriminate H
  | H : Ok _ = Err _ |- _ => discriminate H
  | H : mret _ = Ok _ |- _ => unfold mret, result_ret in H
  | H : mbind _ _ = Ok _ |- _ => apply bind_Ok_inv in H as (? & ? & H)
  | H : raise_if _ _ = Ok _ |- _ => apply raise_if_Ok in H
  end; try subst.

(** Split boolean connectives in the hypotheses. *)
Ltac split_bools :=
  repeat match goal with
  | H : _ || _ = false |- _ => apply orb_false_iff in H as [? ?]
  | H : _ && _ = true |- _ => apply andb_true_iff in H as [? ?]
  | H : negb _ = false |- _ => apply negb_false_iff in H
  | H : negb _ = true |- _ => apply negb_true_iff in H
  end.

(** Case analysis on the scrutinee of a match or an if, in a hypothesis or in
    the goal. *)
Ltac case_in H :=
  match type of H with
  | context [match ?x with _ => _ end] => destruct x eqn:?
  end.
Ltac case_in_as H Hx :=
  match type of H with
  | (if ?x then _ else _) = _ => destruct x eqn:Hx
  end.
Ltac case_goal :=
  match goal with
  | |- context [match ?x with _ => _ end] => destruct x eqn:?
  end.

Create HintDb kim.
#[export] Hint Resolve Forall_app_2 : kim.
#[export] Hint Extern 1 (_ <= _)%Z => lia : kim.
#[export] Hint Extern 1 (_ < _)%Z => lia : kim.
#[export] Hint Extern 1 (_ <= _)%nat => lia : kim.
#[export] Hint Extern 1 (_ < _)%nat => lia : kim.

(** ** Lists *)

Lemma take_all_le {A} (n : nat) (l : list A) : (length l <= n)%nat -> take n l = l.
Proof. intros. by apply take_ge. Qed.

Lemma prefix_drop {A} (l k : list A) : l `prefix_of` k -> k = l ++ drop (length l) k.
Proof. intros [r ->]. by rewrite drop_app_length. Qed.

Lemma count_filter_le {A} (P : A -> Prop) `{forall x, Decision (P x)} (l : list A) :
  (length (filter P l) <= length l)%nat.
Proof. apply length_filter. Qed.
