(* ===== verification/PyFloat.v ===== *)
(** Python's [float] and the decimal text of numbers.

    A [float] is an IEEE-754 binary64 value, [SpecFloat.spec_float] at
    precision 53 and maximal exponent 1024; arithmetic rounds to nearest,
    ties to even.  The file also holds the decimal notation of integers
    ([str(int)]) and of floats ([repr(float)], the shortest digit string that
    reads back to the same value), and the correctly rounded conversion of a
    decimal literal that [float(str)] performs. *)
From stdpp Require Import base list strings.
From Stdlib Require Import ZArith Lia Ascii String SpecFloat.
From S2P Require Import Prelude.
Local Open Scope Z_scope.

Abbreviation pyfloat := spec_float.
Definition fprec : Z := 53.
Definition femax : Z := 1024.

#[global] Instance spec_float_eq_dec : EqDecision spec_float.
Proof. solve_decision. Defined.

(** A Python number: [type(value) in (int, float)]. *)
Inductive pynum :=
| PInt (z : Z)
| PFloat (f : pyfloat).

#[global] Instance pynum_eq_dec : EqDecision pynum.
Proof. solve_decision. Defined.

(** ** Arithmetic and comparison *)

Definition fadd : pyfloat -> pyfloat -> pyfloat := SFadd fprec femax.
Definition fsub : pyfloat -> pyfloat -> pyfloat := SFsub fprec femax.
Definition fmul : pyfloat -> pyfloat -> pyfloat := SFmul fprec femax.
Definition fdiv : pyfloat -> pyfloat -> pyfloat := SFdiv fprec femax.
Definition fltb (x y : pyfloat) : bool := SFltb x y.
Definition fleb (x y : pyfloat) : bool := SFleb x y.
Definition feqb (x y : pyfloat) : bool := SFeqb x y.
Definition f0 : pyfloat := S754_zero false.
Definition f1 : pyfloat := S754_finite false 4503599627370496 (-52).
Definition f2 : pyfloat := S754_finite false 4503599627370496 (-51).

(** [math.isfinite]. *)
Definition isfinite (f : pyfloat) : bool :=
  match f with S754_zero _ | S754_finite _ _ _ => true | _ => false end.

(** [float(n)] for an int: rounds, and [None] stands for the [OverflowError]
    of an int whose rounded value is not finite. *)
Definition float_of_int (z : Z) : option pyfloat :=
  let f := binary_normalize fprec femax z 0 false in
  if isfinite f then Some f else None.

(** [float(x)] for a number. *)
Definition float_of_num (n : pynum) : option pyfloat :=
  match n with PInt z => float_of_int z | PFloat f => Some f end.

(** [int(x)] for a finite float: truncation towards zero. *)
Definition int_of_float (f : pyfloat) : Z :=
  match f with
  | S754_finite s m e =>
      let a := if 0 <=? e then Z.pos m * 2 ^ e else Z.pos m / 2 ^ (- e) in
      if s then - a else a
  | _ => 0
  end.

(** [math.ceil(x)] for a finite float. *)
Definition ceil_of_float (f : pyfloat) : Z :=
  match f with
  | S754_finite s m e =>
      let v := if s then Z.neg m else Z.pos m in
      if 0 <=? e then v * 2 ^ e else - ((- v) / 2 ^ (- e))
  | _ => 0
  end.

(** ** Decimal text *)

Abbreviation text := (list ascii).
Definition chars (s : string) : text := list_ascii_of_string s.
Definition str (t : text) : string := string_of_list_ascii t.

Definition digit_char (d : Z) : ascii := ascii_of_N (Z.to_N (48 + d)).
Definition char_code (c : ascii) : Z := Z.of_N (N_of_ascii c).
Definition is_digit (c : ascii) : bool := (48 <=? char_code c) && (char_code c <=? 57).
Definition digit_val (c : ascii) : Z := char_code c - 48.

Fixpoint dec_aux (fuel : nat) (n : Z) (acc : text) : text :=
  match fuel with
  | O => acc
  | S f =>
      if n <? 10 then digit_char n :: acc
      else dec_aux f (n / 10) (digit_char (n mod 10) :: acc)
  end.

(** The decimal digits of a non-negative integer; one unit of fuel per
    digit, and the binary List.length bounds the decimal one. *)
Definition dec_nonneg (n : Z) : text := dec_aux (S (Z.to_nat (Z.log2 n))) n [].

(** [str(int)]. *)
Definition int_text (z : Z) : text :=
  if z <? 0 then "-"%char :: dec_nonneg (- z) else dec_nonneg z.

(** The value of a digit string. *)
Definition dec_value (t : text) : Z := fold_left (fun acc c => acc * 10 + digit_val c) t 0.

(** The binary64 value nearest to [m * 10^e] ([m >= 0]): the conversion
    [float(literal)] performs. *)
Definition float_of_decimal (neg : bool) (m e : Z) : pyfloat :=
  match m with
  | Zpos p =>
      if 0 <=? e then binary_round fprec femax neg (p * Z.to_pos (10 ^ e)) 0
      else SFdiv fprec femax (S754_finite neg p 0)
             (S754_finite false (Z.to_pos (10 ^ (- e))) 0)
  | _ => S754_zero neg
  end.

(** ** [repr(float)] *)

(** [num / den >= 10^k] *)
Definition ge_pow10 (num den k : Z) : bool :=
  if 0 <=? k then 10 ^ k * den <=? num else den <=? num * 10 ^ (- k).

(** The decimal point position: [10^(k-1) <= num/den < 10^k]. *)
Definition decpt_of (num den : Z) : Z :=
  let k := (Z.log2 num - Z.log2 den) * 30103 / 100000 + 1 in
  if ge_pow10 num den k then k + 1
  else if ge_pow10 num den (k - 1) then k else k - 1.

(** The digit strings of List.length [nd] around [num/den] that read back to [f];
    the nearer one when both do. *)
Definition try_digits (f : pyfloat) (num den k nd : Z) : option Z :=
  let sh := nd - k in
  let n := if 0 <=? sh then num * 10 ^ sh else num in
  let d := if 0 <=? sh then den else den * 10 ^ (- sh) in
  let lo := n / d in
  let r := n mod d in
  let back x := bool_decide (float_of_decimal false x (k - nd) = f) in
  if r =? 0 then (if back lo then Some lo else None)
  else match back lo, back (lo + 1) with
       | true, true =>
           if 2 * r <? d then Some lo
           else if d <? 2 * r then Some (lo + 1)
           else if Z.even lo then Some lo else Some (lo + 1)
       | true, false => Some lo
       | false, true => Some (lo + 1)
       | false, false => None
       end.

(** The first digit count, from [nd] on, that reads back, with its digits. *)
Fixpoint shortest_digits (fuel : nat) (f : pyfloat) (num den k nd : Z) : Z * Z :=
  match fuel with
  | O => (0, nd)
  | S fu =>
      match try_digits f num den k nd with
      | Some d => (d, nd)
      | None => shortest_digits fu f num den k (nd + 1)
      end
  end.

Fixpoint strip_zeros (t : text) : text :=
  match t with
  | [] => []
  | c :: t' => match strip_zeros t' with
               | [] => if bool_decide (c = "0"%char) then [] else [c]
               | r => c :: r
               end
  end.

Definition exp_text (e : Z) : text :=
  let a := dec_nonneg (Z.abs e) in
  (if e <? 0 then "-"%char else "+"%char)
    :: (if (List.length a <? 2)%nat then "0"%char :: a else a).

(** Layout of a digit string whose decimal point is at [k]: fixed notation
    for [-4 < k <= 16], scientific otherwise. *)
Definition layout_digits (ds : text) (k : Z) : text :=
  let n := Z.of_nat (List.length ds) in
  if (-4 <? k) && (k <=? 16) then
    if k <=? 0 then chars "0." ++ replicate (Z.to_nat (- k)) "0"%char ++ ds
    else if n <=? k then ds ++ replicate (Z.to_nat (k - n)) "0"%char ++ chars ".0"
    else take (Z.to_nat k) ds ++ "."%char :: drop (Z.to_nat k) ds
  else
    match ds with
    | [] => []
    | [c] => c :: "e"%char :: exp_text (k - 1)
    | c :: r => c :: "."%char :: r ++ "e"%char :: exp_text (k - 1)
    end.

(** [repr(f)] of a float; the shortest digit string has at most 17 digits. *)
Definition float_repr (f : pyfloat) : text :=
  match f with
  | S754_nan => chars "nan"
  | S754_infinity s => if s then chars "-inf" else chars "inf"
  | S754_zero s => if s then chars "-0.0" else chars "0.0"
  | S754_finite s m e =>
      let num := if 0 <=? e then Z.pos m * 2 ^ e else Z.pos m in
      let den := if 0 <=? e then 1 else 2 ^ (- e) in
      let k := decpt_of num den in
      let '(d, nd) := shortest_digits 17 (S754_finite false m e) num den k 1 in
      let ds := dec_nonneg d in
      let k' := Z.of_nat (List.length ds) + (k - nd) in
      (if s then ["-"%char] else []) ++ layout_digits (strip_zeros ds) k'
  end.
