(* ===== verification/Json.v ===== *)
(** Python's [json] module, the part the program uses.

    A decoded document is a [json] value (a Python object made of [None],
    [bool], [int], [float], [str], [list] and [dict]).  A [dict] is its list
    of items in insertion order.  A [str] is held as its UTF-8 encoding, on
    which equality, emptiness, prefix tests and code-point order agree with
    Python's; a lone surrogate is held in the same generalised form.
    [json_dumps] is [json.dumps(ensure_ascii=False, separators=(",", ":"))]
    and [json_loads] is [json.loads] on a decoded payload. *)
From Stdlib Require Import ZArith Lia Ascii String SpecFloat.
From stdpp Require Import base list strings gmap.
From S2P Require Import Prelude PyFloat.
Local Open Scope Z_scope.

#[warnings="-register-all"]
Inductive json :=
| JNull
| JBool (b : bool)
| JInt (z : Z)
| JFloat (f : pyfloat)
| JStr (s : string)
| JList (l : list json)
| JObj (d : list (string * json)).

(** Induction with hypotheses for the members of lists and dicts. *)
Section JsonInd.
Variable P : json -> Prop.
Hypothesis HNull : P JNull.
Hypothesis HBool : forall b, P (JBool b).
Hypothesis HInt : forall z, P (JInt z).
Hypothesis HFloat : forall f, P (JFloat f).
Hypothesis HStr : forall s, P (JStr s).
Hypothesis HList : forall l, Forall P l -> P (JList l).
Hypothesis HObj : forall d, Forall (fun kv => P kv.2) d -> P (JObj d).

Fixpoint json_ind' (v : json) : P v :=
  match v with
  | JNull => HNull
  | JBool b => HBool b
  | JInt z => HInt z
  | JFloat f => HFloat f
  | JStr s => HStr s
  | JList l => HList l ((fix go l : Forall P l := match l with
      | [] => List.Forall_nil _
      | x :: l' => List.Forall_cons _ _ _ (json_ind' x) (go l')
      end) l)
  | JObj d => HObj d ((fix go d : Forall (fun kv => P kv.2) d := match d with
      | [] => List.Forall_nil _
      | kv :: d' => List.Forall_cons _ _ _ (json_ind' kv.2) (go d')
      end) d)
  end.
End JsonInd.

(** ** Dicts *)

(** [d.get(k)], and [d[k]] once the key is known to be present. *)
Fixpoint dict_get (d : list (string * json)) (k : string) : option json :=
  match d with
  | [] => None
  | (k', v) :: d' => if decide (k = k') then Some v else dict_get d' k
  end.

(** [d[k] = v]: an existing key keeps its position. *)
Fixpoint dict_set (d : list (string * json)) (k : string) (v : json) : list (string * json) :=
  match d with
  | [] => [(k, v)]
  | (k', v') :: d' => if decide (k = k') then (k', v) :: d' else (k', v') :: dict_set d' k v
  end.

(** The dict of a sequence of pairs: the last value of a key wins. *)
Definition dict_of_pairs (l : list (string * json)) : list (string * json) :=
  fold_left (fun d kv => dict_set d kv.1 kv.2) l [].

(** [set(d)]. *)
Definition dict_keys (d : list (string * json)) : gset string := list_to_set d.*1.

(** [d[k]] where the code has established that the key is present. *)
Definition dict_item (d : list (string * json)) (k : string) : json :=
  default JNull (dict_get d k).

(** ** UTF-8 *)

Definition in_range (c : ascii) (lo hi : Z) : bool :=
  (lo <=? char_code c) && (char_code c <=? hi).
Definition is_cont (c : ascii) : bool := in_range c 128 191.

(** Strict UTF-8: what [bytes.decode("utf-8")] accepts and
    [str.encode("utf-8")] can produce; surrogates are refused. *)
Fixpoint utf8_valid (t : text) : bool :=
  match t with
  | [] => true
  | a :: t1 =>
      if char_code a <=? 127 then utf8_valid t1 else
      match t1 with
      | [] => false
      | b :: t2 =>
          if in_range a 194 223 && is_cont b then utf8_valid t2 else
          match t2 with
          | [] => false
          | c :: t3 =>
              if (bool_decide (char_code a = 224) && in_range b 160 191 && is_cont c)
                 || (in_range a 225 236 && is_cont b && is_cont c)
                 || (bool_decide (char_code a = 237) && in_range b 128 159 && is_cont c)
                 || (in_range a 238 239 && is_cont b && is_cont c)
              then utf8_valid t3 else
              match t3 with
              | [] => false
              | d :: t4 =>
                  if ((bool_decide (char_code a = 240) && in_range b 144 191)
                      || (in_range a 241 243 && is_cont b)
                      || (bool_decide (char_code a = 244) && in_range b 128 143))
                     && is_cont c && is_cont d
                  then utf8_valid t4 else false
              end
          end
      end
  end.

Definition byte_of_Z (z : Z) : ascii := ascii_of_N (Z.to_N z).

(** The (generalised) UTF-8 encoding of one code point. *)
Definition utf8_encode (cp : Z) : text :=
  if cp <? 128 then [byte_of_Z cp]
  else if cp <? 2048 then
    [byte_of_Z (192 + Z.shiftr cp 6); byte_of_Z (128 + Z.land cp 63)]
  else if cp <? 65536 then
    [byte_of_Z (224 + Z.shiftr cp 12); byte_of_Z (128 + Z.land (Z.shiftr cp 6) 63);
     byte_of_Z (128 + Z.land cp 63)]
  else
    [byte_of_Z (240 + Z.shiftr cp 18); byte_of_Z (128 + Z.land (Z.shiftr cp 12) 63);
     byte_of_Z (128 + Z.land (Z.shiftr cp 6) 63); byte_of_Z (128 + Z.land cp 63)].

(** ** [json.dumps] *)

Definition dquote : ascii := ascii_of_N 34.
Definition backslash : ascii := ascii_of_N 92.

Definition hex_digit (d : Z) : ascii :=
  if d <? 10 then digit_char d else ascii_of_N (Z.to_N (87 + d)).

(** The escape of one character with [ensure_ascii=False]. *)
Definition escape_char (c : ascii) : text :=
  let n := char_code c in
  if n =? 34 then [backslash; dquote]
  else if n =? 92 then [backslash; backslash]
  else if n =? 10 then [backslash; "n"%char]
  else if n =? 13 then [backslash; "r"%char]
  else if n =? 9 then [backslash; "t"%char]
  else if n =? 12 then [backslash; "f"%char]
  else if n =? 8 then [backslash; "b"%char]
  else if n <? 32 then
    [backslash; "u"%char; "0"%char; "0"%char; hex_digit (n / 16); hex_digit (n mod 16)]
  else [c].

Definition quote (s : string) : text :=
  dquote :: (chars s ≫= escape_char) ++ [dquote].

Fixpoint intersperse (sep : text) (l : list text) : text :=
  match l with
  | [] => []
  | [x] => x
  | x :: l' => x ++ sep ++ intersperse sep l'
  end.

Definition float_text (f : pyfloat) : text :=
  match f with
  | S754_nan => chars "NaN"
  | S754_infinity s => if s then chars "-Infinity" else chars "Infinity"
  | _ => float_repr f
  end.

(** The text of a value. *)
Fixpoint dumps_text (v : json) : text :=
  match v with
  | JNull => chars "null"
  | JBool true => chars "true"
  | JBool false => chars "false"
  | JInt z => int_text z
  | JFloat f => float_text f
  | JStr s => quote s
  | JList l => "["%char :: intersperse [","%char] (map dumps_text l) ++ ["]"%char]
  | JObj d =>
      "{"%char ::
      intersperse [","%char] (map (fun kv => quote kv.1 ++ ":"%char :: dumps_text kv.2) d)
      ++ ["}"%char]
  end.

(** Conversions between [int] and decimal text are limited to 4300 digits
    ([sys.set_int_max_str_digits]). *)
Definition int_max_str_digits : Z := 4300.
Definition int_printable (z : Z) : bool :=
  Z.of_nat (List.length (dec_nonneg (Z.abs z))) <=? int_max_str_digits.

(** No float of the value is NaN or infinite, and no int too long. *)
Fixpoint dumps_allowed (allow_nan : bool) (v : json) : bool :=
  match v with
  | JInt z => int_printable z
  | JFloat f => allow_nan || isfinite f
  | JList l => forallb (dumps_allowed allow_nan) l
  | JObj d => forallb (fun kv => dumps_allowed allow_nan kv.2) d
  | _ => true
  end.

(** [json.dumps]: [None] is the [ValueError] of a non-finite float with
    [allow_nan=False] or of an int that is too long. *)
Definition json_dumps (allow_nan : bool) (v : json) : option text :=
  if dumps_allowed allow_nan v then Some (dumps_text v) else None.

(** ** [json.loads] *)

Inductive json_error :=
| JSONDecodeError            (** the document is not JSON *)
| JsonIntTooLong             (** [ValueError]: more than 4300 digits *)
| JsonConstant (c : string)  (** [parse_constant] raised on NaN or an infinity *)
| JsonOutOfFuel.             (** never returned, see [parse_fuel] *)

#[global] Instance json_error_eq_dec : EqDecision json_error.
Proof. solve_decision. Defined.

Definition is_ws (c : ascii) : bool :=
  let n := char_code c in (n =? 32) || (n =? 9) || (n =? 10) || (n =? 13).

Fixpoint skip_ws (t : text) : text :=
  match t with
  | c :: t' => if is_ws c then skip_ws t' else t
  | [] => []
  end.

(** [t.startswith(p)], returning what follows. *)
Fixpoint strip_prefix (p t : text) : option text :=
  match p, t with
  | [], _ => Some t
  | a :: p', b :: t' => if decide (a = b) then strip_prefix p' t' else None
  | _ :: _, [] => None
  end.

(** One expected delimiter. *)
Definition eat (c : ascii) (t : text) : option text := strip_prefix [c] t.

Definition hex_val (c : ascii) : option Z :=
  if is_digit c then Some (digit_val c)
  else if in_range c 97 102 then Some (char_code c - 87)
  else if in_range c 65 70 then Some (char_code c - 55)
  else None.

Definition hex4 (a b c d : ascii) : option Z :=
  match hex_val a, hex_val b, hex_val c, hex_val d with
  | Some w, Some x, Some y, Some z => Some (w * 4096 + x * 256 + y * 16 + z)
  | _, _, _, _ => None
  end.

Definition is_high (u : Z) : bool := (55296 <=? u) && (u <=? 56319).
Definition is_low (u : Z) : bool := (56320 <=? u) && (u <=? 57343).

(** The character of a two-character escape. *)
Definition simple_escape (c : ascii) : option ascii :=
  let n := char_code c in
  if n =? 34 then Some dquote
  else if n =? 92 then Some backslash
  else if n =? 47 then Some "/"%char
  else if n =? 98 then Some (ascii_of_N 8)
  else if n =? 102 then Some (ascii_of_N 12)
  else if n =? 110 then Some (ascii_of_N 10)
  else if n =? 114 then Some (ascii_of_N 13)
  else if n =? 116 then Some (ascii_of_N 9)
  else None.

(** Prepend decoded characters to a scan. *)
Definition push (x : text) (m : option (text * text)) : option (text * text) :=
  match m with Some (r, rest) => Some (x ++ r, rest) | None => None end.

(** The code point of a surrogate pair. *)
Definition join_surrogates (u u2 : Z) : Z :=
  65536 + Z.lor (Z.shiftl (u - 55296) 10) (u2 - 56320).

(** The body of a string literal after its opening quote; control characters
    are refused (strict mode) and a surrogate pair of escapes is one code
    point.  Returns the decoded characters and the rest of the document. *)
Fixpoint scan_string (t : text) : option (text * text) :=
  match t with
  | [] => None
  | c :: t1 =>
      if char_code c =? 34 then Some ([], t1)
      else if char_code c =? 92 then
        match t1 with
        | [] => None
        | e :: t2 =>
            if char_code e =? 117 then
              match t2 with
              | h1 :: h2 :: h3 :: h4 :: t3 =>
                  match hex4 h1 h2 h3 h4 with
                  | None => None
                  | Some u =>
                      match t3 with
                      | b :: w :: g1 :: g2 :: g3 :: g4 :: t4 =>
                          if is_high u && (char_code b =? 92) && (char_code w =? 117) then
                            match hex4 g1 g2 g3 g4 with
                            | None => None
                            | Some u2 =>
                                if is_low u2
                                then push (utf8_encode (join_surrogates u u2)) (scan_string t4)
                                else push (utf8_encode u) (scan_string t3)
                            end
                          else push (utf8_encode u) (scan_string t3)
                      | _ => push (utf8_encode u) (scan_string t3)
                      end
                  end
              | _ => None
              end
            else
              match simple_escape e with
              | None => None
              | Some x => push [x] (scan_string t2)
              end
        end
      else if char_code c <? 32 then None
      else push [c] (scan_string t1)
  end.

Fixpoint span_digits (t : text) : text * text :=
  match t with
  | c :: t' => if is_digit c then let '(d, r) := span_digits t' in (c :: d, r) else ([], t)
  | [] => ([], [])
  end.

(** The integer part, without its sign: a zero, or digits not starting with one. *)
Definition scan_int_part (t : text) : option (text * text) :=
  match t with
  | [] => None
  | c :: t' =>
      if decide (c = "0"%char) then Some ([c], t')
      else if is_digit c then Some (span_digits t) else None
  end.

(** An optional fraction: a point and at least one digit. *)
Definition scan_frac (t : text) : option (text * text) :=
  match t with
  | c :: t' =>
      if decide (c = "."%char) then
        match span_digits t' with
        | ([], _) => None
        | (ds, r) => Some (ds, r)
        end
      else None
  | [] => None
  end.

(** An optional exponent, as a signed value. *)
Definition scan_exp (t : text) : option (Z * text) :=
  match t with
  | c :: t' =>
      if bool_decide (c = "e"%char) || bool_decide (c = "E"%char) then
        let '(neg, t2) := match eat "-" t' with
                          | Some t2 => (true, t2)
                          | None => (false, default t' (eat "+" t'))
                          end in
        match span_digits t2 with
        | ([], _) => None
        | (ds, r) => Some ((if neg : bool then - dec_value ds else dec_value ds), r)
        end
      else None
  | [] => None
  end.

(** A number without its sign. *)
Definition scan_unsigned (neg : bool) (t : text) : result json_error (json * text) :=
  match scan_int_part t with
  | None => Err JSONDecodeError
  | Some (ip, r1) =>
      let '(fp, r2) := match scan_frac r1 with Some (ds, r) => (Some ds, r) | None => (None, r1) end in
      let '(ex, r3) := match scan_exp r2 with Some (e, r) => (Some e, r) | None => (None, r2) end in
      match fp, ex with
      | None, None =>
          if Z.of_nat (List.length ip) <=? int_max_str_digits then
            Ok (JInt (if neg then - dec_value ip else dec_value ip), r3)
          else Err JsonIntTooLong
      | _, _ =>
          let fd := default [] fp in
          Ok (JFloat (float_of_decimal neg (dec_value (ip ++ fd))
                        (default 0 ex - Z.of_nat (List.length fd))), r3)
      end
  end.

Definition scan_number (t : text) : result json_error (json * text) :=
  match t with
  | c :: t' => if decide (c = "-"%char) then scan_unsigned true t' else scan_unsigned false t
  | [] => Err JSONDecodeError
  end.

Definition const_value (c : string) : json :=
  JFloat (if decide (c = "NaN") then S754_nan
          else S754_infinity (bool_decide (c = "-Infinity"))).

(** The document's constants that are not JSON, in the order they are tried. *)
Definition scan_constant (reject : bool) (t : text) : option (result json_error (json * text)) :=
  let out c rest := if reject then Err (JsonConstant c) else Ok (const_value c, rest) in
  match strip_prefix (chars "NaN") t with
  | Some r => Some (out "NaN" r)
  | None =>
      match strip_prefix (chars "Infinity") t with
      | Some r => Some (out "Infinity" r)
      | None =>
          match strip_prefix (chars "-Infinity") t with
          | Some r => Some (out "-Infinity" r)
          | None => None
          end
      end
  end.

Definition scan_literal (t : text) : option (json * text) :=
  match strip_prefix (chars "null") t with
  | Some r => Some (JNull, r)
  | None =>
      match strip_prefix (chars "true") t with
      | Some r => Some (JBool true, r)
      | None =>
          match strip_prefix (chars "false") t with
          | Some r => Some (JBool false, r)
          | None => None
          end
      end
  end.

(** The value at the start of a document.  Each character consumed pays for
    two units of fuel: one for the value, one for the list or dict it opens. *)
Fixpoint parse_value (reject : bool) (fuel : nat) (t : text) : result json_error (json * text) :=
  match fuel with
  | O => Err JsonOutOfFuel
  | S f =>
      match t with
      | [] => Err JSONDecodeError
      | c :: t' =>
          if char_code c =? 34 then
            match scan_string t' with
            | Some (s, r) => Ok (JStr (str s), r)
            | None => Err JSONDecodeError
            end
          else if decide (c = "{"%char) then
            match eat "}" (skip_ws t') with
            | Some r => Ok (JObj [], r)
            | None => '(ms, r) ← parse_members reject f (skip_ws t');
                      Ok (JObj (dict_of_pairs ms), r)
            end
          else if decide (c = "["%char) then
            match eat "]" (skip_ws t') with
            | Some r => Ok (JList [], r)
            | None => '(es, r) ← parse_elements reject f (skip_ws t'); Ok (JList es, r)
            end
          else
            match scan_literal t with
            | Some vr => Ok vr
            | None =>
                match scan_constant reject t with
                | Some res => res
                | None => scan_number t
                end
            end
      end
  end
with parse_members (reject : bool) (fuel : nat) (t : text)
  : result json_error (list (string * json) * text) :=
  match fuel with
  | O => Err JsonOutOfFuel
  | S f =>
      match t with
      | [] => Err JSONDecodeError
      | c :: t1 =>
          if char_code c =? 34 then
            match scan_string t1 with
            | None => Err JSONDecodeError
            | Some (k, t2) =>
                match eat ":" (skip_ws t2) with
                | None => Err JSONDecodeError
                | Some t3 =>
                    '(v, t4) ← parse_value reject f (skip_ws t3);
                    match eat "}" (skip_ws t4) with
                    | Some r => Ok ([(str k, v)], r)
                    | None =>
                        match eat "," (skip_ws t4) with
                        | None => Err JSONDecodeError
                        | Some t5 =>
                            '(ms, r) ← parse_members reject f (skip_ws t5);
                            Ok ((str k, v) :: ms, r)
                        end
                    end
                end
            end
          else Err JSONDecodeError
      end
  end
with parse_elements (reject : bool) (fuel : nat) (t : text)
  : result json_error (list json * text) :=
  match fuel with
  | O => Err JsonOutOfFuel
  | S f =>
      '(v, t1) ← parse_value reject f t;
      match eat "]" (skip_ws t1) with
      | Some r => Ok ([v], r)
      | None =>
          match eat "," (skip_ws t1) with
          | None => Err JSONDecodeError
          | Some t2 =>
              '(es, r) ← parse_elements reject f (skip_ws t2);
              Ok (v :: es, r)
          end
      end
  end.

(** [json.loads(text, parse_constant=...)]; [reject] says that the
    [parse_constant] callback raises. *)
Definition json_loads (reject : bool) (t : text) : result json_error json :=
  let t0 := skip_ws t in
  '(v, r) ← parse_value reject (S (2 * List.length t0)) t0;
  match skip_ws r with
  | [] => Ok v
  | _ => Err JSONDecodeError
  end.
