(* ===== verification/JsonFacts.v ===== *)
(** Facts about the JSON model: printing followed by parsing is the identity,
    and the parser's fuel is enough for every document. *)
From Stdlib Require Import ZArith Lia Ascii String SpecFloat.
From stdpp Require Import base list strings gmap.
From S2P Require Import Prelude PyFloat Json.
Local Open Scope Z_scope.

(** ** Characters *)

Lemma char_code_range c : 0 <= char_code c < 256.
Proof. unfold char_code. pose proof (N_ascii_bounded c). lia. Qed.

Lemma char_code_inj c d : char_code c = char_code d -> c = d.
Proof.
  unfold char_code. intros H%N2Z.inj.
  by rewrite <-(ascii_N_embedding c), <-(ascii_N_embedding d), H.
Qed.

Lemma str_chars s : str (chars s) = s.
Proof. apply string_of_list_ascii_of_string. Qed.

Lemma chars_str t : chars (str t) = t.
Proof. apply list_ascii_of_string_of_list_ascii. Qed.

Lemma char_code_byte z : 0 <= z < 256 -> char_code (ascii_of_N (Z.to_N z)) = z.
Proof. intros. unfold char_code. rewrite N_ascii_embedding; lia. Qed.

Lemma digit_char_code d : 0 <= d < 10 -> char_code (digit_char d) = 48 + d.
Proof. intros. unfold digit_char. apply char_code_byte. lia. Qed.

Lemma digit_char_is_digit d : 0 <= d < 10 -> is_digit (digit_char d) = true.
Proof. intros. unfold is_digit. rewrite digit_char_code by lia. lia. Qed.

Lemma digit_char_val d : 0 <= d < 10 -> digit_val (digit_char d) = d.
Proof. intros. unfold digit_val. rewrite digit_char_code by lia. lia. Qed.

(** ** Decimal text of integers *)

Definition all_digits (t : text) : Prop := Forall (fun c => is_digit c = true) t.

Lemma fold_dec_acc t a :
  fold_left (fun acc c => acc * 10 + digit_val c) t a
  = a * 10 ^ Z.of_nat (List.length t) + dec_value t.
Proof.
  unfold dec_value. revert a. induction t as [|c t IH]; intros a; simpl fold_left.
  - simpl. lia.
  - rewrite IH, (IH (0 * 10 + _)). simpl List.length.
    rewrite Nat2Z.inj_succ, Z.pow_succ_r by lia. ring.
Qed.

Lemma dec_value_cons c t :
  dec_value (c :: t) = digit_val c * 10 ^ Z.of_nat (List.length t) + dec_value t.
Proof. unfold dec_value at 1. simpl fold_left. rewrite fold_dec_acc. ring. Qed.

Lemma dec_aux_spec fuel n acc :
  0 <= n < 10 ^ Z.of_nat fuel -> all_digits acc ->
  exists t, dec_aux fuel n acc = t ++ acc /\ all_digits t /\ dec_value t = n
            /\ (fuel <> 0%nat -> t <> []) /\ (n <> 0 -> head t <> Some (digit_char 0)).
Proof.
  revert n acc. induction fuel as [|f IH]; intros n acc Hn Hacc; simpl.
  - exists []. repeat split; try done; try constructor.
    + change (10 ^ Z.of_nat 0) with 1 in Hn. unfold dec_value; simpl; lia.
  - rewrite Nat2Z.inj_succ, Z.pow_succ_r in Hn by lia.
    destruct (Z.ltb_spec n 10) as [Hlt|Hge].
    + exists [digit_char n]. split; [done|]. repeat split.
      * constructor; [apply digit_char_is_digit; lia | constructor].
      * rewrite dec_value_cons, digit_char_val by lia. unfold dec_value; simpl; lia.
      * done.
      * intros Hnz [= Heq]. apply (f_equal digit_val) in Heq.
        rewrite !digit_char_val in Heq by lia. lia.
    + pose proof (Z.mod_pos_bound n 10 ltac:(lia)) as Hm.
      pose proof (Z.div_mod n 10 ltac:(lia)) as Hdm.
      destruct (IH (n / 10) (digit_char (n mod 10) :: acc)) as (t & Ht & Hd & Hv & _ & Hh).
      * split; [apply Z.div_pos; lia | apply Z.div_lt_upper_bound; lia].
      * constructor; [by apply digit_char_is_digit | done].
      * exists (t ++ [digit_char (n mod 10)]). rewrite Ht, <-app_assoc.
        split; [done|]. repeat split.
        -- apply Forall_app_2; [done|]. constructor; [by apply digit_char_is_digit|constructor].
        -- unfold dec_value in *. rewrite fold_left_app, Hv. simpl.
           rewrite digit_char_val by lia. lia.
        -- by destruct t.
        -- intros _. assert (n / 10 <> 0) as Hq.
           { pose proof (Z.div_le_lower_bound n 10 1). lia. }
           specialize (Hh Hq). destruct t as [|c t]; [|done].
           unfold dec_value in Hv; simpl in Hv. lia.
Qed.

Lemma dec_nonneg_spec n : 0 <= n ->
  all_digits (dec_nonneg n) /\ dec_value (dec_nonneg n) = n /\ dec_nonneg n <> []
  /\ (n <> 0 -> head (dec_nonneg n) <> Some (digit_char 0)).
Proof.
  intros Hn. unfold dec_nonneg.
  destruct (dec_aux_spec (S (Z.to_nat (Z.log2 n))) n []) as (t & Ht & ? & ? & ? & ?).
  - split; [done|]. rewrite Nat2Z.inj_succ, Z2Nat.id by apply Z.log2_nonneg.
    destruct (decide (n = 0)) as [->|]; [done|].
    eapply Z.lt_le_trans; [apply Z.log2_spec; lia|].
    apply Z.pow_le_mono_l. lia.
  - constructor.
  - rewrite Ht, app_nil_r. auto.
Qed.

Lemma dec_nonneg_0 : dec_nonneg 0 = ["0"%char].
Proof. reflexivity. Qed.

(** ** Strings *)

Lemma scan_string_long h1 h2 h3 h4 u rest :
  hex4 h1 h2 h3 h4 = Some u -> is_high u = false ->
  scan_string (backslash :: "u"%char :: h1 :: h2 :: h3 :: h4 :: rest)
  = push (utf8_encode u) (scan_string rest).
Proof.
  intros Hu Hh.
  change (scan_string (backslash :: "u"%char :: h1 :: h2 :: h3 :: h4 :: rest)) with
    (match hex4 h1 h2 h3 h4 with
     | None => None
     | Some u => match rest with
       | b :: w :: g1 :: g2 :: g3 :: g4 :: t4 =>
           if is_high u && (char_code b =? 92) && (char_code w =? 117) then
             match hex4 g1 g2 g3 g4 with
             | None => None
             | Some u2 => if is_low u2
                 then push (utf8_encode (join_surrogates u u2)) (scan_string t4)
                 else push (utf8_encode u) (scan_string rest)
             end
           else push (utf8_encode u) (scan_string rest)
       | _ => push (utf8_encode u) (scan_string rest)
       end
     end).
  rewrite Hu, Hh. simpl andb. cbv iota.
  do 6 (destruct rest as [|? rest]; [reflexivity|]). reflexivity.
Qed.

Lemma scan_string_plain c rest :
  char_code c <> 34 -> char_code c <> 92 -> 32 <= char_code c ->
  scan_string (c :: rest) = push [c] (scan_string rest).
Proof.
  intros H1 H2 H3. simpl.
  rewrite (proj2 (Z.eqb_neq _ _) H1), (proj2 (Z.eqb_neq _ _) H2), (proj2 (Z.ltb_ge _ _) H3).
  done.
Qed.

Lemma control_hex_ok :
  forallb (fun n => let z := Z.of_nat n in
             bool_decide (hex4 "0" "0" (hex_digit (z / 16)) (hex_digit (z mod 16)) = Some z)
             && negb (is_high z)
             && bool_decide (utf8_encode z = [ascii_of_N (Z.to_N z)]))
          (seq 0 32) = true.
Proof. vm_compute. reflexivity. Qed.

Lemma control_hex z : 0 <= z < 32 ->
  hex4 "0" "0" (hex_digit (z / 16)) (hex_digit (z mod 16)) = Some z
  /\ is_high z = false /\ utf8_encode z = [ascii_of_N (Z.to_N z)].
Proof.
  intros Hz. pose proof control_hex_ok as H. rewrite forallb_forall in H.
  specialize (H (Z.to_nat z)). cbv zeta in H. rewrite Z2Nat.id in H by lia.
  assert (In (Z.to_nat z) (seq 0 32)) as Hin by (apply in_seq; lia).
  apply H in Hin. split_bools. by rewrite !bool_decide_eq_true in *.
Qed.

Lemma scan_string_escape c rest :
  scan_string (escape_char c ++ rest) = push [c] (scan_string rest).
Proof.
  pose proof (char_code_range c) as Hr. unfold escape_char. cbv zeta.
  repeat match goal with
  | |- context [char_code c =? ?n] =>
      destruct (Z.eqb_spec (char_code c) n) as [Hc|?];
      [apply (char_code_inj c (ascii_of_N (Z.to_N n))) in Hc; subst c; reflexivity|]
  end.
  destruct (Z.ltb_spec (char_code c) 32).
  - destruct (control_hex (char_code c)) as (H1 & H2 & H3); [lia|].
    cbn [app]. rewrite (scan_string_long _ _ _ _ _ _ H1 H2), H3.
    replace (ascii_of_N (Z.to_N (char_code c))) with c; [done|].
    unfold char_code. by rewrite N2Z.id, ascii_N_embedding.
  - cbn [app]. by apply scan_string_plain.
Qed.

Lemma scan_string_escapes t rest :
  scan_string ((t ≫= escape_char) ++ dquote :: rest) = Some (t, rest).
Proof.
  induction t as [|c t IH]; [reflexivity|].
  simpl mbind. unfold mbind in *. simpl list_bind.
  rewrite <-app_assoc, scan_string_escape, IH. done.
Qed.

Lemma escape_char_nonempty c : (0 < List.length (escape_char c))%nat.
Proof. by destruct c as [[] [] [] [] [] [] [] []]; compute; lia. Qed.

(** ** Numbers *)

(** What can follow a value in a printed document. *)
Definition delim (rest : text) : Prop :=
  match rest with
  | [] => True
  | c :: _ => c = ","%char \/ c = "}"%char \/ c = "]"%char \/ c = ascii_of_N 10
  end.

Ltac destruct_delim rest H :=
  destruct rest as [|? ?]; [|destruct H as [->|[->|[->| ->]]]].

Lemma span_digits_delim rest : delim rest -> span_digits rest = ([], rest).
Proof. intros H. destruct_delim rest H; reflexivity. Qed.

Lemma span_digits_app t rest :
  delim rest -> span_digits (t ++ rest) = ((span_digits t).1, (span_digits t).2 ++ rest).
Proof.
  intros H. induction t as [|c t IH]; simpl; [by rewrite span_digits_delim|].
  destruct (is_digit c); [|done]. rewrite IH. by destruct (span_digits t).
Qed.

Lemma span_digits_all t : all_digits t -> span_digits t = (t, []).
Proof. induction 1 as [|c t Hc _ IH]; simpl; [done|]. by rewrite Hc, IH. Qed.

Lemma eat_app c t rest : delim rest -> c <> ","%char -> c <> "}"%char -> c <> "]"%char ->
  c <> ascii_of_N 10 -> eat c (t ++ rest) = (fun r => r ++ rest) <$> eat c t.
Proof.
  intros H ????. destruct t as [|d t]; unfold eat; simpl.
  - destruct_delim rest H; simpl; [done|..]; by rewrite decide_False.
  - by destruct (decide (c = d)).
Qed.

Lemma scan_int_part_app t rest : delim rest ->
  scan_int_part (t ++ rest) = prod_map id (fun r => r ++ rest) <$> scan_int_part t.
Proof.
  intros H. destruct t as [|c t]; [by destruct_delim rest H|].
  cbn [app scan_int_part]. destruct (decide (c = "0"%char)); [done|].
  destruct (is_digit c) eqn:Hd; [|done].
  change (c :: t ++ rest) with ((c :: t) ++ rest). rewrite span_digits_app by done.
  cbn [fmap option_fmap option_map]. by destruct (span_digits (c :: t)).
Qed.

Lemma scan_frac_app t rest : delim rest ->
  scan_frac (t ++ rest) = prod_map id (fun r => r ++ rest) <$> scan_frac t.
Proof.
  intros H. destruct t as [|c t]; [by destruct_delim rest H|]. simpl.
  destruct (decide (c = "."%char)); [|done]. rewrite span_digits_app by done.
  by destruct (span_digits t) as [[] ?].
Qed.

Lemma scan_exp_app t rest : delim rest ->
  scan_exp (t ++ rest) = prod_map id (fun r => r ++ rest) <$> scan_exp t.
Proof.
  intros H. destruct t as [|c t]; [by destruct_delim rest H|]. simpl.
  destruct (_ || _); [|done]. rewrite !eat_app by done.
  destruct (eat "-" t) as [t2|]; simpl.
  - rewrite span_digits_app by done. by destruct (span_digits t2) as [[] ?].
  - destruct (eat "+" t) as [t2|]; simpl; rewrite span_digits_app by done;
      [by destruct (span_digits t2) as [[] ?]|by destruct (span_digits t) as [[] ?]].
Qed.

Definition extend {A} (rest : text) (m : result json_error (A * text)) :=
  '(v, r) ← m; Ok (v, r ++ rest).

Lemma scan_unsigned_app neg t rest : delim rest ->
  scan_unsigned neg (t ++ rest) = extend rest (scan_unsigned neg t).
Proof.
  intros H. unfold scan_unsigned, extend. rewrite scan_int_part_app by done.
  destruct (scan_int_part t) as [[ip r1]|]; simpl; [|done].
  rewrite scan_frac_app by done.
  destruct (scan_frac r1) as [[fp r2]|]; simpl; rewrite scan_exp_app by done.
  - by destruct (scan_exp r2) as [[ex r3]|].
  - destruct (scan_exp r1) as [[ex r3]|]; simpl; [done|]. by destruct (_ <=? _).
Qed.

Lemma scan_number_app t rest v r : delim rest ->
  scan_number t = Ok (v, r) -> scan_number (t ++ rest) = Ok (v, r ++ rest).
Proof.
  intros H Ht. destruct t as [|c t]; [done|]. simpl in *.
  destruct (decide (c = "-"%char)).
  - by rewrite scan_unsigned_app, Ht.
  - change (c :: t ++ rest) with ((c :: t) ++ rest). by rewrite scan_unsigned_app, Ht.
Qed.

Lemma scan_int_part_dec n : 0 <= n -> scan_int_part (dec_nonneg n) = Some (dec_nonneg n, []).
Proof.
  intros Hn. destruct (dec_nonneg_spec n Hn) as (Hd & Hv & Hne & Hh).
  destruct (decide (n = 0)) as [->|Hnz]; [by rewrite dec_nonneg_0|].
  specialize (Hh Hnz). destruct (dec_nonneg n) as [|c t] eqn:E; [done|].
  cbn [scan_int_part]. rewrite decide_False by (by intros ->).
  rewrite (Forall_inv Hd). f_equal. by apply span_digits_all.
Qed.

Lemma scan_unsigned_dec neg n : 0 <= n -> int_printable n = true ->
  scan_unsigned neg (dec_nonneg n) = Ok (JInt (if neg then - n else n), []).
Proof.
  intros Hn Hp. unfold scan_unsigned. rewrite scan_int_part_dec by done. simpl.
  unfold int_printable in Hp. rewrite Z.abs_eq in Hp by done. rewrite Hp.
  by rewrite (proj1 (proj2 (dec_nonneg_spec n Hn))).
Qed.

Lemma scan_number_int z : int_printable z = true ->
  scan_number (int_text z) = Ok (JInt z, []).
Proof.
  intros Hp. unfold int_text. destruct (Z.ltb_spec z 0).
  - simpl. rewrite scan_unsigned_dec; [by rewrite Z.opp_involutive|lia|].
    unfold int_printable in *. by rewrite Z.abs_opp.
  - rewrite <-(scan_unsigned_dec false z) by done.
    destruct (dec_nonneg_spec z) as (Hd & _ & Hne & _); [done|].
    destruct (dec_nonneg z) as [|c t]; [done|]. simpl.
    rewrite decide_False; [done|]. intros ->. apply Forall_inv in Hd. done.
Qed.

(** The first character of a number. *)
Lemma scan_number_head t r : scan_number t = Ok r ->
  exists c t', t = c :: t' /\ (is_digit c = true \/
    (c = "-"%char /\ exists d t2, t' = d :: t2 /\ is_digit d = true)).
Proof.
  assert (forall neg t r, scan_unsigned neg t = Ok r ->
            exists c t', t = c :: t' /\ is_digit c = true) as Hu.
  { intros neg t' r'. unfold scan_unsigned.
    destruct t' as [|c t']; simpl; [done|]. intros Hs. exists c, t'. split; [done|].
    destruct (decide (c = "0"%char)) as [->|]; [done|]. by destruct (is_digit c). }
  destruct t as [|c t]; simpl; [done|]. destruct (decide (c = "-"%char)) as [->|]; intros H.
  - apply Hu in H as (d & t2 & -> & ?). eexists _, _. split; [done|]. right. eauto.
  - apply Hu in H as (d & t2 & [= -> ->] & ?). eauto.
Qed.

Lemma digit_neq c d : is_digit c = true -> is_digit d = false -> c <> d.
Proof. congruence. Qed.

Lemma parse_value_number reject f t r : scan_number t = Ok r ->
  parse_value reject (S f) t = Ok r.
Proof.
  intros Hn. destruct (scan_number_head _ _ Hn) as (c & t' & -> & Hc).
  assert (forall d, is_digit d = false -> d <> "-"%char -> c <> d) as Hne.
  { intros d Hd Hm. destruct Hc as [Hc|[-> _]]; [by apply digit_neq|done]. }
  assert ((char_code c =? 34) = false) as Hq.
  { apply Z.eqb_neq. intros Heq. by apply (Hne dquote), char_code_inj. }
  assert (scan_literal (c :: t') = None) as Hl.
  { unfold scan_literal; simpl.
    rewrite !(decide_False (P := _ = c)); [done|..]; symmetry; by apply Hne. }
  assert (scan_constant reject (c :: t') = None) as Hk.
  { unfold scan_constant; simpl.
    rewrite !(decide_False (P := _ = c)) by (symmetry; by apply Hne).
    destruct (decide ("-"%char = c)) as [<-|]; [|done].
    destruct Hc as [?|(_ & d & t2 & -> & Hd)]; [done|].
    rewrite decide_False; [done|]. symmetry. by apply digit_neq. }
  simpl. by rewrite Hq, !decide_False, Hl, Hk by (by apply Hne).
Qed.

(** ** Documents *)

(** A float whose text reads back to it. *)
Definition float_reads_back (f : pyfloat) : bool :=
  match scan_number (float_text f) with
  | Ok (JFloat g, []) => bool_decide (g = f)
  | _ => false
  end.

(** The values that survive printing and parsing: finite floats, ints of at
    most 4300 digits, dicts (distinct keys). *)
Fixpoint json_wf (v : json) : bool :=
  match v with
  | JInt z => int_printable z
  | JFloat f => float_reads_back f
  | JList l => forallb json_wf l
  | JObj d => bool_decide (NoDup d.*1) && forallb (fun kv => json_wf kv.2) d
  | _ => true
  end.

Lemma dict_set_new d k v : k ∉ d.*1 -> dict_set d k v = d ++ [(k, v)].
Proof.
  induction d as [|[k' v'] d IH]; simpl; [done|].
  rewrite not_elem_of_cons. intros [? ?]. rewrite decide_False by done. by rewrite IH.
Qed.

Lemma dict_of_pairs_nodup d : NoDup d.*1 -> dict_of_pairs d = d.
Proof.
  unfold dict_of_pairs.
  enough (forall acc, NoDup (acc ++ d).*1 ->
            fold_left (fun d kv => dict_set d kv.1 kv.2) d acc = acc ++ d) as H
    by (intros; by apply (H [])).
  induction d as [|[k v] d IH]; intros acc Hnd; simpl; [by rewrite app_nil_r|].
  rewrite dict_set_new.
  - rewrite IH; [by rewrite <-app_assoc|]. by rewrite <-app_assoc.
  - rewrite fmap_app in Hnd. apply NoDup_app in Hnd as (_ & Hn & _).
    intros Hin. apply (Hn _ Hin). simpl. by left.
Qed.

(** A value's text starts with a character that is no space and no
    delimiter. *)
Definition value_start (t : text) : Prop :=
  exists c t', t = c :: t' /\ is_ws c = false
    /\ c <> "]"%char /\ c <> "}"%char /\ c <> ","%char.

Lemma number_start t r : scan_number t = Ok r -> value_start t.
Proof.
  intros (c & t' & -> & Hc)%scan_number_head. exists c, t'. split; [done|].
  destruct Hc as [Hc|[-> _]]; [|done].
  split; [|by repeat split; apply digit_neq].
  unfold is_ws, is_digit in *. split_bools. lia.
Qed.

Lemma dumps_start v : json_wf v = true -> value_start (dumps_text v).
Proof.
  destruct v as [|[]|z|f|s|l|d]; simpl; intros Hwf;
    try (eexists _, _; split; [reflexivity|by repeat split]).
  - by eapply number_start, scan_number_int.
  - unfold float_reads_back in Hwf. destruct (scan_number _) eqn:E; [|done].
    by eapply number_start.
Qed.

Lemma skip_ws_start t rest : value_start t -> skip_ws (t ++ rest) = t ++ rest.
Proof. intros (c & t' & -> & Hw & _). simpl. by rewrite Hw. Qed.

Lemma eat_start_app c t rest : value_start t ->
  c = "]"%char \/ c = "}"%char \/ c = ","%char -> eat c (t ++ rest) = None.
Proof.
  intros (d & t' & -> & _ & ? & ? & ?) Hc. unfold eat; simpl.
  rewrite decide_False; [done|]. destruct Hc as [->|[->| ->]]; by apply not_eq_sym.
Qed.

Lemma quote_app k rest : quote k ++ rest = dquote :: (chars k ≫= escape_char) ++ dquote :: rest.
Proof. unfold quote. simpl. by rewrite <-app_assoc. Qed.

(** The parser undoes the printer in front of any delimiter. *)
Definition reads_back (reject : bool) (v : json) : Prop :=
  forall fuel rest, delim rest -> (List.length (dumps_text v) < fuel)%nat ->
    parse_value reject fuel (dumps_text v ++ rest) = Ok (v, rest).

Lemma parse_elements_dumps reject l rest :
  l <> [] -> Forall (fun v => json_wf v = true /\ reads_back reject v) l ->
  forall fuel, (S (List.length (intersperse [","%char] (map dumps_text l))) < fuel)%nat ->
  parse_elements reject fuel (intersperse [","%char] (map dumps_text l) ++ "]"%char :: rest)
  = Ok (l, rest).
Proof.
  intros Hne Hall. induction Hall as [|v l [Hwf Hv] Hall IH]; [done|].
  intros [|f] Hf; [lia|]. destruct l as [|w l].
  - simpl in *. rewrite Hv by (simpl; auto; lia). simpl. done.
  - change (intersperse [","%char] (map dumps_text (v :: w :: l))) with
      (dumps_text v ++ [","%char] ++ intersperse [","%char] (map dumps_text (w :: l))) in *.
    rewrite !length_app in Hf. change (List.length [","%char]) with 1%nat in Hf.
    rewrite <-!app_assoc. simpl app. cbn [parse_elements].
    rewrite Hv by (simpl; auto; lia). cbn [mbind result_bind skip_ws is_ws]. simpl.
    rewrite skip_ws_start.
    + unfold mbind in IH. rewrite IH; [done|done|lia].
    + apply Forall_inv in Hall as [Hw _]. apply dumps_start in Hw as (c & t' & Heq & ?).
      destruct l; simpl; rewrite Heq; eexists _, _; split; try done.
Qed.

Definition member_text (kv : string * json) : text := quote kv.1 ++ ":"%char :: dumps_text kv.2.

Lemma parse_members_dumps reject d rest :
  d <> [] -> Forall (fun kv => json_wf kv.2 = true /\ reads_back reject kv.2) d ->
  forall fuel, (S (List.length (intersperse [","%char] (map member_text d))) < fuel)%nat ->
  parse_members reject fuel (intersperse [","%char] (map member_text d) ++ "}"%char :: rest)
  = Ok (d, rest).
Proof.
  intros Hne Hall. induction Hall as [|[k v] d [Hwf Hv] Hall IH]; [done|].
  simpl in Hwf, Hv. intros [|f] Hf; [lia|].
  assert (forall tail, parse_members reject (S f) (member_text (k, v) ++ tail)
     = '(v, t4) ← parse_value reject f (dumps_text v ++ tail);
       match eat "}" (skip_ws t4) with
       | Some r => Ok ([(k, v)], r)
       | None => match eat "," (skip_ws t4) with
                 | None => Err JSONDecodeError
                 | Some t5 => '(ms, r) ← parse_members reject f (skip_ws t5);
                              Ok ((k, v) :: ms, r)
                 end
       end) as Hstep.
  { intros tail. unfold member_text. simpl fst. simpl snd.
    rewrite <-app_assoc, quote_app. cbn [parse_members].
    change (char_code dquote =? 34) with true. cbv iota.
    rewrite scan_string_escapes, str_chars. cbn [app].
    change (eat ":" (skip_ws (":"%char :: dumps_text v ++ tail))) with (Some (dumps_text v ++ tail)).
    cbv iota. rewrite skip_ws_start by by apply dumps_start. done. }
  assert (List.length (member_text (k, v))
          = (List.length (quote k) + S (List.length (dumps_text v)))%nat) as Hlen
    by (unfold member_text; rewrite length_app; done).
  destruct d as [|w d].
  - simpl intersperse in *. rewrite Hstep, Hv by (simpl; auto; lia). done.
  - change (intersperse [","%char] (map member_text ((k, v) :: w :: d))) with
      (member_text (k, v) ++ [","%char] ++ intersperse [","%char] (map member_text (w :: d))) in *.
    rewrite !length_app in Hf. change (List.length [","%char]) with 1%nat in Hf.
    rewrite <-!app_assoc, Hstep. simpl app. rewrite Hv by (simpl; auto; lia).
    cbn [mbind result_bind].
    match goal with |- context [eat "," (skip_ws (_ :: ?x))] =>
      change (eat "}" (skip_ws (","%char :: x))) with (@None text);
      change (eat "," (skip_ws (","%char :: x))) with (Some x) end.
    cbv iota. rewrite skip_ws_start.
    + rewrite IH; [done|done|lia].
    + exists dquote. destruct d as [|u d]; eexists; (split; [reflexivity|by repeat split]).
Qed.

Lemma reads_back_wf reject v : json_wf v = true -> reads_back reject v.
Proof.
  induction v as [|b|z|f|s|l IH|d IH] using json_ind'; intros Hwf [|fuel] rest Hr Hf;
    try (simpl in Hf; lia).
  - reflexivity.
  - by destruct b.
  - apply parse_value_number. change rest with ([] ++ rest) at 2.
    apply scan_number_app; [done|]. by apply scan_number_int.
  - apply parse_value_number. change rest with ([] ++ rest) at 2.
    apply scan_number_app; [done|]. simpl in *. unfold float_reads_back in Hwf.
    destruct (scan_number _) as [[[] []]|]; try done. by case_bool_decide; subst.
  - simpl dumps_text. rewrite quote_app. cbn [parse_value].
    change (char_code dquote =? 34) with true. cbv iota.
    by rewrite scan_string_escapes, str_chars.
  - simpl in Hwf. rewrite forallb_forall in Hwf.
    assert (Forall (fun v => json_wf v = true /\ reads_back reject v) l) as Hall.
    { rewrite Forall_forall in IH |- *. intros x Hx%list_elem_of_In.
      split; [auto|]. apply IH; [by apply list_elem_of_In|auto]. }
    simpl dumps_text in *. rewrite length_cons, length_app in Hf. simpl in Hf.
    destruct l as [|x l]; [done|].
    assert (value_start (intersperse [","%char] (map dumps_text (x :: l)))) as Hs.
    { apply Forall_inv in Hall as [Hx _]. apply dumps_start in Hx as (c & t' & Heq & ?).
      destruct l; simpl; rewrite Heq; eexists _, _; split; try done. }
    cbn [app]. rewrite <-app_assoc. cbn [app parse_value].
    change (char_code "["%char =? 34) with false. cbv iota.
    rewrite decide_False, decide_True by done.
    rewrite skip_ws_start, eat_start_app by auto.
    rewrite parse_elements_dumps; [done|done|done|lia].
  - simpl in Hwf. split_bools. rewrite bool_decide_eq_true in *.
    match goal with H : forallb _ _ = true |- _ => rewrite forallb_forall in H; rename H into Hm end.
    assert (Forall (fun kv => json_wf kv.2 = true /\ reads_back reject kv.2) d) as Hall.
    { rewrite Forall_forall in IH |- *. intros x Hx%list_elem_of_In.
      split; [auto|]. apply IH; [by apply list_elem_of_In|auto]. }
    change (dumps_text (JObj d)) with
      ("{"%char :: intersperse [","%char] (map member_text d) ++ ["}"%char]) in *.
    rewrite length_cons, length_app in Hf. simpl in Hf.
    destruct d as [|[k x] d]; [done|].
    assert (value_start (intersperse [","%char] (map member_text ((k, x) :: d)))) as Hs.
    { exists dquote. destruct d; eexists; (split; [reflexivity|by repeat split]). }
    cbn [app]. rewrite <-app_assoc. cbn [app parse_value].
    change (char_code "{"%char =? 34) with false. cbv iota.
    rewrite decide_True by done.
    rewrite skip_ws_start, eat_start_app by auto.
    rewrite parse_members_dumps; [|done|done|lia].
    cbn [mbind result_bind]. by rewrite dict_of_pairs_nodup.
Qed.

Lemma json_loads_dumps reject v : json_wf v = true ->
  json_loads reject (dumps_text v) = Ok v.
Proof.
  intros Hwf. unfold json_loads.
  assert (skip_ws (dumps_text v) = dumps_text v) as ->.
  { rewrite <-(app_nil_r (dumps_text v)). apply skip_ws_start. by apply dumps_start. }
  pose proof (reads_back_wf reject v Hwf (S (2 * List.length (dumps_text v))) []) as H.
  rewrite app_nil_r in H. rewrite H; [done|done|lia].
Qed.

(** ** Termination: the fuel of [json_loads] is enough for every document *)

Lemma skip_ws_length t : (List.length (skip_ws t) <= List.length t)%nat.
Proof. induction t as [|c t IH]; simpl; [lia|]. destruct (is_ws c); simpl; lia. Qed.

Lemma strip_prefix_length p t r : strip_prefix p t = Some r ->
  (List.length t = List.length p + List.length r)%nat.
Proof.
  revert t. induction p as [|a p IH]; intros t; simpl; [by intros [= ->]|].
  destruct t as [|b t]; [done|]. destruct (decide (a = b)); [|done].
  intros H%IH. simpl. lia.
Qed.

Lemma eat_length c t r : eat c t = Some r -> List.length t = S (List.length r).
Proof. intros H%strip_prefix_length. done. Qed.

Lemma span_digits_length t : (List.length (span_digits t).2 <= List.length t)%nat.
Proof.
  induction t as [|c t IH]; simpl; [lia|].
  destruct (is_digit c); simpl; [|lia]. destruct (span_digits t); simpl in *. lia.
Qed.

Lemma push_length x m n s r :
  push x m = Some (s, r) -> (forall s, m = Some (s, r) -> (List.length r < n)%nat) ->
  (List.length r < n)%nat.
Proof. destruct m as [[]|]; simpl; [|done]. intros [= _ ->] H. by eapply H. Qed.

Lemma scan_string_length t s r : scan_string t = Some (s, r) ->
  (List.length r < List.length t)%nat.
Proof.
  revert s. induction t as [t IH] using (induction_ltof1 _ (@List.length ascii)).
  unfold ltof in IH.
  assert (forall t' x s, (List.length t' < List.length t)%nat ->
            push x (scan_string t') = Some (s, r) -> (List.length r < List.length t)%nat) as Hpush.
  { intros t' x s Hl Hp. eapply push_length; [exact Hp|]. intros s' Hs.
    apply IH in Hs; lia. }
  intros s. destruct t as [|c t]; [done|]. cbn [scan_string].
  destruct (char_code c =? 34); [intros [= _ ->]; simpl; lia|].
  destruct (char_code c =? 92).
  - destruct t as [|e t]; [done|]. destruct (char_code e =? 117).
    + do 4 (destruct t as [|? t]; [done|]). destruct (hex4 _ _ _ _); [|done].
      do 6 (destruct t as [|? t]; [apply Hpush; simpl; lia|]).
      destruct (_ && _); [|apply Hpush; simpl; lia].
      destruct (hex4 _ _ _ _); [|done].
      destruct (is_low _); apply Hpush; simpl; lia.
    + destruct (simple_escape e); [|done]. apply Hpush. simpl. lia.
  - destruct (char_code c <? 32); [done|]. apply Hpush. simpl. lia.
Qed.

Lemma scan_unsigned_length neg t v r : scan_unsigned neg t = Ok (v, r) ->
  (List.length r < List.length t)%nat.
Proof.
  unfold scan_unsigned. destruct (scan_int_part t) as [[ip r1]|] eqn:Ei; [|done].
  assert (List.length r1 < List.length t)%nat as H1.
  { destruct t as [|c t]; [done|]. cbn [scan_int_part] in Ei.
    destruct (decide (c = "0"%char)); [simplify_eq; simpl; lia|].
    destruct (is_digit c) eqn:Hc; [|done]. simpl in Ei. rewrite Hc in Ei.
    pose proof (span_digits_length t). destruct (span_digits t). simplify_eq/=. lia. }
  set (fr := match scan_frac r1 with Some (ds, r) => (Some ds, r) | None => (None, r1) end).
  assert (List.length fr.2 <= List.length r1)%nat as H2.
  { subst fr. destruct (scan_frac r1) as [[ds r2]|] eqn:Ef; simpl; [|lia].
    destruct r1 as [|c r1]; simpl in Ef; [done|]. destruct (decide (c = _)); [|done].
    pose proof (span_digits_length r1). destruct (span_digits r1) as [[] ?]; simplify_eq/=; lia. }
  destruct fr as [fp r2]; simpl in H2.
  set (xr := match scan_exp r2 with Some (e, r) => (Some e, r) | None => (None, r2) end).
  assert (List.length xr.2 <= List.length r2)%nat as H3.
  { subst xr. destruct (scan_exp r2) as [[e r3]|] eqn:Ee; simpl; [|lia].
    destruct r2 as [|c r2]; simpl in Ee; [done|]. destruct (_ || _); [|done].
    destruct (eat "-" r2) eqn:E1; [|destruct (eat "+" r2) eqn:E2; simpl in Ee];
      try match goal with E : eat _ _ = Some _ |- _ => apply eat_length in E end;
      match type of Ee with context [span_digits ?x] =>
        pose proof (span_digits_length x); destruct (span_digits x) as [[] ?] end;
      simplify_eq/=; lia. }
  destruct xr as [ex r3]; simpl in H3.
  destruct fp, ex; try destruct (_ <=? _); intros; simplify_eq; lia.
Qed.

Lemma scan_number_length t v r : scan_number t = Ok (v, r) ->
  (List.length r < List.length t)%nat.
Proof.
  destruct t as [|c t]; simpl; [done|].
  destruct (decide _); intros H%scan_unsigned_length; simpl in *; lia.
Qed.

Lemma scan_unsigned_fuel neg t : scan_unsigned neg t <> Err JsonOutOfFuel.
Proof. unfold scan_unsigned. repeat case_match; congruence. Qed.

Lemma scan_number_fuel t : scan_number t <> Err JsonOutOfFuel.
Proof. unfold scan_number. repeat case_match; try done; apply scan_unsigned_fuel. Qed.

Lemma scan_literal_length t v r : scan_literal t = Some (v, r) ->
  (List.length r < List.length t)%nat.
Proof.
  unfold scan_literal.
  repeat (case_match; [intros; simplify_eq;
    match goal with H : strip_prefix _ _ = Some _ |- _ => apply strip_prefix_length in H end;
    simpl in *; lia|]). done.
Qed.

Lemma scan_constant_length reject t v r : scan_constant reject t = Some (Ok (v, r)) ->
  (List.length r < List.length t)%nat.
Proof.
  unfold scan_constant.
  repeat (case_match; [destruct reject; intros; simplify_eq;
    match goal with H : strip_prefix _ _ = Some _ |- _ => apply strip_prefix_length in H end;
    simpl in *; lia|]). done.
Qed.

Lemma scan_constant_fuel reject t : scan_constant reject t <> Some (Err JsonOutOfFuel).
Proof. unfold scan_constant. repeat case_match; congruence. Qed.

(** With enough fuel a parser does not run out, and consumes its input. *)
Definition progresses {A} (t : text) (m : result json_error (A * text)) : Prop :=
  m <> Err JsonOutOfFuel /\ forall v r, m = Ok (v, r) -> (List.length r < List.length t)%nat.

Lemma progresses_err {A} t e : e <> JsonOutOfFuel ->
  progresses t (Err e : result json_error (A * text)).
Proof. split; congruence. Qed.

Lemma progresses_ok {A} t (v : A) r : (List.length r < List.length t)%nat ->
  progresses t (Ok (v, r)).
Proof. split; [done|]. intros ?? [= <- <-]. done. Qed.

Lemma progresses_bind {A B} t t' (m : result json_error (A * text))
    (k : A * text -> result json_error (B * text)) :
  progresses t' m ->
  (forall v r, (List.length r < List.length t')%nat -> progresses t (k (v, r))) ->
  progresses t (m ≫= k).
Proof.
  intros [Hf Hc] Hk. destruct m as [[v r]|e]; simpl.
  - apply Hk. by apply (Hc v).
  - split; congruence.
Qed.

Lemma parse_fuel reject fuel :
  (forall t, (2 * List.length t < fuel)%nat -> progresses t (parse_value reject fuel t)) /\
  (forall t, (S (2 * List.length t) < fuel)%nat -> progresses t (parse_members reject fuel t)) /\
  (forall t, (S (2 * List.length t) < fuel)%nat -> progresses t (parse_elements reject fuel t)).
Proof.
  induction fuel as [|f (IHv & IHm & IHe)]; [repeat split; lia|].
  split; [|split].
  - intros [|c t] Hf; [by apply progresses_err|]. simpl in Hf. cbn [parse_value].
    pose proof (skip_ws_length t) as Hw.
    destruct (char_code c =? 34).
    { destruct (scan_string t) as [[s r]|] eqn:E; [|by apply progresses_err].
      apply scan_string_length in E. apply progresses_ok. simpl. lia. }
    destruct (decide (c = "{"%char)).
    { destruct (eat "}" (skip_ws t)) eqn:E;
        [apply eat_length in E; apply progresses_ok; simpl; lia|].
      eapply progresses_bind; [apply IHm; lia|].
      intros; simpl. apply progresses_ok. simpl. lia. }
    destruct (decide (c = "["%char)).
    { destruct (eat "]" (skip_ws t)) eqn:E;
        [apply eat_length in E; apply progresses_ok; simpl; lia|].
      eapply progresses_bind; [apply IHe; lia|].
      intros; simpl. apply progresses_ok. simpl. lia. }
    destruct (scan_literal (c :: t)) as [[v r]|] eqn:El;
      [apply progresses_ok; by eapply scan_literal_length|].
    destruct (scan_constant reject (c :: t)) as [res|] eqn:Ec.
    { split; [intros ->; by apply (scan_constant_fuel reject (c :: t))|].
      intros v r ->. by eapply scan_constant_length. }
    split; [apply scan_number_fuel|apply scan_number_length].
  - intros [|c t] Hf; [by apply progresses_err|]. simpl in Hf. cbn [parse_members].
    destruct (char_code c =? 34); [|by apply progresses_err].
    destruct (scan_string t) as [[k t2]|] eqn:Es; [|by apply progresses_err].
    apply scan_string_length in Es. pose proof (skip_ws_length t2).
    destruct (eat ":" (skip_ws t2)) as [t3|] eqn:E3; [|by apply progresses_err].
    apply eat_length in E3. pose proof (skip_ws_length t3).
    eapply progresses_bind; [apply IHv; lia|]. intros v t4 H4; simpl.
    pose proof (skip_ws_length t4).
    destruct (eat "}" (skip_ws t4)) eqn:E4;
      [apply eat_length in E4; apply progresses_ok; simpl; lia|].
    destruct (eat "," (skip_ws t4)) as [t5|] eqn:E5; [|by apply progresses_err].
    apply eat_length in E5. pose proof (skip_ws_length t5).
    eapply progresses_bind; [apply IHm; lia|].
    intros; simpl. apply progresses_ok. simpl. lia.
  - intros t Hf. cbn [parse_elements].
    eapply progresses_bind; [apply IHv; lia|]. intros v t4 H4; simpl.
    pose proof (skip_ws_length t4).
    destruct (eat "]" (skip_ws t4)) eqn:E4;
      [apply eat_length in E4; apply progresses_ok; simpl; lia|].
    destruct (eat "," (skip_ws t4)) as [t5|] eqn:E5; [|by apply progresses_err].
    apply eat_length in E5. pose proof (skip_ws_length t5).
    eapply progresses_bind; [apply IHe; lia|].
    intros; simpl. apply progresses_ok. simpl. lia.
Qed.

Lemma json_loads_total reject t : json_loads reject t <> Err JsonOutOfFuel.
Proof.
  unfold json_loads.
  destruct (parse_fuel reject (S (2 * List.length (skip_ws t)))) as (Hv & _ & _).
  destruct (Hv (skip_ws t)) as [Hf _]; [lia|].
  destruct (parse_value _ _ _) as [[v r]|e]; simpl; [|congruence].
  by destruct (skip_ws r).
Qed.

(** ** The printed text is UTF-8 when the strings of the value are *)

(** The first encoded character of a valid text: its bytes never decide on the
    validity of what follows, and it is either one ASCII byte or only bytes
    above 127. *)
Lemma utf8_valid_inv t : utf8_valid t = true -> t <> [] ->
  exists p t', t = p ++ t' /\ p <> [] /\ utf8_valid t' = true
    /\ (forall u, utf8_valid (p ++ u) = utf8_valid u)
    /\ ((exists c, p = [c] /\ char_code c <= 127) \/ Forall (fun c => 127 < char_code c) p).
Proof.
  assert (forall c lo hi, in_range c lo hi = true -> lo <= char_code c) as Hr.
  { unfold in_range. intros. lia. }
  destruct t as [|a t]; [done|]. simpl. intros H _.
  destruct (char_code a <=? 127) eqn:Ha.
  { exists [a], t. split_and!; try done; [by intros u; simpl; rewrite Ha|]. left. exists a. split; [done|lia]. }
  destruct t as [|b t]; [done|]. destruct (in_range a 194 223 && is_cont b) eqn:Hb.
  { exists [a; b], t. split_and!; try done; [by intros u; simpl; rewrite Ha, Hb|].
    right. unfold is_cont in *. split_bools.
    repeat match goal with H : in_range _ _ _ = true |- _ => apply Hr in H end;
    repeat constructor; lia. }
  destruct t as [|c t]; [done|]. case_in_as H Hc.
  { exists [a; b; c], t. split_and!; try done; [by intros u; simpl; rewrite Ha, Hb, Hc|].
    right. repeat apply orb_true_iff in Hc as [Hc|Hc]; unfold is_cont in *; split_bools;
      repeat match goal with H : in_range _ _ _ = true |- _ => apply Hr in H end;
      repeat constructor; lia. }
  destruct t as [|d t]; [done|]. case_in_as H Hd; [|done].
  exists [a; b; c; d], t. split_and!; try done; [by intros u; simpl; rewrite Ha, Hb, Hc, Hd|].
  right. split_bools. repeat match goal with H : _ || _ = true |- _ => apply orb_true_iff in H as [H|H] end;
    unfold is_cont in *; split_bools;
    repeat match goal with H : in_range _ _ _ = true |- _ => apply Hr in H end;
    repeat constructor; lia.
Qed.

Lemma utf8_valid_app_l t u : utf8_valid t = true -> utf8_valid (t ++ u) = utf8_valid u.
Proof.
  remember (List.length t) as n eqn:Hn. revert t Hn.
  induction n as [n IH] using lt_wf_ind. intros t -> Ht.
  destruct (decide (t = [])) as [->|Hne]; [done|].
  destruct (utf8_valid_inv t Ht Hne) as (p & t' & -> & Hp & Ht' & Happ & _).
  rewrite <-app_assoc, Happ. apply (IH (List.length t')); try done.
  rewrite length_app. destruct p; simpl; [done|lia].
Qed.

Lemma utf8_valid_app t u : utf8_valid t = true -> utf8_valid u = true -> utf8_valid (t ++ u) = true.
Proof. intros Ht Hu. by rewrite utf8_valid_app_l. Qed.

Definition ascii_text (t : text) : Prop := Forall (fun c => char_code c <= 127) t.

Lemma ascii_utf8 t : ascii_text t -> utf8_valid t = true.
Proof. induction 1 as [|c t Hc _ IH]; simpl; [done|]. by rewrite (proj2 (Z.leb_le _ _)). Qed.

Lemma escape_char_high c : 127 < char_code c -> escape_char c = [c].
Proof. intros H. unfold escape_char. repeat case_match; try done; lia. Qed.

Lemma hex_digit_ascii d : 0 <= d < 16 -> char_code (hex_digit d) <= 127.
Proof.
  intros. unfold hex_digit, digit_char. case_match; rewrite char_code_byte; lia.
Qed.

Lemma escape_char_ascii c : char_code c <= 127 -> ascii_text (escape_char c).
Proof.
  intros H. pose proof (char_code_range c). unfold escape_char, ascii_text.
  repeat case_match; repeat constructor; try done; try apply hex_digit_ascii;
    pose proof (Z.mod_pos_bound (char_code c) 16);
    pose proof (Z.div_lt_upper_bound (char_code c) 16 16);
    pose proof (Z.div_pos (char_code c) 16); lia.
Qed.

Lemma escape_high t : Forall (fun c => 127 < char_code c) t -> (t ≫= escape_char) = t.
Proof.
  induction 1 as [|c t Hc _ IH]; [done|].
  change (escape_char c ++ (t ≫= escape_char) = c :: t). by rewrite escape_char_high, IH.
Qed.

Lemma escape_utf8 t : utf8_valid t = true -> utf8_valid (t ≫= escape_char) = true.
Proof.
  remember (List.length t) as n eqn:Hn. revert t Hn.
  induction n as [n IH] using lt_wf_ind. intros t -> Ht.
  destruct (decide (t = [])) as [->|Hne]; [done|].
  destruct (utf8_valid_inv t Ht Hne) as (p & t' & -> & Hp & Ht' & Happ & Hcase).
  rewrite bind_app. assert (utf8_valid (t' ≫= escape_char) = true) as Hrest.
  { apply (IH (List.length t')); try done. rewrite length_app. destruct p; simpl; [done|lia]. }
  destruct Hcase as [(c & -> & Hc)|Hhigh].
  - simpl. rewrite app_nil_r. apply utf8_valid_app; [|done].
    by apply ascii_utf8, escape_char_ascii.
  - change (utf8_valid ((p ≫= escape_char) ++ (t' ≫= escape_char)) = true).
    by rewrite escape_high, Happ.
Qed.

Lemma quote_utf8 s : utf8_valid (chars s) = true -> utf8_valid (quote s) = true.
Proof. intros. simpl. apply utf8_valid_app; [by apply escape_utf8|done]. Qed.

Lemma intersperse_utf8 sep l :
  utf8_valid sep = true -> Forall (fun t => utf8_valid t = true) l ->
  utf8_valid (intersperse sep l) = true.
Proof.
  intros Hs. induction 1 as [|t l Ht Hl IH]; [done|].
  destruct l as [|u l]; [done|]. change (utf8_valid (t ++ sep ++ intersperse sep (u :: l)) = true).
  by repeat apply utf8_valid_app.
Qed.

Lemma all_digits_ascii t : all_digits t -> ascii_text t.
Proof. intros H. eapply Forall_impl; [exact H|]. intros c. unfold is_digit. simpl. lia. Qed.

Lemma int_text_utf8 z : utf8_valid (int_text z) = true.
Proof.
  apply ascii_utf8. unfold int_text. case_match; [constructor; [done|]|];
    apply all_digits_ascii, dec_nonneg_spec; lia.
Qed.

(** Every string of the value (and the text of every float) is UTF-8. *)
Fixpoint json_utf8 (v : json) : bool :=
  match v with
  | JFloat f => utf8_valid (float_text f)
  | JStr s => utf8_valid (chars s)
  | JList l => forallb json_utf8 l
  | JObj d => forallb (fun kv => utf8_valid (chars kv.1) && json_utf8 kv.2) d
  | _ => true
  end.

Lemma dumps_utf8 v : json_utf8 v = true -> utf8_valid (dumps_text v) = true.
Proof.
  induction v as [| b | z | f | s | l IH | d IH] using json_ind'; simpl; intros H; try done.
  - by destruct b.
  - apply int_text_utf8.
  - by apply quote_utf8.
  - apply utf8_valid_app; [|done]. apply intersperse_utf8; [done|]. apply Forall_map.
    induction IH as [|v l Hv _ IHl]; [constructor|]. simpl in H. split_bools. constructor; auto.
  - apply utf8_valid_app; [|done]. apply intersperse_utf8; [done|]. apply Forall_map.
    induction IH as [|[k v] d Hv _ IHd]; [constructor|]. simpl in H. split_bools.
    constructor; [|auto]. apply (utf8_valid_app (quote k)); [by apply quote_utf8|].
    apply (utf8_valid_app [":"%char]); auto.
Qed.

(** ** Integers of the wire are short enough to print *)

Lemma dec_value_bounds t : all_digits t -> 0 <= dec_value t < 10 ^ Z.of_nat (List.length t).
Proof.
  induction 1 as [|c t Hc _ IH]; [done|]. rewrite dec_value_cons. simpl List.length.
  rewrite Nat2Z.inj_succ, Z.pow_succ_r by lia.
  assert (0 <= digit_val c <= 9) by (unfold is_digit in Hc; unfold digit_val; lia). nia.
Qed.

Lemma dec_nonneg_length n k : 0 <= n < 10 ^ Z.of_nat k -> (0 < k)%nat ->
  (List.length (dec_nonneg n) <= k)%nat.
Proof.
  intros Hn Hk. destruct (dec_nonneg_spec n) as (Hd & Hv & Hne & Hh); [lia|].
  destruct (decide (n = 0)) as [->|Hnz]; [done|]. specialize (Hh Hnz).
  destruct (dec_nonneg n) as [|c t]; [done|]. inversion Hd as [|? ? Hc Ht]; simplify_eq.
  rewrite dec_value_cons in Hn. simpl in *.
  assert (1 <= digit_val c).
  { assert (digit_val c <> 0); [|unfold is_digit in Hc; unfold digit_val in *; lia].
    intros H0. apply Hh. f_equal. apply char_code_inj. unfold digit_val in H0.
    rewrite digit_char_code; lia. }
  pose proof (dec_value_bounds t Ht).
  destruct (decide (S (List.length t) <= k)%nat); [done|].
  assert (10 ^ Z.of_nat k <= 10 ^ Z.of_nat (List.length t)) by (apply Z.pow_le_mono_r; lia).
  nia.
Qed.

Lemma int_printable_bound z : Z.abs z < 2 ^ 65 -> int_printable z = true.
Proof.
  intros. unfold int_printable, int_max_str_digits. apply Z.leb_le.
  pose proof (dec_nonneg_length (Z.abs z) 20). change (10 ^ Z.of_nat 20) with 100000000000000000000 in *.
  change (2 ^ 65) with 36893488147419103232 in *. lia.
Qed.
