(* ===== verification/Protocol.v ===== *)
(** The wire protocol between Gateway and Worker
    (clients/python/kim_llm_client/protocol.py).

    Data types, the field checks, the encoders of client messages and the
    decoder of server messages.  A check that raises is a [result]; the
    exception keeps the message text of the source. *)
From Stdlib Require Import ZArith Lia Ascii String SpecFloat.
From stdpp Require Import base list strings gmap.
From S2P Require Import Prelude PyFloat Json.
Local Open Scope Z_scope.

Abbreviation bytes := (list ascii).

Definition PROTOCOL_VERSION : Z := 1.
Definition DEFAULT_MAX_FRAME_PAYLOAD_BYTES : Z := 1024 * 1024.

Definition STATUS_CODES : list string :=
  ["ok"; "invalid_input"; "invalid_shape"; "already_exists"; "not_ready";
   "resource_exhausted"; "slo_predicted_miss"; "unavailable"; "queue_full";
   "engine_not_found"; "context_unavailable"; "cuda_error"; "tensorrt_error";
   "internal_error"; "timeout"; "cancelled"].

Definition FINISH_REASONS : list string :=
  ["eos"; "length"; "stop"; "cancelled"; "timeout"; "backpressure"].

(** ** Data *)

Record Status := mkStatus { code : string; message : string }.

Definition status_ok (s : Status) : bool := bool_decide (code s = "ok").

Record ModelManifest := mkManifest {
  model_id : string;
  revision : string;
  tokenizer_fingerprint : string;
  chat_template_fingerprint : string;
  engine_fingerprint : string;
  eos_token_id : Z;
  pad_token_id : Z;
  max_input_tokens : Z;
  max_output_tokens : Z;
  max_sequence_tokens : Z;
  precision : string;
  max_batch_size : Z }.

Record WorkerLimits := mkLimits {
  max_active_requests : Z;
  max_total_input_tokens : Z;
  max_reserved_output_tokens : Z;
  max_frame_payload_bytes : Z;
  max_session_egress_frames : Z;
  max_session_egress_bytes : Z;
  max_request_egress_frames : Z;
  max_request_egress_bytes : Z }.

Record SamplingParameters := mkSampling {
  temperature : pynum;
  top_k : Z;
  top_p : pynum;
  random_seed : Z }.

Record GenerationRequest := mkRequest {
  request_id : Z;
  input_token_ids : list Z;
  max_new_tokens : Z;
  priority : Z;
  timeout_ms : option Z;
  trace_id : string;
  streaming : bool;
  sampling : SamplingParameters;
  end_id : option Z;
  pad_id : option Z;
  stop_sequences : list (list Z) }.

Record HelloAck := mkHelloAck {
  worker_epoch : Z;
  manifest : ModelManifest;
  limits : WorkerLimits }.

Record TokenDelta := mkDelta {
  td_request_id : Z;
  sequence_no : Z;
  token_ids : list Z }.

Record Usage := mkUsage { prompt_tokens : Z; completion_tokens : Z }.

Record Terminal := mkTerminal {
  tm_request_id : Z;
  tm_status : Status;
  finish_reason : option string;
  usage : Usage }.

Record Stats := mkStats {
  probe_id : Z;
  ready : bool;
  st_status : Status;
  uptime_ms : Z;
  active_requests : Z;
  reserved_input_tokens : Z;
  reserved_output_tokens : Z;
  session_egress_frames : Z;
  session_egress_bytes : Z;
  session_egress_high_watermark_frames : Z;
  session_egress_high_watermark_bytes : Z;
  rejected_requests : Z;
  backpressure_requests : Z;
  cancelled_requests : Z }.

Inductive ServerMessage :=
| MHelloAck (h : HelloAck)
| MAccepted (request_id : Z)
| MRejected (request_id : Z) (status : Status)
| MTokenDelta (d : TokenDelta)
| MTerminal (t : Terminal)
| MStats (s : Stats).

Inductive GenerationEvent :=
| EDelta (d : TokenDelta)
| ETerminal (t : Terminal).

#[global] Instance Status_eq_dec : EqDecision Status.
Proof. solve_decision. Defined.
#[global] Instance ModelManifest_eq_dec : EqDecision ModelManifest.
Proof. solve_decision. Defined.
#[global] Instance WorkerLimits_eq_dec : EqDecision WorkerLimits.
Proof. solve_decision. Defined.
#[global] Instance HelloAck_eq_dec : EqDecision HelloAck.
Proof. solve_decision. Defined.
#[global] Instance TokenDelta_eq_dec : EqDecision TokenDelta.
Proof. solve_decision. Defined.
#[global] Instance Usage_eq_dec : EqDecision Usage.
Proof. solve_decision. Defined.
#[global] Instance Terminal_eq_dec : EqDecision Terminal.
Proof. solve_decision. Defined.
#[global] Instance Stats_eq_dec : EqDecision Stats.
Proof. solve_decision. Defined.
#[global] Instance ServerMessage_eq_dec : EqDecision ServerMessage.
Proof. solve_decision. Defined.

(** ** Exceptions *)

(** The exceptions the client library raises or lets through.
    [ProtocolError] and [UnicodeEncodeError] are subclasses of [ValueError];
    the last three client errors are subclasses of [GenerationClientError]. *)
Inductive exn :=
| ProtocolError (msg : string)
| ValueError (msg : string)
| UnicodeEncodeError
| OverflowError
| GenerationClientError (msg : string)
| WorkerUnavailableError (msg : string)
| ClientCapacityError (msg : string)
| RequestRejectedError (request_id : Z) (status : Status)
| TimeoutError (msg : string)
| StopIteration
| StopAsyncIteration
| EOFError (msg : string)
| OSError (msg : string)
| RuntimeError (msg : string)
| AssertionError.

#[global] Instance exn_eq_dec : EqDecision exn.
Proof. solve_decision. Defined.

Definition is_ValueError (e : exn) : bool :=
  match e with ProtocolError _ | ValueError _ | UnicodeEncodeError => true | _ => false end.

Definition is_ProtocolError (e : exn) : bool :=
  match e with ProtocolError _ => true | _ => false end.

(** [f"{n}"] of an int. *)
Definition int_str (z : Z) : string := str (int_text z).

(** ** Field checks *)

Definition u64_max : Z := Z.shiftl 1 64 - 1.
Definition u32_max : Z := Z.shiftl 1 32 - 1.
Definition i32_max : Z := Z.shiftl 1 31 - 1.
Definition i32_min : Z := - Z.shiftl 1 31.

Definition _require_exact_fields (value : json) (expected : list string) (description : string)
  : result exn (list (string * json)) :=
  match value with
  | JObj d =>
      if bool_decide (dict_keys d = list_to_set expected) then Ok d
      else Err (ProtocolError (description +:+ " contains missing or unexpected fields"))
  | _ => Err (ProtocolError (description +:+ " contains missing or unexpected fields"))
  end.

Definition _require_string (value : json) (description : string) (non_empty : bool)
  : result exn string :=
  let e := ProtocolError (description +:+ " must be a "
             +:+ (if non_empty then "non-empty " else "") +:+ "string") in
  match value with
  | JStr s => if non_empty && bool_decide (s = "") then Err e else Ok s
  | _ => Err e
  end.

Definition _require_bool (value : json) (description : string) : result exn bool :=
  match value with
  | JBool b => Ok b
  | _ => Err (ProtocolError (description +:+ " must be a boolean"))
  end.

Definition _require_int (value : json) (description : string) (minimum maximum : Z)
  : result exn Z :=
  let e := ProtocolError (description +:+ " is outside the supported integer range") in
  match value with
  | JInt z => if (z <? minimum) || (maximum <? z) then Err e else Ok z
  | _ => Err e
  end.

Definition _require_float (value : json) (description : string) : result exn pyfloat :=
  match (match value with JInt z => Some (PInt z) | JFloat f => Some (PFloat f) | _ => None end) with
  | None => Err (ProtocolError (description +:+ " must be numeric"))
  | Some n =>
      match float_of_num n with
      | None => Err OverflowError
      | Some converted =>
          if isfinite converted then Ok converted
          else Err (ProtocolError (description +:+ " must be finite"))
      end
  end.

Definition _require_protocol (value : json) : result exn unit :=
  version ← _require_int value "protocol_version" 0 u32_max;
  raise_if (negb (version =? PROTOCOL_VERSION))
    (ProtocolError ("unsupported protocol version " +:+ int_str version)).

Definition _require_epoch (value : json) (expected_epoch : option Z) : result exn Z :=
  epoch ← _require_int value "worker_epoch" 1 u64_max;
  _ ← raise_if (match expected_epoch with Some e => negb (epoch =? e) | None => false end)
        (ProtocolError "worker_epoch does not match the active Worker");
  Ok epoch.

Definition _status_from_json (value : json) : result exn Status :=
  d ← _require_exact_fields value ["code"; "message"] "status";
  code ← _require_string (dict_item d "code") "status.code" true;
  _ ← raise_if (negb (bool_decide (code ∈ STATUS_CODES)))
        (ProtocolError ("unknown status code " +:+ code));
  message ← _require_string (dict_item d "message") "status.message" false;
  Ok (mkStatus code message).

Definition manifest_fields : list string :=
  ["model_id"; "revision"; "tokenizer_fingerprint"; "chat_template_fingerprint";
   "engine_fingerprint"; "eos_token_id"; "pad_token_id"; "max_input_tokens";
   "max_output_tokens"; "max_sequence_tokens"; "precision"; "max_batch_size"].

Definition _manifest_from_json (value : json) : result exn ModelManifest :=
  d ← _require_exact_fields value manifest_fields "manifest";
  model_id ← _require_string (dict_item d "model_id") "model_id" true;
  revision ← _require_string (dict_item d "revision") "revision" true;
  tokenizer_fingerprint ←
    _require_string (dict_item d "tokenizer_fingerprint") "tokenizer_fingerprint" true;
  chat_template_fingerprint ←
    _require_string (dict_item d "chat_template_fingerprint") "chat_template_fingerprint" true;
  engine_fingerprint ←
    _require_string (dict_item d "engine_fingerprint") "engine_fingerprint" true;
  eos_token_id ← _require_int (dict_item d "eos_token_id") "eos_token_id" 0 i32_max;
  pad_token_id ← _require_int (dict_item d "pad_token_id") "pad_token_id" 0 i32_max;
  max_input_tokens ← _require_int (dict_item d "max_input_tokens") "max_input_tokens" 1 u32_max;
  max_output_tokens ←
    _require_int (dict_item d "max_output_tokens") "max_output_tokens" 1 u32_max;
  max_sequence_tokens ←
    _require_int (dict_item d "max_sequence_tokens") "max_sequence_tokens" 1 u32_max;
  precision ← _require_string (dict_item d "precision") "precision" true;
  max_batch_size ← _require_int (dict_item d "max_batch_size") "max_batch_size" 1 u32_max;
  _ ← raise_if ((max_sequence_tokens <? max_input_tokens)
                || (max_sequence_tokens <? max_output_tokens))
        (ProtocolError "manifest token limits exceed max_sequence_tokens");
  Ok (mkManifest model_id revision tokenizer_fingerprint chat_template_fingerprint
        engine_fingerprint eos_token_id pad_token_id max_input_tokens max_output_tokens
        max_sequence_tokens precision max_batch_size).

Definition limits_fields : list string :=
  ["max_active_requests"; "max_total_input_tokens"; "max_reserved_output_tokens";
   "max_frame_payload_bytes"; "max_session_egress_frames"; "max_session_egress_bytes";
   "max_request_egress_frames"; "max_request_egress_bytes"].

Definition _limits_from_json (value : json) : result exn WorkerLimits :=
  d ← _require_exact_fields value limits_fields "limits";
  max_active_requests ←
    _require_int (dict_item d "max_active_requests") "max_active_requests" 1 u32_max;
  max_total_input_tokens ←
    _require_int (dict_item d "max_total_input_tokens") "max_total_input_tokens" 1 u64_max;
  max_reserved_output_tokens ←
    _require_int (dict_item d "max_reserved_output_tokens") "max_reserved_output_tokens"
      1 u64_max;
  max_frame_payload_bytes ←
    _require_int (dict_item d "max_frame_payload_bytes") "max_frame_payload_bytes" 1 u32_max;
  max_session_egress_frames ←
    _require_int (dict_item d "max_session_egress_frames") "max_session_egress_frames" 1 u32_max;
  max_session_egress_bytes ←
    _require_int (dict_item d "max_session_egress_bytes") "max_session_egress_bytes" 1 u64_max;
  max_request_egress_frames ←
    _require_int (dict_item d "max_request_egress_frames") "max_request_egress_frames" 1 u32_max;
  max_request_egress_bytes ←
    _require_int (dict_item d "max_request_egress_bytes") "max_request_egress_bytes" 1 u64_max;
  _ ← raise_if ((max_session_egress_frames <? max_request_egress_frames)
                || (max_session_egress_bytes <? max_request_egress_bytes)
                || (max_request_egress_bytes <? max_frame_payload_bytes))
        (ProtocolError "Worker limit hierarchy is inconsistent");
  Ok (mkLimits max_active_requests max_total_input_tokens max_reserved_output_tokens
        max_frame_payload_bytes max_session_egress_frames max_session_egress_bytes
        max_request_egress_frames max_request_egress_bytes).

Definition _usage_from_json (value : json) : result exn Usage :=
  d ← _require_exact_fields value ["prompt_tokens"; "completion_tokens"] "usage";
  p ← _require_int (dict_item d "prompt_tokens") "prompt_tokens" 0 u64_max;
  c ← _require_int (dict_item d "completion_tokens") "completion_tokens" 0 u64_max;
  Ok (mkUsage p c).

Definition _request_envelope (message : list (string * json)) (expected_epoch : Z)
  : result exn Z :=
  _ ← _require_protocol (dict_item message "protocol_version");
  _ ← _require_epoch (dict_item message "worker_epoch") (Some expected_epoch);
  _require_int (dict_item message "request_id") "request_id" 1 u64_max.

(** ** Decoding server messages *)

Definition hello_ack_fields : list string :=
  ["type"; "protocol_version"; "worker_epoch"; "manifest"; "limits"].

Definition decode_hello_ack (value : json) (expected_epoch : option Z)
  : result exn ServerMessage :=
  m ← _require_exact_fields value hello_ack_fields "HelloAck";
  _ ← _require_protocol (dict_item m "protocol_version");
  epoch ← _require_epoch (dict_item m "worker_epoch") expected_epoch;
  manifest ← _manifest_from_json (dict_item m "manifest");
  limits ← _limits_from_json (dict_item m "limits");
  Ok (MHelloAck (mkHelloAck epoch manifest limits)).

Definition accepted_fields : list string :=
  ["type"; "protocol_version"; "worker_epoch"; "request_id"].

Definition decode_accepted (value : json) (expected_epoch : Z) : result exn ServerMessage :=
  m ← _require_exact_fields value accepted_fields "Accepted";
  rid ← _request_envelope m expected_epoch;
  Ok (MAccepted rid).

Definition rejected_fields : list string :=
  ["type"; "protocol_version"; "worker_epoch"; "request_id"; "status"].

Definition decode_rejected (value : json) (expected_epoch : Z) : result exn ServerMessage :=
  m ← _require_exact_fields value rejected_fields "Rejected";
  status ← _status_from_json (dict_item m "status");
  _ ← raise_if (status_ok status) (ProtocolError "Rejected status must not be ok");
  rid ← _request_envelope m expected_epoch;
  Ok (MRejected rid status).

Definition token_delta_fields : list string :=
  ["type"; "protocol_version"; "worker_epoch"; "request_id"; "sequence_no"; "token_ids"].

(** The non-empty array of Token IDs of a delta. *)
Definition delta_tokens (token_values : json) : result exn (list Z) :=
  match token_values with
  | JList (t :: ts) => mapM (fun t => _require_int t "token_id" 0 i32_max) (t :: ts)
  | _ => Err (ProtocolError "token_ids must be a non-empty array")
  end.

Definition decode_token_delta (value : json) (expected_epoch : Z) : result exn ServerMessage :=
  m ← _require_exact_fields value token_delta_fields "TokenDelta";
  tokens ← delta_tokens (dict_item m "token_ids");
  rid ← _request_envelope m expected_epoch;
  seqno ← _require_int (dict_item m "sequence_no") "sequence_no" 0 u64_max;
  Ok (MTokenDelta (mkDelta rid seqno tokens)).

Definition terminal_fields : list string :=
  ["type"; "protocol_version"; "worker_epoch"; "request_id"; "status"; "finish_reason"; "usage"].

(** The nullable finish reason of a Terminal. *)
Definition terminal_finish_reason (finish_reason_value : json) : result exn (option string) :=
  match finish_reason_value with
  | JNull => Ok None
  | v => fr ← _require_string v "finish_reason" true;
         _ ← raise_if (negb (bool_decide (fr ∈ FINISH_REASONS)))
               (ProtocolError ("unknown finish reason " +:+ fr));
         Ok (Some fr)
  end.

Definition decode_terminal (value : json) (expected_epoch : Z) : result exn ServerMessage :=
  m ← _require_exact_fields value terminal_fields "Terminal";
  status ← _status_from_json (dict_item m "status");
  finish_reason ← terminal_finish_reason (dict_item m "finish_reason");
  _ ← raise_if (status_ok status && bool_decide (finish_reason = None))
        (ProtocolError "successful Terminal requires finish_reason");
  rid ← _request_envelope m expected_epoch;
  usage ← _usage_from_json (dict_item m "usage");
  Ok (MTerminal (mkTerminal rid status finish_reason usage)).

Definition stats_fields : list string :=
  ["type"; "protocol_version"; "worker_epoch"; "probe_id"; "ready"; "status"; "uptime_ms";
   "active_requests"; "reserved_input_tokens"; "reserved_output_tokens";
   "session_egress_frames"; "session_egress_bytes"; "session_egress_high_watermark_frames";
   "session_egress_high_watermark_bytes"; "rejected_requests"; "backpressure_requests";
   "cancelled_requests"].

Definition decode_stats (value : json) (expected_epoch : Z) : result exn ServerMessage :=
  m ← _require_exact_fields value stats_fields "Stats";
  _ ← _require_protocol (dict_item m "protocol_version");
  _ ← _require_epoch (dict_item m "worker_epoch") (Some expected_epoch);
  status ← _status_from_json (dict_item m "status");
  ready ← _require_bool (dict_item m "ready") "ready";
  _ ← raise_if (negb (eqb ready (status_ok status)))
        (ProtocolError "Stats ready and status are inconsistent");
  probe_id ← _require_int (dict_item m "probe_id") "probe_id" 1 u64_max;
  uptime_ms ← _require_int (dict_item m "uptime_ms") "uptime_ms" 0 u64_max;
  active_requests ← _require_int (dict_item m "active_requests") "active_requests" 0 u64_max;
  reserved_input_tokens ←
    _require_int (dict_item m "reserved_input_tokens") "reserved_input_tokens" 0 u64_max;
  reserved_output_tokens ←
    _require_int (dict_item m "reserved_output_tokens") "reserved_output_tokens" 0 u64_max;
  session_egress_frames ←
    _require_int (dict_item m "session_egress_frames") "session_egress_frames" 0 u64_max;
  session_egress_bytes ←
    _require_int (dict_item m "session_egress_bytes") "session_egress_bytes" 0 u64_max;
  hw_frames ← _require_int (dict_item m "session_egress_high_watermark_frames")
                "session_egress_high_watermark_frames" 0 u64_max;
  hw_bytes ← _require_int (dict_item m "session_egress_high_watermark_bytes")
               "session_egress_high_watermark_bytes" 0 u64_max;
  rejected_requests ← _require_int (dict_item m "rejected_requests") "rejected_requests" 0 u64_max;
  backpressure_requests ←
    _require_int (dict_item m "backpressure_requests") "backpressure_requests" 0 u64_max;
  cancelled_requests ←
    _require_int (dict_item m "cancelled_requests") "cancelled_requests" 0 u64_max;
  _ ← raise_if ((hw_frames <? session_egress_frames) || (hw_bytes <? session_egress_bytes))
        (ProtocolError "Stats high watermark is below the current value");
  Ok (MStats (mkStats probe_id ready status uptime_ms active_requests reserved_input_tokens
        reserved_output_tokens session_egress_frames session_egress_bytes hw_frames hw_bytes
        rejected_requests backpressure_requests cancelled_requests)).

(** Dispatch on the message type, once the payload is a JSON value. *)
Definition decode_object (value : json) (expected_epoch : option Z)
  : result exn ServerMessage :=
  match value with
  | JObj d =>
      message_type ← _require_string (default JNull (dict_get d "type")) "message type" true;
      if bool_decide (message_type = "hello_ack") then decode_hello_ack value expected_epoch
      else match expected_epoch with
           | None => Err (ProtocolError "lifecycle message arrived before HelloAck")
           | Some epoch =>
               if bool_decide (message_type = "accepted") then decode_accepted value epoch
               else if bool_decide (message_type = "rejected") then decode_rejected value epoch
               else if bool_decide (message_type = "token_delta") then decode_token_delta value epoch
               else if bool_decide (message_type = "terminal") then decode_terminal value epoch
               else if bool_decide (message_type = "stats") then decode_stats value epoch
               else Err (ProtocolError ("message type " +:+ message_type
                                          +:+ " is not allowed from Worker"))
           end
  | _ => Err (ProtocolError "payload must be a JSON object")
  end.

(** How [json.loads] failures surface: [JSONDecodeError] is converted, the
    [parse_constant] callback raises [ProtocolError] itself, and the
    [ValueError] of an over-long integer literal passes through. *)
Definition payload_error (e : json_error) : exn :=
  match e with
  | JSONDecodeError => ProtocolError "invalid JSON payload: JSONDecodeError"
  | JsonConstant c => ProtocolError ("invalid JSON constant " +:+ c)
  | JsonIntTooLong => ValueError "Exceeds the limit (4300 digits) for integer string conversion"
  | JsonOutOfFuel => ValueError ""
  end.

Definition decode_server_message (payload : bytes) (expected_epoch : option Z)
  : result exn ServerMessage :=
  if utf8_valid payload then
    match json_loads true payload with
    | Ok value => decode_object value expected_epoch
    | Err e => Err (payload_error e)
    end
  else Err (ProtocolError "invalid JSON payload: UnicodeDecodeError").

(** ** Validation and encoding of client messages *)

Definition _validate_manifest (m : ModelManifest) : result exn unit :=
  _ ← raise_if (existsb (fun s => bool_decide (s = ""))
                  [model_id m; revision m; tokenizer_fingerprint m;
                   chat_template_fingerprint m; engine_fingerprint m; precision m])
        (ProtocolError "ModelManifest string fields must not be empty");
  _ ← mapM (fun t => _require_int (JInt t) "manifest token id" 0 i32_max)
        [eos_token_id m; pad_token_id m];
  _ ← mapM (fun vn => _require_int (JInt vn.1) vn.2 1 u32_max)
        [(max_input_tokens m, "max_input_tokens"); (max_output_tokens m, "max_output_tokens");
         (max_sequence_tokens m, "max_sequence_tokens"); (max_batch_size m, "max_batch_size")];
  raise_if ((max_sequence_tokens m <? max_input_tokens m)
            || (max_sequence_tokens m <? max_output_tokens m))
    (ProtocolError "manifest token limits exceed max_sequence_tokens").

Definition num_json (n : pynum) : json :=
  match n with PInt z => JInt z | PFloat f => JFloat f end.

Definition _validate_request (r : GenerationRequest) : result exn unit :=
  _ ← _require_int (JInt (request_id r)) "request_id" 1 u64_max;
  _ ← raise_if (bool_decide (input_token_ids r = []))
        (ProtocolError "input_token_ids must not be empty");
  _ ← mapM (fun t => _require_int (JInt t) "input_token_id" 0 i32_max) (input_token_ids r);
  _ ← _require_int (JInt (max_new_tokens r)) "max_new_tokens" 1 u32_max;
  _ ← _require_int (JInt (priority r)) "priority" i32_min i32_max;
  _ ← match timeout_ms r with
      | Some t => _ ← _require_int (JInt t) "timeout_ms" 1 u64_max; Ok tt
      | None => Ok tt
      end;
  _ ← _require_string (JStr (trace_id r)) "trace_id" false;
  _ ← _require_bool (JBool (streaming r)) "streaming";
  temperature ← _require_float (num_json (temperature (sampling r))) "temperature";
  _ ← raise_if (fleb temperature f0) (ProtocolError "temperature must be positive");
  _ ← _require_int (JInt (top_k (sampling r))) "top_k" 0 i32_max;
  top_p ← _require_float (num_json (top_p (sampling r))) "top_p";
  _ ← raise_if (fleb top_p f0 || fltb f1 top_p) (ProtocolError "top_p must be in (0, 1]");
  _ ← _require_int (JInt (random_seed (sampling r))) "random_seed" 0 u64_max;
  _ ← mapM (fun o => match o with
                     | Some t => _ ← _require_int (JInt t) "optional token id" 0 i32_max; Ok tt
                     | None => Ok tt
                     end) [end_id r; pad_id r];
  _ ← mapM (fun s => _ ← raise_if (bool_decide (s = []))
                           (ProtocolError "stop_sequences entries must not be empty");
                     mapM (fun t => _require_int (JInt t) "stop token id" 0 i32_max) s)
        (stop_sequences r);
  Ok tt.

Definition encode_json (message : json) : result exn bytes :=
  match json_dumps false message with
  | None => Err (ValueError "Out of range float values are not JSON compliant")
  | Some t => if utf8_valid t then Ok t else Err UnicodeEncodeError
  end.

Definition encode_hello (m : ModelManifest) : result exn bytes :=
  _ ← _validate_manifest m;
  encode_json (JObj [("type", JStr "hello"); ("protocol_version", JInt PROTOCOL_VERSION);
                     ("model_id", JStr (model_id m)); ("revision", JStr (revision m))]).

Definition opt_json (o : option Z) : json :=
  match o with Some z => JInt z | None => JNull end.

(** The dict [encode_submit] builds. *)
Definition submit_json (r : GenerationRequest) (worker_epoch : Z) : json :=
  JObj [("type", JStr "submit"); ("protocol_version", JInt PROTOCOL_VERSION);
        ("worker_epoch", JInt worker_epoch); ("request_id", JInt (request_id r));
        ("priority", JInt (priority r)); ("timeout_ms", opt_json (timeout_ms r));
        ("trace_id", JStr (trace_id r));
        ("input_token_ids", JList (JInt <$> input_token_ids r));
        ("max_new_tokens", JInt (max_new_tokens r)); ("streaming", JBool (streaming r));
        ("sampling", JObj [("temperature", num_json (temperature (sampling r)));
                           ("top_k", JInt (top_k (sampling r)));
                           ("top_p", num_json (top_p (sampling r)));
                           ("random_seed", JInt (random_seed (sampling r)))]);
        ("end_id", opt_json (end_id r)); ("pad_id", opt_json (pad_id r));
        ("stop_sequences", JList ((fun s => JList (JInt <$> s)) <$> stop_sequences r))].

Definition encode_submit (r : GenerationRequest) (worker_epoch : Z) : result exn bytes :=
  _ ← _validate_request r;
  _ ← _require_int (JInt worker_epoch) "worker_epoch" 1 u64_max;
  encode_json (submit_json r worker_epoch).

Definition encode_cancel (request_id worker_epoch : Z) : result exn bytes :=
  _ ← _require_int (JInt request_id) "request_id" 1 u64_max;
  _ ← _require_int (JInt worker_epoch) "worker_epoch" 1 u64_max;
  encode_json (JObj [("type", JStr "cancel"); ("protocol_version", JInt PROTOCOL_VERSION);
                     ("worker_epoch", JInt worker_epoch); ("request_id", JInt request_id)]).

Definition encode_health (probe_id worker_epoch : Z) : result exn bytes :=
  _ ← _require_int (JInt probe_id) "probe_id" 1 u64_max;
  _ ← _require_int (JInt worker_epoch) "worker_epoch" 1 u64_max;
  encode_json (JObj [("type", JStr "health"); ("protocol_version", JInt PROTOCOL_VERSION);
                     ("worker_epoch", JInt worker_epoch); ("probe_id", JInt probe_id)]).

(** ** Frames *)

(** [struct.pack("!I", n)]: four bytes, most significant first. *)
Definition pack_u32 (n : Z) : bytes :=
  [byte_of_Z (Z.land (Z.shiftr n 24) 255); byte_of_Z (Z.land (Z.shiftr n 16) 255);
   byte_of_Z (Z.land (Z.shiftr n 8) 255); byte_of_Z (Z.land n 255)].

(** [struct.unpack("!I", b)[0]] of four bytes. *)
Definition unpack_u32 (b : bytes) : Z :=
  fold_left (fun acc c => Z.lor (Z.shiftl acc 8) (char_code c)) b 0.

Definition encode_frame (payload : bytes) (max_payload_bytes : Z) : result exn bytes :=
  let n := Z.of_nat (List.length payload) in
  _ ← raise_if (n =? 0) (ProtocolError "frame payload must not be empty");
  _ ← raise_if ((max_payload_bytes <? n) || (u32_max <? n))
        (ProtocolError "frame payload exceeds max_payload_bytes");
  Ok (pack_u32 n ++ payload).
