(* ===== verification/ProtocolFacts.v ===== *)
(** Correctness of the wire protocol: the decoder accepts exactly the
    well-formed messages, its view of a JSON object does not depend on the
    order of the members, and what the encoders emit reads back. *)
From Stdlib Require Import ZArith Lia Ascii String SpecFloat.
From stdpp Require Import base list strings gmap.
From S2P Require Import Prelude PyFloat Json JsonFacts Protocol.
Local Open Scope Z_scope.

(** ** Equality of JSON values up to the order of dict members *)

#[warnings="-register-all"]
Inductive json_equiv : json -> json -> Prop :=
| eqv_null : json_equiv JNull JNull
| eqv_bool b : json_equiv (JBool b) (JBool b)
| eqv_int z : json_equiv (JInt z) (JInt z)
| eqv_float f : json_equiv (JFloat f) (JFloat f)
| eqv_str s : json_equiv (JStr s) (JStr s)
| eqv_list l k : Forall2 json_equiv l k -> json_equiv (JList l) (JList k)
| eqv_obj d e :
    dict_keys d = dict_keys e ->
    (forall x v w, dict_get d x = Some v -> dict_get e x = Some w -> json_equiv v w) ->
    json_equiv (JObj d) (JObj e).

Definition dict_equiv (d e : list (string * json)) : Prop := json_equiv (JObj d) (JObj e).

Lemma dict_get_keys d k : is_Some (dict_get d k) <-> k ∈ dict_keys d.
Proof.
  unfold dict_keys. rewrite elem_of_list_to_set.
  induction d as [|[k' v] d IH]; simpl.
  - rewrite elem_of_nil. by split; [intros []|].
  - rewrite elem_of_cons. destruct (decide (k = k')); [naive_solver|]. rewrite IH. naive_solver.
Qed.

#[global] Instance json_equiv_refl : Reflexive json_equiv.
Proof.
  intros v. induction v as [| | | | |l IH|d IH] using json_ind'; try constructor; auto.
  - induction IH; constructor; auto.
  - intros x v w Hv Hw. simplify_eq. rewrite Forall_forall in IH.
    assert (exists k, (k, v) ∈ d) as [k Hk].
    { clear IH. induction d as [|[k' v'] d IHd]; simpl in *; [done|].
      destruct (decide (x = k')); simplify_eq; [exists k'; by left|].
      destruct IHd as [k Hk]; [done|]. exists k. by right. }
    by apply (IH (k, v)).
Qed.

Lemma dict_item_equiv d e k : dict_equiv d e -> json_equiv (dict_item d k) (dict_item e k).
Proof.
  inversion 1 as [| | | | | |? ? Hk Hv]; subst. unfold dict_item.
  assert (is_Some (dict_get d k) <-> is_Some (dict_get e k)) as Hiff.
  { by rewrite !dict_get_keys, Hk. }
  destruct (dict_get d k) eqn:Ed, (dict_get e k) eqn:Ee; simpl.
  - by eapply Hv.
  - destruct Hiff as [[? ?] _]; [eauto|done].
  - destruct Hiff as [_ [? ?]]; [eauto|done].
  - constructor.
Qed.

(** ** The decoder respects the equivalence *)

Lemma bind_ext {E A B} (m m' : result E A) (k k' : A -> result E B) :
  m = m' -> (forall a, k a = k' a) -> (m ≫= k) = (m' ≫= k').
Proof. intros -> H. destruct m'; simpl; auto. Qed.

#[global] Instance require_int_proper :
  Proper (json_equiv ==> eq ==> eq ==> eq ==> eq) _require_int.
Proof. intros v w H ? ? -> ? ? -> ? ? ->. by inversion H. Qed.

#[global] Instance require_string_proper :
  Proper (json_equiv ==> eq ==> eq ==> eq) _require_string.
Proof. intros v w H ? ? -> ? ? ->. by inversion H. Qed.

#[global] Instance require_bool_proper : Proper (json_equiv ==> eq ==> eq) _require_bool.
Proof. intros v w H ? ? ->. by inversion H. Qed.

#[global] Instance require_protocol_proper : Proper (json_equiv ==> eq) _require_protocol.
Proof. intros v w H. unfold _require_protocol. by rewrite H. Qed.

#[global] Instance require_epoch_proper : Proper (json_equiv ==> eq ==> eq) _require_epoch.
Proof. intros v w H ? ? ->. unfold _require_epoch. by rewrite H. Qed.

Lemma exact_fields_bind {A} v w expected desc (k k' : list (string * json) -> result exn A) :
  json_equiv v w ->
  (forall d e, dict_equiv d e -> k d = k' e) ->
  (_require_exact_fields v expected desc ≫= k)
  = (_require_exact_fields w expected desc ≫= k').
Proof.
  intros H Hk. destruct H; try done. simpl.
  replace (dict_keys e) with (dict_keys d) by done.
  case_bool_decide; simpl; [|done]. apply Hk. by constructor.
Qed.

(** Step through two runs of the same code on equivalent objects. *)
Ltac equiv_steps :=
  repeat first
    [ reflexivity
    | eapply exact_fields_bind; [by apply dict_item_equiv || eassumption|intros ? ? ?]
    | apply bind_ext; [by match goal with H : dict_equiv ?d ?e |- _ =>
          first [ done
                | match goal with |- context [dict_item d ?k] =>
                    rewrite (dict_item_equiv d e k H); done end
                | match goal with |- context [dict_item d ?k] =>
                    pose proof (dict_item_equiv d e k H) as ->; done end ]
        end|intros ?] ].

#[global] Instance status_proper : Proper (json_equiv ==> eq) _status_from_json.
Proof. intros v w H. unfold _status_from_json. equiv_steps. Qed.

#[global] Instance manifest_proper : Proper (json_equiv ==> eq) _manifest_from_json.
Proof. intros v w H. unfold _manifest_from_json. equiv_steps. Qed.

#[global] Instance limits_proper : Proper (json_equiv ==> eq) _limits_from_json.
Proof. intros v w H. unfold _limits_from_json. equiv_steps. Qed.

#[global] Instance usage_proper : Proper (json_equiv ==> eq) _usage_from_json.
Proof. intros v w H. unfold _usage_from_json. equiv_steps. Qed.

#[global] Instance envelope_proper : Proper (dict_equiv ==> eq ==> eq) _request_envelope.
Proof.
  intros d e H ? ? ->. unfold _request_envelope. equiv_steps.
  by rewrite (dict_item_equiv d e _ H).
Qed.

Lemma envelope_equiv d e n : dict_equiv d e -> _request_envelope d n = _request_envelope e n.
Proof. by intros ->. Qed.

#[global] Instance finish_reason_proper : Proper (json_equiv ==> eq) terminal_finish_reason.
Proof. by destruct 1. Qed.

#[global] Instance delta_tokens_proper : Proper (json_equiv ==> eq) delta_tokens.
Proof.
  destruct 1 as [| | | | |l k Hlk|]; try done.
  destruct Hlk as [|x y l k Hxy Hlk]; [done|].
  assert (Forall2 json_equiv (x :: l) (y :: k)) as H by by constructor.
  unfold delta_tokens.
  induction H as [|a b l' k' Hab _ IH]; [done|]. simpl. rewrite Hab. by rewrite IH.
Qed.

#[global] Instance decode_object_proper : Proper (json_equiv ==> eq ==> eq) decode_object.
Proof.
  intros v w H ? epoch ->. unfold decode_object.
  destruct v as [| | | | | |d], w as [| | | | | |e]; try done; try by inversion H.
  assert (dict_equiv d e) as Hd by done.
  apply bind_ext; [pose proof (dict_item_equiv d e "type" Hd) as Ht; unfold dict_item in Ht;
                   by rewrite Ht|].
  intros ty. case_bool_decide; [unfold decode_hello_ack; equiv_steps|].
  destruct epoch as [n|]; [|done].
  repeat case_bool_decide; try done.
  - unfold decode_accepted. equiv_steps.
    apply bind_ext; [by apply envelope_equiv|done].
  - unfold decode_rejected. equiv_steps.
    apply bind_ext; [by apply envelope_equiv|done].
  - unfold decode_token_delta. equiv_steps.
    apply bind_ext; [by apply envelope_equiv|intros]. equiv_steps.
  - unfold decode_terminal. equiv_steps.
    apply bind_ext; [by apply envelope_equiv|intros]. equiv_steps.
  - unfold decode_stats. equiv_steps.
Qed.

(** ** Well-formed messages and their JSON form *)

Definition status_wf (s : Status) : Prop := code s ∈ STATUS_CODES.

Definition manifest_wf (m : ModelManifest) : Prop :=
  model_id m <> "" /\ revision m <> "" /\ tokenizer_fingerprint m <> ""
  /\ chat_template_fingerprint m <> "" /\ engine_fingerprint m <> ""
  /\ 0 <= eos_token_id m <= i32_max /\ 0 <= pad_token_id m <= i32_max
  /\ 1 <= max_input_tokens m <= u32_max /\ 1 <= max_output_tokens m <= u32_max
  /\ 1 <= max_sequence_tokens m <= u32_max /\ precision m <> ""
  /\ 1 <= max_batch_size m <= u32_max
  /\ max_input_tokens m <= max_sequence_tokens m
  /\ max_output_tokens m <= max_sequence_tokens m.

Definition limits_wf (l : WorkerLimits) : Prop :=
  1 <= max_active_requests l <= u32_max /\ 1 <= max_total_input_tokens l <= u64_max
  /\ 1 <= max_reserved_output_tokens l <= u64_max
  /\ 1 <= max_frame_payload_bytes l <= u32_max
  /\ 1 <= max_session_egress_frames l <= u32_max
  /\ 1 <= max_session_egress_bytes l <= u64_max
  /\ 1 <= max_request_egress_frames l <= u32_max
  /\ 1 <= max_request_egress_bytes l <= u64_max
  /\ max_request_egress_frames l <= max_session_egress_frames l
  /\ max_request_egress_bytes l <= max_session_egress_bytes l
  /\ max_frame_payload_bytes l <= max_request_egress_bytes l.

Definition usage_wf (u : Usage) : Prop :=
  0 <= prompt_tokens u <= u64_max /\ 0 <= completion_tokens u <= u64_max.

Definition stats_wf (s : Stats) : Prop :=
  status_wf (st_status s) /\ ready s = status_ok (st_status s)
  /\ 1 <= probe_id s <= u64_max /\ 0 <= uptime_ms s <= u64_max
  /\ 0 <= active_requests s <= u64_max /\ 0 <= reserved_input_tokens s <= u64_max
  /\ 0 <= reserved_output_tokens s <= u64_max /\ 0 <= session_egress_frames s <= u64_max
  /\ 0 <= session_egress_bytes s <= u64_max
  /\ 0 <= session_egress_high_watermark_frames s <= u64_max
  /\ 0 <= session_egress_high_watermark_bytes s <= u64_max
  /\ 0 <= rejected_requests s <= u64_max /\ 0 <= backpressure_requests s <= u64_max
  /\ 0 <= cancelled_requests s <= u64_max
  /\ session_egress_frames s <= session_egress_high_watermark_frames s
  /\ session_egress_bytes s <= session_egress_high_watermark_bytes s.

(** What the Worker of epoch [epoch] may send. *)
Definition message_wf (epoch : Z) (m : ServerMessage) : Prop :=
  1 <= epoch <= u64_max /\
  match m with
  | MHelloAck h => worker_epoch h = epoch /\ manifest_wf (manifest h) /\ limits_wf (limits h)
  | MAccepted rid => 1 <= rid <= u64_max
  | MRejected rid s => 1 <= rid <= u64_max /\ status_wf s /\ status_ok s = false
  | MTokenDelta d =>
      1 <= td_request_id d <= u64_max /\ 0 <= sequence_no d <= u64_max
      /\ token_ids d <> [] /\ Forall (fun t => 0 <= t <= i32_max) (token_ids d)
  | MTerminal t =>
      1 <= tm_request_id t <= u64_max /\ status_wf (tm_status t) /\ usage_wf (usage t)
      /\ match finish_reason t with
         | Some fr => fr ∈ FINISH_REASONS
         | None => status_ok (tm_status t) = false
         end
  | MStats s => stats_wf s
  end.

(** The Worker's JSON objects (src/ipc/ipc_protocol.cpp). *)
Definition statusJson (s : Status) : json :=
  JObj [("code", JStr (code s)); ("message", JStr (message s))].

Definition manifestJson (m : ModelManifest) : json :=
  JObj [("model_id", JStr (model_id m)); ("revision", JStr (revision m));
        ("tokenizer_fingerprint", JStr (tokenizer_fingerprint m));
        ("chat_template_fingerprint", JStr (chat_template_fingerprint m));
        ("engine_fingerprint", JStr (engine_fingerprint m));
        ("eos_token_id", JInt (eos_token_id m)); ("pad_token_id", JInt (pad_token_id m));
        ("max_input_tokens", JInt (max_input_tokens m));
        ("max_output_tokens", JInt (max_output_tokens m));
        ("max_sequence_tokens", JInt (max_sequence_tokens m));
        ("precision", JStr (precision m)); ("max_batch_size", JInt (max_batch_size m))].

Definition limitsJson (l : WorkerLimits) : json :=
  JObj [("max_active_requests", JInt (max_active_requests l));
        ("max_total_input_tokens", JInt (max_total_input_tokens l));
        ("max_reserved_output_tokens", JInt (max_reserved_output_tokens l));
        ("max_frame_payload_bytes", JInt (max_frame_payload_bytes l));
        ("max_session_egress_frames", JInt (max_session_egress_frames l));
        ("max_session_egress_bytes", JInt (max_session_egress_bytes l));
        ("max_request_egress_frames", JInt (max_request_egress_frames l));
        ("max_request_egress_bytes", JInt (max_request_egress_bytes l))].

Definition usageJson (u : Usage) : json :=
  JObj [("prompt_tokens", JInt (prompt_tokens u));
        ("completion_tokens", JInt (completion_tokens u))].

Definition messageJson (epoch : Z) (m : ServerMessage) : json :=
  let envelope ty := [("type", JStr ty); ("protocol_version", JInt PROTOCOL_VERSION);
                      ("worker_epoch", JInt epoch)] in
  match m with
  | MHelloAck h => JObj (envelope "hello_ack" ++
      [("manifest", manifestJson (manifest h)); ("limits", limitsJson (limits h))])
  | MAccepted rid => JObj (envelope "accepted" ++ [("request_id", JInt rid)])
  | MRejected rid s => JObj (envelope "rejected" ++
      [("request_id", JInt rid); ("status", statusJson s)])
  | MTokenDelta d => JObj (envelope "token_delta" ++
      [("request_id", JInt (td_request_id d)); ("sequence_no", JInt (sequence_no d));
       ("token_ids", JList (JInt <$> token_ids d))])
  | MTerminal t => JObj (envelope "terminal" ++
      [("request_id", JInt (tm_request_id t)); ("status", statusJson (tm_status t));
       ("finish_reason", match finish_reason t with Some fr => JStr fr | None => JNull end);
       ("usage", usageJson (usage t))])
  | MStats s => JObj (envelope "stats" ++
      [("probe_id", JInt (probe_id s)); ("ready", JBool (ready s));
       ("status", statusJson (st_status s)); ("uptime_ms", JInt (uptime_ms s));
       ("active_requests", JInt (active_requests s));
       ("reserved_input_tokens", JInt (reserved_input_tokens s));
       ("reserved_output_tokens", JInt (reserved_output_tokens s));
       ("session_egress_frames", JInt (session_egress_frames s));
       ("session_egress_bytes", JInt (session_egress_bytes s));
       ("session_egress_high_watermark_frames", JInt (session_egress_high_watermark_frames s));
       ("session_egress_high_watermark_bytes", JInt (session_egress_high_watermark_bytes s));
       ("rejected_requests", JInt (rejected_requests s));
       ("backpressure_requests", JInt (backpressure_requests s));
       ("cancelled_requests", JInt (cancelled_requests s))])
  end.

(** ** What a check that returned tells *)

Lemma require_int_Ok v d lo hi z :
  _require_int v d lo hi = Ok z <-> v = JInt z /\ lo <= z <= hi.
Proof.
  unfold _require_int. split.
  - destruct v; try done. case_match; intros; simplify_eq.
    split; [done|]. split_bools. lia.
  - intros [-> ?]. destruct (_ || _) eqn:E; [|done]. apply orb_true_iff in E. lia.
Qed.

Lemma require_string_Ok v d ne s :
  _require_string v d ne = Ok s <-> v = JStr s /\ (ne = true -> s <> "").
Proof.
  unfold _require_string. split.
  - destruct v as [| | | |s'| |]; try done. destruct ne; simpl; [|naive_solver].
    case_bool_decide; naive_solver.
  - intros [-> Hne]. destruct ne; simpl; [|done]. by rewrite bool_decide_false by auto.
Qed.

Lemma require_bool_Ok v d b : _require_bool v d = Ok b <-> v = JBool b.
Proof. split; [destruct v; naive_solver|by intros ->]. Qed.

Lemma require_protocol_Ok v u : _require_protocol v = Ok u <-> v = JInt PROTOCOL_VERSION.
Proof.
  unfold _require_protocol. split.
  - intros H. inv_ok. apply require_int_Ok in H0 as [-> _]. split_bools.
    by apply Z.eqb_eq in H as ->.
  - intros ->. destruct u. reflexivity.
Qed.

Lemma require_epoch_Ok v oe z :
  _require_epoch v oe = Ok z <->
  v = JInt z /\ 1 <= z <= u64_max /\ (forall e, oe = Some e -> z = e).
Proof.
  unfold _require_epoch. split.
  - intros H. inv_ok. apply require_int_Ok in H0 as [-> ?].
    repeat split; try lia. intros e ->. split_bools. by apply Z.eqb_eq.
  - intros (-> & Hr & He).
    rewrite (proj2 (require_int_Ok (JInt z) "worker_epoch" 1 u64_max z)) by done. simpl.
    destruct oe as [e|]; simpl; [|done]. rewrite (He e) by done. by rewrite Z.eqb_refl.
Qed.

Lemma exact_fields_Ok v exp desc d :
  _require_exact_fields v exp desc = Ok d <-> v = JObj d /\ dict_keys d = list_to_set exp.
Proof.
  unfold _require_exact_fields. split.
  - destruct v; try done. case_bool_decide; naive_solver.
  - intros [-> ?]. by rewrite bool_decide_true.
Qed.

Lemma envelope_Ok m e rid :
  _request_envelope m e = Ok rid <->
  dict_item m "protocol_version" = JInt PROTOCOL_VERSION
  /\ dict_item m "worker_epoch" = JInt e /\ 1 <= e <= u64_max
  /\ dict_item m "request_id" = JInt rid /\ 1 <= rid <= u64_max.
Proof.
  unfold _request_envelope. split.
  - intros H. inv_ok. apply require_protocol_Ok in H0 as ->.
    apply require_epoch_Ok in H1 as (-> & ? & He). rewrite (He e) by done.
    apply require_int_Ok in H as [-> ?]. rewrite (He e) in * by done. done.
  - intros (-> & -> & ? & -> & ?).
    rewrite (proj2 (require_protocol_Ok _ tt)) by done.
    rewrite bind_Ok_l, (proj2 (require_epoch_Ok _ _ e)) by naive_solver.
    rewrite bind_Ok_l. by apply require_int_Ok.
Qed.

Lemma delta_tokens_Ok v l :
  delta_tokens v = Ok l <->
  v = JList (JInt <$> l) /\ l <> [] /\ Forall (fun t => 0 <= t <= i32_max) l.
Proof.
  assert (forall k r, mapM (fun t => _require_int t "token_id" 0 i32_max) k = Ok r <->
            k = JInt <$> r /\ Forall (fun t => 0 <= t <= i32_max) r) as Hmap.
  { intros k r. rewrite mapM_Ok_Forall2. split.
    - induction 1 as [|x z k r Hx _ [-> ?]]; [done|].
      apply require_int_Ok in Hx as [-> ?]. split; [done|by constructor].
    - intros [-> Hr]. induction Hr; simpl; constructor; [by apply require_int_Ok|done]. }
  unfold delta_tokens. split.
  - destruct v as [| | | | |[|x k]|]; try done. intros [Hk ?]%Hmap.
    rewrite Hk. destruct l; naive_solver.
  - intros (-> & Hne & Hl). destruct l as [|z l]; [done|].
    change (JInt <$> z :: l) with (JInt z :: (JInt <$> l)).
    apply Hmap. done.
Qed.

Lemma finish_reason_Ok v o :
  terminal_finish_reason v = Ok o <->
  match o with
  | None => v = JNull
  | Some fr => v = JStr fr /\ fr ∈ FINISH_REASONS
  end.
Proof.
  unfold terminal_finish_reason. split.
  - destruct v; intros H; inv_ok; try done;
      match goal with Hs : _require_string _ _ _ = Ok _ |- _ =>
        apply require_string_Ok in Hs as [? _] end; simplify_eq.
    split_bools. by rewrite bool_decide_eq_true in *.
  - destruct o as [fr|]; [|by intros ->]. intros [-> Hin].
    rewrite (proj2 (require_string_Ok (JStr fr) _ true fr)).
    + simpl. by rewrite bool_decide_true.
    + split; [done|]. intros _ ->.
      assert (bool_decide ("" ∈ FINISH_REASONS) = false) as Hf by reflexivity.
      by apply bool_decide_eq_false in Hf.
Qed.

Lemma status_code_nonempty c : c ∈ STATUS_CODES -> c <> "".
Proof.
  intros Hin ->.
  assert (bool_decide ("" ∈ STATUS_CODES) = false) as Hf by reflexivity.
  by apply bool_decide_eq_false in Hf.
Qed.

(** An object equivalent to a known one, from its keys and members. *)
Lemma obj_equiv_intro d e :
  dict_keys d = dict_keys e -> Forall (fun kv => json_equiv (dict_item d kv.1) kv.2) e ->
  json_equiv (JObj d) (JObj e).
Proof.
  intros Hk Hall. constructor; [done|]. intros x v w Hv Hw.
  assert ((x, w) ∈ e) as Hin.
  { clear -Hw. induction e as [|[k' w'] e IH]; simpl in *; [done|].
    destruct (decide (x = k')); simplify_eq; [by left|right; auto]. }
  rewrite Forall_forall in Hall. specialize (Hall _ Hin). simpl in Hall.
  unfold dict_item in Hall. by rewrite Hv in Hall.
Qed.

(** Read the members of an object that is equivalent to a literal one. *)
Ltac read_literal :=
  repeat match goal with
  | |- context [dict_item ?d ?k] =>
      let v := eval vm_compute in (dict_item d k) in change (dict_item d k) with v
  end.

(** Use each returned check. *)
Ltac use_checks :=
  repeat match goal with
  | H : _require_exact_fields _ _ _ = Ok _ |- _ => apply exact_fields_Ok in H as [? ?]
  | H : _require_int _ _ _ _ = Ok _ |- _ => apply require_int_Ok in H as [? ?]
  | H : _require_string _ _ _ = Ok _ |- _ => apply require_string_Ok in H as [? ?]
  | H : _require_bool _ _ = Ok _ |- _ => apply require_bool_Ok in H
  | H : _require_protocol _ = Ok _ |- _ => apply require_protocol_Ok in H
  | H : _require_epoch _ _ = Ok _ |- _ => apply require_epoch_Ok in H as (? & ? & ?)
  | H : _request_envelope _ _ = Ok _ |- _ => apply envelope_Ok in H as (? & ? & ? & ? & ?)
  | H : delta_tokens _ = Ok _ |- _ => apply delta_tokens_Ok in H as (? & ? & ?)
  | H : terminal_finish_reason _ = Ok _ |- _ => apply finish_reason_Ok in H
  end.

Lemma require_int_in z d lo hi : lo <= z <= hi -> _require_int (JInt z) d lo hi = Ok z.
Proof. intros. by apply require_int_Ok. Qed.

Lemma require_string_in s d : s <> "" -> _require_string (JStr s) d true = Ok s.
Proof. intros. by apply require_string_Ok. Qed.

Lemma raise_if_no {E} b (e : E) : b = false -> raise_if b e = Ok tt.
Proof. by intros ->. Qed.

(** Run the checks of a literal object whose fields are in range. *)
Ltac run_checks :=
  repeat first
    [ rewrite bind_Ok_l
    | rewrite require_int_in by (assumption || lia)
    | rewrite require_string_in by assumption
    | rewrite (proj2 (require_protocol_Ok _ tt)) by reflexivity
    | rewrite raise_if_no by (rewrite ?orb_false_iff; lia) ].

(** Discharge the members of [obj_equiv_intro]. *)
Ltac members :=
  repeat (constructor; simpl; [first [ match goal with H : dict_item _ _ = _ |- _ =>
                                           rewrite H; reflexivity end
                                     | assumption | by auto ]|]);
  constructor.

Lemma status_Ok v s : _status_from_json v = Ok s <-> status_wf s /\ json_equiv v (statusJson s).
Proof.
  split.
  - unfold _status_from_json. intros H. inv_ok. use_checks. split_bools. subst.
    rewrite bool_decide_eq_true in *. split; [done|].
    apply obj_equiv_intro; [done|]. members.
  - intros [Hs ->]. unfold _status_from_json, statusJson. destruct s as [c m].
    rewrite (proj2 (exact_fields_Ok _ _ _ _)) by done. rewrite bind_Ok_l. read_literal.
    rewrite (proj2 (require_string_Ok (JStr c) _ true c)).
    + simpl. by rewrite bool_decide_true.
    + split; [done|]. intros _. by apply status_code_nonempty.
Qed.

Lemma usage_Ok v u : _usage_from_json v = Ok u <-> usage_wf u /\ json_equiv v (usageJson u).
Proof.
  split.
  - unfold _usage_from_json. intros H. inv_ok. use_checks. subst. split; [by split|].
    apply obj_equiv_intro; [done|]. members.
  - destruct u as [p c]. intros [[Hp Hc] ->]. simpl in Hp, Hc.
    unfold _usage_from_json, usageJson.
    rewrite (proj2 (exact_fields_Ok _ _ _ _)) by done. rewrite bind_Ok_l. read_literal.
    by run_checks.
Qed.

Lemma manifest_Ok v m :
  _manifest_from_json v = Ok m <-> manifest_wf m /\ json_equiv v (manifestJson m).
Proof.
  split.
  - unfold _manifest_from_json. intros H. inv_ok. use_checks. split_bools. subst.
    split; [repeat split; simpl; auto; lia|].
    apply obj_equiv_intro; [done|]. members.
  - destruct m. intros [Hm ->]. unfold manifest_wf in Hm; simpl in Hm. destruct_and! Hm.
    unfold _manifest_from_json, manifestJson.
    rewrite (proj2 (exact_fields_Ok _ _ _ _)) by done. rewrite bind_Ok_l. read_literal.
    by run_checks.
Qed.

Lemma limits_Ok v l :
  _limits_from_json v = Ok l <-> limits_wf l /\ json_equiv v (limitsJson l).
Proof.
  split.
  - unfold _limits_from_json. intros H. inv_ok. use_checks. split_bools. subst.
    split; [repeat split; simpl; auto; lia|].
    apply obj_equiv_intro; [done|]. members.
  - destruct l. intros [Hm ->]. unfold limits_wf in Hm; simpl in Hm. destruct_and! Hm.
    unfold _limits_from_json, limitsJson.
    rewrite (proj2 (exact_fields_Ok _ _ _ _)) by done. rewrite bind_Ok_l. read_literal.
    by run_checks.
Qed.

(** ** The decoder is exact: soundness and completeness per message *)

(** Use the nested decoders too. *)
Ltac use_nested :=
  repeat match goal with
  | H : _status_from_json _ = Ok _ |- _ => apply status_Ok in H as [? ?]
  | H : _usage_from_json _ = Ok _ |- _ => apply usage_Ok in H as [? ?]
  | H : _manifest_from_json _ = Ok _ |- _ => apply manifest_Ok in H as [? ?]
  | H : _limits_from_json _ = Ok _ |- _ => apply limits_Ok in H as [? ?]
  end.

Ltac sound_message :=
  let H := fresh "H" in
  intros H; inv_ok; use_checks; use_nested; split_bools; simplify_eq;
  split; [split; simpl; auto|]; try (apply obj_equiv_intro; [done|]; members).

Section Sound.
Context (d : list (string * json)) (e : Z) (m : ServerMessage).

Lemma decode_hello_ack_sound oe :
  (forall e', oe = Some e' -> e = e') ->
  dict_item d "type" = JStr "hello_ack" -> dict_item d "worker_epoch" = JInt e ->
  decode_hello_ack (JObj d) oe = Ok m ->
  message_wf e m /\ json_equiv (JObj d) (messageJson e m).
Proof.
  intros Hoe Hty He H. unfold decode_hello_ack in H. inv_ok. use_checks. use_nested.
  simplify_eq.
  match goal with H : dict_item _ "worker_epoch" = JInt ?z |- _ =>
    assert (z = e) as -> by congruence end.
  split; [split; simpl; auto|]. apply obj_equiv_intro; [done|]. members.
Qed.

Lemma decode_accepted_sound :
  dict_item d "type" = JStr "accepted" -> decode_accepted (JObj d) e = Ok m ->
  message_wf e m /\ json_equiv (JObj d) (messageJson e m).
Proof. intros Hty. unfold decode_accepted. sound_message. Qed.

Lemma decode_rejected_sound :
  dict_item d "type" = JStr "rejected" -> decode_rejected (JObj d) e = Ok m ->
  message_wf e m /\ json_equiv (JObj d) (messageJson e m).
Proof. intros Hty. unfold decode_rejected. sound_message. Qed.

Lemma decode_token_delta_sound :
  dict_item d "type" = JStr "token_delta" -> decode_token_delta (JObj d) e = Ok m ->
  message_wf e m /\ json_equiv (JObj d) (messageJson e m).
Proof. intros Hty. unfold decode_token_delta. sound_message. Qed.

Lemma decode_terminal_sound :
  dict_item d "type" = JStr "terminal" -> decode_terminal (JObj d) e = Ok m ->
  message_wf e m /\ json_equiv (JObj d) (messageJson e m).
Proof.
  intros Hty H. unfold decode_terminal in H. inv_ok. use_checks. use_nested.
  match goal with H : _ && bool_decide (?o = None) = false |- _ => rename H into Hfr; destruct o as [fr|] end;
    simplify_eq; destruct_and?.
  - split; [split; simpl; auto|]. apply obj_equiv_intro; [done|]. members.
  - rewrite bool_decide_true, andb_true_r in Hfr by done.
    split; [split; simpl; auto|]. apply obj_equiv_intro; [done|]. members.
Qed.

Lemma decode_stats_sound :
  dict_item d "type" = JStr "stats" -> decode_stats (JObj d) e = Ok m ->
  message_wf e m /\ json_equiv (JObj d) (messageJson e m).
Proof.
  intros Hty H. unfold decode_stats in H. inv_ok. use_checks. use_nested. split_bools.
  simplify_eq.
  match goal with H : forall e', Some _ = Some e' -> _ |- _ => specialize (H _ eq_refl) end.
  subst. match goal with H : eqb _ _ = true |- _ => apply eqb_prop in H end.
  split; [split; [done|]; unfold message_wf, stats_wf; simpl; repeat split; auto; lia|].
  apply obj_equiv_intro; [done|]. members.
Qed.
End Sound.

Lemma status_complete s : status_wf s -> _status_from_json (statusJson s) = Ok s.
Proof. intros. by apply status_Ok. Qed.
Lemma usage_complete u : usage_wf u -> _usage_from_json (usageJson u) = Ok u.
Proof. intros. by apply usage_Ok. Qed.
Lemma manifest_complete m : manifest_wf m -> _manifest_from_json (manifestJson m) = Ok m.
Proof. intros. by apply manifest_Ok. Qed.
Lemma limits_complete l : limits_wf l -> _limits_from_json (limitsJson l) = Ok l.
Proof. intros. by apply limits_Ok. Qed.

Lemma envelope_complete m e rid :
  dict_item m "protocol_version" = JInt PROTOCOL_VERSION ->
  dict_item m "worker_epoch" = JInt e -> 1 <= e <= u64_max ->
  dict_item m "request_id" = JInt rid -> 1 <= rid <= u64_max ->
  _request_envelope m e = Ok rid.
Proof. intros. by apply envelope_Ok. Qed.

Lemma epoch_complete e : 1 <= e <= u64_max -> _require_epoch (JInt e) (Some e) = Ok e.
Proof. intros. apply require_epoch_Ok. naive_solver. Qed.

Lemma dict_item_cons_eq k v d : dict_item ((k, v) :: d) k = v.
Proof. unfold dict_item. simpl. by rewrite decide_True. Qed.

Lemma dict_item_cons_ne k k' v d : k <> k' -> dict_item ((k', v) :: d) k = dict_item d k.
Proof. intros. unfold dict_item. simpl. by rewrite decide_False. Qed.

(** Look members up in a literal object whose values are not literal. *)
Ltac lookup_literal :=
  repeat first [ rewrite dict_item_cons_eq | rewrite dict_item_cons_ne by done ].

Ltac open_message :=
  cbn [app]; rewrite (proj2 (exact_fields_Ok _ _ _ _)) by done; rewrite bind_Ok_l;
  lookup_literal.

(** Every well-formed message of the Worker is accepted as it is. *)
Lemma decode_object_complete e m oe :
  message_wf e m -> (oe = Some e \/ (oe = None /\ exists h, m = MHelloAck h)) ->
  decode_object (messageJson e m) oe = Ok m.
Proof.
  intros [He Hm] Hoe.
  destruct m as [h|rid|rid s|d|t|s].
  - destruct Hm as (Hh & Hman & Hlim).
    assert (forall o, o = oe -> _require_epoch (JInt e) o = Ok e) as Hep.
    { intros o ->. apply require_epoch_Ok. naive_solver. }
    change (decode_hello_ack (messageJson e (MHelloAck h)) oe = Ok (MHelloAck h)).
    unfold decode_hello_ack, messageJson. open_message. run_checks.
    rewrite Hep, bind_Ok_l by done. rewrite manifest_complete, bind_Ok_l by done.
    rewrite limits_complete, bind_Ok_l by done. rewrite <-Hh. by destruct h.
  - destruct Hoe as [->|[-> [? ?]]]; [|done].
    change (decode_accepted (messageJson e (MAccepted rid)) e = Ok (MAccepted rid)).
    unfold decode_accepted, messageJson. open_message.
    by rewrite (envelope_complete _ e rid).
  - destruct Hoe as [->|[-> [? ?]]]; [|done]. destruct Hm as (? & ? & Hs).
    change (decode_rejected (messageJson e (MRejected rid s)) e = Ok (MRejected rid s)).
    unfold decode_rejected, messageJson. open_message.
    rewrite status_complete, bind_Ok_l, raise_if_no, bind_Ok_l by done.
    by rewrite (envelope_complete _ e rid).
  - destruct Hoe as [->|[-> [? ?]]]; [|done]. destruct Hm as (? & ? & ? & ?).
    change (decode_token_delta (messageJson e (MTokenDelta d)) e = Ok (MTokenDelta d)).
    unfold decode_token_delta, messageJson. open_message.
    rewrite (proj2 (delta_tokens_Ok _ (token_ids d))), bind_Ok_l by done.
    rewrite (envelope_complete _ e (td_request_id d)), bind_Ok_l by done.
    run_checks. by destruct d.
  - destruct Hoe as [->|[-> [? ?]]]; [|done]. destruct Hm as (? & ? & ? & Hfr).
    change (decode_terminal (messageJson e (MTerminal t)) e = Ok (MTerminal t)).
    unfold decode_terminal, messageJson. open_message.
    rewrite status_complete, bind_Ok_l by done.
    rewrite (proj2 (finish_reason_Ok _ (finish_reason t))), bind_Ok_l
      by (by destruct (finish_reason t)).
    rewrite raise_if_no, bind_Ok_l.
    2:{ destruct (finish_reason t); [by rewrite bool_decide_false, andb_false_r|].
        by rewrite Hfr. }
    rewrite (envelope_complete _ e (tm_request_id t)), bind_Ok_l by done.
    rewrite usage_complete, bind_Ok_l by done. by destruct t.
  - destruct Hoe as [->|[-> [? ?]]]; [|done].
    unfold message_wf, stats_wf in Hm. destruct_and! Hm.
    change (decode_stats (messageJson e (MStats s)) e = Ok (MStats s)).
    unfold decode_stats, messageJson. open_message. run_checks.
    rewrite epoch_complete, bind_Ok_l, status_complete, bind_Ok_l by done.
    change (_require_bool (JBool (ready s)) "ready") with (@Ok exn bool (ready s)).
    rewrite bind_Ok_l, raise_if_no, bind_Ok_l
      by (apply negb_false_iff;
          match goal with H : ready s = _ |- _ => rewrite H end; apply eqb_reflx).
    run_checks. by destruct s.
Qed.

(** Exactness: with the session's epoch known, the decoder returns [m]
    precisely on the JSON form of the well-formed message [m], whatever the
    order of the members. *)
Lemma decode_object_exact v e m :
  decode_object v (Some e) = Ok m <-> message_wf e m /\ json_equiv v (messageJson e m).
Proof.
  split.
  - destruct v as [| | | | | |d]; try done. unfold decode_object. intros H.
    apply bind_Ok_inv in H as (ty & Hty & H). apply require_string_Ok in Hty as [Hty _].
    fold (dict_item d "type") in Hty.
    repeat (case_bool_decide; [subst ty;
      first [ by eapply decode_accepted_sound | by eapply decode_rejected_sound
            | by eapply decode_token_delta_sound | by eapply decode_terminal_sound
            | by eapply decode_stats_sound
            | eapply decode_hello_ack_sound; [|done| |done];
              unfold decode_hello_ack in H; inv_ok; use_checks; simplify_eq; naive_solver ]|]).
    done.
  - intros [Hm ->]. by apply decode_object_complete; [|left].
Qed.

(** Before the handshake only a [HelloAck] is accepted. *)
Lemma decode_object_handshake v m :
  decode_object v None = Ok m <->
  exists h, m = MHelloAck h /\ message_wf (worker_epoch h) m
            /\ json_equiv v (messageJson (worker_epoch h) m).
Proof.
  split.
  - destruct v as [| | | | | |d]; try done. unfold decode_object. intros H.
    apply bind_Ok_inv in H as (ty & Hty & H). apply require_string_Ok in Hty as [Hty _].
    fold (dict_item d "type") in Hty. case_bool_decide; [subst ty|done].
    assert (exists h, m = MHelloAck h /\ dict_item d "worker_epoch" = JInt (worker_epoch h))
      as (h & -> & He).
    { unfold decode_hello_ack in H. inv_ok. use_checks. simplify_eq. eauto. }
    exists h. split; [done|]. eapply (decode_hello_ack_sound _ _ _ None); eauto; done.
  - intros (h & -> & Hm & ->).
    apply (decode_object_complete (worker_epoch h)); [exact Hm|]. right. eauto.
Qed.
