(* ===== verification/ProtocolWire.v ===== *)
(** Theorems about the wire protocol at the level of payload bytes
    (clients/python/kim_llm_client/protocol.py): what the decoder accepts,
    which errors it raises, and that what the encoders send reads back. *)
From Stdlib Require Import ZArith Lia Ascii String SpecFloat.
From stdpp Require Import base list strings gmap.
From S2P Require Import Prelude PyFloat Json JsonFacts Protocol ProtocolFacts.
Local Open Scope Z_scope.

(** ** The strings of a server message *)

Definition status_utf8 (s : Status) : bool := utf8_valid (chars (message s)).

(** The strings of a message the Worker chose freely are UTF-8. *)
Definition message_utf8 (m : ServerMessage) : bool :=
  match m with
  | MHelloAck h =>
      forallb (fun s => utf8_valid (chars s))
        [model_id (manifest h); revision (manifest h); tokenizer_fingerprint (manifest h);
         chat_template_fingerprint (manifest h); engine_fingerprint (manifest h);
         precision (manifest h)]
  | MRejected _ s => status_utf8 s
  | MTerminal t => status_utf8 (tm_status t)
  | MStats s => status_utf8 (st_status s)
  | _ => true
  end.

(** The width constants as numerals, for [lia]. *)
Ltac widths :=
  change u64_max with 18446744073709551615 in *; change u32_max with 4294967295 in *;
  change i32_max with 2147483647 in *; change i32_min with (-2147483648) in *;
  change PROTOCOL_VERSION with 1 in *.

Lemma u64_printable lo z : - u64_max <= lo -> lo <= z <= u64_max -> int_printable z = true.
Proof. intros. apply int_printable_bound. widths. lia. Qed.

Lemma small_printable z : - u64_max <= z <= u64_max -> int_printable z = true.
Proof. intros. apply (u64_printable (- u64_max)); lia. Qed.

Lemma token_list_wf l hi : hi <= u64_max ->
  Forall (fun t => 0 <= t <= hi) l -> forallb json_wf (JInt <$> l) = true.
Proof.
  intros Hhi. induction 1 as [|t l Ht _ IH]; [done|]. cbn [fmap list_fmap forallb json_wf].
  rewrite IH, andb_true_r. apply small_printable. lia.
Qed.

Lemma token_list_utf8 (l : list Z) : forallb json_utf8 (JInt <$> l) = true.
Proof. by induction l. Qed.

Ltac printable :=
  repeat first [ rewrite bool_decide_true by (repeat constructor; set_solver)
               | rewrite small_printable by (widths; lia) ].

Lemma status_json_wf s : json_wf (statusJson s) = true.
Proof. done. Qed.

Lemma manifest_json_wf m : manifest_wf m -> json_wf (manifestJson m) = true.
Proof. unfold manifest_wf. intros. destruct_and!. cbn. by printable. Qed.

Lemma limits_json_wf l : limits_wf l -> json_wf (limitsJson l) = true.
Proof. unfold limits_wf. intros. destruct_and!. cbn. by printable. Qed.

Lemma usage_json_wf u : usage_wf u -> json_wf (usageJson u) = true.
Proof. unfold usage_wf. intros. destruct_and!. cbn. by printable. Qed.

Lemma message_json_wf e m : message_wf e m -> json_wf (messageJson e m) = true.
Proof.
  intros [He Hm]. destruct m as [h|rid|rid s|d|t|s].
  - destruct Hm as (_ & Hman & Hlim). cbn -[manifestJson limitsJson]. printable.
    by rewrite manifest_json_wf, limits_json_wf.
  - cbn. by printable.
  - cbn. by printable.
  - destruct Hm as (? & ? & ? & Ht). cbn. printable. by rewrite (token_list_wf _ i32_max).
  - destruct Hm as (? & ? & Hu & ?). cbn -[usageJson]. printable.
    rewrite usage_json_wf by done. by destruct (finish_reason t).
  - unfold stats_wf in Hm. destruct_and!. cbn. by printable.
Qed.

#[local] Arguments utf8_valid : simpl never.
#[local] Arguments chars : simpl never.

(** Split the check of an object into its members, and run it on the literal
    member names. *)
Ltac utf8_members :=
  cbn; repeat match goal with |- _ && _ = true => apply andb_true_iff; split end;
  try assumption;
  try match goal with
      | |- utf8_valid (chars (String _ _)) = true => vm_compute; reflexivity
      | |- true = true => reflexivity
      end.

Lemma literal_utf8 c (l : list string) :
  forallb (fun s => utf8_valid (chars s)) l = true -> c ∈ l -> utf8_valid (chars c) = true.
Proof. intros H Hc. rewrite forallb_forall in H. apply H. by apply list_elem_of_In. Qed.

Lemma status_json_utf8 s : status_wf s -> status_utf8 s = true -> json_utf8 (statusJson s) = true.
Proof.
  unfold status_utf8. intros Hc Hm. utf8_members.
  apply (literal_utf8 _ STATUS_CODES); [vm_compute; reflexivity|done].
Qed.

Lemma message_json_utf8 e m : message_wf e m -> message_utf8 m = true ->
  json_utf8 (messageJson e m) = true.
Proof.
  intros [He Hm] Hu. destruct m as [h|rid|rid s|d|t|s]; cbn in Hu.
  - split_bools. utf8_members.
  - utf8_members.
  - destruct Hm as (? & Hs & ?). pose proof (status_json_utf8 s Hs Hu) as Hj.
    cbn in Hj. split_bools. utf8_members.
  - pose proof (token_list_utf8 (token_ids d)). utf8_members.
  - destruct Hm as (? & Hs & ? & Hfr). pose proof (status_json_utf8 (tm_status t) Hs Hu) as Hj.
    cbn in Hj. split_bools. utf8_members.
    destruct (finish_reason t) as [fr|]; [|done].
    apply (literal_utf8 _ FINISH_REASONS); [vm_compute; reflexivity|done].
  - destruct Hm as (Hs & ?). pose proof (status_json_utf8 (st_status s) Hs Hu) as Hj.
    cbn in Hj. split_bools. utf8_members.
Qed.

Lemma decode_printed v e oe : json_wf v = true -> json_utf8 v = true -> oe = Some e ->
  decode_server_message (dumps_text v) oe = decode_object v oe.
Proof.
  intros Hwf Hu ->. unfold decode_server_message. by rewrite dumps_utf8, json_loads_dumps.
Qed.

(** ** Which exceptions the checks raise *)

Definition only_protocol {A} (m : result exn A) : Prop :=
  forall x, m = Err x -> is_ProtocolError x = true.

Lemma only_protocol_ok {A} (a : A) : only_protocol (Ok a).
Proof. done. Qed.

Lemma only_protocol_err {A} s : only_protocol (@Err exn A (ProtocolError s)).
Proof. by intros x [= <-]. Qed.

Lemma only_protocol_bind {A B} (m : result exn A) (k : A -> result exn B) :
  only_protocol m -> (forall a, m = Ok a -> only_protocol (k a)) -> only_protocol (m ≫= k).
Proof.
  intros Hm Hk x H. apply bind_Err_inv in H as [H|(a & Ha & H)]; [by apply Hm|].
  by apply (Hk a).
Qed.

Lemma only_protocol_raise_if b s : only_protocol (raise_if b (ProtocolError s)).
Proof. intros x H. by apply raise_if_Err in H as [_ ->]. Qed.

Lemma only_protocol_mapM {A B} (f : A -> result exn B) l :
  (forall a, only_protocol (f a)) -> only_protocol (mapM f l).
Proof.
  intros Hf. induction l as [|a l IH]; [done|]. simpl.
  apply only_protocol_bind; [done|]. intros b _. by apply only_protocol_bind.
Qed.

Lemma only_protocol_int v d lo hi : only_protocol (_require_int v d lo hi).
Proof. intros x H. destruct v; simpl in H; repeat case_match; by simplify_eq. Qed.
Lemma only_protocol_string v d b : only_protocol (_require_string v d b).
Proof. intros x H. destruct v; simpl in H; repeat case_match; by simplify_eq. Qed.
Lemma only_protocol_bool v d : only_protocol (_require_bool v d).
Proof. intros x H. destruct v; simpl in H; by simplify_eq. Qed.
Lemma only_protocol_fields v l d : only_protocol (_require_exact_fields v l d).
Proof. intros x H. destruct v; simpl in H; repeat case_match; by simplify_eq. Qed.

Create HintDb protocol.
#[export] Hint Resolve only_protocol_ok only_protocol_err only_protocol_raise_if
  only_protocol_mapM only_protocol_int only_protocol_string only_protocol_bool
  only_protocol_fields : protocol.

(** Walk through a sequence of checks. *)
Ltac checks_only :=
  repeat first [ progress intros | apply only_protocol_mapM | apply only_protocol_bind | solve [auto with protocol]
               | case_match ].

Lemma only_protocol_version v : only_protocol (_require_protocol v).
Proof. unfold _require_protocol. checks_only. Qed.
Lemma only_protocol_epoch v oe : only_protocol (_require_epoch v oe).
Proof. unfold _require_epoch. checks_only. Qed.
#[export] Hint Resolve only_protocol_version only_protocol_epoch : protocol.

Lemma only_protocol_status v : only_protocol (_status_from_json v).
Proof. unfold _status_from_json. checks_only. Qed.
Lemma only_protocol_manifest v : only_protocol (_manifest_from_json v).
Proof. unfold _manifest_from_json. checks_only. Qed.
Lemma only_protocol_limits v : only_protocol (_limits_from_json v).
Proof. unfold _limits_from_json. checks_only. Qed.
Lemma only_protocol_usage v : only_protocol (_usage_from_json v).
Proof. unfold _usage_from_json. checks_only. Qed.
Lemma only_protocol_envelope m e : only_protocol (_request_envelope m e).
Proof. unfold _request_envelope. checks_only. Qed.
#[export] Hint Resolve only_protocol_status only_protocol_manifest only_protocol_limits
  only_protocol_usage only_protocol_envelope : protocol.

Lemma only_protocol_decode v oe : only_protocol (decode_object v oe).
Proof.
  unfold decode_object, decode_hello_ack, decode_accepted, decode_rejected,
    decode_token_delta, delta_tokens, decode_terminal, terminal_finish_reason, decode_stats.
  checks_only.
Qed.

Lemma decode_server_message_err payload oe x :
  decode_server_message payload oe = Err x ->
  is_ProtocolError x = true
  \/ (x = payload_error JsonIntTooLong /\ json_loads true payload = Err JsonIntTooLong).
Proof.
  unfold decode_server_message. intros Hx. case_in_as Hx Hu; [|injection Hx as <-; by left]. revert Hx.
  destruct (json_loads true payload) as [v|err] eqn:Hl.
  - intros H. left. by eapply only_protocol_decode.
  - intros [= <-]. destruct err; auto. by apply json_loads_total in Hl.
Qed.

(** ** Requests that may be sent *)

Definition optional_in (lo hi : Z) (o : option Z) : Prop :=
  match o with Some z => lo <= z <= hi | None => True end.

Definition token_in (t : Z) : Prop := 0 <= t <= i32_max.

(** The number converts to a finite float in the range. *)
Definition num_ok (n : pynum) (good : pyfloat -> bool) : Prop :=
  exists f, float_of_num n = Some f /\ isfinite f = true /\ good f = true.

Definition request_wf (r : GenerationRequest) : Prop :=
  1 <= request_id r <= u64_max
  /\ input_token_ids r <> [] /\ Forall token_in (input_token_ids r)
  /\ 1 <= max_new_tokens r <= u32_max /\ i32_min <= priority r <= i32_max
  /\ optional_in 1 u64_max (timeout_ms r)
  /\ num_ok (temperature (sampling r)) (fun f => negb (fleb f f0))
  /\ 0 <= top_k (sampling r) <= i32_max
  /\ num_ok (top_p (sampling r)) (fun f => negb (fleb f f0) && negb (fltb f1 f))
  /\ 0 <= random_seed (sampling r) <= u64_max
  /\ optional_in 0 i32_max (end_id r) /\ optional_in 0 i32_max (pad_id r)
  /\ Forall (fun s => s <> [] /\ Forall token_in s) (stop_sequences r).

Lemma require_int_JInt z d lo hi z' :
  _require_int (JInt z) d lo hi = Ok z' <-> z' = z /\ lo <= z <= hi.
Proof. rewrite require_int_Ok. naive_solver. Qed.

Lemma require_float_num n d f : _require_float (num_json n) d = Ok f <->
  float_of_num n = Some f /\ isfinite f = true.
Proof.
  unfold _require_float. destruct n as [z|f2]; simpl.
  - destruct (float_of_int z) as [g|]; [destruct (isfinite g) eqn:Hg|];
      split; intros; destruct_and?; simplify_eq; auto; congruence.
  - destruct (isfinite f2) eqn:Hg; split; intros; destruct_and?; simplify_eq; auto; congruence.
Qed.

Lemma is_ok_iff {E A} (m : result E A) : is_ok m = true <-> exists a, m = Ok a.
Proof. destruct m; naive_solver. Qed.

Lemma is_ok_bind {E A B} (m : result E A) (k : A -> result E B) :
  is_ok (m ≫= k) = true <-> exists a, m = Ok a /\ is_ok (k a) = true.
Proof. destruct m; simpl; naive_solver. Qed.

Lemma mapM_is_ok {E A B} (f : A -> result E B) l :
  is_ok (mapM f l) = true <-> Forall (fun a => is_ok (f a) = true) l.
Proof.
  induction l as [|a l IH]; [by split|]. rewrite Forall_cons, <-IH.
  change (mapM f (a :: l)) with (b ← f a; bs ← mapM f l; mret (b :: bs)).
  destruct (f a); simpl; [|by split; [|intros []]]. destruct (mapM f l); simpl; by split; [|intros []].
Qed.

Lemma int_is_ok z d lo hi : is_ok (_require_int (JInt z) d lo hi) = true <-> lo <= z <= hi.
Proof.
  rewrite is_ok_iff. split; [intros [z' H%require_int_JInt]; tauto|].
  intros H. exists z. by apply require_int_in.
Qed.

Lemma token_ids_Ok l d : is_ok (mapM (fun t => _require_int (JInt t) d 0 i32_max) l) = true <->
  Forall token_in l.
Proof. rewrite mapM_is_ok. apply Forall_iff. intros t. apply int_is_ok. Qed.

Lemma is_ok_bind_unit {E A B} (m : result E A) (k : result E B) :
  is_ok (m ≫= fun _ => k) = true <-> is_ok m = true /\ is_ok k = true.
Proof. destruct m; simpl; [|by split; [|intros []]]. by split; [|intros []]. Qed.

Lemma raise_if_is_ok {E} b (e : E) : is_ok (raise_if b e) = true <-> b = false.
Proof. by destruct b. Qed.

Lemma optional_is_ok o d lo hi :
  is_ok (match o with
         | Some t => _ ← _require_int (JInt t) d lo hi; Ok tt
         | None => Ok tt
         end) = true <-> optional_in lo hi o.
Proof.
  destruct o as [t|]; [|by split]. rewrite is_ok_bind_unit, int_is_ok. simpl. tauto.
Qed.

Lemma float_bind_is_ok {B} n d (bad : pyfloat -> bool) e (k : result exn B) :
  is_ok (f ← _require_float (num_json n) d; _ ← raise_if (bad f) e; k) = true <->
  num_ok n (fun f => negb (bad f)) /\ is_ok k = true.
Proof.
  rewrite is_ok_bind. unfold num_ok. split.
  - intros (f & Hf & H). apply require_float_num in Hf as [Hf Hfin].
    rewrite is_ok_bind_unit, raise_if_is_ok in H. destruct H as [H ?]. split; [|done].
    exists f. by rewrite H.
  - intros [(f & Hf & Hfin & Hb) Hk]. exists f. rewrite require_float_num. split; [done|].
    rewrite is_ok_bind_unit, raise_if_is_ok. split; [by apply negb_true_iff|done].
Qed.

Lemma num_ok_ext n p q : (forall f, p f = q f) -> num_ok n p <-> num_ok n q.
Proof. intros H. unfold num_ok. by setoid_rewrite H. Qed.

Lemma string_is_ok s d : is_ok (_require_string (JStr s) d false) = true.
Proof. done. Qed.

Lemma bool_is_ok b d : is_ok (_require_bool (JBool b) d) = true.
Proof. done. Qed.

Lemma stops_is_ok l :
  is_ok (mapM (fun s => _ ← raise_if (bool_decide (s = []))
                           (ProtocolError "stop_sequences entries must not be empty");
                     mapM (fun t => _require_int (JInt t) "stop token id" 0 i32_max) s) l) = true
  <-> Forall (fun s => s <> [] /\ Forall token_in s) l.
Proof.
  rewrite mapM_is_ok. apply Forall_iff. intros s.
  by rewrite is_ok_bind_unit, raise_if_is_ok, token_ids_Ok, bool_decide_eq_false.
Qed.

Lemma optionals_is_ok l :
  is_ok (mapM (fun o => match o with
                     | Some t => _ ← _require_int (JInt t) "optional token id" 0 i32_max; Ok tt
                     | None => Ok tt
                     end) l) = true
  <-> Forall (optional_in 0 i32_max) l.
Proof. rewrite mapM_is_ok. apply Forall_iff. intros o. apply optional_is_ok. Qed.

(** The checks of [_validate_request] accept exactly the sendable requests. *)
Lemma validate_request_wf r : is_ok (_validate_request r) = true <-> request_wf r.
Proof.
  unfold _validate_request, request_wf.
  repeat first
    [ rewrite float_bind_is_ok | rewrite is_ok_bind_unit ].
  rewrite !int_is_ok, raise_if_is_ok, token_ids_Ok, optional_is_ok, string_is_ok, bool_is_ok,
    optionals_is_ok, stops_is_ok, bool_decide_eq_false, !Forall_cons, Forall_nil.
  rewrite (num_ok_ext (top_p _) _ (fun f => negb (fleb f f0) && negb (fltb f1 f)))
    by (intros; apply negb_orb).
  simpl is_ok. tauto.
Qed.

(** ** What the encoders send reads back *)

Lemma opt_json_wf lo hi o : - u64_max <= lo -> hi <= u64_max -> optional_in lo hi o ->
  json_wf (opt_json o) = true.
Proof. intros. destruct o; [|done]. simpl in *. apply small_printable. lia. Qed.

Lemma tokens_json_wf l : Forall token_in l -> json_wf (JList (JInt <$> l)) = true.
Proof. intros H. by apply (token_list_wf _ i32_max). Qed.

Lemma stops_json_wf l : Forall (fun s => s <> [] /\ Forall token_in s) l ->
  json_wf (JList ((fun s => JList (JInt <$> s)) <$> l)) = true.
Proof.
  induction 1 as [|s l [_ Hs] _ IH]; [done|].
  change (json_wf (JList (JInt <$> s))
          && json_wf (JList ((fun s => JList (JInt <$> s)) <$> l)) = true).
  by rewrite tokens_json_wf, IH.
Qed.

(** The decimal text of the request's two floats denotes them. *)
Definition sampling_reads_back (s : SamplingParameters) : bool :=
  json_wf (num_json (temperature s)) && json_wf (num_json (top_p s)).

(** Check an object member by member. *)
Lemma json_wf_obj d : NoDup d.*1 -> Forall (fun kv => json_wf kv.2 = true) d ->
  json_wf (JObj d) = true.
Proof.
  intros Hd H. cbn [json_wf]. rewrite bool_decide_true by done. by apply forallb_forall, List.Forall_forall.
Qed.

Ltac wf_members :=
  apply json_wf_obj; [cbn [fmap list_fmap fst]; refine (bool_decide_eq_true_1 _ _); vm_compute; reflexivity|];
  repeat (apply Forall_cons; split); try apply Forall_nil; cbn [snd].

Lemma submit_json_wf r e : request_wf r -> 1 <= e <= u64_max ->
  sampling_reads_back (sampling r) = true -> json_wf (submit_json r e) = true.
Proof.
  unfold request_wf, sampling_reads_back. intros Hr He Hs. destruct_and! Hr. split_bools.
  unfold submit_json. wf_members; try done;
    try (apply small_printable; widths; lia);
    try (eapply opt_json_wf; [| |eassumption]; widths; lia);
    try by apply tokens_json_wf.
  - wf_members; try done; apply small_printable; widths; lia.
  - by apply stops_json_wf.
Qed.

Lemma encode_json_Ok v p : encode_json v = Ok p ->
  dumps_text v = p /\ utf8_valid p = true /\ dumps_allowed false v = true.
Proof.
  unfold encode_json, json_dumps. destruct (dumps_allowed false v) eqn:Ha; [|done].
  intros H. case_in_as H Hu; [|done]. by injection H as <-.
Qed.

Lemma encode_reads_back v p : encode_json v = Ok p -> json_wf v = true ->
  utf8_valid p = true /\ json_loads true p = Ok v.
Proof.
  intros H Hwf. apply encode_json_Ok in H as (<- & Hu & _). by rewrite json_loads_dumps.
Qed.

#[local] Instance opt_json_inj : Inj (=) (=) opt_json.
Proof. intros [?|] [?|]; naive_solver. Qed.

#[local] Instance num_json_inj : Inj (=) (=) num_json.
Proof. intros [?|?] [?|?]; naive_solver. Qed.

#[local] Instance JInt_inj : Inj (=) (=) JInt.
Proof. by intros ? ? [= ?]. Qed.

#[local] Instance token_list_json_inj : Inj (=) (=) (fun s : list Z => JList (JInt <$> s)).
Proof. intros s s' [= H]. by apply list_fmap_eq_inj in H; [|apply _]. Qed.

(** The dict determines the request. *)
Lemma submit_json_inj r e r' e' : submit_json r e = submit_json r' e' -> r' = r /\ e' = e.
Proof.
  destruct r as [? ? ? ? ? ? ? []], r' as [? ? ? ? ? ? ? []]. unfold submit_json. simpl.
  intros [= ? ? ? Ht ? Hi ? ? Htemp ? Hp ? He Hpad Hst].
  apply (inj _) in Ht, Htemp, Hp, He, Hpad. apply list_fmap_eq_inj in Hi, Hst; try apply _. by subst.
Qed.

Lemma encode_submit_reads_back r e p : encode_submit r e = Ok p ->
  sampling_reads_back (sampling r) = true ->
  request_wf r /\ 1 <= e <= u64_max /\ utf8_valid p = true
  /\ json_loads true p = Ok (submit_json r e).
Proof.
  intros H Hs. unfold encode_submit in H. inv_ok.
  match goal with H : _require_int _ _ _ _ = Ok _ |- _ => apply require_int_JInt in H as [-> He] end.
  assert (request_wf r) as Hr.
  { apply validate_request_wf, is_ok_iff. eauto. }
  split; [done|]. split; [done|]. apply encode_reads_back; [done|by apply submit_json_wf].
Qed.

(** The control messages (cancel and health) have the same two-number shape. *)
Definition control_json (ty : string) (worker_epoch : Z) (key : string) (id : Z) : json :=
  JObj [("type", JStr ty); ("protocol_version", JInt PROTOCOL_VERSION);
        ("worker_epoch", JInt worker_epoch); (key, JInt id)].

Lemma control_total ty key id e :
  1 <= id <= u64_max -> 1 <= e <= u64_max -> utf8_valid (chars ty) = true ->
  utf8_valid (chars key) = true -> NoDup ["type"; "protocol_version"; "worker_epoch"; key] ->
  exists p, encode_json (control_json ty e key id) = Ok p
            /\ json_loads true p = Ok (control_json ty e key id).
Proof.
  intros Hid He Hty Hk Hnd. exists (dumps_text (control_json ty e key id)).
  rewrite json_loads_dumps.
  - split; [|done]. unfold encode_json, json_dumps.
    assert (dumps_allowed false (control_json ty e key id) = true) as ->.
    { cbn. by printable. }
    rewrite dumps_utf8; [done|]. unfold control_json. utf8_members.
  - apply json_wf_obj; [done|]. repeat constructor; cbn [snd json_wf]; try done;
      apply small_printable; widths; lia.
Qed.

(** ** Theorems *)

(** C9: With the session's epoch [e] known, [decode_server_message] returns [m]
    exactly when the payload is UTF-8 JSON text of the object the Worker writes
    for the well-formed message [m] of epoch [e], in whatever member order:
    nothing else is accepted, and nothing of that kind is refused.  Before the
    handshake it accepts in the same way a [HelloAck] and no other message, and
    the epoch it reports is the one the payload carries. *)
Theorem decode_server_message_exact payload m :
  (forall e, decode_server_message payload (Some e) = Ok m <->
     utf8_valid payload = true /\
     exists v, json_loads true payload = Ok v /\ message_wf e m /\ json_equiv v (messageJson e m))
  /\ (decode_server_message payload None = Ok m <->
       utf8_valid payload = true /\
       exists v h, json_loads true payload = Ok v /\ m = MHelloAck h
         /\ message_wf (worker_epoch h) m /\ json_equiv v (messageJson (worker_epoch h) m)).
Proof.
  unfold decode_server_message. destruct (utf8_valid payload); [|by split; [intros e|]; (split; [|intros []])].
  destruct (json_loads true payload) as [v|x].
  - split; [intros e; rewrite decode_object_exact|rewrite decode_object_handshake].
    + split; [eauto|]. by intros [_ (v' & [= <-] & H)].
    + split; [intros (h & ?); eauto|]. intros [_ (v' & h & [= <-] & H)]. eauto.
  - split; [intros e|]; (split; [done|]); [by intros [_ (v' & H & _)]|by intros [_ (v' & h & H & _)]].
Qed.

(** C27: Round trip: every well-formed message with UTF-8 strings, printed as
    JSON text, decodes to itself. *)
Theorem decode_server_message_roundtrip e m :
  message_wf e m -> message_utf8 m = true ->
  decode_server_message (dumps_text (messageJson e m)) (Some e) = Ok m.
Proof.
  intros Hm Hu. rewrite (decode_printed _ e); [|by apply message_json_wf|by apply message_json_utf8|done].
  apply decode_object_complete; auto.
Qed.

Definition sample_terminal : Terminal :=
  mkTerminal 7 (mkStatus "ok" "") (Some "eos") (mkUsage 3 2).

Lemma decode_server_message_roundtrip_witness :
  decode_server_message (dumps_text (messageJson 5 (MTerminal sample_terminal))) (Some 5)
  = Ok (MTerminal sample_terminal).
Proof.
  apply decode_server_message_roundtrip; [|vm_compute; reflexivity].
  refine (bool_decide_eq_true_1 _ _); vm_compute; reflexivity.
Defined.




Definition sample_request : GenerationRequest :=
  mkRequest 1 [5; 6] 16 0 (Some 1000) "trace" true (mkSampling (PInt 1) 0 (PFloat f1) 0)
    (Some 2) None [[7; 8]].


(** C29: [_validate_request] accepts exactly the requests within the bounds
    of the protocol: the checks are neither too strict nor too lax. *)
Theorem validate_request_exact r : is_ok (_validate_request r) = true <-> request_wf r.
Proof. apply validate_request_wf. Qed.

(** C30: Cancel and health frames are always encodable for ids and epochs in
    range, and read back to the object that was sent. *)
Theorem control_messages_roundtrip id e :
  1 <= id <= u64_max -> 1 <= e <= u64_max ->
  exists c h, encode_cancel id e = Ok c /\ encode_health id e = Ok h
    /\ json_loads true c = Ok (control_json "cancel" e "request_id" id)
    /\ json_loads true h = Ok (control_json "health" e "probe_id" id).
Proof.
  intros Hid He.
  destruct (control_total "cancel" "request_id" id e) as (c & Hc & Hlc); try done.
  { refine (bool_decide_eq_true_1 _ _); vm_compute; reflexivity. }
  destruct (control_total "health" "probe_id" id e) as (h & Hh & Hlh); try done.
  { refine (bool_decide_eq_true_1 _ _); vm_compute; reflexivity. }
  exists c, h. unfold encode_cancel, encode_health. rewrite !require_int_in by done. auto.
Qed.

Lemma control_messages_roundtrip_witness :
  exists c h, encode_cancel 9 5 = Ok c /\ encode_health 9 5 = Ok h
    /\ json_loads true c = Ok (control_json "cancel" 5 "request_id" 9)
    /\ json_loads true h = Ok (control_json "health" 5 "probe_id" 9).
Proof. apply control_messages_roundtrip; vm_compute; split; discriminate. Defined.
