(* ===== verification/Framing.v ===== *)
(** Length-prefixed frames over a stream socket (the static methods
    [_send_direct], [_receive_frame] and [_receive_exact] of
    clients/python/kim_llm_client/generation_client.py).

    A stream is the list of segments the kernel hands out, one [recv] at most
    one segment, followed by the way the stream ends.  The theorems say that the
    segmentation never matters. *)
From Stdlib Require Import ZArith Lia Ascii String.
From stdpp Require Import base list strings.
From S2P Require Import Prelude PyFloat Json JsonFacts Protocol.
Local Open Scope Z_scope.

(** ** The socket *)

(** How the stream ends: orderly shutdown by the peer, or a socket error. *)
Inductive ending :=
| Closed
| Broken (msg : string).

Record stream := mkStream { segments : list bytes; stream_end : ending }.

(** [connection.recv(n)]: some of the next bytes, at most [n]; [b""] only at an
    orderly end. *)
Fixpoint recv_segments (n : nat) (segs : list bytes) : option (bytes * list bytes) :=
  match segs with
  | [] => None
  | [] :: rest => recv_segments n rest
  | s :: rest => Some (take n s, drop n s :: rest)
  end.

Definition recv (n : nat) (c : stream) : result exn (bytes * stream) :=
  match recv_segments n (segments c) with
  | Some (chunk, segs) => Ok (chunk, mkStream segs (stream_end c))
  | None =>
      match stream_end c with
      | Closed => Ok ([], mkStream [] Closed)
      | Broken msg => Err (OSError msg)
      end
  end.

(** ** Receiving *)

(** The loop of [_receive_exact]; every round but the last adds at least one
    byte, so [size] rounds of fuel are enough. *)
Fixpoint receive_loop (fuel : nat) (c : stream) (size : nat) (data : bytes)
  : result exn (bytes * stream) :=
  if (List.length data <? size)%nat then
    match fuel with
    | O => Err (OSError "out of fuel")
    | S fuel =>
        '(chunk, c') ← recv (size - List.length data) c;
        if bool_decide (chunk = []) then
          if bool_decide (data = []) then Err (EOFError "Worker disconnected")
          else Err (EOFError "Worker disconnected with a partial frame")
        else receive_loop fuel c' size (data ++ chunk)
    end
  else Ok (data, c).

Definition _receive_exact (c : stream) (size : nat) : result exn (bytes * stream) :=
  receive_loop (S size) c size [].

Definition _receive_frame (c : stream) (max_payload_bytes : Z) : result exn (bytes * stream) :=
  '(prefix, c) ← _receive_exact c 4;
  let payload_size := unpack_u32 prefix in
  _ ← raise_if (payload_size =? 0) (ProtocolError "frame payload length must be positive");
  _ ← raise_if (max_payload_bytes <? payload_size)
        (ProtocolError "frame payload length exceeds configured limit");
  _receive_exact c (Z.to_nat payload_size).

(** [n] frames in a row, as the reader loop takes them. *)
Fixpoint receive_frames (n : nat) (c : stream) (max_payload_bytes : Z)
  : result exn (list bytes * stream) :=
  match n with
  | O => Ok ([], c)
  | S n =>
      '(p, c) ← _receive_frame c max_payload_bytes;
      '(ps, c) ← receive_frames n c max_payload_bytes;
      Ok (p :: ps, c)
  end.

(** ** Reference semantics on the unsegmented bytes *)

Definition flat (c : stream) : bytes := concat (segments c).

Definition end_error (e : ending) (partial : bool) : exn :=
  match e with
  | Broken msg => OSError msg
  | Closed => EOFError (if partial then "Worker disconnected with a partial frame"
                        else "Worker disconnected")
  end.

(** Exactly [size] bytes off the front. *)
Definition read_exact (b : bytes) (e : ending) (size : nat) : result exn (bytes * bytes) :=
  if (size <=? List.length b)%nat then Ok (take size b, drop size b)
  else Err (end_error e (bool_decide (b <> []))).

(** One frame off the front. *)
Definition read_frame (b : bytes) (e : ending) (max_payload_bytes : Z)
  : result exn (bytes * bytes) :=
  '(prefix, b) ← read_exact b e 4;
  let n := unpack_u32 prefix in
  if n =? 0 then Err (ProtocolError "frame payload length must be positive")
  else if max_payload_bytes <? n
       then Err (ProtocolError "frame payload length exceeds configured limit")
       else read_exact b e (Z.to_nat n).

(** A result of the socket code agrees with a result of the reference: same
    value, the same unread bytes and end, or the same exception. *)
Definition agrees (e : ending) (m : result exn (bytes * stream)) (s : result exn (bytes * bytes))
  : Prop :=
  match m, s with
  | Ok (p, c), Ok (q, b) => p = q /\ flat c = b /\ stream_end c = e
  | Err x, Err y => x = y
  | _, _ => False
  end.

(** ** Lemmas *)

Lemma recv_segments_spec n segs : (0 < n)%nat ->
  match recv_segments n segs with
  | Some (chunk, rest) =>
      chunk <> [] /\ (List.length chunk <= n)%nat /\ concat segs = chunk ++ concat rest
  | None => concat segs = []
  end.
Proof.
  intros Hn. induction segs as [|s segs IH]; [done|]. destruct s as [|a s]; [done|].
  simpl. destruct n; [lia|]. simpl. split; [done|]. rewrite length_take. split; [lia|].
  by rewrite app_assoc, take_drop.
Qed.

Lemma receive_loop_spec fuel c size data :
  (size < fuel + List.length data)%nat -> (List.length data <= size)%nat ->
  (data = [] -> (0 < size)%nat) ->
  agrees (stream_end c) (receive_loop fuel c size data)
    (read_exact (data ++ flat c) (stream_end c) size).
Proof.
  revert c data. induction fuel as [|fuel IH]; intros c data Hf Hd Hz; [lia|].
  simpl. destruct (Nat.ltb_spec (List.length data) size) as [Hlt|Hge].
  - unfold recv.
    pose proof (recv_segments_spec (size - List.length data) (segments c)) as Hr.
    destruct (recv_segments _ (segments c)) as [[chunk rest]|].
    + destruct Hr as (Hne & Hlen & Hcat); [lia|]. cbn [mbind result_bind].
      rewrite bool_decide_false by done.
      assert (0 < List.length chunk)%nat by (destruct chunk; simpl in *; [done|lia]).
      unfold flat in *. rewrite Hcat, app_assoc.
      apply (IH (mkStream rest (stream_end c)) (data ++ chunk)); rewrite ?length_app; try lia.
    + assert (flat c = []) as -> by (apply Hr; lia). rewrite app_nil_r.
      unfold read_exact. rewrite (proj2 (Nat.leb_gt _ _)) by done.
      destruct (stream_end c); cbn [mbind result_bind agrees]; [|done].
      repeat case_bool_decide; simplify_eq; done.
  - assert (List.length data = size) as <- by lia.
    unfold read_exact. rewrite (proj2 (Nat.leb_le _ _)) by (rewrite length_app; lia).
    by rewrite take_app_length, drop_app_length.
Qed.

Lemma receive_exact_spec c size : (0 < size)%nat ->
  agrees (stream_end c) (_receive_exact c size) (read_exact (flat c) (stream_end c) size).
Proof. intros. apply (receive_loop_spec _ c size []); simpl; lia. Qed.

Lemma receive_frame_spec c m :
  agrees (stream_end c) (_receive_frame c m) (read_frame (flat c) (stream_end c) m).
Proof.
  unfold _receive_frame, read_frame. pose proof (receive_exact_spec c 4) as H4.
  destruct (_receive_exact c 4) as [[p c']|x], (read_exact (flat c) _ 4) as [[q b]|y];
    simpl in H4; try (specialize (H4 ltac:(lia)); done).
  - destruct H4 as (-> & Hc' & He); [lia|]. cbn [mbind result_bind].
    destruct (Z.eqb_spec (unpack_u32 q) 0) as [|Hnz]; [done|]. simpl raise_if. cbn [mbind result_bind].
    destruct (m <? unpack_u32 q); [done|]. cbn [raise_if mbind result_bind]. subst b.
    assert (0 <= unpack_u32 q).
    { unfold unpack_u32. assert (forall l a, 0 <= a ->
        0 <= fold_left (fun acc c => Z.lor (Z.shiftl acc 8) (char_code c)) l a) as Hf.
      { induction l as [|x l IH]; intros a Ha; [done|]. simpl. apply IH.
        apply Z.lor_nonneg. split; [by apply Z.shiftl_nonneg|]. apply char_code_range. }
      by apply Hf. }
    rewrite <-He. apply receive_exact_spec. lia.
Qed.

(** *** The length prefix *)

Lemma lor_shiftl_add a c : 0 <= c < 256 -> Z.lor (Z.shiftl a 8) c = a * 256 + c.
Proof.
  intros Hc. rewrite Z.shiftl_mul_pow2 by lia. change (2 ^ 8) with 256.
  rewrite <-Z.lxor_lor, <-Z.add_nocarry_lxor; [done| |]; apply Z.bits_inj'; intros n Hn;
    rewrite Z.land_spec, Z.bits_0; change 256 with (2 ^ 8);
    (destruct (Z.ltb_spec n 8);
     [rewrite Z.mul_pow2_bits_low by lia; done|
      rewrite (Z.bits_above_log2 c); [by rewrite andb_false_r|lia|]]);
    (destruct (decide (c = 0)) as [->|]; [simpl; lia|]);
    apply Z.log2_lt_pow2; (lia || (apply (Z.lt_le_trans _ (2 ^ 8)); [simpl; lia|];
      apply Z.pow_le_mono_r; lia)).
Qed.

Lemma byte_code z : 0 <= z < 256 -> char_code (byte_of_Z z) = z.
Proof. apply char_code_byte. Qed.

Lemma land_255 z : Z.land z 255 = z mod 256.
Proof. change 255 with (Z.ones 8). by rewrite Z.land_ones by lia. Qed.

Lemma unpack_pack n : 0 <= n <= u32_max -> unpack_u32 (pack_u32 n) = n.
Proof.
  change u32_max with 4294967295. intros Hn. unfold unpack_u32, pack_u32. simpl fold_left.
  rewrite !byte_code by (rewrite land_255; apply Z.mod_pos_bound; lia).
  rewrite !land_255, !Z.shiftr_div_pow2 by lia.
  rewrite !lor_shiftl_add by (apply Z.mod_pos_bound; lia).
  change (2 ^ 24) with (256 * (256 * 256)). change (2 ^ 16) with (256 * 256). change (2 ^ 8) with 256.
  rewrite <-!Z.div_div by lia.
  pose proof (Z.div_mod n 256). pose proof (Z.div_mod (n / 256) 256).
  pose proof (Z.div_mod (n / 256 / 256) 256).
  assert (0 <= n / 256 / 256 / 256 < 256).
  { rewrite !Z.div_div by lia. split; [apply Z.div_pos; lia|apply Z.div_lt_upper_bound; lia]. }
  rewrite (Z.mod_small (n / 256 / 256 / 256)) by done. lia.
Qed.

Lemma encode_frame_Ok p m f : encode_frame p m = Ok f ->
  f = pack_u32 (Z.of_nat (List.length p)) ++ p
  /\ 1 <= Z.of_nat (List.length p) <= u32_max /\ Z.of_nat (List.length p) <= m.
Proof.
  unfold encode_frame. intros H. inv_ok. split_bools. split; [done|]. lia.
Qed.

Lemma read_exact_app q r e n : n = List.length q -> read_exact (q ++ r) e n = Ok (q, r).
Proof.
  intros ->. unfold read_exact. rewrite (proj2 (Nat.leb_le _ _)) by (rewrite length_app; lia).
  by rewrite take_app_length, drop_app_length.
Qed.

Lemma read_exact_short b e n : (List.length b < n)%nat ->
  exists x, read_exact b e n = Err x /\ (x = end_error e true \/ x = end_error e false).
Proof.
  intros. unfold read_exact. rewrite (proj2 (Nat.leb_gt _ _)) by done. case_bool_decide; eauto.
Qed.

(** Once the prefix announces a payload within the limits, the payload is read. *)
Lemma read_frame_announced n b e m' : 1 <= n <= u32_max -> n <= m' ->
  read_frame (pack_u32 n ++ b) e m' = read_exact b e (Z.to_nat n).
Proof.
  intros Hn Hm. unfold read_frame. rewrite read_exact_app by done. cbn [mbind result_bind].
  rewrite unpack_pack by lia. rewrite (proj2 (Z.eqb_neq _ _)) by lia.
  by rewrite (proj2 (Z.ltb_ge _ _)) by lia.
Qed.

(** One encoded frame at the front of the bytes reads back. *)
Lemma read_frame_app p m m' f b e : encode_frame p m = Ok f ->
  Z.of_nat (List.length p) <= m' -> read_frame (f ++ b) e m' = Ok (p, b).
Proof.
  intros (-> & Hp & _)%encode_frame_Ok Hm. rewrite <-app_assoc, read_frame_announced by done.
  rewrite Nat2Z.id. by apply read_exact_app.
Qed.

(** A proper prefix of a frame never yields a payload. *)
Lemma read_frame_prefix p m m' f b e : encode_frame p m = Ok f ->
  b `prefix_of` f -> b <> f -> Z.of_nat (List.length p) <= m' ->
  exists x, read_frame b e m' = Err x /\ (x = end_error e true \/ x = end_error e false).
Proof.
  intros (-> & Hp & _)%encode_frame_Ok [r Hr] Hne Hm.
  destruct (decide (4 <= List.length b)%nat) as [Hb|Hb].
  - assert (exists q, b = pack_u32 (Z.of_nat (List.length p)) ++ q /\ p = q ++ r) as (q & -> & Hpq).
    { exists (drop 4 b). do 4 (destruct b as [|? b]; [simpl in Hb; lia|]).
      unfold pack_u32 in *. simpl in *. by simplify_eq. }
    rewrite read_frame_announced by done. apply read_exact_short. rewrite Nat2Z.id, Hpq, length_app.
    destruct r; simpl; [|lia]. rewrite app_nil_r in *. congruence.
  - unfold read_frame. destruct (read_exact_short b e 4) as (x & -> & Hx); [lia|]. simpl. eauto.
Qed.

Lemma agrees_Ok e m p b : agrees e m (Ok (p, b)) ->
  exists c, m = Ok (p, c) /\ flat c = b /\ stream_end c = e.
Proof. destruct m as [[q c]|]; [|done]. intros (-> & ? & ?). eauto. Qed.

Lemma receive_frames_encoded ps m c rest frames :
  mapM (fun p => encode_frame p m) ps = Ok frames -> flat c = concat frames ++ rest ->
  exists c', receive_frames (List.length ps) c m = Ok (ps, c')
             /\ flat c' = rest /\ stream_end c' = stream_end c.
Proof.
  revert c frames. induction ps as [|p ps IH]; intros c frames Hf Hflat.
  - injection Hf as <-. exists c. auto.
  - change (mapM _ (p :: ps)) with
      (b ← encode_frame p m; bs ← mapM (fun p => encode_frame p m) ps; mret (b :: bs)) in Hf.
    apply bind_Ok_inv in Hf as (f & Hf & H). apply bind_Ok_inv in H as (fs & Hfs & [= <-]).
    simpl in Hflat. rewrite <-app_assoc in Hflat.
    pose proof (receive_frame_spec c m) as Hs. rewrite Hflat in Hs.
    pose proof (proj2 (encode_frame_Ok _ _ _ Hf)) as [_ Hlen].
    rewrite (read_frame_app p m m f _ _ Hf Hlen) in Hs.
    apply agrees_Ok in Hs as (c1 & H1 & Hc1 & He1).
    destruct (IH c1 fs Hfs Hc1) as (c2 & H2 & Hc2 & He2).
    exists c2. simpl. rewrite H1. cbn [mbind result_bind]. rewrite H2. cbn [mbind result_bind].
    rewrite He2. auto.
Qed.

(** ** Theorems *)

(** C11: However the bytes were cut into segments, [_receive_frame] agrees with
    the reference that reads the frame off the concatenated bytes: the same
    payload and the same unread remainder, or the same exception (end of
    stream, partial frame, socket error, zero length, length over the limit).
    The loop of [_receive_exact] never runs out of fuel. *)
Theorem receive_frame_refines c m :
  agrees (stream_end c) (_receive_frame c m) (read_frame (flat c) (stream_end c) m).
Proof. apply receive_frame_spec. Qed.

(** C12: Framing round trip: payloads encoded with [encode_frame] and sent one
    after the other come out of a stream that carries them, in order and
    unchanged, whatever the segmentation, and what follows is left unread. *)
Theorem frames_roundtrip ps m c rest frames :
  mapM (fun p => encode_frame p m) ps = Ok frames -> flat c = concat frames ++ rest ->
  exists c', receive_frames (List.length ps) c m = Ok (ps, c')
             /\ flat c' = rest /\ stream_end c' = stream_end c.
Proof. apply receive_frames_encoded. Qed.

Definition sample_stream : stream :=
  mkStream [[byte_of_Z 0]; [byte_of_Z 0; byte_of_Z 0; byte_of_Z 2]; chars "h"; [];
            chars "i" ++ [byte_of_Z 0; byte_of_Z 0]; [byte_of_Z 0; byte_of_Z 1] ++ chars "xyz"]
    Closed.

Lemma frames_roundtrip_witness :
  exists c', receive_frames 2 sample_stream 16 = Ok ([chars "hi"; chars "x"], c')
    /\ flat c' = chars "yz" /\ stream_end c' = stream_end sample_stream.
Proof.
  apply (frames_roundtrip [chars "hi"; chars "x"] 16 sample_stream (chars "yz")
           [pack_u32 2 ++ chars "hi"; pack_u32 1 ++ chars "x"]); vm_compute; reflexivity.
Defined.

(** A stream that ends inside a frame never yields a payload: the reader
    gets the end-of-stream exception of the way the stream ended. *)
Theorem truncated_frame_raises p m f c m' :
  encode_frame p m = Ok f -> flat c `prefix_of` f -> flat c <> f ->
  Z.of_nat (List.length p) <= m' ->
  _receive_frame c m' = Err (end_error (stream_end c) true)
  \/ _receive_frame c m' = Err (end_error (stream_end c) false).
Proof.
  intros Hf Hpre Hne Hm. pose proof (receive_frame_spec c m') as Hs.
  destruct (read_frame_prefix p m m' f (flat c) (stream_end c) Hf Hpre Hne Hm) as (x & Hx & Hor).
  rewrite Hx in Hs. destruct (_receive_frame c m') as [[q c']|y]; [done|].
  simpl in Hs. subst y. destruct Hor as [->| ->]; auto.
Qed.

Lemma truncated_frame_raises_witness :
  _receive_frame (mkStream [pack_u32 2; chars "h"] Closed) 16
    = Err (EOFError "Worker disconnected with a partial frame")
  \/ _receive_frame (mkStream [pack_u32 2; chars "h"] Closed) 16
    = Err (EOFError "Worker disconnected").
Proof.
  apply (truncated_frame_raises (chars "hi") 16 (pack_u32 2 ++ chars "hi")
           (mkStream [pack_u32 2; chars "h"] Closed) 16);
    [vm_compute; reflexivity|exists (chars "i"); vm_compute; reflexivity|vm_compute; discriminate
    |vm_compute; discriminate].
Defined.
