(* ===== verification/EventBuffer.v ===== *)
(** The bounded event buffer between the reader thread and the consumer of one
    request ([_EventBuffer] and [GenerationHandle] of
    clients/python/kim_llm_client/generation_client.py).

    Every method runs under the buffer's condition, so each is one function on
    the buffer.  The abstract contract is a first-in first-out channel that is
    closed once, by the Terminal. *)
From Stdlib Require Import ZArith Lia String Sorted.
From stdpp Require Import base list strings.
From S2P Require Import Prelude PyFloat Protocol.
Local Open Scope Z_scope.

Record _EventBuffer := mkBuffer {
  max_delta_events : Z;
  deltas : list TokenDelta;
  terminal : option Terminal;
  terminal_delivered : bool;
  overflowed : bool }.

#[global] Instance EventBuffer_eq_dec : EqDecision _EventBuffer.
Proof. solve_decision. Defined.
#[global] Instance GenerationEvent_eq_dec : EqDecision GenerationEvent.
Proof. solve_decision. Defined.

Definition new_buffer (max_delta_events : Z) : _EventBuffer :=
  mkBuffer max_delta_events [] None false false.

Definition put_delta (b : _EventBuffer) (delta : TokenDelta) : _EventBuffer * bool :=
  match terminal b with
  | Some _ => (b, false)
  | None =>
      if max_delta_events b <=? Z.of_nat (List.length (deltas b)) then
        (mkBuffer (max_delta_events b) (deltas b) (terminal b) (terminal_delivered b) true, false)
      else
        (mkBuffer (max_delta_events b) (deltas b ++ [delta]) (terminal b) (terminal_delivered b)
           (overflowed b), true)
  end.

Definition put_terminal (b : _EventBuffer) (t : Terminal) : _EventBuffer * bool :=
  match terminal b with
  | Some _ => (b, false)
  | None =>
      (mkBuffer (max_delta_events b) (deltas b) (Some t) (terminal_delivered b) (overflowed b), true)
  end.

(** The condition of the wait loop of [get]. *)
Definition must_wait (b : _EventBuffer) : bool :=
  bool_decide (deltas b = []) && bool_decide (terminal b = None).

(** [get] once its wait is over: with something to return, or with the
    deadline passed. *)
Definition get (b : _EventBuffer) : _EventBuffer * result exn GenerationEvent :=
  if must_wait b then (b, Err (TimeoutError "timed out waiting for generation event"))
  else match deltas b with
       | d :: ds =>
           (mkBuffer (max_delta_events b) ds (terminal b) (terminal_delivered b) (overflowed b),
            Ok (EDelta d))
       | [] =>
           if terminal_delivered b then (b, Err StopIteration)
           else
             (mkBuffer (max_delta_events b) (deltas b) (terminal b) true (overflowed b),
              match terminal b with
              | Some t => Ok (ETerminal t)
              | None => Err StopIteration
              end)
       end.

(** [GenerationHandle.collect] on a buffer to which nothing is added any more;
    one round per event. *)
Fixpoint collect_loop (fuel : nat) (b : _EventBuffer) (tokens : list Z)
  : result exn (list Z * Terminal) :=
  match fuel with
  | O => Err (TimeoutError "timed out collecting generation result")
  | S fuel =>
      match get b with
      | (b', Ok (EDelta d)) => collect_loop fuel b' (tokens ++ token_ids d)
      | (_, Ok (ETerminal t)) => Ok (tokens, t)
      | (_, Err e) => Err e
      end
  end.

Definition collect (b : _EventBuffer) : result exn (list Z * Terminal) :=
  collect_loop (S (List.length (deltas b))) b [].

(** [GenerationHandle.iter_events], likewise. *)
Fixpoint iter_loop (fuel : nat) (b : _EventBuffer) : list GenerationEvent * option exn :=
  match fuel with
  | O => ([], None)
  | S fuel =>
      match get b with
      | (b', Ok (EDelta d)) => let '(l, e) := iter_loop fuel b' in (EDelta d :: l, e)
      | (_, Ok (ETerminal t)) => ([ETerminal t], None)
      | (_, Err e) => ([], Some e)
      end
  end.

Definition iter_events (b : _EventBuffer) : list GenerationEvent * option exn :=
  iter_loop (S (List.length (deltas b))) b.

(** ** Histories *)

Inductive buffer_op :=
| OpDelta (d : TokenDelta)
| OpTerminal (t : Terminal)
| OpGet.

(** One operation; the event it delivered, if it is a [get] that returned. *)
Definition buffer_run (op : buffer_op) (b : _EventBuffer) : _EventBuffer * option GenerationEvent :=
  match op with
  | OpDelta d => ((put_delta b d).1, None)
  | OpTerminal t => ((put_terminal b t).1, None)
  | OpGet => let '(b', r) := get b in (b', match r with Ok e => Some e | Err _ => None end)
  end.

Fixpoint buffer_history (ops : list buffer_op) (b : _EventBuffer)
  : _EventBuffer * list GenerationEvent :=
  match ops with
  | [] => (b, [])
  | op :: ops =>
      let '(b1, e) := buffer_run op b in
      let '(b2, es) := buffer_history ops b1 in
      (b2, match e with Some e => e :: es | None => es end)
  end.

(** The events the puts of a history were allowed to add. *)
Fixpoint accepted_puts (ops : list buffer_op) (b : _EventBuffer) : list GenerationEvent :=
  match ops with
  | [] => []
  | op :: ops =>
      let b1 := (buffer_run op b).1 in
      match op with
      | OpDelta d => if (put_delta b d).2 then EDelta d :: accepted_puts ops b1
                     else accepted_puts ops b1
      | OpTerminal t => if (put_terminal b t).2 then ETerminal t :: accepted_puts ops b1
                        else accepted_puts ops b1
      | OpGet => accepted_puts ops b1
      end
  end.

(** What a buffer still has to deliver. *)
Definition pending (b : _EventBuffer) : list GenerationEvent :=
  (EDelta <$> deltas b)
  ++ match terminal b with
     | Some t => if terminal_delivered b then [] else [ETerminal t]
     | None => []
     end.

Definition buffer_wf (b : _EventBuffer) : Prop :=
  Z.of_nat (List.length (deltas b)) <= max_delta_events b
  /\ (terminal_delivered b = true -> deltas b = [] /\ terminal b <> None).

(** ** Lemmas *)

Lemma new_buffer_wf n : 0 <= n -> buffer_wf (new_buffer n).
Proof. by split. Qed.

Ltac open_buffer b := destruct b as [mx ds tm td ov]; simpl in *.

Lemma put_delta_wf b d : buffer_wf b -> buffer_wf (put_delta b d).1.
Proof.
  open_buffer b. unfold buffer_wf, put_delta. simpl. intros [H1 H2].
  destruct tm; [done|]. case_goal; simpl; [done|]. rewrite length_app. simpl.
  split; [lia|]. intros Htd. by destruct (H2 Htd).
Qed.

Lemma put_terminal_wf b t : buffer_wf b -> buffer_wf (put_terminal b t).1.
Proof. open_buffer b. unfold buffer_wf, put_terminal. destruct tm; naive_solver. Qed.

Lemma get_wf b : buffer_wf b -> buffer_wf (get b).1.
Proof.
  open_buffer b. unfold buffer_wf, get, must_wait. simpl. intros [H1 H2].
  destruct ds as [|d ds]; simpl in *.
  - destruct tm; [|by simpl]. simpl. destruct td; simpl; auto.
  - split; [lia|]. intros Htd. by destruct (H2 Htd).
Qed.

Lemma buffer_run_wf op b : buffer_wf b -> buffer_wf (buffer_run op b).1.
Proof.
  destruct op; simpl; auto using put_delta_wf, put_terminal_wf.
  intros H. apply get_wf in H. by destruct (get b).
Qed.

(** The contract of one operation on the pending events. *)
Lemma put_delta_pending b d :
  pending (put_delta b d).1 = pending b ++ (if (put_delta b d).2 then [EDelta d] else []).
Proof.
  open_buffer b. unfold pending, put_delta. simpl. destruct tm; simpl; [by rewrite app_nil_r|].
  case_goal; simpl; rewrite ?app_nil_r; [done|]. by rewrite fmap_app.
Qed.

Lemma put_terminal_pending b t : buffer_wf b ->
  pending (put_terminal b t).1 = pending b ++ (if (put_terminal b t).2 then [ETerminal t] else []).
Proof.
  open_buffer b. unfold pending, put_terminal, buffer_wf. simpl. intros [_ H].
  destruct tm; simpl; [by rewrite app_nil_r|].
  destruct td; [by destruct H|]. by rewrite app_nil_r.
Qed.

Lemma get_pending b : buffer_wf b ->
  pending b = match (get b).2 with Ok e => e :: pending (get b).1 | Err _ => pending (get b).1 end
  /\ (is_ok (get b).2 = false -> pending b = []).
Proof.
  open_buffer b. unfold pending, get, must_wait, buffer_wf. simpl. intros [_ H].
  destruct ds as [|d ds]; simpl; [|done]. destruct tm as [t|]; simpl; [|done].
  destruct td; simpl; done.
Qed.

Lemma history_fifo ops b : buffer_wf b ->
  pending b ++ accepted_puts ops b
  = (buffer_history ops b).2 ++ pending (buffer_history ops b).1.
Proof.
  revert b. induction ops as [|op ops IH]; intros b Hb; simpl; [by rewrite app_nil_r|].
  pose proof (buffer_run_wf op b Hb) as Hb1. specialize (IH _ Hb1).
  destruct (buffer_run op b) as [b1 e] eqn:Hrun. simpl in *.
  destruct (buffer_history ops b1) as [b2 es]. simpl in *. destruct op as [d|t|]; simpl in Hrun.
  - injection Hrun as <- <-. rewrite put_delta_pending, <-app_assoc in IH. rewrite <-IH.
    by destruct (put_delta b d).2.
  - injection Hrun as <- <-. rewrite put_terminal_pending, <-app_assoc in IH by done. rewrite <-IH.
    by destruct (put_terminal b t).2.
  - destruct (get_pending b Hb) as [Hp _]. destruct (get b) as [b' r]. simpl in *.
    injection Hrun as -> <-. rewrite Hp. destruct r; simpl; by rewrite <-IH.
Qed.

Lemma event_buffer_history_wf ops b : buffer_wf b -> buffer_wf (buffer_history ops b).1.
Proof.
  revert b. induction ops as [|op ops IH]; intros b Hb; simpl; [done|].
  pose proof (buffer_run_wf op b Hb) as Hb1. destruct (buffer_run op b) as [b1 e].
  specialize (IH b1 Hb1). by destruct (buffer_history ops b1).
Qed.

(** Nothing is added after the Terminal. *)
Lemma run_terminal op b t : terminal b = Some t -> terminal (buffer_run op b).1 = Some t.
Proof.
  open_buffer b. intros ->. destruct op; simpl; unfold put_delta, put_terminal, get; simpl; try done.
  repeat case_match; simplify_eq/=; done.
Qed.

Lemma closed_accepts_nothing ops b t : terminal b = Some t -> accepted_puts ops b = [].
Proof.
  revert b. induction ops as [|op ops IH]; intros b Ht; [done|]. cbn [accepted_puts].
  pose proof (run_terminal op b t Ht) as Ht1. rewrite (IH _ Ht1).
  destruct op; unfold put_delta, put_terminal; rewrite ?Ht; done.
Qed.

Lemma put_terminal_sets b t : terminal (put_terminal b t).1 <> None.
Proof. unfold put_terminal. destruct (terminal b) eqn:Ht; simpl; congruence. Qed.

Lemma accepted_closed_once ops b :
  exists ds rest, accepted_puts ops b = (EDelta <$> ds) ++ rest
    /\ (rest = [] \/ exists t, rest = [ETerminal t]).
Proof.
  revert b. induction ops as [|op ops IH]; intros b; cbn [accepted_puts].
  { exists [], []. auto. }
  destruct op as [d|t|].
  - destruct (IH (buffer_run (OpDelta d) b).1) as (ds & rest & -> & Hr).
    destruct (put_delta b d).2; [exists (d :: ds), rest|exists ds, rest]; auto.
  - pose proof (put_terminal_sets b t) as Hset.
    destruct (terminal (put_terminal b t).1) as [t'|] eqn:Ht; [|done].
    rewrite (closed_accepts_nothing ops (buffer_run (OpTerminal t) b).1 t') by done.
    exists []. destruct (put_terminal b t).2; eauto.
  - apply IH.
Qed.

(** Draining a closed buffer. *)
Lemma collect_loop_closed b t tokens : terminal b = Some t -> terminal_delivered b = false ->
  forall fuel, (List.length (deltas b) < fuel)%nat ->
  collect_loop fuel b tokens = Ok (tokens ++ (deltas b ≫= token_ids), t).
Proof.
  open_buffer b. intros -> -> fuel. revert tokens fuel.
  induction ds as [|d ds IH]; intros tokens fuel Hf; (destruct fuel as [|fuel]; [lia|]);
    simpl; unfold get, must_wait; simpl.
  - by rewrite app_nil_r.
  - rewrite IH by (simpl in Hf; lia). by rewrite <-app_assoc.
Qed.

Lemma iter_loop_closed b t : terminal b = Some t -> terminal_delivered b = false ->
  forall fuel, (List.length (deltas b) < fuel)%nat -> iter_loop fuel b = (pending b, None).
Proof.
  open_buffer b. intros -> -> fuel. revert fuel. unfold pending. simpl.
  induction ds as [|d ds IH]; intros fuel Hf; (destruct fuel as [|fuel]; [simpl in *; lia|]);
    simpl; unfold get, must_wait; simpl; [done|].
  rewrite IH by (simpl in Hf; lia). done.
Qed.

(** ** Theorems *)

(** C24: The buffer is a first-in first-out channel: over any history of puts
    and gets from a new buffer, the events delivered followed by those still
    pending are exactly the events the puts accepted, in order; nothing is lost,
    duplicated or reordered once accepted. *)
Theorem event_buffer_fifo n ops : 0 <= n ->
  accepted_puts ops (new_buffer n)
  = (buffer_history ops (new_buffer n)).2 ++ pending (buffer_history ops (new_buffer n)).1.
Proof. intros Hn. rewrite <-history_fifo; [done|by apply new_buffer_wf]. Qed.

Lemma event_buffer_fifo_witness :
  let d i := mkDelta 1 i [10 + i] in
  let t := mkTerminal 1 (mkStatus "ok" "") (Some "eos") (mkUsage 1 2) in
  let ops := [OpDelta (d 0); OpDelta (d 1); OpDelta (d 2); OpGet; OpTerminal t; OpDelta (d 3); OpGet] in
  accepted_puts ops (new_buffer 2)
  = (buffer_history ops (new_buffer 2)).2 ++ pending (buffer_history ops (new_buffer 2)).1.
Proof. apply event_buffer_fifo. vm_compute. discriminate. Defined.

(** The channel is closed once: what a history delivers is a sequence of
    deltas with at most one Terminal, at its end, and the buffer never holds more
    deltas than its capacity. *)
Theorem event_buffer_closed_once n ops : 0 <= n ->
  let '(b, delivered) := buffer_history ops (new_buffer n) in
  buffer_wf b /\
  exists ds rest, delivered ++ pending b = (EDelta <$> ds) ++ rest
    /\ (rest = [] \/ exists t, rest = [ETerminal t]).
Proof.
  intros Hn. pose proof (event_buffer_history_wf ops (new_buffer n) (new_buffer_wf n Hn)) as Hwf.
  pose proof (history_fifo ops (new_buffer n) (new_buffer_wf n Hn)) as Hfifo.
  destruct (buffer_history ops (new_buffer n)) as [b delivered]. simpl in *. split; [done|].
  rewrite <-Hfifo. apply accepted_closed_once.
Qed.

Lemma event_buffer_closed_once_witness :
  let d i := mkDelta 1 i [10 + i] in
  let t := mkTerminal 1 (mkStatus "ok" "") (Some "eos") (mkUsage 1 2) in
  let '(b, delivered) :=
    buffer_history [OpDelta (d 0); OpGet; OpTerminal t; OpTerminal t; OpGet; OpGet] (new_buffer 2) in
  buffer_wf b /\
  exists ds rest, delivered ++ pending b = (EDelta <$> ds) ++ rest
    /\ (rest = [] \/ exists t, rest = [ETerminal t]).
Proof.
  apply (event_buffer_closed_once 2
    [OpDelta (mkDelta 1 0 [10]); OpGet;
     OpTerminal (mkTerminal 1 (mkStatus "ok" "") (Some "eos") (mkUsage 1 2));
     OpTerminal (mkTerminal 1 (mkStatus "ok" "") (Some "eos") (mkUsage 1 2)); OpGet; OpGet]).
  vm_compute. discriminate.
Defined.


