(* ===== verification/Threads.v ===== *)
(** Threads over shared state, and a logic for their invariants.

    A thread is a tree of atomic regions (what the source does under one lock,
    or between two points where another thread may run), questions to the
    environment (does this write fail, which frame arrives), and thread starts.
    Threads interleave at these points and nowhere else.

    The logic is in the style of Owicki and Gries: every atomic region keeps an
    invariant of the shared state and of the tokens the threads own; a region may
    rely on and change its own thread's tokens but not those of the others.  It
    also records what a thread owns where it may have to wait, which is what
    deadlock-freedom is derived from. *)
From stdpp Require Import base list relations.
From S2P Require Import Prelude.

(** The region of [Atomic guard update next] may run in the states the guard
    admits; it changes the state by [update], and [next] of the state it started
    from is the rest of the thread.  [Fork id k] starts the thread named [id]. *)
Inductive prog (K S E I A : Type) : Type :=
| Done (r : result E A)
| Atomic (guard : S -> bool) (update : S -> S) (next : S -> prog K S E I A)
| Ask (k : I -> prog K S E I A)
| Fork (id : K) (k : prog K S E I A).
Arguments Done {K S E I A} r.
Arguments Atomic {K S E I A} guard update next.
Arguments Ask {K S E I A} k.
Arguments Fork {K S E I A} id k.

Section Prog.
Context {K S E I : Type}.

(** ** Composition: the exception-aware sequence, [try]/[except] and [finally] *)

Fixpoint pseq {A B} (p : prog K S E I A) (k : result E A -> prog K S E I B) : prog K S E I B :=
  match p with
  | Done r => k r
  | Atomic g u f => Atomic g u (fun s => pseq (f s) k)
  | Ask h => Ask (fun i => pseq (h i) k)
  | Fork id h => Fork id (pseq h k)
  end.

Definition pbind {A B} (p : prog K S E I A) (k : A -> prog K S E I B) : prog K S E I B :=
  pseq p (fun r => match r with Ok a => k a | Err e => Done (Err e) end).

Definition ptry {A} (p : prog K S E I A) (h : E -> prog K S E I A) : prog K S E I A :=
  pseq p (fun r => match r with Ok a => Done (Ok a) | Err e => h e end).

(** [try: p finally: q]; also how a [with] statement releases its lock. *)
Definition pfinally {A} (p : prog K S E I A) (q : prog K S E I unit) : prog K S E I A :=
  pseq p (fun r => pseq q (fun r' => match r' with Ok _ => Done r | Err e => Done (Err e) end)).

(** An atomic region that always may run. *)
Definition region {A} (f : S -> S * result E A) : prog K S E I A :=
  Atomic (fun _ => true) (fun s => (f s).1) (fun s => Done (f s).2).

(** Run [p]s one after the other. *)
Fixpoint pfor {B} (l : list B) (body : B -> prog K S E I unit) : prog K S E I unit :=
  match l with
  | [] => Done (Ok tt)
  | b :: l => pbind (body b) (fun _ => pfor l body)
  end.

(** ** Pools of threads *)

(** A thread, with the name of what it runs if it was started by another thread. *)
Definition thread (V : Type) : Type := option K * prog K S E I V.

(** [again]: the thread is not over, it goes on as the thread of this name; for a
    loop, with its own name. *)
Context {V : Type} (body : K -> prog K S E I V) (again : option K -> V -> option K).

Definition config : Type := S * list (thread V).

Inductive step : config -> config -> Prop :=
| step_atomic s ts i l g u f :
    ts !! i = Some (l, Atomic g u f) -> g s = true ->
    step (s, ts) (u s, <[i := (l, f s)]> ts)
| step_ask s ts i l k a :
    ts !! i = Some (l, Ask k) -> step (s, ts) (s, <[i := (l, k a)]> ts)
| step_fork s ts i l id k :
    ts !! i = Some (l, Fork id k) ->
    step (s, ts) (s, <[i := (l, k)]> ts ++ [(Some id, body id)])
| step_again s ts i l v id :
    ts !! i = Some (l, Done (Ok v)) -> again l v = Some id ->
    step (s, ts) (s, <[i := (Some id, body id)]> ts).

(** ** Running a schedule, for examples *)

(** Thread [i] moves, with the environment's answer [a] if it asks. *)
Definition exec (i : nat) (a : I) (c : config) : option config :=
  let '(s, ts) := c in
  match ts !! i with
  | Some (l, Atomic g u f) => if g s then Some (u s, <[i := (l, f s)]> ts) else None
  | Some (l, Ask k) => Some (s, <[i := (l, k a)]> ts)
  | Some (l, Fork id k) => Some (s, <[i := (l, k)]> ts ++ [(Some id, body id)])
  | Some (l, Done (Ok v)) => id ← again l v; Some (s, <[i := (Some id, body id)]> ts)
  | _ => None
  end.

Fixpoint exec_all (schedule : list (nat * I)) (c : config) : option config :=
  match schedule with
  | [] => Some c
  | (i, a) :: rest => exec i a c ≫= exec_all rest
  end.

Lemma exec_step i a c c' : exec i a c = Some c' -> step c c'.
Proof.
  destruct c as [s ts]. unfold exec. intros H.
  destruct (ts !! i) as [[l p]|] eqn:Hi; [|done].
  destruct p as [r|g u f|k|id k].
  - destruct r as [v|e]; [|done]. apply bind_Some in H as (id & Hv & [= <-]). by econstructor.
  - destruct (g s) eqn:Hg; [|done]. injection H as <-. by eapply step_atomic.
  - injection H as <-. by eapply step_ask.
  - injection H as <-. by eapply step_fork.
Qed.

Lemma exec_all_steps schedule c c' : exec_all schedule c = Some c' -> rtc step c c'.
Proof.
  revert c. induction schedule as [|[i a] rest IH]; intros c H; simpl in H.
  - injection H as <-. apply rtc_refl.
  - apply bind_Some in H as (c1 & H1 & H). eapply rtc_l; [by eapply exec_step|by apply IH].
Qed.

(** ** The logic *)

Section Logic.
Context {G : Type} (Inv : S -> list G -> Prop).
(** [wait_ok g O]: a thread that owns [O] may wait for the guard [g]. *)
Context (wait_ok : (S -> bool) -> list G -> Prop).
Context (Inv_perm : forall s O O', O ≡ₚ O' -> Inv s O -> Inv s O').
(** What is known of a name under which a thread is started, and the tokens its
    body has at the start of every round. *)
Context (fork_ok : K -> Prop) (loop_res : K -> list G).

(** A guard a thread that owns [O] may stop at: it always holds, or [O] is
    allowed there. *)
Definition may_stop (g : S -> bool) (O : list G) : Prop := (forall s, g s = true) \/ wait_ok g O.

(** [safe p O post]: started with the tokens [O], every region of [p] keeps the
    invariant whatever the other threads own and do in between, [p] waits only
    where its tokens allow it, and it ends with a result and tokens that satisfy
    [post]. *)
Fixpoint safe {A} (p : prog K S E I A) (O : list G) (post : result E A -> list G -> Prop) : Prop :=
  match p with
  | Done r => post r O
  | Atomic g u f =>
      may_stop g O /\
      forall s F, g s = true -> Inv s (O ++ F) ->
      exists O', Inv (u s) (O' ++ F) /\ safe (f s) O' post
  | Ask k => forall a, safe (k a) O post
  | Fork id k => fork_ok id /\ exists O', O ≡ₚ loop_res id ++ O' /\ safe k O' post
  end.

Lemma safe_mono {A} (p : prog K S E I A) O (post post' : result E A -> list G -> Prop) :
  (forall r O, post r O -> post' r O) -> safe p O post -> safe p O post'.
Proof.
  intros Hpost. revert O. induction p as [r|g u f IH|k IH|id k IH]; simpl; intros O Hp; auto.
  - destruct Hp as [Hw Hp]. split; [done|].
    intros s F Hg HI. destruct (Hp s F Hg HI) as (O' & HI' & Hp'). exists O'. auto.
  - destruct Hp as (Hid & O' & HO & Hp). eauto.
Qed.

Lemma safe_seq {A B} (p : prog K S E I A) (k : result E A -> prog K S E I B) O post :
  safe p O (fun r O' => safe (k r) O' post) -> safe (pseq p k) O post.
Proof.
  revert O. induction p as [r|g u f IH|h IH|id h IH]; simpl; intros O Hp; auto.
  - destruct Hp as [Hw Hp]. split; [done|].
    intros s F Hg HI. destruct (Hp s F Hg HI) as (O' & HI' & Hp'). exists O'. auto.
  - destruct Hp as (Hid & O' & HO & Hp). eauto.
Qed.

Lemma safe_bind {A B} (p : prog K S E I A) (k : A -> prog K S E I B) O post :
  safe p O (fun r O' => match r with Ok a => safe (k a) O' post | Err e => post (Err e) O' end) ->
  safe (pbind p k) O post.
Proof. intros H. apply safe_seq. eapply safe_mono; [|exact H]. by intros [a|e] O'. Qed.

Lemma safe_try {A} (p : prog K S E I A) h O post :
  safe p O (fun r O' => match r with Ok a => post (Ok a) O' | Err e => safe (h e) O' post end) ->
  safe (ptry p h) O post.
Proof. intros H. apply safe_seq. eapply safe_mono; [|exact H]. by intros [a|e] O'. Qed.

Lemma safe_finally {A} (p : prog K S E I A) q O post :
  safe p O (fun r O' => safe q O' (fun r' O'' =>
    match r' with Ok _ => post r O'' | Err e => post (Err e) O'' end)) ->
  safe (pfinally p q) O post.
Proof.
  intros H. apply safe_seq. eapply safe_mono; [|exact H]. intros r O' H'. simpl in *.
  apply safe_seq. eapply safe_mono; [|exact H']. by intros [a|e] O''.
Qed.

Lemma safe_region {A} (f : S -> S * result E A) O post :
  (forall s F, Inv s (O ++ F) -> exists O', Inv (f s).1 (O' ++ F) /\ post (f s).2 O') ->
  safe (region f) O post.
Proof. intros H. split; [by left|]. intros s F _ HI. exact (H s F HI). Qed.

Lemma safe_atomic {A} g u (f : S -> prog K S E I A) O post : may_stop g O ->
  (forall s F, g s = true -> Inv s (O ++ F) -> exists O', Inv (u s) (O' ++ F) /\ safe (f s) O' post) ->
  safe (Atomic g u f) O post.
Proof. by split. Qed.

(** A loop over [l] that hands in one token group per element. *)
Lemma safe_for {B} (l : list B) body' (tok : B -> list G) O post :
  (forall b O, safe (body' b) (tok b ++ O) (fun r O' => r = Ok tt /\ O' = O)) ->
  post (Ok tt) O -> safe (pfor l body') ((l ≫= tok) ++ O) post.
Proof.
  intros Hb Hpost. induction l as [|b l IH]; [done|].
  change (safe (pbind (body' b) (fun _ => pfor l body')) (((tok b ++ (l ≫= tok))) ++ O) post).
  rewrite <-app_assoc. apply safe_bind. eapply safe_mono; [|apply Hb].
  intros r O' [-> ->]. exact IH.
Qed.

(** *** Pools *)

Context (loop_post : K -> result E V -> list G -> Prop) (user_post : result E V -> list G -> Prop).

(** What a thread promises about its end. *)
Definition promise (l : option K) : result E V -> list G -> Prop :=
  match l with Some id => loop_post id | None => user_post end.

Definition thread_safe (t : thread V) (O : list G) : Prop :=
  from_option fork_ok True t.1 /\ safe t.2 O (promise t.1).

Definition pool_safe (c : config) : Prop :=
  exists Os, Inv c.1 (concat Os) /\ Forall2 thread_safe c.2 Os.

(** The tokens of thread [i] in front. *)
Lemma concat_insert_perm (Os : list (list G)) i O :
  Os !! i = Some O -> exists F, concat Os ≡ₚ O ++ F /\ forall O', concat (<[i := O']> Os) ≡ₚ O' ++ F.
Proof.
  revert i. induction Os as [|P Os IH]; intros [|i] Hi; simplify_eq/=.
  - exists (concat Os). auto.
  - destruct (IH i Hi) as (F & H1 & H2). exists (P ++ F). split.
    + rewrite H1. solve_Permutation.
    + intros O'. rewrite H2. solve_Permutation.
Qed.

Context (body_safe : forall id, fork_ok id -> safe (body id) (loop_res id) (loop_post id)).
Context (again_restarts : forall l v id O, again l v = Some id -> from_option fork_ok True l ->
  promise l (Ok v) O -> fork_ok id /\ O = loop_res id).

Lemma pool_safe_step c c' : step c c' -> pool_safe c -> pool_safe c'.
Proof.
  intros Hstep (Os & HI & Hts). simpl in *.
  destruct Hstep as [s ts i l g u f Hi Hg|s ts i l k a Hi|s ts i l id k Hi|s ts i l v id Hi Hv];
    simpl in *;
    destruct (Forall2_lookup_l _ _ _ _ _ Hts Hi) as (O & HO & Hl & Hp); simpl in Hl, Hp.
  - destruct (concat_insert_perm Os i O HO) as (F & Hc & Hins).
    destruct (proj2 Hp s F Hg) as (O' & HI' & Hp'); [by eapply Inv_perm|].
    exists (<[i := O']> Os). split.
    + eapply Inv_perm; [symmetry; apply Hins|done].
    + apply Forall2_insert; [done|]. by split.
  - exists Os. split; [done|]. rewrite <-(list_insert_id Os i O HO).
    apply Forall2_insert; [done|]. split; [done|apply Hp].
  - destruct Hp as (Hid & O' & HO' & Hp).
    destruct (concat_insert_perm Os i _ HO) as (F & Hc & Hins).
    exists (<[i := O']> Os ++ [loop_res id]). simpl. split.
    + eapply Inv_perm; [|exact HI]. rewrite concat_app, Hc, Hins, HO'. simpl. solve_Permutation.
    + apply Forall2_app; [apply Forall2_insert; [done|]; by split|].
      constructor; [|constructor]. split; [done|by apply body_safe].
  - exists Os. split; [done|]. rewrite <-(list_insert_id Os i O HO).
    apply Forall2_insert; [done|]. destruct (again_restarts l v id O Hv Hl Hp) as [Hid ->].
    split; [done|by apply body_safe].
Qed.

Lemma pool_safe_steps c c' : rtc step c c' -> pool_safe c -> pool_safe c'.
Proof. induction 1; eauto using pool_safe_step. Qed.

(** A new thread joins, with tokens the invariant can give it. *)
Lemma pool_safe_spawn s s' ts p O :
  (forall F, Inv s F -> Inv s' (O ++ F)) -> safe p O user_post ->
  pool_safe (s, ts) -> pool_safe (s', ts ++ [(None, p)]).
Proof.
  intros HI Hp (Os & HIs & Hts). exists (Os ++ [O]). simpl in *. split.
  - rewrite concat_app. simpl. rewrite app_nil_r. eapply Inv_perm; [|by apply HI].
    apply Permutation_app_comm.
  - apply Forall2_app; [done|]. by repeat constructor.
Qed.

(** *** Progress *)

(** The thread has ended. *)
Definition stopped (t : thread V) : bool :=
  match t.2 with
  | Done (Ok v) => bool_decide (again t.1 v = None)
  | Done (Err _) => true
  | _ => false
  end.

Definition can_move (s : S) (t : thread V) : bool :=
  match t.2 with
  | Done _ => negb (stopped t)
  | Atomic g _ _ => g s
  | Ask _ | Fork _ _ => true
  end.

Lemma can_move_step (a : I) s ts t : t ∈ ts -> can_move s t = true -> exists c', step (s, ts) c'.
Proof.
  intros [i Hi]%list_elem_of_lookup_1 Hm. destruct t as [l p].
  destruct p as [r|g u f|k|id k]; cbn in Hm; eauto using step_atomic, step_fork.
  - destruct r as [v|e]; [|done]. apply negb_true_iff, bool_decide_eq_false in Hm.
    destruct (again l v) as [id|] eqn:Hv; [|done]. eauto using step_again.
  - exists (s, <[i := (l, k a)]> ts). by constructor.
Qed.

(** What a thread that cannot move does: it has ended, or it waits where its
    tokens allow it. *)
Definition resting (s : S) (t : thread V) (O : list G) : Prop :=
  stopped t = true \/ exists g u f, t.2 = Atomic g u f /\ g s = false /\ wait_ok g O.

Lemma cannot_move_rests s t O : thread_safe t O -> can_move s t = false -> resting s t O.
Proof.
  destruct t as [l p]. intros [_ Hs] Hm. unfold resting.
  destruct p as [r|g u f|k|id k]; cbn in Hm; try done.
  - left. by apply negb_false_iff in Hm.
  - right. exists g, u, f. split_and!; [done..|]. destruct Hs as [[Hg|Hw] _]; [|done].
    by rewrite Hg in Hm.
Qed.

(** Some thread can move, or all threads rest. *)
Lemma pool_progress (a : I) s ts : pool_safe (s, ts) ->
  (exists c', step (s, ts) c')
  \/ exists Os, Inv s (concat Os) /\ Forall2 thread_safe ts Os /\ Forall2 (resting s) ts Os.
Proof.
  intros (Os & HI & Hts).
  destruct (decide (Exists (fun t => can_move s t = true) ts)) as [Hex|Hno].
  - left. apply Exists_exists in Hex as (t & Ht & Hm). by eapply can_move_step.
  - right. exists Os. split_and!; [done..|].
    assert (Forall (fun t => can_move s t = false) ts) as Hall.
    { apply Forall_forall. intros t Ht. apply not_true_is_false. intros Hm. apply Hno, Exists_exists. eauto. }
    simpl in Hts. clear -Hts Hall. induction Hts as [|t O ts Os Ht _ IH]; [constructor|].
    apply Forall_cons in Hall as [Hm Hall]. constructor; [by apply cannot_move_rests|auto].
Qed.

End Logic.
End Prog.
