(* ===== verification/Client.v ===== *)
(** The IPC client of the Worker (class [GenerationClient] of
    clients/python/kim_llm_client/generation_client.py).

    [world] holds the client's attributes, its locks and the objects it shares
    with other threads by reference: request states (with their event buffers)
    and probe queues, addressed by their index.  A method is a [prog]: the code
    under [_state_condition] is one atomic region, and threads may interleave
    between regions.  What the operating system decides (a write that fails, the
    bytes that arrive, a thread that does not start) is a question to the
    environment; a wait with a timeout may end at any time. *)
From Stdlib Require Import ZArith Lia Ascii String.
From stdpp Require Import base list strings gmap.
From S2P Require Import Prelude PyFloat Json Protocol Framing EventBuffer Threads.
Local Open Scope Z_scope.

Record GenerationClientConfig := mkConfig {
  socket_path : string;
  expected_manifest : ModelManifest;
  connect_timeout : pyfloat;
  handshake_timeout : pyfloat;
  cfg_max_frame_payload_bytes : Z;
  max_pending_requests : Z;
  max_delta_events_per_request : Z }.

Definition _validate_config (c : GenerationClientConfig) : result exn unit :=
  _ ← raise_if (bool_decide (socket_path c = "")) (ValueError "socket_path must not be empty");
  _ ← raise_if (fleb (connect_timeout c) f0 || fleb (handshake_timeout c) f0)
        (ValueError "connect and handshake timeouts must be positive");
  raise_if ((cfg_max_frame_payload_bytes c <=? 0) || (max_pending_requests c <=? 0)
            || (max_delta_events_per_request c <=? 0))
    (ValueError "GenerationClient capacities must be positive").

Record _RequestState := mkState {
  rs_request_id : Z;
  events : _EventBuffer;
  accepted : bool;
  rejected : option Status;
  failure : option Status;
  next_sequence_no : Z;
  terminal_received : bool;
  cancel_sent : bool }.

Definition new_state (request_id : Z) (max_delta_events : Z) : _RequestState :=
  mkState request_id (new_buffer max_delta_events) false None None 0 false false.

(** [queue.Queue(maxsize=1)] of an optional [Stats]. *)
Abbreviation probe_queue := (option (option Stats)).
Definition put_nowait (q : probe_queue) (v : option Stats) : probe_queue :=
  match q with None => Some v | Some _ => q end.

Record world := mkWorld {
  w_socket : option nat;
  w_reader_thread : option nat;
  w_hello_ack : option HelloAck;
  w_connected : bool;
  w_requests : gmap Z nat;
  w_probes : gmap Z nat;
  w_next_probe_id : Z;
  w_lifecycle_lock : bool;
  w_send_lock : bool;
  w_states : list _RequestState;       (* request objects by reference *)
  w_queues : list probe_queue;         (* probe queues by reference *)
  w_alive : gset nat;                  (* reader threads that run *)
  w_fresh : nat;                       (* next socket / thread identity *)
  w_closed : gset nat;                 (* sockets closed *)
  w_sent : list (nat * bytes);         (* frames written, per socket *)
  w_issued : gset Z }.                 (* history: ids given to [submit] so far *)

Definition init_world : world :=
  mkWorld None None None false ∅ ∅ 1 false false [] [] ∅ 0 ∅ [] ∅.

(** Updates of one group of attributes. *)
Definition set_session (w : world) (sock : option nat) (hello : option HelloAck) (conn : bool) : world :=
  mkWorld sock (w_reader_thread w) hello conn (w_requests w) (w_probes w) (w_next_probe_id w)
    (w_lifecycle_lock w) (w_send_lock w) (w_states w) (w_queues w) (w_alive w) (w_fresh w)
    (w_closed w) (w_sent w) (w_issued w).
Definition set_reader (w : world) (r : option nat) (alive : gset nat) (fresh : nat) : world :=
  mkWorld (w_socket w) r (w_hello_ack w) (w_connected w) (w_requests w) (w_probes w)
    (w_next_probe_id w) (w_lifecycle_lock w) (w_send_lock w) (w_states w) (w_queues w) alive fresh
    (w_closed w) (w_sent w) (w_issued w).
Definition set_requests (w : world) (reqs : gmap Z nat) (states : list _RequestState) : world :=
  mkWorld (w_socket w) (w_reader_thread w) (w_hello_ack w) (w_connected w) reqs (w_probes w)
    (w_next_probe_id w) (w_lifecycle_lock w) (w_send_lock w) states (w_queues w) (w_alive w)
    (w_fresh w) (w_closed w) (w_sent w) (w_issued w).
Definition set_probes (w : world) (probes : gmap Z nat) (next : Z) (queues : list probe_queue) : world :=
  mkWorld (w_socket w) (w_reader_thread w) (w_hello_ack w) (w_connected w) (w_requests w) probes
    next (w_lifecycle_lock w) (w_send_lock w) (w_states w) queues (w_alive w) (w_fresh w)
    (w_closed w) (w_sent w) (w_issued w).
Definition set_locks (w : world) (lifecycle send : bool) : world :=
  mkWorld (w_socket w) (w_reader_thread w) (w_hello_ack w) (w_connected w) (w_requests w)
    (w_probes w) (w_next_probe_id w) lifecycle send (w_states w) (w_queues w) (w_alive w)
    (w_fresh w) (w_closed w) (w_sent w) (w_issued w).
Definition set_wire (w : world) (closed : gset nat) (sent : list (nat * bytes)) : world :=
  mkWorld (w_socket w) (w_reader_thread w) (w_hello_ack w) (w_connected w) (w_requests w)
    (w_probes w) (w_next_probe_id w) (w_lifecycle_lock w) (w_send_lock w) (w_states w) (w_queues w)
    (w_alive w) (w_fresh w) closed sent (w_issued w).
Definition set_issued (w : world) (issued : gset Z) : world :=
  mkWorld (w_socket w) (w_reader_thread w) (w_hello_ack w) (w_connected w) (w_requests w)
    (w_probes w) (w_next_probe_id w) (w_lifecycle_lock w) (w_send_lock w) (w_states w) (w_queues w)
    (w_alive w) (w_fresh w) (w_closed w) (w_sent w) issued.

Definition set_states (w : world) (states : list _RequestState) : world :=
  set_requests w (w_requests w) states.

(** Field assignment on a request object. *)
Definition with_events (st : _RequestState) (b : _EventBuffer) : _RequestState :=
  mkState (rs_request_id st) b (accepted st) (rejected st) (failure st) (next_sequence_no st)
    (terminal_received st) (cancel_sent st).
Definition with_accepted (st : _RequestState) : _RequestState :=
  mkState (rs_request_id st) (events st) true (rejected st) (failure st) (next_sequence_no st)
    (terminal_received st) (cancel_sent st).
Definition with_rejected (st : _RequestState) (s : Status) : _RequestState :=
  mkState (rs_request_id st) (events st) (accepted st) (Some s) (failure st) (next_sequence_no st)
    (terminal_received st) (cancel_sent st).
Definition with_failure (st : _RequestState) (s : Status) : _RequestState :=
  mkState (rs_request_id st) (events st) (accepted st) (rejected st) (Some s) (next_sequence_no st)
    (terminal_received st) (cancel_sent st).
Definition with_terminal_received (st : _RequestState) : _RequestState :=
  mkState (rs_request_id st) (events st) (accepted st) (rejected st) (failure st)
    (next_sequence_no st) true (cancel_sent st).
Definition with_cancel_sent (st : _RequestState) : _RequestState :=
  mkState (rs_request_id st) (events st) (accepted st) (rejected st) (failure st)
    (next_sequence_no st) (terminal_received st) true.
Definition with_next_sequence_no (st : _RequestState) (n : Z) : _RequestState :=
  mkState (rs_request_id st) (events st) (accepted st) (rejected st) (failure st) n
    (terminal_received st) (cancel_sent st).

Definition update_state (w : world) (s : nat) (f : _RequestState -> _RequestState) : world :=
  set_states w (alter f s (w_states w)).

(** What the environment answers: a call that works, a call that fails, and the
    bytes ahead on the socket. *)
Inductive reply :=
| ReplyOk
| ReplyError (msg : string)
| ReplyStream (c : stream).

(** What a finished thread returned. *)
Inductive value :=
| VUnit
| VBool (b : bool)
| VHandle (s : nat)
| VStats (s : Stats)
| VEvent (e : GenerationEvent)
| VContinue
| VStop.

Abbreviation prog := (Threads.prog nat world exn reply).
Definition raise {A} (e : exn) : prog A := Done (Err e).
Definition return_ {A} (a : A) : prog A := Done (Ok a).

Definition lift {A} (m : result exn A) : prog A := Done m.

Declare Scope prog_scope.
Notation "x <- p ;; k" := (pbind p (fun x => k))
  (at level 100, p at next level, right associativity) : prog_scope.
Notation "p ;;; k" := (pbind p (fun _ => k)) (at level 100, right associativity) : prog_scope.
Open Scope prog_scope.

(** [with self._lifecycle_lock: p] and [with self._send_lock: p]. *)
Definition with_lifecycle_lock {A} (p : prog A) : prog A :=
  Atomic (fun w => negb (w_lifecycle_lock w)) (fun w => set_locks w true (w_send_lock w))
    (fun _ => pfinally p (region (fun w => (set_locks w false (w_send_lock w), Ok tt)))).
Definition with_send_lock {A} (p : prog A) : prog A :=
  Atomic (fun w => negb (w_send_lock w)) (fun w => set_locks w (w_lifecycle_lock w) true)
    (fun _ => pfinally p (region (fun w => (set_locks w (w_lifecycle_lock w) false, Ok tt)))).

Definition not_connected : exn := WorkerUnavailableError "GenerationClient is not connected".

(** The socket and the HelloAck of the session, or [WorkerUnavailableError]. *)
Definition _require_connected_locked (w : world) : result exn (nat * HelloAck) :=
  match w_connected w, w_socket w, w_hello_ack w with
  | true, Some conn, Some hello => Ok (conn, hello)
  | _, _, _ => Err not_connected
  end.

Definition _validate_request_against_worker (r : GenerationRequest) (hello_ack : HelloAck)
  : result exn unit :=
  let m := manifest hello_ack in
  let n := Z.of_nat (List.length (input_token_ids r)) in
  _ ← raise_if (max_input_tokens m <? n) (ValueError "request input exceeds Worker max_input_tokens");
  _ ← raise_if (max_output_tokens m <? max_new_tokens r)
        (ValueError "request output exceeds Worker max_output_tokens");
  raise_if (max_sequence_tokens m <? n + max_new_tokens r)
    (ValueError "request exceeds Worker max_sequence_tokens").

(** ** [_fail] *)

Definition unavailable (msg : string) : Status := mkStatus "unavailable" msg.

(** What the locked part of [_fail] takes away with it. *)
Record fail_snapshot := mkSnapshot {
  fs_connection : option nat;
  fs_reader : option nat;
  fs_requests : list nat;
  fs_probes : list nat }.

Definition snapshot (w : world) : fail_snapshot :=
  mkSnapshot (w_socket w) (w_reader_thread w) (map_to_list (w_requests w)).*2
    (map_to_list (w_probes w)).*2.

Definition fail_locked (status : Status) (w : world) : world :=
  let states := fold_right (fun s l => alter (fun st => with_failure st status) s l)
                  (w_states w) (fs_requests (snapshot w)) in
  set_probes (set_requests (set_session w None None false) ∅ states) ∅ (w_next_probe_id w) (w_queues w).

(** [connection.shutdown(...); connection.close()]. *)
Definition close_socket (conn : option nat) (w : world) : world :=
  match conn with
  | Some c => set_wire w ({[c]} ∪ w_closed w) (w_sent w)
  | None => w
  end.

Definition failure_terminal (st : _RequestState) (status : Status) : Terminal :=
  mkTerminal (rs_request_id st) (unavailable (message status)) None (mkUsage 0 0).

(** One round of the loop over the requests. *)
Definition fail_request (status : Status) (s : nat) (w : world) : world :=
  update_state w s (fun st =>
    if accepted st && negb (terminal_received st)
    then with_events st (put_terminal (events st) (failure_terminal st status)).1
    else st).

Definition fail_probe (q : nat) (w : world) : world :=
  set_probes w (w_probes w) (w_next_probe_id w) (alter (fun v => put_nowait v None) q (w_queues w)).

(** [if self._reader_thread is reader: self._reader_thread = None]. *)
Definition forget_reader (reader : option nat) (w : world) : world :=
  match reader with
  | Some r =>
      if bool_decide (r ∉ w_alive w) && bool_decide (w_reader_thread w = Some r)
      then set_reader w None (w_alive w) (w_fresh w) else w
  | None => w
  end.

Definition wait_for_exit (reader : option nat) (w : world) : bool :=
  match reader with Some r => bool_decide (r ∉ w_alive w) | None => true end.

(** The unlocked rest; [me] is the reader the calling thread is, if it is one. *)
Definition fail_rest (me : option nat) (status : Status) (join_reader : bool) (snap : fail_snapshot)
  : prog unit :=
  region (fun w => (close_socket (fs_connection snap) w, Ok tt));;;
  pfor (fs_requests snap) (fun s => region (fun w => (fail_request status s w, Ok tt)));;;
  pfor (fs_probes snap) (fun q => region (fun w => (fail_probe q w, Ok tt)));;;
  (if join_reader && negb (bool_decide (fs_reader snap = me))
   then Atomic (wait_for_exit (fs_reader snap)) (fun w => w) (fun _ => return_ tt)
   else return_ tt);;;
  region (fun w => (forget_reader (fs_reader snap) w, Ok tt)).

Definition _fail (me : option nat) (status : Status) (join_reader : bool) : prog unit :=
  Atomic (fun _ => true) (fail_locked status)
    (fun w => fail_rest me status join_reader (snapshot w)).

(** ** Sending *)

(** [connection.sendall(frame)]. *)
Definition sendall (conn : nat) (frame : bytes) : prog unit :=
  Ask (fun a => match a with
                | ReplyError msg => raise (OSError msg)
                | _ => region (fun w => (set_wire w (w_closed w) (w_sent w ++ [(conn, frame)]), Ok tt))
                end).

Definition _send_direct (conn : nat) (payload : bytes) (max_payload_bytes : Z) : prog unit :=
  frame <- lift (encode_frame payload max_payload_bytes);;
  sendall conn frame.

Definition _send_payload (me : option nat) (payload : bytes) : prog unit :=
  with_send_lock (
    ch <- region (fun w => (w, _require_connected_locked w));;
    ptry (_send_direct ch.1 payload (max_frame_payload_bytes (limits ch.2)))
      (fun e => match e with
                | OSError msg =>
                    let failure := unavailable ("Worker IPC write failed: " +:+ msg) in
                    _fail me failure false;;;
                    raise (WorkerUnavailableError (message failure))
                | _ => raise e
                end)).

(** ** [submit] *)

Definition client_config : Type := world * list (option nat * prog value).

Section Methods.
Context (cfg : GenerationClientConfig).

(** The first locked region: all checks, then the registration. *)
Definition submit_register (r : GenerationRequest) (w : world) : world * result exn (nat * Z) :=
  match _require_connected_locked w with
  | Err e => (w, Err e)
  | Ok (_, hello_ack) =>
      match _validate_request_against_worker r hello_ack with
      | Err e => (w, Err e)
      | Ok _ =>
          if bool_decide (is_Some (w_requests w !! request_id r)) then
            (w, Err (GenerationClientError
                       ("request " +:+ int_str (request_id r) +:+ " is already active")))
          else if Z.min (max_pending_requests cfg) (max_active_requests (limits hello_ack))
                  <=? Z.of_nat (size (w_requests w)) then
            (w, Err (ClientCapacityError "GenerationClient request capacity is full"))
          else
            let s := List.length (w_states w) in
            (set_requests w (<[request_id r := s]> (w_requests w))
               (w_states w ++ [new_state (request_id r) (max_delta_events_per_request cfg)]),
             Ok (s, worker_epoch hello_ack))
      end
  end.

(** [self._requests.pop(request_id, None)]. *)
Definition pop_request (rid : Z) (w : world) : world :=
  set_requests w (delete rid (w_requests w)) (w_states w).

Definition decided (s : nat) (w : world) : bool :=
  match w_states w !! s with
  | Some st => accepted st || bool_decide (is_Some (rejected st)) || bool_decide (is_Some (failure st))
  | None => false
  end.

Definition acceptance_timeout (rid : Z) : Status :=
  unavailable ("timed out waiting for request " +:+ int_str rid +:+ " acceptance").

(** After the wait: the handle, an exception, or [None] when the wait timed
    out. *)
Definition submit_outcome (s : nat) (rid : Z) (w : world) : result exn (option nat) :=
  match w_states w !! s with
  | None => Ok None
  | Some st =>
      if accepted st then Ok (Some s)
      else match rejected st with
           | Some status => Err (RequestRejectedError rid status)
           | None =>
               match failure st with
               | Some status => Err (WorkerUnavailableError (message status))
               | None => Ok None
               end
           end
  end.

Definition submit (me : option nat) (r : GenerationRequest) (timed : bool) : prog value :=
  se <- region (submit_register r);;
  ptry (payload <- lift (encode_submit r se.2);; _send_payload me payload)
    (fun e => region (fun w => (pop_request (request_id r) w, Ok tt));;; raise e);;;
  Atomic (fun w => decided se.1 w || timed) (fun w => w)
    (fun w => outcome <- lift (submit_outcome se.1 (request_id r) w);;
              match outcome with
              | Some s => return_ (VHandle s)
              | None =>
                  _fail me (acceptance_timeout (request_id r)) true;;;
                  raise (WorkerUnavailableError (message (acceptance_timeout (request_id r))))
              end).

(** ** [cancel] *)

(** The locked part: the answer, and the epoch to send the cancel with if one
    is to be sent. *)
Definition cancel_locked (rid : Z) (w : world) : world * result exn (bool * option Z) :=
  match _require_connected_locked w with
  | Err e => (w, Err e)
  | Ok (_, hello_ack) =>
      match w_requests w !! rid ≫= fun s => (fun st => (s, st)) <$> w_states w !! s with
      | None => (w, Ok (false, None))
      | Some (s, st) =>
          if negb (accepted st) || terminal_received st then (w, Ok (false, None))
          else if cancel_sent st then (w, Ok (true, None))
          else (update_state w s with_cancel_sent, Ok (true, Some (worker_epoch hello_ack)))
      end
  end.

Definition cancel (me : option nat) (rid : Z) : prog value :=
  d <- region (cancel_locked rid);;
  match d.2 with
  | Some epoch => payload <- lift (encode_cancel rid epoch);; _send_payload me payload;;; return_ (VBool true)
  | None => return_ (VBool d.1)
  end.

(** ** [health] *)

Definition health_register (w : world) : world * result exn (Z * nat * Z) :=
  match _require_connected_locked w with
  | Err e => (w, Err e)
  | Ok (_, hello_ack) =>
      let probe_id := w_next_probe_id w in
      let q := List.length (w_queues w) in
      (set_probes w (<[probe_id := q]> (w_probes w)) (probe_id + 1) (w_queues w ++ [None]),
       Ok (probe_id, q, worker_epoch hello_ack))
  end.

Definition queue_ready (q : nat) (w : world) : bool :=
  match w_queues w !! q with Some (Some _) => true | _ => false end.

(** [response.get(timeout=timeout)]; [queue.Empty] is converted. *)
Definition queue_get (q : nat) (w : world) : world * result exn (option Stats) :=
  match w_queues w !! q with
  | Some (Some v) => (set_probes w (w_probes w) (w_next_probe_id w) (<[q := None]> (w_queues w)), Ok v)
  | _ => (w, Err (TimeoutError "timed out waiting for Worker Stats"))
  end.

Definition pop_probe (probe_id : Z) (w : world) : world :=
  set_probes w (delete probe_id (w_probes w)) (w_next_probe_id w) (w_queues w).

Definition health (me : option nat) (timeout : pyfloat) : prog value :=
  lift (raise_if (fleb timeout f0) (ValueError "health timeout must be positive"));;;
  p <- region health_register;;
  let '(probe_id, q, epoch) := p in
  result <- pfinally
    (payload <- lift (encode_health probe_id epoch);;
     _send_payload me payload;;;
     region (queue_get q))
    (region (fun w => (pop_probe probe_id w, Ok tt)));;
  match result with
  | None => raise (WorkerUnavailableError "Worker disconnected during health probe")
  | Some stats => return_ (VStats stats)
  end.

(** ** [close] *)

Definition close (me : option nat) : prog value :=
  with_lifecycle_lock (_fail me (unavailable "GenerationClient closed") true;;; return_ VUnit).

(** ** [_dispatch] *)

Definition message_request_id (m : ServerMessage) : Z :=
  match m with
  | MAccepted rid | MRejected rid _ => rid
  | MTokenDelta d => td_request_id d
  | MTerminal t => tm_request_id t
  | MHelloAck _ | MStats _ => 0
  end.

(** What is left to do after the locked part. *)
Inductive dispatch_action :=
| DNone
| DTerminal (s : nat) (t : Terminal)
| DCancel (rid : Z) (epoch : Z).

Definition dispatch_stats (st : Stats) (w : world) : world :=
  match w_probes w !! probe_id st with
  | Some q => set_probes w (w_probes w) (w_next_probe_id w)
                (alter (fun v => put_nowait v (Some st)) q (w_queues w))
  | None => w
  end.

(** A TokenDelta for the request object [s], whose state is [st]. *)
Definition dispatch_delta (s : nat) (st : _RequestState) (d : TokenDelta) (epoch : Z) (w : world)
  : world * result exn dispatch_action :=
  if negb (sequence_no d =? next_sequence_no st) then
    (w, Err (ProtocolError "TokenDelta sequence is not contiguous"))
  else
    let '(b, stored) := put_delta (events st) d in
    let st' := with_events (with_next_sequence_no st (next_sequence_no st + 1)) b in
    if negb stored && negb (cancel_sent st)
    then (update_state w s (fun _ => with_cancel_sent st'), Ok (DCancel (td_request_id d) epoch))
    else (update_state w s (fun _ => st'), Ok DNone).

(** An Accepted, Rejected, TokenDelta or Terminal for the registered object. *)
Definition dispatch_request (s : nat) (st : _RequestState) (m : ServerMessage) (epoch : Z) (w : world)
  : world * result exn dispatch_action :=
  match m with
  | MAccepted _ =>
      if accepted st || bool_decide (is_Some (rejected st))
      then (w, Err (ProtocolError "request received duplicate acceptance"))
      else (update_state w s with_accepted, Ok DNone)
  | MRejected rid status =>
      if accepted st then (w, Err (ProtocolError "Accepted request was later Rejected"))
      else (pop_request rid (update_state w s (fun st => with_rejected st status)), Ok DNone)
  | _ =>
      if negb (accepted st) then (w, Err (ProtocolError "request event arrived before Accepted"))
      else if terminal_received st
           then (w, Err (ProtocolError "request event arrived after Terminal"))
           else match m with
                | MTokenDelta d => dispatch_delta s st d epoch w
                | MTerminal t =>
                    (pop_request (tm_request_id t) (update_state w s with_terminal_received),
                     Ok (DTerminal s t))
                | _ => (w, Ok DNone)
                end
  end.

Definition dispatch_locked (m : ServerMessage) (w : world) : world * result exn dispatch_action :=
  match _require_connected_locked w with
  | Err e => (w, Err e)
  | Ok (_, hello_ack) =>
      match m with
      | MStats st => (dispatch_stats st w, Ok DNone)
      | MHelloAck _ => (w, Err (ProtocolError "duplicate HelloAck"))
      | _ =>
          match w_requests w !! message_request_id m ≫= fun s => (fun st => (s, st)) <$> w_states w !! s with
          | None => (w, Err (ProtocolError ("message references unknown request "
                                              +:+ int_str (message_request_id m))))
          | Some (s, st) => dispatch_request s st m (worker_epoch hello_ack) w
          end
      end
  end.

(** [events.put_terminal(terminal)], raising if the buffer is already closed. *)
Definition deliver_terminal (s : nat) (t : Terminal) (w : world) : world * result exn unit :=
  match w_states w !! s with
  | Some st =>
      let '(b, stored) := put_terminal (events st) t in
      (update_state w s (fun st => with_events st b),
       if stored then Ok tt else Err (ProtocolError "request received duplicate Terminal"))
  | None => (w, Ok tt)
  end.

Definition _dispatch (me : option nat) (m : ServerMessage) : prog unit :=
  action <- region (dispatch_locked m);;
  match action with
  | DNone => return_ tt
  | DTerminal s t => region (deliver_terminal s t)
  | DCancel rid epoch => payload <- lift (encode_cancel rid epoch);; _send_payload me payload
  end.

(** ** The reader thread *)

(** The bytes ahead, as [_receive_frame] sees them. *)
Definition receive (max_payload_bytes : Z) : prog bytes :=
  Ask (fun a => match a with
                | ReplyStream c => lift (fst <$> _receive_frame c max_payload_bytes)
                | ReplyError msg => raise (OSError msg)
                | ReplyOk => raise (EOFError "Worker disconnected")
                end).

Definition reader_locked (w : world) : world * result exn (option HelloAck) :=
  match w_connected w, w_socket w with
  | true, Some _ =>
      (w, match w_hello_ack w with Some h => Ok (Some h) | None => Err AssertionError end)
  | _, _ => (w, Ok None)
  end.

(** One round of the [while True]: [true] to go on, [false] to return. *)
Definition reader_round (me : option nat) : prog bool :=
  h <- region reader_locked;;
  match h with
  | None => return_ false
  | Some hello_ack =>
      payload <- receive (max_frame_payload_bytes (limits hello_ack));;
      message <- lift (decode_server_message payload (Some (worker_epoch hello_ack)));;
      _dispatch me message;;;
      return_ true
  end.

Definition exn_text (e : exn) : string :=
  match e with
  | ProtocolError m | ValueError m | GenerationClientError m | WorkerUnavailableError m
  | ClientCapacityError m | TimeoutError m | EOFError m | OSError m | RuntimeError m => m
  | _ => ""
  end.

Definition reader_failure (e : exn) : Status :=
  unavailable (match e with
               | ProtocolError m => "IPC protocol failure: " +:+ m
               | EOFError m | OSError m => "Worker IPC disconnected: " +:+ m
               | _ => "GenerationClient reader failed: " +:+ exn_text e
               end).

(** The round inside the [try] of the loop, and the end of the thread. *)
Definition _reader_loop (rid : nat) : prog value :=
  goes_on <- ptry (reader_round (Some rid))
               (fun e => _fail (Some rid) (reader_failure e) false;;; return_ false);;
  if goes_on then return_ VContinue
  else region (fun w => (set_reader w (w_reader_thread w) (w_alive w ∖ {[rid]}) (w_fresh w), Ok VStop)).

(** ** [connect] *)

Definition already_connected (w : world) : bool :=
  w_connected w || bool_decide (is_Some (w_socket w))
  || match w_reader_thread w with Some r => bool_decide (r ∈ w_alive w) | None => false end.

(** The three checks on the Worker's reply. *)
Definition check_hello (m : ServerMessage) : result exn HelloAck :=
  match m with
  | MHelloAck h =>
      _ ← raise_if (negb (bool_decide (manifest h = expected_manifest cfg)))
            (ProtocolError "Worker ModelManifest does not match Gateway");
      _ ← raise_if (cfg_max_frame_payload_bytes cfg <? max_frame_payload_bytes (limits h))
            (ProtocolError "Worker frame limit exceeds GenerationClient capacity");
      Ok h
  | _ => Err (ProtocolError "Worker did not reply with HelloAck")
  end.

(** A call that only may fail with [OSError]. *)
Definition os_call : prog unit :=
  Ask (fun a => match a with ReplyError msg => raise (OSError msg) | _ => return_ tt end).

(** The handshake on the new socket [conn], which nobody else knows yet. *)
Definition handshake (conn : nat) : prog HelloAck :=
  os_call;;;
  hello <- lift (encode_hello (expected_manifest cfg));;
  _send_direct conn hello (cfg_max_frame_payload_bytes cfg);;;
  payload <- receive (cfg_max_frame_payload_bytes cfg);;
  message <- lift (decode_server_message payload None);;
  lift (check_hello message).

Definition take_fresh (w : world) : world * result exn nat :=
  (set_reader w (w_reader_thread w) (w_alive w) (S (w_fresh w)), Ok (w_fresh w)).

Definition connect (me : option nat) : prog value :=
  with_lifecycle_lock (
    region (fun w => (w, raise_if (already_connected w)
                           (GenerationClientError "GenerationClient is already connected")));;;
    conn <- region take_fresh;;
    h <- ptry (handshake conn)
           (fun e => region (fun w => (close_socket (Some conn) w, Ok tt));;; raise e);;
    region (fun w => (set_session w (Some conn) (Some h) true, Ok tt));;;
    rid <- region take_fresh;;
    region (fun w => (set_reader w (Some rid) (w_alive w) (w_fresh w), Ok tt));;;
    Ask (fun a =>
      match a with
      | ReplyError msg =>
          _fail me (unavailable ("failed to start reader: " +:+ msg)) false;;;
          raise (RuntimeError msg)
      | _ => region (fun w => (set_reader w (w_reader_thread w) ({[rid]} ∪ w_alive w) (w_fresh w), Ok tt));;;
             Fork rid (return_ VUnit)
      end)).

(** ** The properties *)

(** [connected], and the properties that need a HelloAck. *)
Definition is_connected (w : world) : bool := w_connected w.
Definition hello_property {A} (f : HelloAck -> A) (w : world) : result exn A :=
  match w_hello_ack w with Some h => Ok (f h) | None => Err not_connected end.
Definition client_worker_epoch : world -> result exn Z := hello_property worker_epoch.
Definition client_manifest : world -> result exn ModelManifest := hello_property manifest.
Definition client_limits : world -> result exn WorkerLimits := hello_property limits.

(** ** [GenerationHandle.next_event] *)

Definition event_ready (s : nat) (w : world) : bool :=
  match w_states w !! s with Some st => negb (must_wait (events st)) | None => false end.

Definition take_event (s : nat) (w : world) : world * result exn value :=
  match w_states w !! s with
  | Some st =>
      let '(b, r) := get (events st) in
      (update_state w s (fun st => with_events st b), VEvent <$> r)
  | None => (w, Err StopIteration)
  end.

Definition next_event (s : nat) (timed : bool) : prog value :=
  Atomic (fun w => event_ready s w || timed) (fun w => (take_event s w).1)
    (fun w => Done (take_event s w).2).

(** ** The system: any number of threads calling the client *)

Inductive call :=
| CConnect
| CSubmit (r : GenerationRequest) (timed : bool)
| CCancel (rid : Z)
| CHealth (timeout : pyfloat)
| CClose
| CNextEvent (s : nat) (timed : bool).

Definition call_prog (c : call) : prog value :=
  match c with
  | CConnect => connect None
  | CSubmit r timed => submit None r timed
  | CCancel rid => cancel None rid
  | CHealth timeout => health None timeout
  | CClose => close None
  | CNextEvent s timed => next_event s timed
  end.

(** A caller passes each request id to [submit] once. *)
Definition may_call (c : call) (w : world) : bool :=
  match c with CSubmit r _ => bool_decide (request_id r ∉ w_issued w) | _ => true end.
Definition note_call (c : call) (w : world) : world :=
  match c with CSubmit r _ => set_issued w ({[request_id r]} ∪ w_issued w) | _ => w end.

(** A reader goes on with its loop. *)
Definition goes_again (reader : option nat) (v : value) : option nat :=
  match v with VContinue => reader | _ => None end.

Inductive client_step : client_config -> client_config -> Prop :=
| client_internal c c' : step _reader_loop goes_again c c' -> client_step c c'
| client_call w ts cl :
    may_call cl w = true -> client_step (w, ts) (note_call cl w, ts ++ [(None, call_prog cl)]).

End Methods.

Definition init_config : client_config := (init_world, []).

(** Everything that can happen to a client. *)
Definition reachable (cfg : GenerationClientConfig) (c : client_config) : Prop :=
  rtc (client_step cfg) init_config c.
