(* ===== verification/ClientInv.v ===== *)
(** The invariant of the client under any interleaving of its threads, and how
    each atomic region keeps it.

    Tokens say what a thread still has to do: deliver the Terminal of a request
    object it took out of the table, finish a [submit], release a lock, end a
    reader thread, read from the open session. *)
From Stdlib Require Import ZArith Lia Ascii String Sorted.
From stdpp Require Import base list list_numbers strings gmap.
From S2P Require Import Prelude PyFloat Json Protocol Framing EventBuffer Threads Client.
Local Open Scope Z_scope.

Inductive submit_stage := Pending | Handle | Lost.

(** What other threads may be waiting for: the send lock is released, a reader
    thread ends, the messages of the session are read. *)
Inductive hold := HSend | HAlive (r : nat) | HRead.

Inductive token :=
| GFresh (rid : Z)                                    (* may register [rid] *)
| GOwe (received : bool) (s : nat)                    (* owes [s] its Terminal *)
| GSub (stage : submit_stage) (s : nat) (rid : Z)     (* submitted [s] *)
| GLife (cleared : bool)                              (* holds the lifecycle lock *)
| GHold (h : hold).                                   (* others may wait for it *)

Definition fresh_ids (G : list token) : list Z :=
  omap (fun g => match g with GFresh rid => Some rid | _ => None end) G.
Definition owed (G : list token) : list nat :=
  omap (fun g => match g with GOwe _ s => Some s | _ => None end) G.
Definition subs (G : list token) : list nat :=
  omap (fun g => match g with GSub _ s _ => Some s | _ => None end) G.
Definition lifes (G : list token) : list bool :=
  omap (fun g => match g with GLife b => Some b | _ => None end) G.
Definition holds (G : list token) : list hold :=
  omap (fun g => match g with GHold h => Some h | _ => None end) G.

(** The [while] of [submit] is over for this object. *)
Definition answered (st : _RequestState) : bool :=
  accepted st || bool_decide (is_Some (rejected st)) || bool_decide (is_Some (failure st)).

(** The sequence numbers in a buffer: increasing, below the next expected one,
    and without a gap up to it unless the buffer overflowed. *)
Definition seq_ok (st : _RequestState) : Prop :=
  let ds := deltas (events st) in
  0 <= next_sequence_no st
  /\ Forall (fun d => sequence_no d < next_sequence_no st) ds
  /\ StronglySorted (fun d e => sequence_no d < sequence_no e) ds
  /\ (overflowed (events st) = false ->
      sequence_no <$> ds
      = seqZ (next_sequence_no st - Z.of_nat (List.length ds)) (Z.of_nat (List.length ds))).

Definition in_table (w : world) (s : nat) (st : _RequestState) : Prop :=
  w_requests w !! rs_request_id st = Some s.

Record state_ok (cfg : GenerationClientConfig) (w : world) (G : list token) (s : nat)
  (st : _RequestState) : Prop := {
  so_buffer : buffer_wf (events st);
  so_capacity : max_delta_events (events st) = max_delta_events_per_request cfg;
  so_seq : seq_ok st;
  so_closed : terminal (events st) <> None ->
    accepted st = true /\ ~ in_table w s st /\ s ∉ owed G;
  so_table : in_table w s st -> terminal_received st = false /\ s ∉ owed G;
  so_live : accepted st = true ->
    terminal (events st) <> None \/ in_table w s st \/ s ∈ owed G
    \/ exists rid, GSub Lost s rid ∈ G;
  so_owe : forall b, GOwe b s ∈ G -> terminal_received st = b /\ (b = true -> accepted st = true);
  so_sub : forall stage rid, GSub stage s rid ∈ G ->
    rs_request_id st = rid /\ (stage = Handle -> accepted st = true);
  so_pending : forall rid, GSub Pending s rid ∈ G -> answered st = true \/ in_table w s st }.

(** What [connect] checks before it opens a session. *)
Definition hello_ok (cfg : GenerationClientConfig) (h : HelloAck) : Prop :=
  manifest h = expected_manifest cfg
  /\ max_frame_payload_bytes (limits h) <= cfg_max_frame_payload_bytes cfg.

(** Everything a thread may wait for has an owner. *)
Definition locks_ok (w : world) (G : list token) : Prop :=
  (w_send_lock w = true -> HSend ∈ holds G)
  /\ (w_lifecycle_lock w = true -> lifes G <> [])
  /\ (forall r, r ∈ w_alive w -> HAlive r ∈ holds G)
  /\ (w_connected w = true -> HRead ∈ holds G).

(** One thread at most holds the lifecycle lock. *)
Definition life_ok (w : world) (G : list token) : Prop :=
  (w_lifecycle_lock w = false -> lifes G = [])
  /\ (List.length (lifes G) <= 1)%nat
  /\ (GLife true ∈ G -> w_connected w = false).

Record client_inv (cfg : GenerationClientConfig) (w : world) (G : list token) : Prop := {
  ci_ids : NoDup ((rs_request_id <$> w_states w) ++ fresh_ids G);
  ci_issued : Forall (fun rid => rid ∈ w_issued w) ((rs_request_id <$> w_states w) ++ fresh_ids G);
  ci_table : forall rid s, w_requests w !! rid = Some s ->
    exists st, w_states w !! s = Some st /\ rs_request_id st = rid;
  ci_states : forall s st, w_states w !! s = Some st -> state_ok cfg w G s st;
  ci_owed : NoDup (owed G) /\ Forall (fun s => (s < List.length (w_states w))%nat) (owed G);
  ci_subs : NoDup (subs G) /\ Forall (fun s => (s < List.length (w_states w))%nat) (subs G);
  ci_session : if w_connected w then is_Some (w_socket w) /\ is_Some (w_hello_ack w)
               else w_socket w = None /\ w_hello_ack w = None /\ w_requests w = ∅;
  ci_size : forall h, w_hello_ack w = Some h ->
    Z.of_nat (size (w_requests w))
    <= Z.max 0 (Z.min (max_pending_requests cfg) (max_active_requests (limits h)));
  ci_hello : forall h, w_hello_ack w = Some h -> hello_ok cfg h;
  ci_life : life_ok w G;
  ci_locks : locks_ok w G }.

(** ** Tokens and permutations *)

#[global] Instance fresh_ids_perm : Proper ((≡ₚ) ==> (≡ₚ)) fresh_ids.
Proof. intros G G' H. unfold fresh_ids. by rewrite H. Qed.
#[global] Instance owed_perm : Proper ((≡ₚ) ==> (≡ₚ)) owed.
Proof. intros G G' H. unfold owed. by rewrite H. Qed.
#[global] Instance subs_perm : Proper ((≡ₚ) ==> (≡ₚ)) subs.
Proof. intros G G' H. unfold subs. by rewrite H. Qed.
#[global] Instance lifes_perm : Proper ((≡ₚ) ==> (≡ₚ)) lifes.
Proof. intros G G' H. unfold lifes. by rewrite H. Qed.

#[global] Instance holds_perm : Proper ((≡ₚ) ==> (≡ₚ)) holds.
Proof. intros G G' H. unfold holds. by rewrite H. Qed.

Lemma owed_spec G s : s ∈ owed G <-> exists b, GOwe b s ∈ G.
Proof.
  unfold owed. rewrite list_elem_of_omap. split.
  - intros (g & Hg & H). destruct g; simplify_eq. eauto.
  - intros (b & Hb). exists (GOwe b s). auto.
Qed.

Lemma subs_spec G s : s ∈ subs G <-> exists stage rid, GSub stage s rid ∈ G.
Proof.
  unfold subs. rewrite list_elem_of_omap. split.
  - intros (g & Hg & H). destruct g; simplify_eq. eauto.
  - intros (b & rid & Hb). exists (GSub b s rid). auto.
Qed.

Lemma lifes_spec G b : b ∈ lifes G <-> GLife b ∈ G.
Proof.
  unfold lifes. rewrite list_elem_of_omap. split.
  - intros (g & Hg & H). destruct g; simplify_eq. eauto.
  - intros Hb. exists (GLife b). auto.
Qed.

Lemma state_ok_perm cfg w G G' s st : G ≡ₚ G' -> state_ok cfg w G s st -> state_ok cfg w G' s st.
Proof.
  intros HG []. constructor; try done.
  - by rewrite <-HG.
  - by rewrite <-HG.
  - rewrite <-HG. intros Ha. destruct (so_live0 Ha) as [?|[?|[?|[rid ?]]]]; auto.
    right; right; right. exists rid. by rewrite <-HG.
  - intros b. rewrite <-HG. auto.
  - intros b rid. rewrite <-HG. auto.
  - intros rid. rewrite <-HG. apply so_pending0.
Qed.

Lemma locks_ok_perm w G G' : G ≡ₚ G' -> locks_ok w G -> locks_ok w G'.
Proof.
  unfold locks_ok. intros HG (H1 & H2 & H3 & H4). split_and!.
  - by rewrite <-HG.
  - intros Hl Hn. apply (H2 Hl). apply Permutation_nil. by rewrite HG, Hn.
  - intros r. rewrite <-HG. auto.
  - by rewrite <-HG.
Qed.

Lemma client_inv_perm cfg w G G' : G ≡ₚ G' -> client_inv cfg w G -> client_inv cfg w G'.
Proof.
  intros HG []. constructor; try done.
  - by rewrite <-HG.
  - by rewrite <-HG.
  - intros. eapply state_ok_perm; eauto.
  - by rewrite <-HG.
  - by rewrite <-HG.
  - destruct ci_life0 as (H1 & H2 & H3). split; [|split].
    + intros Hl. apply Permutation_nil. by rewrite <-HG, (H1 Hl).
    + by rewrite <-HG.
    + by rewrite <-HG.
  - by eapply locks_ok_perm.
Qed.

(** Compute field accesses of updated objects and worlds, and nothing else. *)
Ltac fields :=
  cbn [rs_request_id events accepted rejected failure next_sequence_no terminal_received cancel_sent
       with_events with_accepted with_rejected with_failure with_terminal_received with_cancel_sent
       with_next_sequence_no
       set_session set_reader set_requests set_probes set_locks set_wire set_issued set_states
       update_state pop_request fail_locked fs_requests
       w_socket w_reader_thread w_hello_ack w_connected w_requests w_probes w_next_probe_id
       w_lifecycle_lock w_send_lock w_states w_queues w_alive w_fresh w_closed w_sent w_issued
       max_delta_events deltas terminal terminal_delivered overflowed].

Section Inv.
Context (cfg : GenerationClientConfig).
Implicit Types (w : world) (G F : list token) (s : nat) (st : _RequestState).

(** ** Updates *)

Lemma state_ok_table w w' G s st : w_requests w = w_requests w' ->
  state_ok cfg w G s st -> state_ok cfg w' G s st.
Proof. intros Hw []. by constructor; unfold in_table in *; rewrite <-?Hw. Qed.

(** Regions that do not touch what the invariant is about. *)
Lemma inv_same w w' G :
  w_states w' = w_states w -> w_requests w' = w_requests w -> w_issued w' = w_issued w ->
  w_connected w' = w_connected w -> w_socket w' = w_socket w -> w_hello_ack w' = w_hello_ack w ->
  w_lifecycle_lock w' = w_lifecycle_lock w -> w_send_lock w' = w_send_lock w -> w_alive w' = w_alive w ->
  client_inv cfg w G -> client_inv cfg w' G.
Proof.
  intros Hs Hr Hi Hc Hk Hh Hl He Ha []. constructor; unfold locks_ok, life_ok;
    rewrite ?Hs, ?Hr, ?Hi, ?Hc, ?Hk, ?Hh, ?Hl, ?He, ?Ha; try done.
  intros s st Hst. eapply state_ok_table; [|by eauto]. done.
Qed.

Lemma ids_alter s (f : _RequestState -> _RequestState) (l : list _RequestState) :
  (forall st, l !! s = Some st -> rs_request_id (f st) = rs_request_id st) ->
  rs_request_id <$> alter f s l = rs_request_id <$> l.
Proof.
  intros Hf. apply list_eq. intros i. rewrite !list_lookup_fmap.
  destruct (decide (s = i)) as [<-|]; [|by rewrite list_lookup_alter_ne].
  rewrite list_lookup_alter_eq. destruct (l !! s) as [st|] eqn:E; simpl; [|done]. by rewrite Hf.
Qed.

(** Assignments to one request object that keep its local invariant. *)
Lemma inv_update w G s (f : _RequestState -> _RequestState) :
  client_inv cfg w G ->
  (forall st, w_states w !! s = Some st -> state_ok cfg w G s st ->
     rs_request_id (f st) = rs_request_id st /\ state_ok cfg w G s (f st)) ->
  client_inv cfg (update_state w s f) G.
Proof.
  intros HI Hf.
  assert (rs_request_id <$> alter f s (w_states w) = rs_request_id <$> w_states w) as Hids.
  { apply ids_alter. intros st Hst. by apply Hf; [|eapply ci_states]. }
  pose proof HI as []. constructor; cbn; rewrite ?Hids, ?length_alter; try done.
  - intros rid s' Hs'. destruct (ci_table0 rid s' Hs') as (st & Hst & Hid).
    destruct (decide (s = s')) as [<-|].
    + exists (f st). rewrite list_lookup_alter_eq, Hst. split; [done|].
      rewrite <-Hid. by apply Hf; [|eapply ci_states].
    + exists st. by rewrite list_lookup_alter_ne.
  - intros s' st Hst. apply (state_ok_table w); [done|].
    destruct (decide (s = s')) as [<-|].
    + rewrite list_lookup_alter_eq in Hst. apply fmap_Some in Hst as (st0 & Hst0 & ->).
      by apply Hf; [|eapply ci_states].
    + rewrite list_lookup_alter_ne in Hst by done. eauto.
Qed.

Lemma in_table_unique w G s st rid : client_inv cfg w G -> w_states w !! s = Some st ->
  w_requests w !! rid = Some s -> in_table w s st /\ rid = rs_request_id st.
Proof.
  intros [] Hst Hr. destruct (ci_table0 rid s Hr) as (st' & Hst' & <-). simplify_eq. by split.
Qed.

(** Distinct objects have distinct ids. *)
Lemma same_id_same_state w G s s' st st' : client_inv cfg w G ->
  w_states w !! s = Some st -> w_states w !! s' = Some st' ->
  rs_request_id st = rs_request_id st' -> s = s'.
Proof.
  intros [] Hs Hs' Hid. apply NoDup_app in ci_ids0 as (Hnd & _ & _).
  eapply NoDup_lookup; [done| |]; rewrite list_lookup_fmap; [by rewrite Hs|by rewrite Hs', Hid].
Qed.

(** ** [_fail] *)

Lemma fail_states_lookup status l (states : list _RequestState) s :
  fold_right (fun s l => alter (fun st => with_failure st status) s l) states l !! s
  = (fun st => if decide (s ∈ l) then with_failure st status else st) <$> states !! s.
Proof.
  induction l as [|s' l IH]; simpl.
  { destruct (states !! s); done. }
  destruct (decide (s' = s)) as [->|].
  - rewrite list_lookup_alter_eq, IH. destruct (states !! s); simpl; [|done].
    rewrite (decide_True (P := s ∈ s :: l)) by set_solver. by case_decide.
  - rewrite list_lookup_alter_ne, IH by done. destruct (states !! s); simpl; [|done].
    f_equal. repeat case_decide; try done; set_solver.
Qed.

Lemma fail_states_length status l (states : list _RequestState) :
  List.length (fold_right (fun s l => alter (fun st => with_failure st status) s l) states l)
  = List.length states.
Proof. induction l; simpl; [done|]. by rewrite length_alter. Qed.

Lemma fail_states_ids status l (states : list _RequestState) :
  rs_request_id <$> fold_right (fun s l => alter (fun st => with_failure st status) s l) states l
  = rs_request_id <$> states.
Proof. induction l; simpl; [done|]. by rewrite ids_alter. Qed.

Lemma table_refs w s : s ∈ fs_requests (snapshot w) <-> exists rid, w_requests w !! rid = Some s.
Proof.
  simpl. rewrite list_elem_of_fmap. split.
  - intros ([rid s'] & -> & H). apply elem_of_map_to_list in H. eauto.
  - intros (rid & H). exists (rid, s). by rewrite elem_of_map_to_list.
Qed.

Lemma table_refs_nodup w G : client_inv cfg w G -> NoDup (fs_requests (snapshot w)).
Proof.
  intros HI. apply NoDup_fmap_2_strong; [|apply NoDup_map_to_list].
  intros [rid s] [rid' s'] H H' Heq; simpl in Heq; subst s'.
  apply elem_of_map_to_list in H, H'.
  destruct (ci_table _ _ _ HI _ _ H) as (st & Hst & Hid).
  destruct (in_table_unique w G s st rid' HI Hst H') as [_ ->]. by rewrite <-Hid.
Qed.

Lemma owed_app G F : owed (G ++ F) = owed G ++ owed F.
Proof. apply omap_app. Qed.

Lemma owed_debts (l : list nat) b : owed (GOwe b <$> l) = l.
Proof. induction l; simpl; [done|]. by f_equal. Qed.

Lemma other_tokens (l : list nat) b :
  fresh_ids (GOwe b <$> l) = [] /\ subs (GOwe b <$> l) = [] /\ lifes (GOwe b <$> l) = []
  /\ holds (GOwe b <$> l) = [].
Proof. induction l as [|s l IH]; simpl; [done|]. exact IH. Qed.

Lemma tokens_app_debts (l : list nat) b G :
  fresh_ids ((GOwe b <$> l) ++ G) = fresh_ids G /\ subs ((GOwe b <$> l) ++ G) = subs G
  /\ lifes ((GOwe b <$> l) ++ G) = lifes G /\ holds ((GOwe b <$> l) ++ G) = holds G
  /\ owed ((GOwe b <$> l) ++ G) = l ++ owed G.
Proof.
  destruct (other_tokens l b) as (H1 & H2 & H3 & H4). unfold fresh_ids, subs, lifes, holds, owed in *.
  rewrite !omap_app, H1, H2, H3, H4. split_and!; try done. f_equal. apply owed_debts.
Qed.

Lemma in_debts (l : list nat) b g G : g ∈ (GOwe b <$> l) ++ G <-> (exists s, g = GOwe b s /\ s ∈ l) \/ g ∈ G.
Proof. rewrite elem_of_app, list_elem_of_fmap. naive_solver. Qed.

Lemma answered_failed st status : answered (with_failure st status) = true.
Proof. apply orb_true_r. Qed.

Lemma state_ok_failed w w' G s st status :
  client_inv cfg w G -> w_states w !! s = Some st -> w_requests w' = ∅ ->
  state_ok cfg w' ((GOwe false <$> fs_requests (snapshot w)) ++ G) s
    (if decide (s ∈ fs_requests (snapshot w)) then with_failure st status else st).
Proof.
  intros HI Hst Hempty. pose proof (ci_states _ _ _ HI s st Hst) as [].
  set (l := fs_requests (snapshot w)).
  destruct (tokens_app_debts l false G) as (_ & _ & _ & _ & Howed).
  assert (s ∈ l <-> in_table w s st) as Hl.
  { unfold l. rewrite table_refs. split; [|by exists (rs_request_id st)].
    intros (rid & Hr). by eapply in_table_unique. }
  assert (forall s', ~ in_table w' s' st) as Hout by (unfold in_table; by rewrite Hempty).
  assert (terminal (events st) <> None -> s ∉ l) as Hcl.
  { intros Ht Hin. apply so_closed0 in Ht as (_ & Hn & _). by apply Hn, Hl. }
  destruct (decide (s ∈ l)) as [Hin|Hnin]; constructor; unfold in_table, seq_ok in *; fields; rewrite ?Howed; try done.
  - intros Ht. by destruct (Hcl Ht).
  - by intros Hx%Hout.
  - intros _. right; right; left. rewrite elem_of_app. auto.
  - intros b. rewrite in_debts. apply Hl, so_table0 in Hin as [Htr Hno].
    intros [(? & [= -> ->] & _)|Hb]; [done|]. destruct Hno. apply owed_spec. eauto.
  - intros stage rid. rewrite in_debts. intros [(? & ? & _)|Hb]; [done|eauto].
  - intros rid _. left. apply answered_failed.
  - intros Ht. destruct (so_closed0 Ht) as (? & ? & ?). split; [done|]. split; [apply Hout|].
    rewrite elem_of_app. tauto.
  - by intros Hx%Hout.
  - intros Ha. destruct (so_live0 Ha) as [?|[?|[?|[rid ?]]]]; [auto|tauto| |].
    + right; right; left. rewrite elem_of_app. auto.
    + right; right; right. exists rid. rewrite elem_of_app. auto.
  - intros b. rewrite in_debts. intros [(? & [= -> ->] & ?)|Hb]; [done|eauto].
  - intros stage rid. rewrite in_debts. intros [(? & ? & _)|Hb]; [done|eauto].
  - intros rid. rewrite in_debts. intros [(? & ? & _)|Hb]; [done|].
    destruct (so_pending0 rid Hb); [by left|tauto].
Qed.

Lemma inv_fail_locked w G status : client_inv cfg w G ->
  client_inv cfg (fail_locked status w) ((GOwe false <$> fs_requests (snapshot w)) ++ G).
Proof.
  intros HI. set (l := fs_requests (snapshot w)).
  destruct (tokens_app_debts l false G) as (Hf & Hs & Hl & Hh & Ho).
  pose proof HI as []. constructor; cbn [fail_locked set_probes set_requests set_session w_states
    w_requests w_issued w_connected w_socket w_hello_ack w_lifecycle_lock];
    rewrite ?Hf, ?Hs, ?Hl, ?Ho, ?fail_states_ids, ?fail_states_length; try done.
  - intros s st' Hst'. rewrite fail_states_lookup in Hst'.
    apply fmap_Some in Hst' as (st & Hst & ->). by apply state_ok_failed.
  - destruct ci_owed0 as [Hnd Hlt]. split.
    + apply NoDup_app. split; [by eapply table_refs_nodup|]. split; [|done].
      intros s Hin Hin'. apply table_refs in Hin as (rid & Hr).
      destruct (ci_table0 rid s Hr) as (st & Hst & Hid).
      pose proof (ci_states0 s st Hst) as []. destruct so_table0 as [_ Hno]; [|done].
      by eapply in_table_unique.
    + apply Forall_app. split; [|done]. apply Forall_forall. intros s Hin.
      apply table_refs in Hin as (rid & Hr). destruct (ci_table0 rid s Hr) as (st & Hst & _).
      by eapply lookup_lt_Some.
  - destruct ci_life0 as (H1 & H2 & H3). unfold life_ok. rewrite Hl. by split_and!.
  - destruct ci_locks0 as (H1 & H2 & H3 & H4). unfold locks_ok. fields. by rewrite Hl, Hh.
Qed.

(** A payment of one debt: the object stays as it is or gets its Terminal. *)
Lemma inv_pay w G s b (f : _RequestState -> _RequestState) :
  client_inv cfg w (GOwe b s :: G) ->
  (forall st, w_states w !! s = Some st -> state_ok cfg w (GOwe b s :: G) s st -> s ∉ owed G ->
     rs_request_id (f st) = rs_request_id st /\ state_ok cfg w G s (f st)) ->
  client_inv cfg (update_state w s f) G.
Proof.
  intros HI Hf'. pose proof HI as []. cbn in *.
  destruct ci_owed0 as [Hnd Hlt]. apply NoDup_cons in Hnd as [Hno Hnd].
  apply Forall_cons in Hlt as [Hs Hlt].
  assert (forall st, w_states w !! s = Some st -> state_ok cfg w (GOwe b s :: G) s st ->
     rs_request_id (f st) = rs_request_id st /\ state_ok cfg w G s (f st)) as Hf by auto.
  assert (forall s' st, s' <> s -> state_ok cfg w (GOwe b s :: G) s' st -> state_ok cfg w G s' st)
    as Hother.
  { intros s' st Hne []. constructor; try done; cbn in *.
    - intros Ht. destruct (so_closed0 Ht) as (? & ? & ?). set_solver.
    - intros Ht. destruct (so_table0 Ht). set_solver.
    - intros Ha. destruct (so_live0 Ha) as [?|[?|[?|[rid ?]]]]; auto.
      + right; right; left. set_solver.
      + right; right; right. exists rid. set_solver.
    - intros b'. specialize (so_owe0 b'). set_solver.
    - intros stage rid. specialize (so_sub0 stage rid). set_solver.
    - intros rid Hin. apply (so_pending0 rid). set_solver. }
  assert (rs_request_id <$> alter f s (w_states w) = rs_request_id <$> w_states w) as Hids.
  { apply ids_alter. intros st Hst. apply Hf; eauto. }
  constructor; cbn; rewrite ?Hids, ?length_alter; try done.
  - intros rid s' Hs'. destruct (ci_table0 rid s' Hs') as (st & Hst & Hid).
    destruct (decide (s = s')) as [<-|].
    + exists (f st). rewrite list_lookup_alter_eq, Hst. split; [done|].
      rewrite <-Hid. apply Hf; eauto.
    + exists st. by rewrite list_lookup_alter_ne.
  - intros s' st Hst. apply (state_ok_table w); [done|].
    destruct (decide (s = s')) as [<-|].
    + rewrite list_lookup_alter_eq in Hst. apply fmap_Some in Hst as (st0 & Hst0 & ->).
      apply Hf; eauto.
    + rewrite list_lookup_alter_ne in Hst by done. apply Hother; eauto.
  - destruct ci_life0 as (H1 & H2 & H3). split; [done|]. split; [done|]. set_solver.
Qed.

Lemma owing_open w G s b st : state_ok cfg w (GOwe b s :: G) s st ->
  terminal (events st) = None /\ ~ in_table w s st /\ terminal_received st = b
  /\ (b = true -> accepted st = true).
Proof.
  intros []. assert (s ∈ owed (GOwe b s :: G)) as Hin by (apply owed_spec; exists b; set_solver).
  split_and!.
  - destruct (terminal (events st)) eqn:Ht; [|done]. by destruct so_closed0 as (_ & _ & ?).
  - intros Ht. by destruct (so_table0 Ht).
  - apply so_owe0. set_solver.
  - apply (so_owe0 b). set_solver.
Qed.

Lemma state_ok_paid w G s b st t :
  state_ok cfg w (GOwe b s :: G) s st -> s ∉ owed G -> accepted st = true ->
  state_ok cfg w G s (with_events st (put_terminal (events st) t).1).
Proof.
  intros Hok Hno Ha. destruct (owing_open _ _ _ _ _ Hok) as (Ht & Hout & _ & _).
  destruct Hok as []. unfold put_terminal. rewrite Ht.
  constructor; unfold seq_ok, in_table in *; fields; try done.
  - by destruct so_buffer0 as [? H2]; split; [|intros Htd; destruct (H2 Htd)].
  - intros. left. done.
  - intros b' Hb. destruct Hno. apply owed_spec. eauto.
  - intros stage rid Hin. apply (so_sub0 stage rid). set_solver.
  - intros rid Hin. apply (so_pending0 rid). set_solver.
Qed.

Lemma state_ok_settled w G s b st :
  state_ok cfg w (GOwe b s :: G) s st -> s ∉ owed G -> accepted st = false -> state_ok cfg w G s st.
Proof.
  intros Hok Hno Ha. destruct (owing_open _ _ _ _ _ Hok) as (Ht & Hout & _ & _).
  destruct Hok as []. constructor; try done.
  - rewrite Ha. done.
  - intros b' Hb. destruct Hno. apply owed_spec. eauto.
  - intros stage rid Hin. apply (so_sub0 stage rid). set_solver.
  - intros rid Hin. apply (so_pending0 rid). set_solver.
Qed.

Lemma inv_fail_request w G s status : client_inv cfg w (GOwe false s :: G) ->
  client_inv cfg (fail_request status s w) G.
Proof.
  intros HI. eapply inv_pay; [done|]. intros st Hst Hok Hno.
  destruct (owing_open _ _ _ _ _ Hok) as (Ht & _ & Htr & _). rewrite Htr, andb_true_r.
  destruct (accepted st) eqn:Ha.
  - split; [done|]. by eapply state_ok_paid.
  - split; [done|]. by eapply state_ok_settled.
Qed.

(** The Terminal the reader took is delivered: the buffer was still open. *)
Lemma inv_deliver w G s t : client_inv cfg w (GOwe true s :: G) ->
  (deliver_terminal s t w).2 = Ok tt /\ client_inv cfg (deliver_terminal s t w).1 G.
Proof.
  intros HI. unfold deliver_terminal.
  assert (exists st, w_states w !! s = Some st) as (st & Hst).
  { apply lookup_lt_is_Some. apply ci_owed in HI as [_ H]. by apply Forall_cons in H as [? _]. }
  destruct (owing_open _ _ _ _ _ (ci_states _ _ _ HI s st Hst)) as (Ht & _ & _ & Ha).
  rewrite Hst. destruct (put_terminal (events st) t) as [b stored] eqn:Hput. cbn [fst snd]. split.
  - unfold put_terminal in Hput. rewrite Ht in Hput. by simplify_eq.
  - eapply inv_pay; [done|]. intros st' Hst' Hok Hno. assert (st' = st) as -> by congruence.
    split; [done|]. replace b with (put_terminal (events st) t).1 by by rewrite Hput.
    eapply state_ok_paid; eauto.
Qed.

(** An object that keeps its place in the table and whose tokens do not change. *)
Lemma state_ok_frame w w' G G' s st :
  (in_table w' s st <-> in_table w s st) ->
  (forall b, GOwe b s ∈ G' <-> GOwe b s ∈ G) ->
  (forall stage rid, GSub stage s rid ∈ G' <-> GSub stage s rid ∈ G) ->
  state_ok cfg w G s st -> state_ok cfg w' G' s st.
Proof.
  intros Ht Ho Hs [].
  assert (s ∈ owed G' <-> s ∈ owed G) as Howed.
  { rewrite !owed_spec. by setoid_rewrite Ho. }
  constructor; rewrite ?Howed, ?Ht; try done.
  - intros Ha. by setoid_rewrite Hs; apply so_live0.
  - intros b. rewrite Ho. auto.
  - intros stage rid. rewrite Hs. auto.
  - intros rid. rewrite Hs, Ht. apply so_pending0.
Qed.

Lemma sub_state w G stage s rid : client_inv cfg w G -> GSub stage s rid ∈ G ->
  exists st, w_states w !! s = Some st /\ rs_request_id st = rid.
Proof.
  intros HI Hin. assert (s ∈ subs G) as Hs by (apply subs_spec; eauto).
  pose proof (ci_subs _ _ _ HI) as [_ Hlt]. rewrite Forall_forall in Hlt.
  destruct (lookup_lt_is_Some_2 (w_states w) s (Hlt s Hs)) as [st Hst].
  exists st. split; [done|]. by apply (so_sub _ _ _ _ _ (ci_states _ _ _ HI s st Hst) stage rid).
Qed.

(** ** [submit] *)

Lemma new_state_ok w G s rid : 0 <= max_delta_events_per_request cfg ->
  s ∉ owed G -> (forall stage r, GSub stage s r ∈ G -> r = rid /\ stage <> Handle) ->
  w_requests w !! rid = Some s ->
  state_ok cfg w G s (new_state rid (max_delta_events_per_request cfg)).
Proof.
  intros Hcap Ho Hs Hin. constructor; cbn; try done.
  - unfold seq_ok; cbn. split_and!; try done; constructor.
  - intros b Hb. destruct Ho. apply owed_spec. eauto.
  - intros stage r Hr. by destruct (Hs stage r Hr) as [-> ?].
  - intros r _. by right.
Qed.

Lemma inv_register w G r : 0 <= max_delta_events_per_request cfg ->
  client_inv cfg w (GFresh (request_id r) :: G) ->
  match (submit_register cfg r w).2 with
  | Ok (s, _) => client_inv cfg (submit_register cfg r w).1 (GSub Pending s (request_id r) :: G)
  | Err _ => client_inv cfg (submit_register cfg r w).1 (GFresh (request_id r) :: G)
  end.
Proof.
  intros Hcap HI. unfold submit_register.
  destruct (_require_connected_locked w) as [[conn h]|e] eqn:Hreq; [|done].
  destruct (_validate_request_against_worker r h); [|done].
  case_bool_decide as Hnone; [done|].
  destruct (Z.leb_spec (Z.min (max_pending_requests cfg) (max_active_requests (limits h)))
              (Z.of_nat (size (w_requests w)))) as [|Hroom]; [done|].
  cbn [fst snd]. assert (w_requests w !! request_id r = None) as Hn by by apply eq_None_not_Some.
  assert (w_connected w = true /\ w_hello_ack w = Some h) as [Hconn Hhello].
  { unfold _require_connected_locked in Hreq. repeat case_match; simplify_eq; auto. }
  set (s := List.length (w_states w)). set (rid := request_id r) in *.
  pose proof HI as []. cbn in *.
  assert (forall G0, NoDup (owed G0) /\ Forall (fun s0 => (s0 < s)%nat) (owed G0) -> s ∉ owed G0) as Hbig.
  { intros G0 [_ Hlt] Hin. rewrite Forall_forall in Hlt. specialize (Hlt s Hin). lia. }
  assert (s ∉ subs G) as Hsub.
  { intros Hin. destruct ci_subs0 as [_ Hlt]. rewrite Forall_forall in Hlt.
    specialize (Hlt s Hin). unfold s in *. lia. }
  constructor; fields.
  - rewrite fmap_app, <-app_assoc. exact ci_ids0.
  - rewrite fmap_app, <-app_assoc. exact ci_issued0.
  - intros rid' s' H. apply lookup_insert_Some in H as [[<- <-]|[Hne H]].
    + eexists. rewrite lookup_app_r, Nat.sub_diag by done. done.
    + destruct (ci_table0 rid' s' H) as (st & Hst & Hid). exists st.
      by rewrite lookup_app_l by by eapply lookup_lt_Some.
  - intros s' st Hst. apply lookup_app_Some in Hst as [Hst|[Hle Hst]].
    + assert (s' <> s) by (apply lookup_lt_Some in Hst; unfold s; lia).
      eapply (state_ok_frame w _ (GFresh rid :: G)); [| | |by apply ci_states0].
      * unfold in_table. fields. rewrite lookup_insert_ne; [done|]. intros Heq.
        apply NoDup_app in ci_ids0 as (_ & Hdis & _). apply (Hdis (rs_request_id st)).
        -- apply list_elem_of_fmap. exists st. split; [done|]. by eapply list_elem_of_lookup_2.
        -- rewrite <-Heq. set_solver.
      * set_solver.
      * set_solver.
    + apply list_lookup_singleton_Some in Hst as [Heq <-].
      assert (s' = s) as -> by (unfold s; lia). apply new_state_ok; [done| | |by apply lookup_insert_eq].
      * by apply Hbig.
      * intros stage r' Hin. apply elem_of_cons in Hin as [[= -> ->]|Hin]; [done|].
        destruct Hsub. apply subs_spec. eauto.
  - rewrite length_app. destruct ci_owed0 as [? Hlt]. split; [done|].
    eapply Forall_impl; [exact Hlt|]. simpl. lia.
  - rewrite length_app. destruct ci_subs0 as [Hnd Hlt]. cbn. split; [by apply NoDup_cons|].
    constructor; [simpl; lia|]. eapply Forall_impl; [exact Hlt|]. simpl. lia.
  - rewrite Hconn in *. done.
  - intros h' Hh'. assert (h' = h) as -> by congruence. rewrite map_size_insert_None by done. lia.
  - exact ci_hello0.
  - destruct ci_life0 as (H1 & H2 & H3). split; [done|]. split; [done|]. set_solver.
  - exact ci_locks0.
Qed.

(** The entry of [rid] leaves the table; only the object [s] it named changes. *)
Lemma inv_take_out w G G' rid s (f : _RequestState -> _RequestState) :
  client_inv cfg w G ->
  (forall s', w_requests w !! rid = Some s' -> s' = s) ->
  (forall st, w_states w !! s = Some st -> rs_request_id st = rid) ->
  fresh_ids G' = fresh_ids G -> subs G' = subs G -> lifes G' = lifes G -> holds G' = holds G ->
  NoDup (owed G') /\ Forall (fun s => (s < List.length (w_states w))%nat) (owed G') ->
  (forall s', s' <> s -> (forall b, GOwe b s' ∈ G' <-> GOwe b s' ∈ G)
                       /\ (forall stage r, GSub stage s' r ∈ G' <-> GSub stage s' r ∈ G)) ->
  (forall st, w_states w !! s = Some st -> state_ok cfg w G s st ->
     rs_request_id (f st) = rs_request_id st
     /\ state_ok cfg (pop_request rid w) G' s (f st)) ->
  client_inv cfg (pop_request rid (update_state w s f)) G'.
Proof.
  intros HI Hown Hid Hfr Hsu Hli Hho How Htok Hf.
  assert (rs_request_id <$> alter f s (w_states w) = rs_request_id <$> w_states w) as Hids.
  { apply ids_alter. intros st Hst. by apply Hf; [|eapply ci_states]. }
  pose proof HI as []. constructor; fields; rewrite ?Hids, ?Hfr, ?Hsu, ?Hli, ?length_alter; try done.
  - intros rid' s' Hs'. apply lookup_delete_Some in Hs' as [Hne Hs'].
    destruct (ci_table0 rid' s' Hs') as (st & Hst & Hst'). exists st.
    destruct (decide (s = s')) as [<-|]; [|by rewrite list_lookup_alter_ne].
    destruct Hne. by rewrite <-(Hid st Hst).
  - intros s' st Hst. destruct (decide (s = s')) as [<-|Hne].
    + rewrite list_lookup_alter_eq in Hst. apply fmap_Some in Hst as (st0 & Hst0 & ->).
      eapply state_ok_table; [|by apply Hf; [|eapply ci_states]]. done.
    + rewrite list_lookup_alter_ne in Hst by done.
      eapply (state_ok_frame w _ G); [|by apply Htok|by apply Htok|by eauto].
      unfold in_table. fields. destruct (decide (rs_request_id st = rid)) as [Heq|].
      * rewrite Heq, lookup_delete_eq. split; [done|]. intros H. by apply Hown in H.
      * by rewrite lookup_delete_ne.
  - destruct (w_connected w); [done|]. destruct ci_session0 as (? & ? & ->).
    by rewrite delete_empty.
  - intros h Hh. specialize (ci_size0 h Hh).
    assert (size (delete rid (w_requests w)) <= size (w_requests w))%nat; [|lia].
    apply map_subseteq_size, delete_subseteq.
  - destruct ci_life0 as (H1 & H2 & H3). unfold life_ok. rewrite <-lifes_spec, Hli, lifes_spec. by split_and!.
  - unfold locks_ok. fields. rewrite Hli, Hho. exact ci_locks0.
Qed.

(** [submit]'s error path: the entry it removes can only be its own. *)
Lemma inv_pop_own w G s rid : client_inv cfg w (GSub Pending s rid :: G) ->
  client_inv cfg (pop_request rid w) (GSub Lost s rid :: G).
Proof.
  intros HI. destruct (sub_state w _ Pending s rid HI ltac:(set_solver)) as (st & Hst & Hid).
  assert (pop_request rid w = pop_request rid (update_state w s (fun st => st))) as ->.
  { unfold pop_request, update_state. fields. unfold set_requests. f_equal. symmetry.
    by apply list_alter_id. }
  assert (forall s', w_requests w !! rid = Some s' -> s' = s) as Hown.
  { intros s' Hs'. destruct (ci_table _ _ _ HI _ _ Hs') as (st' & Hst' & Hid').
    eapply (same_id_same_state w _ s' s); [done..|congruence]. }
  eapply inv_take_out; [exact HI|exact Hown|intros; congruence|done..| | |].
  - apply (ci_owed _ _ _ HI).
  - intros s' Hne. set_solver.
  - intros st' Hst' Hok. assert (st' = st) as -> by congruence. split; [done|].
    assert (~ in_table (pop_request rid w) s st) as Hout.
    { unfold in_table. fields. by rewrite Hid, lookup_delete_eq. }
    destruct Hok. constructor; try done.
    + intros Ht. destruct (so_closed0 Ht) as (? & ? & ?). done.
    + intros _. right; right; right. exists rid. set_solver.
    + intros b Hb. apply so_owe0. set_solver.
    + intros stage r. rewrite elem_of_cons. intros [[= -> ->]|Hin]; [done|].
      apply so_sub0. set_solver.
    + intros r. rewrite elem_of_cons. intros [?|Hin]; [done|].
      pose proof (ci_subs _ _ _ HI) as [Hnd _]. apply NoDup_cons in Hnd as [Hn _].
      destruct Hn. apply subs_spec. eauto.
Qed.

(** [submit] returns the object only once it is accepted. *)
Lemma inv_handle w G s rid s' : client_inv cfg w (GSub Pending s rid :: G) ->
  submit_outcome s rid w = Ok (Some s') -> s' = s /\ client_inv cfg w (GSub Handle s rid :: G).
Proof.
  intros HI Hout. unfold submit_outcome in Hout.
  destruct (w_states w !! s) as [st|] eqn:Hst; [|done].
  destruct (accepted st) eqn:Ha; [|by repeat case_match]. injection Hout as <-. split; [done|].
  pose proof HI as []. constructor; try done.
  - intros s' st' Hst'. destruct (ci_states0 s' st' Hst'). constructor; try done.
    + intros Ha'. destruct (so_live0 Ha') as [?|[?|[?|[r ?]]]]; auto.
      right; right; right. exists r. set_solver.
    + intros b Hb. apply so_owe0. set_solver.
    + intros stage r. rewrite elem_of_cons. intros [[= -> -> ->]|Hin].
      * assert (st' = st) as -> by congruence. split; [|done]. apply (so_sub0 Pending). set_solver.
      * apply so_sub0. set_solver.
    + intros r Hin. apply (so_pending0 r). set_solver.
  - destruct ci_life0 as (H1 & H2 & H3). split; [done|]. split; [done|]. set_solver.
Qed.

(** ** [_dispatch] *)

Lemma sorted_snoc {A} (R : A -> A -> Prop) l x :
  StronglySorted R l -> Forall (fun y => R y x) l -> StronglySorted R (l ++ [x]).
Proof.
  induction 1 as [|y l Hl IH Hy]; intros Hx; simpl; [by repeat constructor|].
  apply Forall_cons in Hx as [Hyx Hx]. constructor; [auto|].
  apply Forall_app. split; [done|by repeat constructor].
Qed.

Lemma seqZ_snoc n k : 0 <= k -> seqZ (n - k) k ++ [n] = seqZ (n + 1 - (k + 1)) (k + 1).
Proof.
  intros. rewrite (seqZ_app _ k 1) by lia. f_equal; [f_equal; lia|].
  replace (n + 1 - (k + 1) + k) with n by lia. rewrite seqZ_cons by lia. by rewrite seqZ_nil by lia.
Qed.

Lemma seq_ok_put st d : seq_ok st -> terminal (events st) = None ->
  sequence_no d = next_sequence_no st ->
  seq_ok (with_events (with_next_sequence_no st (next_sequence_no st + 1)) (put_delta (events st) d).1).
Proof.
  intros (H0 & Hlt & Hsort & Hcont) Ht Hd. unfold seq_ok, put_delta. rewrite Ht.
  assert (Forall (fun d => sequence_no d < next_sequence_no st + 1) (deltas (events st))) as Hlt'.
  { eapply Forall_impl; [exact Hlt|]. simpl. lia. }
  case_goal; fields; cbn [fst]; fields; (split; [lia|]).
  - split; [exact Hlt'|]. split; [exact Hsort|]. done.
  - split; [|split].
    + apply Forall_app. split; [exact Hlt'|]. repeat constructor. lia.
    + apply sorted_snoc; [done|]. by rewrite Hd.
    + intros Ho. rewrite fmap_app, Hcont, length_app by done. cbn [fmap list_fmap List.length].
      rewrite Hd, Nat2Z.inj_add. apply seqZ_snoc. lia.
Qed.

Lemma seq_ok_same st st' : events st' = events st -> next_sequence_no st' = next_sequence_no st ->
  seq_ok st -> seq_ok st'.
Proof. unfold seq_ok. by intros -> ->. Qed.

Lemma put_delta_keeps b d :
  terminal (put_delta b d).1 = terminal b /\ max_delta_events (put_delta b d).1 = max_delta_events b.
Proof. unfold put_delta. destruct (terminal b) eqn:Ht; [done|]. by case_goal. Qed.

Lemma table_open w G s st : client_inv cfg w G -> w_states w !! s = Some st -> in_table w s st ->
  terminal (events st) = None.
Proof.
  intros HI Hst Hin. destruct (terminal (events st)) eqn:Ht; [|done].
  pose proof (so_closed _ _ _ _ _ (ci_states _ _ _ HI s st Hst)) as H.
  by destruct H as (_ & ? & _); [congruence|].
Qed.

(** The object after a TokenDelta in sequence; [c] sets the cancel flag. *)
Lemma state_ok_delta w G s st d (c : bool) :
  state_ok cfg w G s st -> terminal (events st) = None -> sequence_no d = next_sequence_no st ->
  let st' := with_events (with_next_sequence_no st (next_sequence_no st + 1))
               (put_delta (events st) d).1 in
  state_ok cfg w G s (if c then with_cancel_sent st' else st').
Proof.
  intros Hok Ht Hd st'. destruct (put_delta_keeps (events st) d) as [Hkt Hkm].
  assert (seq_ok st') as Hseq by (apply seq_ok_put; [apply Hok|done..]).
  assert (buffer_wf (events st')) as Hwf by (apply put_delta_wf, Hok).
  destruct Hok. destruct c; constructor; unfold in_table in *; unfold st' in *; fields; try done;
    rewrite ?Hkt, ?Hkm; done.
Qed.

Lemma inv_delta w G s st d epoch :
  client_inv cfg w G -> w_states w !! s = Some st -> in_table w s st ->
  client_inv cfg (dispatch_delta s st d epoch w).1 G
  /\ forall s' t, (dispatch_delta s st d epoch w).2 <> Ok (DTerminal s' t).
Proof.
  intros HI Hst Hin. pose proof (table_open w G s st HI Hst Hin) as Ht. unfold dispatch_delta.
  destruct (Z.eqb_spec (sequence_no d) (next_sequence_no st)) as [Hd|]; [|by split].
  assert (forall c : bool, client_inv cfg (update_state w s (fun _ =>
    let st' := with_events (with_next_sequence_no st (next_sequence_no st + 1))
                 (put_delta (events st) d).1 in if c then with_cancel_sent st' else st')) G) as Hc.
  { intros c. apply inv_update; [done|]. intros st0 Hst0 Hok. assert (st0 = st) as -> by congruence.
    split; [by destruct c|by apply state_ok_delta]. }
  cbn [negb]. destruct (put_delta (events st) d) as [b stored]. cbn [fst] in *.
  destruct (negb stored && negb (cancel_sent st)); (split; [|done]); [apply (Hc true)|apply (Hc false)].
Qed.

Lemma inv_accepted w G s st : client_inv cfg w G -> w_states w !! s = Some st -> in_table w s st ->
  client_inv cfg (update_state w s with_accepted) G.
Proof.
  intros HI Hst Hin. pose proof (table_open w G s st HI Hst Hin) as Ht.
  apply inv_update; [done|]. intros st0 Hst0 []. assert (st0 = st) as -> by congruence.
  split; [done|]. constructor; unfold in_table in *; fields; try done.
  - auto.
  - intros b Hb. by destruct (so_owe0 b Hb).
  - intros stage r Hr. by destruct (so_sub0 stage r Hr).
  - intros r _. by left.
Qed.

Lemma inv_rejected w G s st status : client_inv cfg w G -> w_states w !! s = Some st ->
  in_table w s st -> accepted st = false ->
  client_inv cfg (pop_request (rs_request_id st)
                    (update_state w s (fun st => with_rejected st status))) G.
Proof.
  intros HI Hst Hin Ha. pose proof (table_open w G s st HI Hst Hin) as Ht.
  eapply inv_take_out; [exact HI| | |done|done|done|done|apply HI|done|].
  - unfold in_table in Hin. congruence.
  - congruence.
  - intros st0 Hst0 []. assert (st0 = st) as -> by congruence. split; [done|].
    constructor; unfold in_table in *; fields; rewrite ?lookup_delete_eq; try done.
    + congruence.
    + intros r _. left. apply orb_true_iff. left. apply orb_true_r.
Qed.

Lemma inv_terminal w G s st : client_inv cfg w G -> w_states w !! s = Some st ->
  in_table w s st -> accepted st = true ->
  client_inv cfg (pop_request (rs_request_id st) (update_state w s with_terminal_received))
    (GOwe true s :: G).
Proof.
  intros HI Hst Hin Ha. pose proof (table_open w G s st HI Hst Hin) as Ht.
  pose proof (ci_states _ _ _ HI s st Hst) as Hok.
  destruct (so_table _ _ _ _ _ Hok Hin) as [Htr Hno].
  eapply inv_take_out; [exact HI| | |done|done|done|done| | |].
  - unfold in_table in Hin. congruence.
  - congruence.
  - pose proof (ci_owed _ _ _ HI) as [Hnd Hlt]. split; [by apply NoDup_cons|].
    constructor; [by eapply lookup_lt_Some|done].
  - set_solver.
  - intros st0 Hst0 _. assert (st0 = st) as -> by congruence. split; [done|]. destruct Hok.
    constructor; unfold in_table, seq_ok in *; fields; rewrite ?lookup_delete_eq; try done.
    + intros _. right; right; left. apply owed_spec. exists true. set_solver.
    + intros b. rewrite elem_of_cons. intros [[= ->]|Hb]; [done|].
      destruct Hno. apply owed_spec. eauto.
    + intros stage r Hr. apply (so_sub0 stage r). set_solver.
    + intros r _. left. unfold answered. fields. by rewrite Ha.
Qed.

Lemma inv_dispatch_request w G s st m epoch :
  client_inv cfg w G -> w_states w !! s = Some st -> in_table w s st ->
  message_request_id m = rs_request_id st ->
  match (dispatch_request s st m epoch w).2 with
  | Ok (DTerminal s' t) => client_inv cfg (dispatch_request s st m epoch w).1 (GOwe true s' :: G)
  | _ => client_inv cfg (dispatch_request s st m epoch w).1 G
  end.
Proof.
  intros HI Hst Hin Hrid. unfold dispatch_request. destruct m as [h'|rid|rid status|d|t|ss].
  - by repeat case_match.
  - destruct (accepted st || _) eqn:Ha; [done|]. by eapply inv_accepted.
  - destruct (accepted st) eqn:Ha; [done|]. cbn in *. rewrite Hrid. by eapply inv_rejected.
  - destruct (negb (accepted st)); [done|]. destruct (terminal_received st); [done|].
    destruct (inv_delta w G s st d epoch HI Hst Hin) as [HI' Hno].
    destruct (dispatch_delta s st d epoch w) as [w' r]. cbn [fst snd] in *.
    destruct r as [[|s' t|]|]; try done. by destruct (Hno s' t).
  - destruct (accepted st) eqn:Ha; [|done]. destruct (terminal_received st); [done|].
    cbn in *. rewrite Hrid. by eapply inv_terminal.
  - by repeat case_match.
Qed.

Lemma inv_dispatch w G m : client_inv cfg w G ->
  match (dispatch_locked m w).2 with
  | Ok (DTerminal s t) => client_inv cfg (dispatch_locked m w).1 (GOwe true s :: G)
  | _ => client_inv cfg (dispatch_locked m w).1 G
  end.
Proof.
  intros HI. unfold dispatch_locked. destruct (_require_connected_locked w) as [[conn h]|e]; [|done].
  assert (forall m, let m' := match w_requests w !! message_request_id m
                         ≫= fun s => (fun st => (s, st)) <$> w_states w !! s with
            | None => (w, Err (ProtocolError ("message references unknown request "
                                              +:+ int_str (message_request_id m))))
            | Some (s, st) => dispatch_request s st m (worker_epoch h) w end in
    match m'.2 with
    | Ok (DTerminal s t) => client_inv cfg m'.1 (GOwe true s :: G)
    | _ => client_inv cfg m'.1 G
    end) as Hreq.
  { clear m. intros m. destruct (w_requests w !! message_request_id m) as [s|] eqn:Hs; [|done].
    cbn [mbind option_bind]. destruct (w_states w !! s) as [st|] eqn:Hst; [|done].
    cbn [fmap option_fmap option_map].
    destruct (in_table_unique w G s st _ HI Hst Hs) as [Hin Hrid].
    by apply inv_dispatch_request. }
  destruct m as [h'|rid|rid status|d|t|ss]; try done; try apply Hreq.
  cbn. unfold dispatch_stats. case_match; [|done]. by eapply inv_same; [..|exact HI].
Qed.

(** ** Cancel, events, sessions *)

Lemma inv_cancel w G rid : client_inv cfg w G -> client_inv cfg (cancel_locked rid w).1 G.
Proof.
  intros HI. unfold cancel_locked. repeat case_match; try done. cbn.
  apply inv_update; [done|]. intros st []. intros []. split; [done|].
  by constructor; unfold in_table, seq_ok in *; fields.
Qed.

Lemma get_keeps b : terminal (get b).1 = terminal b
  /\ max_delta_events (get b).1 = max_delta_events b /\ overflowed (get b).1 = overflowed b
  /\ (deltas (get b).1 = deltas b \/ exists d, deltas b = d :: deltas (get b).1).
Proof.
  unfold get. destruct (must_wait b); [by auto|].
  destruct (deltas b) as [|d ds] eqn:Hd; [destruct (terminal_delivered b)|]; cbn; split_and!; eauto.
Qed.

Lemma seq_ok_get st : seq_ok st -> seq_ok (with_events st (get (events st)).1).
Proof.
  unfold seq_ok. fields. destruct (get_keeps (events st)) as (_ & _ & Ho & Hd). rewrite Ho.
  intros (H0 & Hlt & Hs & Hc). destruct Hd as [->|[d Hd]]; [done|].
  rewrite Hd in *. apply Forall_cons in Hlt as [_ Hlt]. apply StronglySorted_inv in Hs as [Hs _].
  split_and!; try done. intros Hov. specialize (Hc Hov).
  rewrite fmap_cons in Hc. cbn [List.length] in Hc. rewrite seqZ_cons in Hc by lia.
  injection Hc as _ Hc. rewrite Hc. f_equal; lia.
Qed.

Lemma inv_take_event w G s : client_inv cfg w G -> client_inv cfg (take_event s w).1 G.
Proof.
  intros HI. unfold take_event. destruct (w_states w !! s) as [st|] eqn:Hst; [|done].
  destruct (get (events st)) as [b r] eqn:Hget. cbn [fst].
  apply inv_update; [done|]. intros st0 Hst0 Hok. assert (st0 = st) as -> by congruence.
  split; [done|]. replace b with (get (events st)).1 by by rewrite Hget.
  destruct (get_keeps (events st)) as (Ht & Hm & _ & _).
  pose proof (get_wf _ (so_buffer _ _ _ _ _ Hok)). pose proof (seq_ok_get st (so_seq _ _ _ _ _ Hok)).
  destruct Hok. constructor; unfold in_table in *; fields; rewrite ?Ht, ?Hm; done.
Qed.

(** The tokens that say something about request objects, as a set. *)
Definition same_debts (G G' : list token) : Prop :=
  fresh_ids G' = fresh_ids G /\ owed G' = owed G /\ subs G' = subs G
  /\ (forall b s, GOwe b s ∈ G' <-> GOwe b s ∈ G)
  /\ (forall stage s rid, GSub stage s rid ∈ G' <-> GSub stage s rid ∈ G).

(** Locks, threads and the tokens for them change; request objects do not. *)
Lemma inv_owners w w' G G' :
  w_states w' = w_states w -> w_requests w' = w_requests w -> w_issued w' = w_issued w ->
  w_connected w' = w_connected w -> w_socket w' = w_socket w -> w_hello_ack w' = w_hello_ack w ->
  same_debts G G' -> life_ok w' G' -> locks_ok w' G' -> client_inv cfg w G -> client_inv cfg w' G'.
Proof.
  intros Hst Hr Hi Hc Hk Hh (Hf & Ho & Hs & Howe & Hsub) Hl Hlo [].
  constructor; rewrite ?Hf, ?Ho, ?Hs, ?Hst, ?Hr, ?Hi, ?Hc, ?Hk, ?Hh; try done.
  intros s st Hs'. eapply (state_ok_frame w w' G); [|done|done|auto]. unfold in_table. by rewrite Hr.
Qed.

Lemma same_debts_cons g G : (forall rid, g <> GFresh rid) -> (forall b s, g <> GOwe b s) ->
  (forall stage s rid, g <> GSub stage s rid) -> same_debts G (g :: G) /\ same_debts (g :: G) G.
Proof.
  intros H1 H2 H3. unfold same_debts.
  assert ((forall b s, GOwe b s ∈ g :: G <-> GOwe b s ∈ G)
    /\ (forall stage s rid, GSub stage s rid ∈ g :: G <-> GSub stage s rid ∈ G)) as [Ha Hb].
  { split; intros; rewrite elem_of_cons; naive_solver. }
  destruct g; try (by edestruct H1); try (by edestruct H2); try (by edestruct H3); split; split_and!; naive_solver.
Qed.

(** Taking and giving up what others may wait for. *)
Ltac same_debts := first [apply same_debts_cons; done].
Ltac owners H := eapply inv_owners; [..|exact H]; [done..|same_debts| |].

Lemma life_hold w h G : life_ok w G <-> life_ok w (GHold h :: G).
Proof. unfold life_ok. rewrite elem_of_cons. cbn. fold (lifes G). naive_solver. Qed.

Lemma inv_send_lock w G : client_inv cfg w G ->
  client_inv cfg (set_locks w (w_lifecycle_lock w) true) (GHold HSend :: G).
Proof.
  intros HI. owners HI; [by apply life_hold, (ci_life _ _ _ HI)|].
  destruct (ci_locks _ _ _ HI) as (H1 & H2 & H3 & H4). unfold locks_ok; fields; cbn; fold (holds G).
  split_and!; [set_solver|done|set_solver|set_solver].
Qed.

Lemma inv_send_unlock w G : client_inv cfg w (GHold HSend :: G) ->
  client_inv cfg (set_locks w (w_lifecycle_lock w) false) G.
Proof.
  intros HI. owners HI; [by apply (life_hold w HSend), (ci_life _ _ _ HI)|].
  destruct (ci_locks _ _ _ HI) as (H1 & H2 & H3 & H4). unfold locks_ok; fields. cbn in H3, H4. fold (holds G) in *.
  split_and!; [done|done|intros r Hr; specialize (H3 r Hr); set_solver|set_solver].
Qed.

Lemma inv_alive w G rid : client_inv cfg w G ->
  client_inv cfg (set_reader w (w_reader_thread w) ({[rid]} ∪ w_alive w) (w_fresh w)) (GHold (HAlive rid) :: G).
Proof.
  intros HI. owners HI; [by apply life_hold, (ci_life _ _ _ HI)|].
  destruct (ci_locks _ _ _ HI) as (H1 & H2 & H3 & H4). unfold locks_ok; fields; cbn; fold (holds G).
  split_and!; [set_solver|done| |set_solver].
  intros r Hr. destruct (decide (r = rid)) as [->|]; [set_solver|]. specialize (H3 r). set_solver.
Qed.

Lemma inv_dead w G rid : client_inv cfg w (GHold (HAlive rid) :: G) ->
  client_inv cfg (set_reader w (w_reader_thread w) (w_alive w ∖ {[rid]}) (w_fresh w)) G.
Proof.
  intros HI. owners HI; [by apply (life_hold w (HAlive rid)), (ci_life _ _ _ HI)|].
  destruct (ci_locks _ _ _ HI) as (H1 & H2 & H3 & H4). unfold locks_ok; fields. cbn in H1, H3, H4. fold (holds G) in *.
  split_and!; [set_solver|done| |set_solver]. intros r Hr. specialize (H3 r). set_solver.
Qed.

Lemma inv_stop_reading w G : w_connected w = false -> client_inv cfg w (GHold HRead :: G) ->
  client_inv cfg w G.
Proof.
  intros Hc HI. owners HI; [by apply (life_hold w HRead), (ci_life _ _ _ HI)|].
  destruct (ci_locks _ _ _ HI) as (H1 & H2 & H3 & H4). unfold locks_ok. cbn in H1, H3. fold (holds G) in *.
  split_and!; [set_solver|done| |congruence]. intros r Hr. specialize (H3 r Hr). set_solver.
Qed.

Lemma inv_lock w G : w_lifecycle_lock w = false -> client_inv cfg w G ->
  client_inv cfg (set_locks w true (w_send_lock w)) (GLife false :: G).
Proof.
  intros Hl HI. pose proof (ci_life _ _ _ HI) as (H1 & _ & _). specialize (H1 Hl).
  owners HI; [unfold life_ok; cbn; fold (lifes G); rewrite H1; split_and!; [done|simpl; lia|]|].
  - rewrite elem_of_cons. intros [?|Hin%lifes_spec]; [done|]. rewrite H1 in Hin. set_solver.
  - destruct (ci_locks _ _ _ HI) as (H2 & _ & H3 & H4). by split_and!.
Qed.

(** Only one thread holds the lifecycle lock. *)
Lemma life_alone w b G : client_inv cfg w (GLife b :: G) -> lifes G = [].
Proof.
  intros HI. pose proof (ci_life _ _ _ HI) as (_ & H & _). cbn in H. fold (lifes G) in H.
  destruct (lifes G); simpl in *; [done|lia].
Qed.

Lemma no_life_in G b : lifes G = [] -> GLife b ∉ G.
Proof. intros H Hin%lifes_spec. rewrite H in Hin. set_solver. Qed.

Lemma inv_unlock w G b : client_inv cfg w (GLife b :: G) ->
  client_inv cfg (set_locks w false (w_send_lock w)) G.
Proof.
  intros HI. pose proof (life_alone w b G HI) as Hn.
  owners HI; [unfold life_ok; rewrite Hn; split_and!; [done|simpl; lia|]|].
  - intros Hin. by apply (no_life_in G true) in Hin.
  - destruct (ci_locks _ _ _ HI) as (H2 & _ & H3 & H4). by split_and!.
Qed.

(** [connect] found no session. *)
Lemma inv_cleared w G : already_connected w = false -> client_inv cfg w (GLife false :: G) ->
  client_inv cfg w (GLife true :: G).
Proof.
  intros Ha HI. pose proof (ci_life _ _ _ HI) as (H1 & H2 & H3).
  eapply inv_owners; [..|exact HI]; [done..| | |].
  - split_and!; try done; set_solver.
  - split_and!; [intros Hl; by apply H1 in Hl|done|]. intros _. unfold already_connected in Ha. by split_bools.
  - destruct (ci_locks _ _ _ HI) as (H4 & _ & H5 & H6). by split_and!.
Qed.

(** The session opens; its connector is the one who reads until there is a
    reader. *)
Lemma inv_open w G conn h : hello_ok cfg h -> client_inv cfg w (GLife true :: G) ->
  client_inv cfg (set_session w (Some conn) (Some h) true) (GHold HRead :: GLife false :: G).
Proof.
  intros Hok HI. pose proof (ci_life _ _ _ HI) as (H1 & H2 & H3).
  assert (w_connected w = false) as Hc by (apply H3; set_solver).
  pose proof (ci_session _ _ _ HI) as Hs. rewrite Hc in Hs. destruct Hs as (_ & _ & He).
  pose proof (no_life_in G true (life_alone w true G HI)) as Hn.
  destruct HI. constructor; fields; try done.
  - intros s st Hst. eapply (state_ok_frame w _ (GLife true :: G)); [done|set_solver|set_solver|auto].
  - intros h' _. rewrite He, map_size_empty. lia.
  - intros h' [= <-]. exact Hok.
  - split_and!; [intros Hl; by apply H1 in Hl|done|]. rewrite !elem_of_cons. naive_solver.
  - destruct ci_locks0 as (H4 & H5 & H6 & _). unfold locks_ok; fields; cbn; fold (holds G). split_and!; set_solver.
Qed.

Lemma inv_issue w G rid : rid ∉ w_issued w -> client_inv cfg w G ->
  client_inv cfg (set_issued w ({[rid]} ∪ w_issued w)) (GFresh rid :: G).
Proof.
  intros Hnew []. constructor; fields; try done.
  - cbn. fold (fresh_ids G). rewrite <-Permutation_middle. apply NoDup_cons. split; [|done].
    intros Hin. rewrite Forall_forall in ci_issued0. by apply Hnew, ci_issued0.
  - cbn. fold (fresh_ids G). rewrite <-Permutation_middle. constructor; [set_solver|].
    eapply Forall_impl; [exact ci_issued0|]. set_solver.
  - intros s st Hst. eapply (state_ok_frame w _ G); [done|set_solver|set_solver|auto].
  - destruct ci_life0 as (? & ? & ?). split_and!; try done. set_solver.
Qed.

Lemma inv_init : client_inv cfg init_world [].
Proof.
  constructor; cbn; try done; try (by constructor).
  - split; by constructor.
  - split; by constructor.
  - unfold life_ok. cbn. split_and!; [done|lia|set_solver].
Qed.

End Inv.
