(* ===== verification/ClientSafe.v ===== *)
(** Every method of the client keeps the invariant of [ClientInv] under every
    interleaving, and what follows for the callers: no request that was accepted
    loses its Terminal, none gets two. *)
From Stdlib Require Import ZArith Lia Ascii String Sorted.
From stdpp Require Import base list list_numbers strings gmap.
From S2P Require Import Prelude PyFloat Json Protocol Framing EventBuffer Threads Client.
From S2P Require Import ClientInv ProtocolFacts.
Local Open Scope Z_scope.

Section Safe.
Context (cfg : GenerationClientConfig) (Hcap : 0 <= max_delta_events_per_request cfg).

(** Between two rounds a reader owns the end of its thread, and reads. *)
Definition reader_res (rid : nat) : list token := [GHold HRead; GHold (HAlive rid)].

Definition any_reader (rid : nat) : Prop := True.

(** Where a thread may wait, and with what: locks in the order lifecycle, reader,
    send; nothing but the wait for the reader with the lifecycle lock; and for an
    answer or an event with nothing another thread could wait for. *)
Inductive client_wait : (world -> bool) -> list token -> Prop :=
| wait_lifecycle O : holds O = [] -> lifes O = [] -> owed O = [] ->
    client_wait (fun w => negb (w_lifecycle_lock w)) O
| wait_send O : HSend ∉ holds O -> lifes O = [] -> owed O = [] ->
    client_wait (fun w => negb (w_send_lock w)) O
| wait_exit reader O : holds O = [] -> owed O = [] -> client_wait (wait_for_exit reader) O
| wait_answer s rid timed O : holds O = [] -> lifes O = [] -> owed O = [] -> GSub Pending s rid ∈ O ->
    client_wait (fun w => decided s w || timed) O
| wait_event s timed : client_wait (fun w => event_ready s w || timed) [].

Abbreviation csafe := (safe (E := exn) (I := reply) (client_inv cfg) client_wait any_reader reader_res).
Implicit Types (O : list token) (w : world).

(** A region that keeps the invariant whatever the tokens. *)
Lemma safe_keeps {A} (f : world -> world * result exn A) O (post : result exn A -> list token -> Prop) :
  (forall w G, client_inv cfg w G -> client_inv cfg (f w).1 G) ->
  (forall w, post (f w).2 O) -> csafe (region f) O post.
Proof. intros Hf Hp. apply safe_region. intros w F HI. exists O. auto. Qed.

Lemma safe_lift {A B} (m : result exn A) (k : A -> prog B) O (post : result exn B -> list token -> Prop) :
  match m with Ok a => csafe (k a) O post | Err e => post (Err e) O end ->
  csafe (pbind (lift m) k) O post.
Proof. by destruct m. Qed.

(** Regions that touch nothing the invariant mentions. *)
Ltac untouched := intros; eapply inv_same; [..|eassumption]; done.

Lemma debts_bind (l : list nat) : (l ≫= fun s => [GOwe false s]) = GOwe false <$> l.
Proof. induction l as [|s l IH]; [done|]. rewrite fmap_cons, <-IH. done. Qed.

Lemma no_debts_bind (l : list nat) : (l ≫= fun _ => @nil token) = [].
Proof. by induction l. Qed.

(** The session is over: whoever read from it may stop. *)
Definition reads (reading : bool) : list token := if reading then [GHold HRead] else [].

Lemma inv_fail_reading (reading : bool) w G status : client_inv cfg w (reads reading ++ G) ->
  client_inv cfg (fail_locked status w) ((GOwe false <$> fs_requests (snapshot w)) ++ G).
Proof.
  intros HI. apply (inv_fail_locked _ _ _ status) in HI. destruct reading; [|done].
  apply inv_stop_reading; [done|]. eapply client_inv_perm; [|exact HI]. simpl. by rewrite Permutation_middle.
Qed.

(** A thread that may join owns nothing a reader could wait for. *)
Definition may_join (join : bool) O : Prop := join = true -> holds O = [] /\ owed O = [].

Lemma safe_fail_reading reading me status join O post : may_join join O ->
  post (Ok tt) O -> csafe (_fail me status join) (reads reading ++ O) post.
Proof.
  intros Hjoin Hpost. apply safe_atomic; [by left|]. intros w F _ HI.
  exists ((GOwe false <$> fs_requests (snapshot w)) ++ O).
  split; [rewrite <-!app_assoc in *; by eapply inv_fail_reading|]. unfold fail_rest.
  apply safe_bind, safe_keeps; [intros w' G; unfold close_socket; cbn; case_match; untouched|intros ?; cbn [snd]].
  apply safe_bind.
  rewrite <-debts_bind.
  eapply safe_for.
  { intros s O'. apply safe_region. intros w' F' HI'. exists O'. split; [|done].
    by apply inv_fail_request. }
  apply safe_bind. rewrite <-(app_nil_l O), <-(no_debts_bind (fs_probes (snapshot w))).
  eapply safe_for.
  { intros q O'. apply safe_keeps; [untouched|done]. }
  assert (forall r, csafe (region (fun w' => (forget_reader r w', Ok tt))) O post) as Hforget.
  { intros r. apply safe_keeps; [|done]. intros w' G. unfold forget_reader. cbn.
    destruct r; [case_match|]; untouched. }
  apply safe_bind. destruct join; [|apply Hforget]. destruct (negb _); [|apply Hforget].
  destruct (Hjoin eq_refl). apply safe_atomic; [right; by constructor|].
  intros w' F' _ HI'. exists O. split; [done|]. apply Hforget.
Qed.

Lemma safe_fail me status join O post : may_join join O ->
  post (Ok tt) O -> csafe (_fail me status join) O post.
Proof. apply (safe_fail_reading false). Qed.

(** A thread that may wait for the send lock. *)
Definition may_send O : Prop := (HSend ∉ holds O) /\ lifes O = [] /\ owed O = [].

Lemma safe_with_send_lock {A} (p : prog A) O (post : result exn A -> list token -> Prop) : may_send O ->
  csafe p (GHold HSend :: O) (fun r O' => O' = GHold HSend :: O /\ post r O) -> csafe (with_send_lock p) O post.
Proof.
  intros (Hh & Hl & Ho) Hp. apply safe_atomic; [right; by constructor|]. intros w F _ HI.
  exists (GHold HSend :: O). split; [by apply inv_send_lock|].
  apply safe_finally. eapply safe_mono; [|exact Hp]. intros r O' [-> Hr].
  apply safe_region. intros w' F' HI'. exists O. split; [by apply inv_send_unlock|done].
Qed.

Lemma safe_sendall conn frame O (post : result exn unit -> list token -> Prop) :
  (forall r, post r O) -> csafe (sendall conn frame) O post.
Proof. intros Hpost []; [|apply Hpost|]; (apply safe_keeps; [untouched|intros; apply Hpost]). Qed.

Lemma safe_send_direct conn payload m O (post : result exn unit -> list token -> Prop) :
  (forall r, post r O) -> csafe (_send_direct conn payload m) O post.
Proof.
  intros Hpost. apply safe_lift. destruct (encode_frame payload m); [|apply Hpost].
  by apply safe_sendall.
Qed.

Lemma safe_send_payload me payload O (post : result exn unit -> list token -> Prop) : may_send O ->
  (forall r, post r O) -> csafe (_send_payload me payload) O post.
Proof.
  intros Hs Hpost. apply safe_with_send_lock, safe_bind, safe_keeps; [done..|].
  intros w. destruct (_require_connected_locked w) as [[conn h]|e]; [|by split].
  apply safe_try, safe_send_direct. intros [u|e]; [by split|].
  destruct e; try by split. apply safe_bind, safe_fail; by split.
Qed.

(** ** The reader *)

Lemma safe_dispatch me m O (post : result exn unit -> list token -> Prop) : may_send O ->
  (forall r, post r O) -> csafe (_dispatch me m) O post.
Proof.
  intros Hs Hpost. apply safe_bind, safe_region. intros w F HI.
  pose proof (inv_dispatch cfg w (O ++ F) m HI) as Hd.
  destruct (dispatch_locked m w) as [w' [[|s t|rid epoch]|e]]; cbn [fst snd] in *; try (exists O; split; [exact Hd|apply Hpost]).
  - exists (GOwe true s :: O). split; [done|]. apply safe_region. intros w1 F1 HI1. exists O.
    destruct (inv_deliver cfg w1 (O ++ F1) s t HI1) as [Hr HI2]. rewrite Hr. auto.
  - exists O. split; [done|]. apply safe_lift. destruct (encode_cancel rid epoch); [|apply Hpost].
    by apply safe_send_payload.
Qed.

(** A reader that goes on keeps what it owns; one that ended owns nothing. *)
Definition loop_post (rid : nat) (r : result exn value) (O : list token) : Prop :=
  match r with
  | Ok VContinue => O = reader_res rid
  | _ => O = []
  end.

(** A finished call owes no Terminal and holds nothing; a handle it returned is
    accepted. *)
Definition user_post (r : result exn value) (O : list token) : Prop :=
  owed O = [] /\ holds O = [] /\ lifes O = [] /\ match r with Ok (VHandle s) => exists rid, GSub Handle s rid ∈ O | _ => True end.

Lemma safe_receive m O (post : result exn bytes -> list token -> Prop) :
  (forall r, post r O) -> csafe (receive m) O post.
Proof. intros Hpost []; apply Hpost. Qed.

(** The reader goes on, or it saw the session over and stopped reading; if it
    raises it still reads. *)
Definition round_post (rid : nat) (r : result exn bool) O : Prop :=
  match r with
  | Ok false => O = [GHold (HAlive rid)]
  | _ => O = reader_res rid
  end.

Lemma reader_locked_over w G : client_inv cfg w G ->
  (reader_locked w).1 = w /\ ((reader_locked w).2 = Ok None -> w_connected w = false).
Proof.
  intros HI. pose proof (ci_session _ _ _ HI) as Hs. unfold reader_locked.
  destruct (w_connected w); [|done]. destruct Hs as [[sock ->] [h ->]]. done.
Qed.

Lemma safe_reader_round me rid : csafe (reader_round me) (reader_res rid) (round_post rid).
Proof.
  apply safe_bind, safe_region. intros w F HI. destruct (reader_locked_over _ _ HI) as [-> Hover].
  destruct (reader_locked w).2 as [[h|]|e].
  2:{ exists [GHold (HAlive rid)]. split; [|done]. apply inv_stop_reading; [auto|exact HI]. }
  2:{ by exists (reader_res rid). }
  exists (reader_res rid). split; [done|].
  apply safe_bind, safe_receive. intros [payload|e]; [|done].
  apply safe_lift. destruct (decode_server_message payload _); [|done].
  apply safe_bind, safe_dispatch; [|by intros [u|e]]. split_and!; [|done..]. set_solver.
Qed.

Lemma safe_reader_loop rid : csafe (_reader_loop rid) (reader_res rid) (loop_post rid).
Proof.
  assert (csafe (region (fun w => (set_reader w (w_reader_thread w) (w_alive w ∖ {[rid]}) (w_fresh w),
    Ok VStop))) [GHold (HAlive rid)] (loop_post rid)) as Hend.
  { apply safe_region. intros w F HI. exists []. split; [by apply inv_dead|done]. }
  apply safe_bind, safe_try. eapply safe_mono; [|apply safe_reader_round]. intros [b|e] O HO.
  - destruct b; unfold round_post in HO; subst O; [done|exact Hend].
  - unfold round_post in HO. subst O. apply safe_bind, (safe_fail_reading true); [done|]. exact Hend.
Qed.

(** ** The callers *)

Lemma safe_submit me r timed : csafe (submit cfg me r timed) [GFresh (request_id r)] user_post.
Proof.
  apply safe_bind, safe_region. intros w F HI. pose proof (inv_register cfg w F r Hcap HI) as Hr.
  destruct (submit_register cfg r w) as [w' [[s epoch]|e]]; cbn [fst snd] in *;
    [|by exists [GFresh (request_id r)]].
  exists [GSub Pending s (request_id r)]. split; [done|]. apply safe_bind, safe_try.
  assert (forall (e : exn) O, O = [GSub Pending s (request_id r)] ->
    csafe (pbind (region (fun w => (pop_request (request_id r) w, Ok tt)))
             (fun _ => @raise unit e)) O
      (fun r' O' => match r' with Ok _ => False | Err _ => user_post (Err e) O' end)) as Hpop.
  { intros e O ->. apply safe_bind, safe_region. intros w1 F1 HI1.
    exists [GSub Lost s (request_id r)]. split; [by apply inv_pop_own|done]. }
  apply safe_lift. destruct (encode_submit r epoch) as [payload|e].
  2:{ eapply safe_mono; [|by apply Hpop]. by intros [|] O'. }
  assert (may_send [GSub Pending s (request_id r)]) as Hsend by (split_and!; [set_solver|done..]).
  apply safe_send_payload; [done|]. intros [u|e].
  2:{ eapply safe_mono; [|by apply Hpop]. by intros [|] O'. }
  apply safe_atomic; [right; apply (wait_answer s (request_id r)); [done..|set_solver]|]. intros w1 F1 _ HI1.
  destruct (submit_outcome s (request_id r) w1) as [[s'|]|e] eqn:Hout.
  - destruct (inv_handle cfg w1 F1 s (request_id r) s' HI1 Hout) as [-> HI2].
    exists [GSub Handle s (request_id r)]. split; [done|]. split_and!; [done..|]. exists (request_id r). set_solver.
  - exists [GSub Pending s (request_id r)]. split; [done|]. apply safe_lift, safe_bind. by apply safe_fail.
  - exists [GSub Pending s (request_id r)]. done.
Qed.

Lemma safe_cancel me rid : csafe (cancel me rid) [] user_post.
Proof.
  apply safe_bind, safe_keeps; [intros; by apply inv_cancel|]. intros w.
  destruct (cancel_locked rid w).2 as [[b [epoch|]]|e]; [|done|done].
  apply safe_lift. destruct (encode_cancel rid epoch); [|done].
  apply safe_bind, safe_send_payload; [|by intros []]. split_and!; [set_solver|done..].
Qed.

Lemma safe_health me timeout : csafe (health me timeout) [] user_post.
Proof.
  apply safe_lift. destruct (raise_if _ _); [|done]. apply safe_bind, safe_keeps.
  { intros w G. unfold health_register. case_match; [|done]. case_match. cbn. untouched. }
  intros w. destruct (health_register w).2 as [[[probe q] epoch]|e]; [|done].
  apply safe_bind, safe_finally.
  assert (forall r : result exn (option Stats),
    csafe (region (fun w => (pop_probe probe w, Ok tt))) []
      (fun r' O => match r' with
       | Ok _ => match r with
                 | Ok a => csafe (match a with
                                  | None => raise (WorkerUnavailableError
                                      "Worker disconnected during health probe")
                                  | Some stats => return_ (VStats stats) end) O user_post
                 | Err e => user_post (Err e) O end
       | Err e => user_post (Err e) O end)) as Hpop.
  { intros r. apply safe_keeps; [untouched|]. intros. by destruct r as [[]|]. }
  apply safe_lift. destruct (encode_health probe epoch); [|apply (Hpop (Err e))].
  apply safe_bind, safe_send_payload; [split_and!; [set_solver|done..]|].
  intros [u|e]; [|apply (Hpop (Err e))].
  apply safe_keeps; [|intros; apply Hpop].
  intros w' G. unfold queue_get. case_match; [|done]. case_match; [|done]. untouched.
Qed.

Lemma safe_lifecycle (p : prog value) :
  csafe p [GLife false] (fun r O => user_post r [] /\ exists b, O = [GLife b]) ->
  csafe (with_lifecycle_lock p) [] user_post.
Proof.
  intros Hp. apply safe_atomic; [right; by constructor|]. intros w F Hg HI. exists [GLife false]. split.
  { apply inv_lock; [by apply negb_true_iff in Hg|done]. }
  apply safe_finally. eapply safe_mono; [|exact Hp]. intros r O [Hr [b ->]].
  apply safe_region. intros w' F' HI'. exists []. split; [by eapply inv_unlock|done].
Qed.

Lemma safe_close me : csafe (close me) [] user_post.
Proof. apply safe_lifecycle, safe_bind, safe_fail; [done|]. split; [done|eauto]. Qed.

Lemma check_hello_ok m h : check_hello cfg m = Ok h -> hello_ok cfg h.
Proof.
  unfold check_hello. intros H. destruct m; try done. inv_ok. split_bools.
  split; [by eapply bool_decide_eq_true_1|lia].
Qed.

Lemma safe_handshake conn O (post : result exn HelloAck -> list token -> Prop) :
  (forall e, post (Err e) O) -> (forall h, hello_ok cfg h -> post (Ok h) O) ->
  csafe (handshake cfg conn) O post.
Proof.
  intros Herr Hok. apply safe_bind.
  assert (csafe (hello <- lift (encode_hello (expected_manifest cfg));;
    _send_direct conn hello (cfg_max_frame_payload_bytes cfg);;;
    payload <- receive (cfg_max_frame_payload_bytes cfg);;
    message <- lift (decode_server_message payload None);;
    lift (check_hello cfg message)) O post) as Hrest.
  { apply safe_lift. destruct (encode_hello _); [|apply Herr].
    apply safe_bind, safe_send_direct. intros [u|e]; [|apply Herr].
    apply safe_bind, safe_receive. intros [payload|e]; [|apply Herr].
    apply safe_lift. destruct (decode_server_message payload None) as [m|]; [|apply Herr].
    simpl. destruct (check_hello cfg m) eqn:Hm; [eauto using check_hello_ok|apply Herr]. }
  intros []; [exact Hrest|apply Herr|exact Hrest].
Qed.

Lemma safe_take_fresh O (post : result exn nat -> list token -> Prop) :
  (forall n, post (Ok n) O) -> csafe (region take_fresh) O post.
Proof. intros Hpost. apply safe_keeps; [untouched|intros; apply Hpost]. Qed.

Lemma safe_connect me : csafe (connect cfg me) [] user_post.
Proof.
  apply safe_lifecycle, safe_bind, safe_region. intros w F HI. cbn [fst snd].
  destruct (already_connected w) eqn:Ha; simpl raise_if.
  { exists [GLife false]. split; [done|]. split; [done|eauto]. }
  exists [GLife true]. split; [by apply inv_cleared|].
  apply safe_bind, safe_take_fresh. intros conn. apply safe_bind, safe_try, safe_handshake.
  { intros e. apply safe_bind, safe_keeps; [untouched|]. intros. split; [done|eauto]. }
  intros h Hh.
  apply safe_bind, safe_region. intros w1 F1 HI1. exists [GHold HRead; GLife false].
  split; [by apply inv_open|]. cbn [snd].
  apply safe_bind, safe_take_fresh. intros rid. apply safe_bind, safe_keeps; [untouched|].
  intros w2. cbn [snd]. intros a.
  assert (csafe (pbind (region (fun w => (set_reader w (w_reader_thread w) ({[rid]} ∪ w_alive w)
      (w_fresh w), Ok tt))) (fun _ => Fork rid (return_ VUnit))) [GHold HRead; GLife false]
      (fun r O => user_post r [] /\ exists b, O = [GLife b])) as Hstart.
  { apply safe_bind, safe_region. intros w3 F3 HI3. exists [GHold (HAlive rid); GHold HRead; GLife false].
    split; [by apply inv_alive|]. split; [done|]. exists [GLife false]. split; [solve_Permutation|]. split; [done|eauto]. }
  destruct a; [exact Hstart| |exact Hstart].
  apply safe_bind, (safe_fail_reading true); [done|]. split; [done|eauto].
Qed.

Lemma safe_next_event s timed : csafe (next_event s timed) [] user_post.
Proof.
  apply safe_atomic; [right; constructor|].
  intros w F _ HI. exists []. split; [by apply inv_take_event|]. simpl.
  unfold take_event. case_match; [|done]. case_match. by destruct r.
Qed.

(** The tokens a call starts with. *)
Definition call_tokens (cl : call) : list token :=
  match cl with CSubmit r _ => [GFresh (request_id r)] | _ => [] end.

Lemma safe_call cl : csafe (call_prog cfg cl) (call_tokens cl) user_post.
Proof.
  destruct cl; simpl; [apply safe_connect|apply safe_submit|apply safe_cancel|apply safe_health
    |apply safe_close|apply safe_next_event].
Qed.

Lemma inv_call cl w G : may_call cl w = true -> client_inv cfg w G ->
  client_inv cfg (note_call cl w) (call_tokens cl ++ G).
Proof.
  destruct cl; simpl; try done. intros Hm%bool_decide_eq_true HI. by apply inv_issue.
Qed.

Abbreviation cpool := (pool_safe (client_inv cfg) client_wait any_reader reader_res loop_post user_post).

Lemma client_step_safe c c' : client_step cfg c c' -> cpool c -> cpool c'.
Proof.
  intros [c1 c2 H|w ts cl Hmay] Hs.
  - eapply (pool_safe_step _reader_loop goes_again); [| | |exact H|exact Hs].
    + intros. by eapply client_inv_perm.
    + intros. apply safe_reader_loop.
    + intros [id|] [] id' O [= <-] _ HO. by split.
  - eapply pool_safe_spawn; [intros; by eapply client_inv_perm| |apply safe_call|exact Hs].
    intros F HI. by apply inv_call.
Qed.

Lemma reachable_safe c : reachable cfg c -> cpool c.
Proof.
  intros Hr. assert (cpool init_config) as H0.
  { exists []. split; [apply inv_init|constructor]. }
  unfold reachable in Hr. revert H0. induction Hr; eauto using client_step_safe.
Qed.

(** ** What callers can rely on *)

Definition finished (t : option nat * prog value) : bool := stopped goes_again t.

Abbreviation cthread := (thread_safe (client_inv cfg) client_wait any_reader reader_res loop_post user_post).

Lemma finished_owes_nothing t O :
  finished t = true -> cthread t O -> owed O = [] /\ holds O = [] /\ lifes O = [].
Proof.
  destruct t as [l p]. intros Hf [_ Hs]. simpl in Hf, Hs.
  destruct l, p as [r| | |]; try done; simpl in Hs.
  - destruct r as [v|e]; [|by rewrite Hs]. destruct v; try done; by rewrite Hs.
  - by destruct Hs as (? & ? & ? & _).
Qed.

Lemma concat_owed_nil (ts : list (option nat * prog value)) Os :
  Forall (fun t => finished t = true) ts ->
  Forall2 cthread ts Os -> owed (concat Os) = [].
Proof.
  intros Hf. induction 1 as [|t O ts Os Ht _ IH]; [done|]. inversion Hf; subst. simpl.
  rewrite owed_app, IH by done. by destruct (finished_owes_nothing t O) as (-> & _).
Qed.

(** A token of submission [s] is the only one. *)
Lemma sub_unique G s st st' rid rid' : NoDup (subs G) ->
  GSub st s rid ∈ G -> GSub st' s rid' ∈ G -> st = st' /\ rid = rid'.
Proof.
  induction G as [|g G IH]; [set_solver|]. intros Hnd.
  rewrite !elem_of_cons. intros [<-|H1] [E|H2]; [by simplify_eq| | |].
  - apply NoDup_cons in Hnd as [Hn _]. destruct Hn. apply subs_spec. eauto.
  - subst g. apply NoDup_cons in Hnd as [Hn _]. destruct Hn. apply subs_spec. eauto.
  - apply IH; try done. destruct g; try done. by apply NoDup_cons in Hnd as [_ ?].
Qed.

(** Who still has to do with the object of a handle. *)
Lemma handle_open w (ts : list (option nat * prog value)) Os s : client_inv cfg w (concat Os) -> Forall2 cthread ts Os ->
  (None, Done (Ok (VHandle s))) ∈ ts ->
  exists st, w_states w !! s = Some st /\ accepted st = true
    /\ (terminal (events st) <> None \/ in_table w s st \/ s ∈ owed (concat Os)).
Proof.
  intros HI Hts [i Hi]%list_elem_of_lookup_1.
  destruct (Forall2_lookup_l _ _ _ _ _ Hts Hi) as (O & HO & _ & _ & _ & _ & rid & Hsub).
  assert (GSub Handle s rid ∈ concat Os) as Hsub'.
  { apply list_elem_of_In, in_concat. exists O. split; [|by apply list_elem_of_In].
    apply list_elem_of_In. by eapply list_elem_of_lookup_2. }
  destruct (sub_state cfg w _ _ _ _ HI Hsub') as (st & Hst & Hid).
  pose proof (ci_states _ _ _ HI s st Hst) as Hok. exists st. split; [done|].
  destruct (so_sub _ _ _ _ _ Hok _ _ Hsub') as [_ Ha]. specialize (Ha eq_refl). split; [done|].
  destruct (so_live _ _ _ _ _ Hok Ha) as [Ht|[Ht|[Ho|[rid' Hl]]]]; [auto..|].
  pose proof (ci_subs _ _ _ HI) as [Hnd _]. by destruct (sub_unique _ _ _ _ _ _ Hnd Hsub' Hl).
Qed.

Lemma table_connected w G s st : client_inv cfg w G -> in_table w s st -> w_connected w = true.
Proof.
  intros HI Ht. pose proof (ci_session _ _ _ HI) as Hs. destruct (w_connected w); [done|].
  destruct Hs as (_ & _ & He). unfold in_table in Ht. by rewrite He in Ht.
Qed.

Lemma handle_state w ts s : reachable cfg (w, ts) -> (None, Done (Ok (VHandle s))) ∈ ts ->
  exists st, w_states w !! s = Some st /\ accepted st = true
    /\ (terminal (events st) <> None \/ (w_connected w = true /\ in_table w s st)
        \/ exists t, t ∈ ts /\ finished t = false).
Proof.
  intros Hr Hin. destruct (reachable_safe _ Hr) as (Os & HI & Hts). simpl in *.
  destruct (handle_open w ts Os s HI Hts Hin) as (st & Hst & Ha & Hcase). exists st. do 2 (split; [done|]).
  destruct Hcase as [?|[Ht|Ho]]; [by left|right; left; eauto using table_connected|]. right; right.
  destruct (decide (Forall (fun t => finished t = true) ts)) as [Hall|Hex].
  - rewrite (concat_owed_nil ts Os Hall Hts) in Ho. by apply elem_of_nil in Ho.
  - apply not_Forall_Exists, Exists_exists in Hex as (t & Ht & Hf); [|apply _]. exists t. split; [done|].
    simpl in Hf. by destruct (finished t).
Qed.

End Safe.

(** ** Scenarios *)

(** A call by a new thread; at most [n] moves of thread [i], which gets the
    answer [a] whenever it asks. *)
Inductive action :=
| ACall (cl : call)
| ARun (n : nat) (i : nat) (a : reply).

Fixpoint run_thread (n : nat) (i : nat) (a : reply) (c : client_config) : client_config :=
  match n with
  | O => c
  | S n => match exec _reader_loop goes_again i a c with
           | Some c' => run_thread n i a c'
           | None => c
           end
  end.

Definition drive_one (cfg : GenerationClientConfig) (c : client_config) (act : action) : client_config :=
  match act with
  | ACall cl => if may_call cl c.1 then (note_call cl c.1, c.2 ++ [(None, call_prog cfg cl)]) else c
  | ARun n i a => run_thread n i a c
  end.

Definition drive (cfg : GenerationClientConfig) (acts : list action) : client_config :=
  fold_left (drive_one cfg) acts init_config.

Lemma run_thread_steps cfg n i a c : rtc (client_step cfg) c (run_thread n i a c).
Proof.
  revert c. induction n as [|n IH]; intros c; simpl; [apply rtc_refl|].
  destruct (exec _ _ i a c) as [c'|] eqn:He; [|apply rtc_refl].
  eapply rtc_l; [|apply IH]. constructor. by eapply exec_step.
Qed.

Lemma drive_reachable cfg acts : reachable cfg (drive cfg acts).
Proof.
  unfold reachable, drive. assert (forall c, rtc (client_step cfg) init_config c ->
    rtc (client_step cfg) init_config (fold_left (drive_one cfg) acts c)) as H.
  { induction acts as [|act acts IH]; intros c Hc; simpl; [done|]. apply IH.
    destruct act as [cl|n i a]; simpl.
    - destruct (may_call cl c.1) eqn:Hm; [|done]. eapply rtc_r; [exact Hc|].
      destruct c as [w ts]. by apply client_call.
    - etrans; [exact Hc|apply run_thread_steps]. }
  apply H, rtc_refl.
Qed.

Definition sample_manifest : ModelManifest :=
  mkManifest "qwen" "r1" "t" "c" "e" 2 0 64 64 128 "fp16" 4.
Definition sample_limits : WorkerLimits := mkLimits 4 256 256 4096 64 65536 16 8192.
Definition sample_hello : HelloAck := mkHelloAck 5 sample_manifest sample_limits.
Definition sample_config : GenerationClientConfig :=
  mkConfig "/tmp/worker.sock" sample_manifest f2 f2 1048576 8 2.

(** The bytes of the messages a Worker of epoch 5 sends. *)
Definition worker_bytes (ms : list ServerMessage) : stream :=
  mkStream (map (fun m => let p := dumps_text (messageJson 5 m) in
                          pack_u32 (Z.of_nat (List.length p)) ++ p) ms) Closed.

Definition sample_submit : GenerationRequest :=
  mkRequest 1 [11; 12] 16 0 None "" true (mkSampling (PFloat f1) 0 (PFloat f1) 0) None None [].

Definition ok_terminal : Terminal := mkTerminal 1 (mkStatus "ok" "") (Some "eos") (mkUsage 2 2).

(** Thread 0 connects (thread 1 is the reader it starts), thread 2 submits and
    the Worker accepts. *)
Definition accepted_run : list action :=
  [ACall CConnect; ARun 100 0 (ReplyStream (worker_bytes [MHelloAck sample_hello]));
   ACall (CSubmit sample_submit false); ARun 7 2 ReplyOk;
   ARun 4 1 (ReplyStream (worker_bytes [MAccepted 1])); ARun 100 2 ReplyOk].

(** ... then one delta arrives and the Worker goes away. *)
Definition lost_run : client_config := drive sample_config
  (accepted_run ++
   [ARun 4 1 (ReplyStream (worker_bytes [MTokenDelta (mkDelta 1 0 [21])]));
    ARun 100 1 (ReplyStream (worker_bytes []))]).

(** ... or, with room for one delta per request, the consumer is late once: the
    second delta overflows, and after the consumer caught up a third is
    stored before the Worker, which never saw the cancel, finishes. *)
Definition late_config : GenerationClientConfig :=
  mkConfig "/tmp/worker.sock" sample_manifest f2 f2 1048576 8 1.
Definition late_run : client_config := drive late_config
  (accepted_run ++
   [ARun 4 1 (ReplyStream (worker_bytes [MTokenDelta (mkDelta 1 0 [21])]));
    ARun 9 1 (ReplyStream (worker_bytes [MTokenDelta (mkDelta 1 1 [22])]));
    ACall (CNextEvent 0 false); ARun 1 3 ReplyOk;
    ARun 4 1 (ReplyStream (worker_bytes [MTokenDelta (mkDelta 1 2 [23])]));
    ACall (CNextEvent 0 false); ARun 1 4 ReplyOk;
    ARun 5 1 (ReplyStream (worker_bytes [MTerminal ok_terminal]));
    ACall (CNextEvent 0 false); ARun 1 5 ReplyOk]).

(** A write fails between the assignment of [_reader_thread] and the start of
    the thread; a second [connect] then finds no reader. *)
Definition two_readers_run : client_config := drive sample_config
  [ACall CConnect; ARun 10 0 (ReplyStream (worker_bytes [MHelloAck sample_hello]));
   ACall (CSubmit sample_submit false); ARun 100 1 (ReplyError "broken pipe");
   ARun 100 0 ReplyOk;
   ACall CConnect; ARun 100 3 (ReplyStream (worker_bytes [MHelloAck sample_hello]));
   ARun 1 2 ReplyOk; ARun 1 4 ReplyOk].

Lemma lost_run_reachable : reachable sample_config (lost_run.1, lost_run.2).
Proof. rewrite <-surjective_pairing. apply drive_reachable. Qed.

(** ** Theorems *)

Lemma config_capacity cfg u : _validate_config cfg = Ok u -> 0 <= max_delta_events_per_request cfg.
Proof. unfold _validate_config. intros H. inv_ok. split_bools. lia. Qed.

Lemma reachable_inv cfg u w ts : _validate_config cfg = Ok u -> reachable cfg (w, ts) ->
  exists G, client_inv cfg w G.
Proof.
  intros Hc Hr. destruct (reachable_safe cfg (config_capacity _ _ Hc) _ Hr) as (Os & HI & _). eauto.
Qed.







(** C22: Backpressure bounds: the number of registered requests never exceeds
    the smaller of the configured and the Worker's limit, and no buffer holds
    more deltas than configured. *)
Theorem client_capacity cfg u w ts :
  _validate_config cfg = Ok u -> reachable cfg (w, ts) ->
  (forall h, w_hello_ack w = Some h ->
     Z.of_nat (size (w_requests w))
     <= Z.max 0 (Z.min (max_pending_requests cfg) (max_active_requests (limits h))))
  /\ (forall s st, w_states w !! s = Some st ->
        Z.of_nat (List.length (deltas (events st))) <= max_delta_events_per_request cfg).
Proof.
  intros Hc Hr. destruct (reachable_inv cfg u w ts Hc Hr) as [G HI]. split.
  - apply (ci_size _ _ _ HI).
  - intros s st Hst. pose proof (ci_states _ _ _ HI s st Hst) as Hok.
    rewrite <-(so_capacity _ _ _ _ _ Hok). apply (so_buffer _ _ _ _ _ Hok).
Qed.

Lemma client_capacity_witness :
  (forall h, w_hello_ack lost_run.1 = Some h ->
     Z.of_nat (size (w_requests lost_run.1)) <= Z.max 0 (Z.min 8 (max_active_requests (limits h))))
  /\ (forall s st, w_states lost_run.1 !! s = Some st ->
        Z.of_nat (List.length (deltas (events st))) <= 2).
Proof.
  apply (client_capacity sample_config tt lost_run.1 lost_run.2);
    [vm_compute; reflexivity|apply lost_run_reachable].
Defined.

(** C23: A session is only ever open with the Worker the client was configured
    for: the manifest is the expected one, the Worker's frames fit the client's
    buffers, and connected means there is a socket and a HelloAck. *)
Theorem session_matches_config cfg u w ts :
  _validate_config cfg = Ok u -> reachable cfg (w, ts) -> w_connected w = true ->
  is_Some (w_socket w) /\ exists h, w_hello_ack w = Some h /\ manifest h = expected_manifest cfg
    /\ max_frame_payload_bytes (limits h) <= cfg_max_frame_payload_bytes cfg.
Proof.
  intros Hc Hr Hconn. destruct (reachable_inv cfg u w ts Hc Hr) as [G HI].
  pose proof (ci_session _ _ _ HI) as Hs. rewrite Hconn in Hs. destruct Hs as [Hsock [h Hh]].
  split; [done|]. exists h. split; [done|]. by apply (ci_hello _ _ _ HI).
Qed.

Lemma session_matches_config_witness :
  is_Some (w_socket (drive sample_config accepted_run).1) /\
  exists h, w_hello_ack (drive sample_config accepted_run).1 = Some h /\ manifest h = sample_manifest
    /\ max_frame_payload_bytes (limits h) <= 1048576.
Proof.
  apply (session_matches_config sample_config tt _ (drive sample_config accepted_run).2);
    [vm_compute; reflexivity|rewrite <-surjective_pairing; apply drive_reachable|vm_compute; reflexivity].
Defined.

(** C13: Token order: the deltas waiting in a buffer have strictly increasing
    sequence numbers below the next expected one, and as long as the buffer has
    not overflowed they are consecutive up to it: no token is missing. *)
Theorem buffered_deltas_contiguous cfg u w ts s st :
  _validate_config cfg = Ok u -> reachable cfg (w, ts) -> w_states w !! s = Some st ->
  StronglySorted Z.lt (sequence_no <$> deltas (events st))
  /\ Forall (fun d => sequence_no d < next_sequence_no st) (deltas (events st))
  /\ (overflowed (events st) = false ->
      let n := Z.of_nat (List.length (deltas (events st))) in
      sequence_no <$> deltas (events st) = seqZ (next_sequence_no st - n) n).
Proof.
  intros Hc Hr Hst. destruct (reachable_inv cfg u w ts Hc Hr) as [G HI].
  destruct (so_seq _ _ _ _ _ (ci_states _ _ _ HI s st Hst)) as (_ & Hlt & Hsort & Hcont).
  split; [|split; [exact Hlt|exact Hcont]]. clear -Hsort. induction Hsort as [|d ds _ IH Hd]; [constructor|].
  rewrite fmap_cons. constructor; [done|]. by apply Forall_fmap.
Qed.

Lemma buffered_deltas_contiguous_witness :
  exists st, w_states lost_run.1 !! 0%nat = Some st /\
  StronglySorted Z.lt (sequence_no <$> deltas (events st))
  /\ Forall (fun d => sequence_no d < next_sequence_no st) (deltas (events st))
  /\ (overflowed (events st) = false ->
      let n := Z.of_nat (List.length (deltas (events st))) in
      sequence_no <$> deltas (events st) = seqZ (next_sequence_no st - n) n).
Proof.
  eexists. split; [vm_compute; reflexivity|].
  apply (buffered_deltas_contiguous sample_config tt lost_run.1 lost_run.2 0%nat);
    [vm_compute; reflexivity|apply lost_run_reachable|vm_compute; reflexivity].
Defined.

(** The events a thread of the run got. *)
Definition events_got (c : client_config) : list GenerationEvent :=
  omap (fun t => match t with (None, Done (Ok (VEvent e))) => Some e | _ => None end) c.2.

(** After an overflow the client does not close the request: in a
    reachable run the consumer gets the deltas 0 and 2 and then a successful
    Terminal, so a token was dropped in the middle of a result reported as
    complete; only the buffer's [overflowed] flag tells. *)
Theorem overflow_leaves_gap :
  exists c, reachable late_config c
    /\ events_got c = [EDelta (mkDelta 1 0 [21]); EDelta (mkDelta 1 2 [23]); ETerminal ok_terminal]
    /\ status_ok (tm_status ok_terminal) = true.
Proof.
  exists late_run. split; [apply (drive_reachable late_config)|]. split; vm_compute; reflexivity.
Qed.

(** Is the thread a reader that is receiving? *)
Definition receiving (t : option nat * prog value) : bool :=
  match t with (Some _, Ask _) => true | _ => false end.

(** [connect] does not exclude a second reader: if a write fails between
    the assignment of [_reader_thread] and the thread's start, [_fail] forgets
    the reader, and a later [connect] starts another, so that in a reachable run
    two reader threads receive from the same socket. *)
Theorem two_readers_reachable :
  exists c, reachable sample_config c
    /\ w_connected c.1 = true /\ w_socket c.1 = Some 2%nat
    /\ elements (w_alive c.1) = [3; 1]%nat
    /\ List.length (List.filter receiving c.2) = 2%nat.
Proof.
  exists two_readers_run. split; [apply (drive_reachable sample_config)|].
  split_and!; vm_compute; reflexivity.
Qed.
