(* ===== verification/ClientLive.v ===== *)
(** The client does not deadlock: under every interleaving, as long as the socket
    calls return, some thread can move until the session is over and every call
    has returned.

    The locks are taken in a fixed order (lifecycle lock, end of the reader, send
    lock), which is what [client_wait] of [ClientSafe] records for every wait of
    every method. *)
From Stdlib Require Import ZArith Lia Ascii String.
From stdpp Require Import base list strings gmap.
From S2P Require Import Prelude PyFloat Json Protocol Framing EventBuffer Threads Client.
From S2P Require Import ClientInv ClientSafe.
Local Open Scope Z_scope.

(** The thread is in a [next_event] without a timeout on the buffer of [s]. *)
Definition waits_for_event (s : nat) (t : option nat * prog value) : Prop :=
  exists u f, t.2 = Atomic (fun w => event_ready s w || false) u f.

Section Live.
Context (cfg : GenerationClientConfig) (Hcap : 0 <= max_delta_events_per_request cfg).

Abbreviation cthread := (thread_safe (client_inv cfg) client_wait any_reader reader_res loop_post user_post).
Abbreviation crests := (resting goes_again client_wait).

Lemma holds_concat Os h : h ∈ holds (concat Os) -> exists O, O ∈ Os /\ h ∈ holds O.
Proof.
  induction Os as [|O Os IH]; simpl; [set_solver|]. unfold holds in *. rewrite omap_app, elem_of_app.
  intros [?|?]; [exists O; set_solver|]. destruct IH as (O' & ? & ?); [done|]. exists O'. set_solver.
Qed.

Lemma lifes_concat Os : Forall (fun O => lifes O = []) Os -> lifes (concat Os) = [].
Proof. induction 1 as [|O Os HO _ IH]; [done|]. unfold lifes in *. simpl. by rewrite omap_app, HO, IH. Qed.

Lemma owed_concat Os : Forall (fun O => owed O = []) Os -> owed (concat Os) = [].
Proof. induction 1 as [|O Os HO _ IH]; [done|]. simpl. by rewrite owed_app, HO, IH. Qed.

(** In a state where no thread can move. *)
Section Stuck.
Context (w : world) (ts : list (option nat * prog value)) (Os : list (list token)).
Context (HI : client_inv cfg w (concat Os)) (Hts : Forall2 cthread ts Os) (Hrest : Forall2 (crests w) ts Os).

(** The tokens of a thread: it has ended, or it waits in vain. *)
Lemma token_owner O : O ∈ Os ->
  (owed O = [] /\ holds O = [] /\ lifes O = []) \/ exists g, g w = false /\ client_wait g O.
Proof.
  intros [i Hi]%list_elem_of_lookup_1.
  destruct (Forall2_lookup_r _ _ _ _ _ Hts Hi) as (t & Ht & Hs).
  destruct (Forall2_lookup_r _ _ _ _ _ Hrest Hi) as (t' & Ht' & Hr). simplify_eq.
  destruct Hr as [Hf|(g & u & f & _ & Hg & Hw)]; [|eauto].
  left. by eapply finished_owes_nothing.
Qed.

Lemma stuck_owed : owed (concat Os) = [].
Proof.
  apply owed_concat, Forall_forall. intros O [(? & _)|(g & _ & Hw)]%token_owner; [done|]. by destruct Hw.
Qed.

(** The send lock is free: its owner never waits. *)
Lemma stuck_send : w_send_lock w = false.
Proof.
  apply not_true_is_false. intros Hl. apply (ci_locks _ _ _ HI) in Hl as (O & HO & Hin)%holds_concat.
  apply token_owner in HO as [(_ & Hn & _)|(g & _ & Hw)]; [rewrite Hn in Hin; set_solver|].
  destruct Hw as [? Hn| |? ? Hn|? ? ? ? Hn|]; try done; try rewrite Hn in Hin; set_solver.
Qed.

(** So no reader waits, and none is left. *)
Lemma stuck_holds O : O ∈ Os -> holds O = [].
Proof.
  intros [(_ & ? & _)|(g & Hg & Hw)]%token_owner; [done|]. destruct Hw; try done.
  by rewrite stuck_send in Hg.
Qed.

Lemma stuck_no_holds h : h ∉ holds (concat Os).
Proof. intros (O & HO & Hin)%holds_concat. rewrite (stuck_holds O HO) in Hin. set_solver. Qed.

Lemma stuck_disconnected : w_connected w = false.
Proof.
  apply not_true_is_false. intros Hc. apply (ci_locks _ _ _ HI) in Hc. by apply stuck_no_holds in Hc.
Qed.

Lemma stuck_exit reader : wait_for_exit reader w = true.
Proof.
  destruct reader as [r|]; [|done]. apply bool_decide_eq_true_2. intros Hr.
  apply (ci_locks _ _ _ HI) in Hr. by apply stuck_no_holds in Hr.
Qed.

(** So nobody waits for a reader, and the lifecycle lock is free. *)
Lemma stuck_lifecycle : w_lifecycle_lock w = false.
Proof.
  apply not_true_is_false. intros Hl. apply (ci_locks _ _ _ HI) in Hl. apply Hl, lifes_concat, Forall_forall.
  intros O [(_ & _ & ?)|(g & Hg & Hw)]%token_owner; [done|]. destruct Hw; try done.
  by rewrite stuck_exit in Hg.
Qed.

(** The pending submissions were answered when the session ended. *)
Lemma stuck_decided O s rid : O ∈ Os -> GSub Pending s rid ∈ O -> decided s w = true.
Proof.
  intros HO Hin. assert (GSub Pending s rid ∈ concat Os) as Hsub.
  { apply list_elem_of_In, in_concat. exists O. by rewrite <-!list_elem_of_In. }
  destruct (sub_state cfg w _ _ _ _ HI Hsub) as (st & Hst & _). unfold decided. rewrite Hst.
  pose proof (ci_states _ _ _ HI s st Hst) as Hok.
  destruct (so_pending _ _ _ _ _ Hok rid Hsub) as [Ha|Ht]; [done|].
  apply (table_connected _ _ _ _ _ HI) in Ht. by rewrite stuck_disconnected in Ht.
Qed.

(** The events a handle still waits for include its Terminal. *)
Lemma stuck_handle s : (None, Done (Ok (VHandle s))) ∈ ts -> event_ready s w = true.
Proof.
  intros Hin. destruct (handle_open cfg Hcap w ts Os s HI Hts Hin) as (st & Hst & _ & [Ht|[Ht|Ho]]).
  - unfold event_ready, must_wait. rewrite Hst. rewrite (bool_decide_eq_false_2 _ Ht). by rewrite andb_false_r.
  - apply (table_connected _ _ _ _ _ HI) in Ht. by rewrite stuck_disconnected in Ht.
  - rewrite stuck_owed in Ho. set_solver.
Qed.

Lemma stuck_threads t : t ∈ ts -> finished t = true
  \/ exists s, waits_for_event s t /\ (None, Done (Ok (VHandle s))) ∉ ts.
Proof.
  intros [i Hi]%list_elem_of_lookup_1.
  destruct (Forall2_lookup_l _ _ _ _ _ Hrest Hi) as (O & HO & Hr). apply list_elem_of_lookup_2 in HO.
  destruct Hr as [Hf|(g & u & f & Ht & Hg & Hw)]; [by left|].
  destruct Hw as [| |reader O|s rid timed O _ _ _ Hs|s timed].
  - by rewrite stuck_lifecycle in Hg.
  - by rewrite stuck_send in Hg.
  - by rewrite stuck_exit in Hg.
  - by rewrite (stuck_decided O s rid) in Hg.
  - right. exists s. apply orb_false_iff in Hg as [Hg ->]. split; [by exists u, f|].
    intros Hin%stuck_handle. congruence.
Qed.
End Stuck.

End Live.


