(* ===== verification/GatewayBase.v ===== *)
(** Errors, options and requests of the Gateway (the first part of
    gateway/python/kim_llm_gateway/runtime.py). *)
From Stdlib Require Import ZArith Lia Ascii String SpecFloat.
From stdpp Require Import base list strings gmap.
From S2P Require Import Prelude PyFloat Json Protocol.
Local Open Scope Z_scope.

Record GatewayError := mkGatewayError {
  ge_message : string;
  http_status : Z;
  error_type : string;
  ge_code : string;
  param : option string }.

#[global] Instance GatewayError_eq_dec : EqDecision GatewayError.
Proof. solve_decision. Defined.

(** What Gateway code raises: its own error, the tokenizer's, or an exception
    of the client library or of Python. *)
Inductive gexn :=
| GatewayRaise (e : GatewayError)
| TokenizerError (msg : string)
| OtherExn (e : exn).

#[global] Instance gexn_eq_dec : EqDecision gexn.
Proof. solve_decision. Defined.

(** The table of [gateway_error_from_status]. *)
Definition status_http (code : string) : Z :=
  if bool_decide (code ∈ ["invalid_input"; "invalid_shape"]) then 400
  else if bool_decide (code = "already_exists") then 409
  else if bool_decide (code = "not_ready") then 503
  else if bool_decide (code ∈ ["resource_exhausted"; "slo_predicted_miss"; "queue_full"]) then 429
  else if bool_decide (code ∈ ["unavailable"; "engine_not_found"; "context_unavailable"]) then 503
  else if bool_decide (code = "timeout") then 504
  else if bool_decide (code = "cancelled") then 499
  else 500.

Definition gateway_error_from_status (status : Status) : GatewayError :=
  let http := status_http (code status) in
  mkGatewayError
    (if bool_decide (message status = "")
     then "generation failed with status " +:+ code status else message status)
    http
    (if bool_decide (http ∈ [400; 409; 429]) then "invalid_request_error" else "server_error")
    (code status) None.

Record GatewayRuntimeOptions := mkOptions {
  accept_timeout_seconds : pyfloat;
  request_timeout_seconds : pyfloat;
  health_timeout_seconds : pyfloat;
  cancel_drain_timeout_seconds : pyfloat;
  shutdown_grace_seconds : pyfloat;
  max_sse_delta_events_per_request : Z;
  sampling_top_k : Z }.

(** [__post_init__]. *)
Definition check_options (o : GatewayRuntimeOptions) : result exn unit :=
  _ ← raise_if (existsb (fun v => negb (isfinite v) || fleb v f0)
                  [accept_timeout_seconds o; request_timeout_seconds o; health_timeout_seconds o;
                   cancel_drain_timeout_seconds o; shutdown_grace_seconds o])
        (ValueError "Gateway Runtime timeouts must be finite and positive");
  _ ← raise_if (max_sse_delta_events_per_request o <=? 0)
        (ValueError "Gateway SSE capacity must be positive");
  raise_if ((sampling_top_k o <=? 0) || (i32_max <? sampling_top_k o))
    (ValueError "Gateway sampling_top_k is outside the supported range").

(** A chat message: role and content. *)
Record chat_message := mkMessage { role : string; content : string }.

#[global] Instance chat_message_eq_dec : EqDecision chat_message.
Proof. solve_decision. Defined.

Record GatewayRequest := mkGatewayRequest {
  gr_model : string;
  gr_messages : list chat_message;
  gr_max_new_tokens : Z;
  gr_streaming : bool;
  gr_temperature : pyfloat;
  gr_top_p : pyfloat;
  gr_random_seed : Z;
  gr_stop : list string;
  gr_trace_id : string }.

(** A decoded text is the UTF-8 bytes of the Python string: prefixes and
    suffixes at character boundaries are prefixes and suffixes of the bytes. *)
Record GatewayTerminal := mkGatewayTerminal {
  gt_status : Status;
  gt_finish_reason : option string;
  gt_usage : Usage }.

#[global] Instance GatewayTerminal_eq_dec : EqDecision GatewayTerminal.
Proof. solve_decision. Defined.

Inductive GatewayEvent :=
| GTextDelta (t : text)
| GTerminal (t : GatewayTerminal).

(** What the Gateway needs of a tokenizer (the protocol class [Tokenizer]); the
    implementation is the transformers library's. *)
Class Tokenizer := {
  encode_chat : list chat_message -> result gexn (list Z);
  encode_text : string -> result gexn (list Z);
  decode : list Z -> result gexn text }.

(** Its Token IDs are what [_normalize_token_ids] lets through: a non-empty
    array of non-negative integers; and it raises only [TokenizerError]. *)
Class TokenizerOk (T : Tokenizer) : Prop := {
  encode_chat_ok : forall ms l, encode_chat ms = Ok l -> l <> [] /\ Forall (fun t => 0 <= t) l;
  encode_text_ok : forall s l, encode_text s = Ok l -> l <> [] /\ Forall (fun t => 0 <= t) l;
  encode_chat_raises : forall ms e, encode_chat ms = Err e -> exists m, e = TokenizerError m;
  encode_text_raises : forall s e, encode_text s = Err e -> exists m, e = TokenizerError m;
  decode_raises : forall l e, decode l = Err e -> exists m, e = TokenizerError m }.

(** A Python string without lone surrogates has a UTF-8 form. *)
Definition decodes_utf8 `{Tokenizer} : Prop := forall l t, decode l = Ok t -> utf8_valid t = true.

(** ** What the HTTP layer keeps of a completion (gateway/python/kim_llm_gateway/api.py) *)

(** A JSON response. *)
Record response := mkResponse { status_code : Z; body_json : json }.

(** The session of a completion and what its responses are labelled with. *)
Record delivery := mkDelivery {
  dl_session : nat;
  dl_completion_id : string;
  dl_created : Z;
  dl_model : string;
  dl_include_usage : bool }.

(** Where the generator of a stream stands: at the top of its loop, or at a
    [yield] whose frame is out, with the Terminal it has taken (it has [completed]
    then) and the values it yields next without an await. *)
Inductive stream_phase :=
| SLooping
| SSuspended (taken : option GatewayTerminal) (rest : list (result gexn bytes)).

(** The state of the application besides its configuration: whether there is a
    service, and why there was none or why it was not ready. *)
Record _ApplicationState := mkApplication { has_service : bool; startup_error : option string }.
