(* ===== verification/OpenAI.v ===== *)
(** Parsing of chat completion requests and building of responses
    (gateway/python/kim_llm_gateway/openai.py). *)
From Stdlib Require Import ZArith Lia Ascii String SpecFloat.
From stdpp Require Import base list strings gmap.
From S2P Require Import Prelude PyFloat Json Protocol GatewayBase.
Local Open Scope Z_scope.

Record ChatCompletionCommand := mkCommand {
  cc_model : string;
  cc_messages : list chat_message;
  cc_stream : bool;
  cc_include_usage : bool;
  cc_max_new_tokens : Z;
  cc_temperature : pyfloat;
  cc_top_p : pyfloat;
  cc_random_seed : Z;
  cc_stop : list string }.

Definition to_gateway_request (c : ChatCompletionCommand) (trace_id : string) : GatewayRequest :=
  mkGatewayRequest (cc_model c) (cc_messages c) (cc_max_new_tokens c) (cc_stream c)
    (cc_temperature c) (cc_top_p c) (cc_random_seed c) (cc_stop c) trace_id.

Definition _invalid (message : string) (param : option string) : gexn :=
  GatewayRaise (mkGatewayError message 400 "invalid_request_error" "invalid_request" param).

Definition _string (value : json) (param : string) (non_empty : bool) : result gexn string :=
  let e := _invalid (param +:+ " must be a " +:+ (if non_empty then "non-empty " else "")
                       +:+ "string") (Some param) in
  match value with
  | JStr s => if non_empty && bool_decide (s = "") then Err e else Ok s
  | _ => Err e
  end.

Definition _integer (value : json) (param : string) (minimum maximum : Z) : result gexn Z :=
  let e := _invalid (param +:+ " is outside the supported range") (Some param) in
  match value with
  | JInt z => if (z <? minimum) || (maximum <? z) then Err e else Ok z
  | _ => Err e
  end.

(** [float(value)]: an int beyond the float range raises [OverflowError]. *)
Definition py_float (n : pynum) : result gexn pyfloat :=
  match float_of_num n with Some f => Ok f | None => Err (OtherExn OverflowError) end.

Definition json_num (value : json) : option pynum :=
  match value with JInt z => Some (PInt z) | JFloat f => Some (PFloat f) | _ => None end.

Definition _number (value : json) (param : string) (minimum_exclusive maximum : pyfloat)
  : result gexn pyfloat :=
  match json_num value with
  | None => Err (_invalid (param +:+ " must be numeric") (Some param))
  | Some n =>
      converted ← py_float n;
      _ ← raise_if (negb (isfinite converted) || fleb converted minimum_exclusive
                    || fltb maximum converted)
            (_invalid (param +:+ " is outside the supported range") (Some param));
      Ok converted
  end.

(** One round of the loop of [_messages]. *)
Definition parse_message (index : nat) (message : json) : result gexn chat_message :=
  let param := "messages[" +:+ int_str (Z.of_nat index) +:+ "]" in
  match message with
  | JObj d =>
      _ ← raise_if (negb (bool_decide (dict_keys d = {["role"; "content"]})))
            (_invalid (param +:+ " must contain exactly role and content") (Some param));
      role ← _string (dict_item d "role") (param +:+ ".role") true;
      _ ← raise_if (negb (bool_decide (role ∈ ["system"; "user"; "assistant"])))
            (_invalid (param +:+ ".role is unsupported by the fixed chat template")
               (Some (param +:+ ".role")));
      content ← _string (dict_item d "content") (param +:+ ".content") false;
      Ok (mkMessage role content)
  | _ => Err (_invalid (param +:+ " must contain exactly role and content") (Some param))
  end.

Fixpoint parse_messages (index : nat) (l : list json) : result gexn (list chat_message) :=
  match l with
  | [] => Ok []
  | m :: l => m ← parse_message index m; ms ← parse_messages (S index) l; Ok (m :: ms)
  end.

Definition _messages (value : json) : result gexn (list chat_message) :=
  match value with
  | JList (m :: l) => parse_messages 0 (m :: l)
  | _ => Err (_invalid "messages must be a non-empty array" (Some "messages"))
  end.

Definition stop_values (values : list json) : result gexn (list string) :=
  _ ← raise_if (bool_decide (values = []) || (4 <? Z.of_nat (List.length values)))
        (_invalid "stop must contain between 1 and 4 sequences" (Some "stop"));
  result ← mapM (fun item => _string item "stop" true) values;
  _ ← raise_if (negb (Nat.eqb (size (list_to_set result : gset string)) (List.length result)))
        (_invalid "stop sequences must be unique" (Some "stop"));
  Ok result.

Definition _stop (value : json) : result gexn (list string) :=
  match value with
  | JNull => Ok []
  | JStr s => stop_values [JStr s]
  | JList l => stop_values l
  | _ => Err (_invalid "stop must be a string or an array of strings" (Some "stop"))
  end.

Definition supported_fields : list string :=
  ["model"; "messages"; "stream"; "stream_options"; "max_tokens"; "max_completion_tokens";
   "temperature"; "top_p"; "seed"; "stop"; "n"; "user"; "frequency_penalty"; "presence_penalty"].

(** [sorted(strings)[0]] of a non-empty collection. *)
Fixpoint least_string (l : list string) : option string :=
  match l with
  | [] => None
  | s :: l => match least_string l with
              | None => Some s
              | Some t => Some (if String.leb s t then s else t)
              end
  end.

(** [value.get(key, default)]. *)
Definition get_or (d : list (string * json)) (key : string) (default_ : json) : json :=
  default default_ (dict_get d key).
Definition has_key (d : list (string * json)) (key : string) : bool :=
  bool_decide (is_Some (dict_get d key)).

(** One round of the loop over the two penalties. *)
Definition check_penalty (d : list (string * json)) (penalty : string) : result gexn unit :=
  match dict_get d penalty with
  | None => Ok tt
  | Some number =>
      let e := _invalid (penalty +:+ " must be numeric") (Some penalty) in
      match json_num number with
      | None => Err e
      | Some n =>
          f ← py_float n;
          _ ← raise_if (negb (isfinite f)) e;
          raise_if (negb (feqb f f0)) (_invalid ("only " +:+ penalty +:+ "=0 is supported") (Some penalty))
      end
  end.

Definition parse_include_usage (d : list (string * json)) (stream : bool) : result gexn bool :=
  match get_or d "stream_options" JNull with
  | JNull => Ok false
  | stream_options =>
      _ ← raise_if (negb stream)
            (_invalid "stream_options requires stream=true" (Some "stream_options"));
      let e := _invalid "stream_options must contain exactly boolean include_usage"
                 (Some "stream_options") in
      match stream_options with
      | JObj o =>
          _ ← raise_if (negb (bool_decide (dict_keys o = {["include_usage"]}))) e;
          match dict_item o "include_usage" with JBool b => Ok b | _ => Err e end
      | _ => Err e
      end
  end.

Definition parse_chat_completion_request (value : json) (manifest : ModelManifest)
  : result gexn ChatCompletionCommand :=
  match value with
  | JObj d =>
      _ ← match least_string (filter (fun k => k ∉ supported_fields) d.*1) with
          | Some field => Err (_invalid ("unsupported request field " +:+ field) (Some field))
          | None => Ok tt
          end;
      _ ← raise_if (negb (has_key d "model")) (_invalid "missing required field model" (Some "model"));
      _ ← raise_if (negb (has_key d "messages"))
            (_invalid "missing required field messages" (Some "messages"));
      model ← _string (dict_item d "model") "model" true;
      messages ← _messages (dict_item d "messages");
      stream ← match get_or d "stream" (JBool false) with
               | JBool b => Ok b
               | _ => Err (_invalid "stream must be a boolean" (Some "stream"))
               end;
      n ← _integer (get_or d "n" (JInt 1)) "n" 1 1;
      _ ← raise_if (negb (n =? 1)) (_invalid "only n=1 is supported" (Some "n"));
      _ ← raise_if (has_key d "max_tokens" && has_key d "max_completion_tokens")
            (_invalid "max_tokens and max_completion_tokens are mutually exclusive" (Some "max_tokens"));
      let max_value := get_or d "max_completion_tokens"
                         (get_or d "max_tokens" (JInt (Z.min 32 (max_output_tokens manifest)))) in
      max_new_tokens ← _integer max_value "max_tokens" 1 (max_output_tokens manifest);
      temperature ← _number (get_or d "temperature" (JFloat f1)) "temperature" f0 f2;
      top_p ← _number (get_or d "top_p" (JFloat f1)) "top_p" f0 f1;
      random_seed ← _integer (get_or d "seed" (JInt 0)) "seed" 0 (Z.shiftl 1 32 - 1);
      stop ← _stop (get_or d "stop" JNull);
      _ ← check_penalty d "frequency_penalty";
      _ ← check_penalty d "presence_penalty";
      _ ← match dict_get d "user" with
          | Some u => _ ← _string u "user" true; Ok tt
          | None => Ok tt
          end;
      include_usage ← parse_include_usage d stream;
      Ok (mkCommand model messages stream include_usage max_new_tokens temperature top_p
            random_seed stop)
  | _ => Err (_invalid "request body must be a JSON object" None)
  end.

(** ** Responses *)

Definition openai_finish_reason (value : option string) : string :=
  if bool_decide (value = Some "length") then "length" else "stop".

Definition usage_json (u : Usage) : json :=
  JObj [("prompt_tokens", JInt (prompt_tokens u)); ("completion_tokens", JInt (completion_tokens u));
        ("total_tokens", JInt (prompt_tokens u + completion_tokens u))].

Definition str_or_null (o : option string) : json :=
  match o with Some s => JStr s | None => JNull end.

Definition error_json (e : GatewayError) : json :=
  JObj [("error", JObj [("message", JStr (ge_message e)); ("type", JStr (error_type e));
                        ("param", str_or_null (param e)); ("code", JStr (ge_code e))])].

Definition chat_completion_json (completion_id : string) (created : Z) (model : string) (t : text)
  (terminal : GatewayTerminal) : json :=
  JObj [("id", JStr completion_id); ("object", JStr "chat.completion"); ("created", JInt created);
        ("model", JStr model);
        ("choices", JList [JObj [("index", JInt 0);
           ("message", JObj [("role", JStr "assistant"); ("content", JStr (str t))]);
           ("finish_reason", JStr (openai_finish_reason (gt_finish_reason terminal)))]]);
        ("usage", usage_json (gt_usage terminal))].

Definition chat_completion_chunk_json (completion_id : string) (created : Z) (model : string)
  (delta : list (string * json)) (finish_reason : option string) : json :=
  JObj [("id", JStr completion_id); ("object", JStr "chat.completion.chunk");
        ("created", JInt created); ("model", JStr model);
        ("choices", JList [JObj [("index", JInt 0); ("delta", JObj delta);
                                 ("finish_reason", str_or_null finish_reason)]])].

Definition usage_chunk_json (completion_id : string) (created : Z) (model : string) (u : Usage) : json :=
  JObj [("id", JStr completion_id); ("object", JStr "chat.completion.chunk");
        ("created", JInt created); ("model", JStr model); ("choices", JList []);
        ("usage", usage_json u)].

Definition newline : ascii := ascii_of_N 10.

(** [json.dumps] allows NaN here; the values built above hold none. *)
Definition encode_sse (value : json) : result exn bytes :=
  match json_dumps true value with
  | None => Err (ValueError "Exceeds the limit (4300 digits) for integer string conversion")
  | Some t =>
      let event := chars "data: " ++ t ++ [newline; newline] in
      if utf8_valid event then Ok event else Err UnicodeEncodeError
  end.
