(* ===== verification/OpenAIFacts.v ===== *)
(** What the parser of chat completion requests accepts and raises, and that
    the server-sent events carry the JSON they were built from. *)
From Stdlib Require Import ZArith Lia Ascii String SpecFloat.
From stdpp Require Import base list strings gmap.
From S2P Require Import Prelude PyFloat Json JsonFacts Protocol GatewayBase OpenAI.
Local Open Scope Z_scope.

(** ** Errors of the parser *)

(** The exceptions the parser means to raise: HTTP 400. *)
Definition bad_request (x : gexn) : bool :=
  match x with GatewayRaise e => (http_status e =? 400) | _ => false end.

(** Raises only bad requests, unless an int is too large for a float. *)
Definition only_bad {A} (big : Prop) (m : result gexn A) : Prop :=
  forall x, m = Err x -> bad_request x = true \/ (x = OtherExn OverflowError /\ big).

Lemma only_bad_ok {A} big (a : A) : only_bad big (Ok a).
Proof. done. Qed.
Lemma only_bad_invalid {A} big s p : only_bad big (@Err gexn A (_invalid s p)).
Proof. intros x [= <-]. by left. Qed.
Lemma only_bad_raise_if big b s p : only_bad big (raise_if b (_invalid s p)).
Proof. intros x H. apply raise_if_Err in H as [_ ->]. by left. Qed.
Lemma only_bad_bind {A B} big (m : result gexn A) (k : A -> result gexn B) :
  only_bad big m -> (forall a, only_bad big (k a)) -> only_bad big (m ≫= k).
Proof.
  intros Hm Hk x H. apply bind_Err_inv in H as [H|(a & Ha & H)]; [by apply Hm|by apply (Hk a)].
Qed.
Lemma only_bad_mapM {A B} big (f : A -> result gexn B) l :
  (forall a, only_bad big (f a)) -> only_bad big (mapM f l).
Proof.
  intros Hf. induction l as [|a l IH]; [done|].
  change (mapM f (a :: l)) with (b ← f a; bs ← mapM f l; mret (b :: bs)).
  apply only_bad_bind; [done|]. intros b. by apply only_bad_bind.
Qed.
Lemma only_bad_string big v p b : only_bad big (_string v p b).
Proof. unfold _string. repeat case_match; auto using only_bad_ok, only_bad_invalid. Qed.
Lemma only_bad_integer big v p lo hi : only_bad big (_integer v p lo hi).
Proof. unfold _integer. repeat case_match; auto using only_bad_ok, only_bad_invalid. Qed.

(** An int literal no float can hold. *)
Definition too_big (v : json) : Prop := exists z, v = JInt z /\ float_of_int z = None.

Create HintDb openai.
#[export] Hint Resolve only_bad_ok only_bad_invalid only_bad_raise_if only_bad_string
  only_bad_integer : openai.

Ltac bad_checks :=
  repeat first [ progress intros | apply only_bad_mapM | apply only_bad_bind
               | solve [auto with openai] | case_match ].

Lemma only_bad_float v n big : json_num v = Some n -> (too_big v -> big) -> only_bad big (py_float n).
Proof.
  intros Hn Hbig x H. unfold py_float in H. destruct (float_of_num n) eqn:Hf; [done|].
  injection H as <-. right. split; [done|]. apply Hbig.
  destruct v; simplify_eq/=. exists z. split; [done|]. exact Hf.
Qed.

Lemma only_bad_number v p lo hi : only_bad (too_big v) (_number v p lo hi).
Proof.
  unfold _number. destruct (json_num v) as [n|] eqn:Hn; [|auto with openai].
  apply only_bad_bind; [by eapply only_bad_float|]. bad_checks.
Qed.

Lemma only_bad_weaken {A} (p q : Prop) (m : result gexn A) : (p -> q) -> only_bad p m -> only_bad q m.
Proof. intros Hpq Hm x Hx. destruct (Hm x Hx) as [?|[? ?]]; auto. Qed.

Lemma only_bad_messages big index l : only_bad big (parse_messages index l).
Proof.
  revert index. induction l as [|m l IH]; intros index; simpl; [auto with openai|].
  apply only_bad_bind; [|intros; apply only_bad_bind; [apply IH|auto with openai]].
  unfold parse_message. bad_checks.
Qed.

Lemma only_bad_stop big v : only_bad big (_stop v).
Proof. unfold _stop, stop_values. bad_checks. Qed.

Lemma only_bad_usage big d s : only_bad big (parse_include_usage d s).
Proof. unfold parse_include_usage. bad_checks. Qed.

(** Some numeric field of the object is an int literal no float can hold. *)
Definition oversized (d : list (string * json)) : Prop :=
  exists k v, k ∈ ["temperature"; "top_p"; "frequency_penalty"; "presence_penalty"]
    /\ dict_get d k = Some v /\ too_big v.

Lemma only_bad_penalty d p : p ∈ ["frequency_penalty"; "presence_penalty"] ->
  only_bad (oversized d) (check_penalty d p).
Proof.
  intros Hp. unfold check_penalty. destruct (dict_get d p) as [v|] eqn:Hd; [|auto with openai].
  destruct (json_num v) as [n|] eqn:Hn; [|auto with openai].
  apply only_bad_bind; [|bad_checks]. eapply only_bad_float; [done|].
  intros Hbig. exists p, v. set_solver.
Qed.

Lemma only_bad_field d k lo hi : k ∈ ["temperature"; "top_p"] ->
  only_bad (oversized d) (_number (get_or d k (JFloat f1)) k lo hi).
Proof.
  intros Hk. eapply only_bad_weaken; [|apply only_bad_number].
  unfold get_or. destruct (dict_get d k) as [v|] eqn:Hd; simpl; intros Hb.
  - exists k, v. set_solver.
  - by destruct Hb as (z & ? & _).
Qed.

Lemma parse_raises v m x : parse_chat_completion_request v m = Err x ->
  bad_request x = true \/ (x = OtherExn OverflowError /\ exists d, v = JObj d /\ oversized d).
Proof.
  destruct v as [| | | | | |d]; try (intros [= <-]; by left).
  intros H. enough (only_bad (oversized d) (parse_chat_completion_request (JObj d) m)) as Hb.
  { destruct (Hb x H) as [?|[? ?]]; eauto. }
  clear H. unfold parse_chat_completion_request.
  repeat first [ progress intros
    | apply only_bad_field; set_solver | apply only_bad_penalty; set_solver
    | apply only_bad_usage | apply only_bad_stop
    | apply only_bad_bind | solve [auto with openai] | case_match ].
  all: unfold _messages; repeat case_match; auto using only_bad_messages with openai.
Qed.

(** ** What is accepted *)

Definition float_in (f lo hi : pyfloat) : Prop :=
  isfinite f = true /\ fleb f lo = false /\ fltb hi f = false.

Record command_wf (m : ModelManifest) (c : ChatCompletionCommand) : Prop := {
  cw_model : cc_model c <> "";
  cw_messages : cc_messages c <> [];
  cw_roles : Forall (fun msg => role msg ∈ ["system"; "user"; "assistant"]) (cc_messages c);
  cw_tokens : 1 <= cc_max_new_tokens c <= max_output_tokens m;
  cw_temperature : float_in (cc_temperature c) f0 f2;
  cw_top_p : float_in (cc_top_p c) f0 f1;
  cw_seed : 0 <= cc_random_seed c <= u32_max;
  cw_stop : (List.length (cc_stop c) <= 4)%nat /\ NoDup (cc_stop c)
            /\ Forall (fun s => s <> "") (cc_stop c);
  cw_usage : cc_include_usage c = true -> cc_stream c = true }.

Lemma string_Ok v p b s : _string v p b = Ok s -> v = JStr s /\ (b = true -> s <> "").
Proof.
  unfold _string. destruct v; try done. destruct (b && _) eqn:Hb; [done|]. intros [= <-].
  split; [done|]. intros ->. by apply bool_decide_eq_false in Hb.
Qed.

Lemma integer_Ok v p lo hi z : _integer v p lo hi = Ok z -> v = JInt z /\ lo <= z <= hi.
Proof.
  unfold _integer. destruct v; try done. destruct (_ || _) eqn:Hb; [done|]. intros [= <-].
  split_bools. split; [done|lia].
Qed.

Lemma number_Ok v p lo hi f : _number v p lo hi = Ok f -> float_in f lo hi.
Proof.
  unfold _number. destruct (json_num v); [|done]. intros H. inv_ok. split_bools. done.
Qed.

Lemma messages_Ok v l : _messages v = Ok l ->
  l <> [] /\ Forall (fun msg => role msg ∈ ["system"; "user"; "assistant"]) l.
Proof.
  assert (forall js i ms, parse_messages i js = Ok ms ->
    List.length ms = List.length js
    /\ Forall (fun msg => role msg ∈ ["system"; "user"; "assistant"]) ms) as Hp.
  { induction js as [|j js IH]; intros i ms H; simpl in H; inv_ok; [done|].
    match goal with H : parse_messages _ _ = Ok _ |- _ => apply IH in H as [Hlen Hall] end.
    match goal with H : parse_message _ j = Ok _ |- _ => unfold parse_message in H; destruct j; try done end.
    inv_ok. split_bools. split; [simpl; congruence|]. constructor; [|done].
    by match goal with H : bool_decide (_ ∈ _) = true |- _ => apply bool_decide_eq_true in H end. }
  unfold _messages. destruct v as [| | | | |[|j js]|]; try done. intros H.
  apply Hp in H as [Hlen Hall]. split; [by intros ->|done].
Qed.

Lemma size_set_le (l : list string) : (size (list_to_set l : gset string) <= List.length l)%nat.
Proof.
  induction l as [|s l IH]; [done|]. simpl. rewrite size_union_alt, size_singleton.
  pose proof (subseteq_size (list_to_set l ∖ {[s]} : gset string) (list_to_set l)). set_solver by lia.
Qed.

Lemma stop_Ok v l : _stop v = Ok l ->
  (List.length l <= 4)%nat /\ NoDup l /\ Forall (fun s => s <> "") l.
Proof.
  assert (forall js, stop_values js = Ok l ->
    (List.length l <= 4)%nat /\ NoDup l /\ Forall (fun s => s <> "") l) as Hv.
  { intros js H. unfold stop_values in H. inv_ok. split_bools.
    match goal with H : mapM _ _ = Ok _ |- _ => apply mapM_Ok_Forall2 in H as Hall end.
    pose proof (Forall2_length _ _ _ Hall) as Hlen. split; [lia|]. split.
    - match goal with H : Nat.eqb _ _ = true |- _ => apply Nat.eqb_eq in H as Hsz end.
      clear -Hsz. induction l as [|s l IH]; [constructor|]. simpl in Hsz.
      destruct (decide (s ∈ l)) as [Hin|Hnin].
      + exfalso. replace ({[s]} ∪ list_to_set l : gset string) with (list_to_set l : gset string) in Hsz
          by set_solver.
        pose proof (size_set_le l). lia.
      + rewrite size_union in Hsz by set_solver. rewrite size_singleton in Hsz.
        constructor; [done|]. apply IH. lia.
    - eapply Forall2_Forall_r; [exact Hall|]. apply Forall_forall. intros j _ s Hs.
      apply string_Ok in Hs as [_ Hs]. by apply Hs. }
  unfold _stop. destruct v; try done; [|apply Hv|apply Hv].
  intros [= <-]. split_and!; [simpl; lia|constructor|constructor].
Qed.

Lemma usage_stream d s : parse_include_usage d s = Ok true -> s = true.
Proof.
  unfold parse_include_usage. destruct (get_or d "stream_options" JNull); try done; intros H; inv_ok;
    by split_bools.
Qed.

Lemma parse_wf v m c : parse_chat_completion_request v m = Ok c -> command_wf m c.
Proof.
  unfold parse_chat_completion_request. destruct v as [| | | | | |d]; try done. intros H. inv_ok.
  repeat match goal with
  | H : _string (dict_item d "model") _ _ = Ok _ |- _ => apply string_Ok in H as [_ ?]
  | H : _messages _ = Ok _ |- _ => apply messages_Ok in H as [? ?]
  | H : _integer _ _ _ _ = Ok _ |- _ => apply integer_Ok in H as [_ ?]
  | H : _number _ _ _ _ = Ok _ |- _ => apply number_Ok in H
  | H : _stop _ = Ok _ |- _ => apply stop_Ok in H
  end.
  constructor; simpl; auto. intros ->. by eapply usage_stream.
Qed.

(** ** Server-sent events *)

(** The value holds no float. *)
Fixpoint floatless (v : json) : bool :=
  match v with
  | JFloat _ => false
  | JList l => forallb floatless l
  | JObj d => forallb (fun kv => floatless kv.2) d
  | _ => true
  end.

Definition no_newline (t : text) : Prop := Forall (fun c => c <> newline) t.

Lemma escape_no_newline c : no_newline (escape_char c).
Proof.
  assert (forall d : ascii, char_code d <> 10 -> d <> newline) as Hn by (intros d H ->; by apply H).
  pose proof (char_code_range c). unfold escape_char, no_newline.
  assert (forall z, 0 <= z < 16 -> hex_digit z <> newline) as Hh.
  { intros z Hz. apply Hn. unfold hex_digit, digit_char. case_match; rewrite char_code_byte; lia. }
  repeat match goal with |- context [char_code c =? ?k] =>
    destruct (Z.eqb_spec (char_code c) k); [repeat constructor; done|] end.
  case_match.
  - pose proof (Z.mod_pos_bound (char_code c) 16). pose proof (Z.div_pos (char_code c) 16).
    pose proof (Z.div_lt_upper_bound (char_code c) 16 16).
    repeat constructor; try done; apply Hh; lia.
  - repeat constructor. by apply Hn.
Qed.

Lemma quote_no_newline s : no_newline (quote s).
Proof.
  unfold quote. constructor; [done|]. apply Forall_app. split; [|by repeat constructor].
  apply Forall_bind, Forall_true. apply escape_no_newline.
Qed.

Lemma intersperse_no_newline sep l : no_newline sep -> Forall no_newline l -> no_newline (intersperse sep l).
Proof.
  intros Hs. induction 1 as [|t l Ht Hl IH]; [constructor|]. destruct l as [|u l]; [done|].
  change (no_newline (t ++ sep ++ intersperse sep (u :: l))).
  apply Forall_app. split; [done|]. by apply Forall_app.
Qed.

Lemma digits_no_newline t : all_digits t -> no_newline t.
Proof. intros H. eapply Forall_impl; [exact H|]. intros c Hc ->. done. Qed.

Lemma dumps_no_newline v : floatless v = true -> no_newline (dumps_text v).
Proof.
  induction v as [| b | z | f | s | l IH | d IH] using json_ind'; simpl; intros H; try done.
  - by repeat constructor.
  - destruct b; by repeat constructor.
  - unfold int_text. case_match; [constructor; [done|]|]; apply digits_no_newline, dec_nonneg_spec; lia.
  - apply quote_no_newline.
  - constructor; [done|]. apply Forall_app. split; [|by repeat constructor].
    apply intersperse_no_newline; [by repeat constructor|]. apply Forall_map.
    induction IH as [|v l Hv _ IHl]; [constructor|]. simpl in H. split_bools. constructor; auto.
  - constructor; [done|]. apply Forall_app. split; [|by repeat constructor].
    apply intersperse_no_newline; [by repeat constructor|]. apply Forall_map.
    induction IH as [|[k v] d Hv _ IHd]; [constructor|]. simpl in H. split_bools. constructor; [|auto].
    apply (Forall_app _ (quote k)). split; [apply quote_no_newline|]. constructor; [done|by apply Hv].
Qed.

Lemma encode_sse_Ok v b : encode_sse v = Ok b ->
  b = chars "data: " ++ dumps_text v ++ [newline; newline].
Proof.
  unfold encode_sse, json_dumps. destruct (dumps_allowed true v); [|done]. case_match; [|done].
  by intros [= <-].
Qed.

(** The responses hold no float and have distinct member names. *)
Lemma responses_floatless e cid created model delta fr u t tm :
  forallb (fun kv => floatless kv.2) delta = true ->
  floatless (error_json e) = true /\ floatless (chat_completion_json cid created model t tm) = true
  /\ floatless (chat_completion_chunk_json cid created model delta fr) = true
  /\ floatless (usage_chunk_json cid created model u) = true.
Proof.
  intros Hd. split_and!; try done; cbn; [by destruct (param e)|]. rewrite Hd. by destruct fr.
Qed.

(** ** Theorems *)

(** C20: A chat completion command the parser returns meets every bound the
    rest of the Gateway relies on: known roles, a token budget within the model's,
    temperature in (0, 2], top_p in (0, 1], a 32-bit seed, at most four distinct
    non-empty stop strings, and usage only for streams. *)
Theorem parse_request_sound v m c :
  parse_chat_completion_request v m = Ok c -> command_wf m c.
Proof. apply parse_wf. Qed.

Definition api_manifest : ModelManifest :=
  mkManifest "qwen" "r1" "t" "c" "e" 2 0 64 64 128 "fp16" 4.

Definition sample_body : json :=
  JObj [("model", JStr "qwen");
        ("messages", JList [JObj [("role", JStr "user"); ("content", JStr "hi")]]);
        ("stream", JBool true); ("stream_options", JObj [("include_usage", JBool true)]);
        ("max_tokens", JInt 16); ("temperature", JInt 1); ("stop", JList [JStr "a"; JStr "b"])].

Definition sample_command : ChatCompletionCommand :=
  mkCommand "qwen" [mkMessage "user" "hi"] true true 16 f1 f1 0 ["a"; "b"].

Lemma parse_request_sound_witness : command_wf api_manifest sample_command.
Proof. apply (parse_request_sound sample_body). vm_compute. reflexivity. Defined.

(** C21: Every exception the parser raises is an HTTP 400 [GatewayError], with
    one exception: an int literal beyond the float range in temperature, top_p or
    a penalty, for which [float()] raises [OverflowError]. *)
Theorem parse_request_errors v m x :
  parse_chat_completion_request v m = Err x ->
  bad_request x = true \/ (x = OtherExn OverflowError /\ exists d, v = JObj d /\ oversized d).
Proof. apply parse_raises. Qed.

Lemma parse_request_errors_witness :
  bad_request (_invalid "missing required field messages" (Some "messages")) = true
  \/ (_invalid "missing required field messages" (Some "messages") = OtherExn OverflowError
      /\ exists d, JObj [("model", JStr "qwen")] = JObj d /\ oversized d).
Proof.
  apply (parse_request_errors (JObj [("model", JStr "qwen")]) api_manifest). vm_compute. reflexivity.
Defined.

(** The uncaught case exists: a body whose temperature is the integer
    10^400 is not answered with HTTP 400, the parser raises [OverflowError]. *)
Theorem oversized_number_escapes :
  parse_chat_completion_request
    (JObj [("model", JStr "qwen");
           ("messages", JList [JObj [("role", JStr "user"); ("content", JStr "hi")]]);
           ("temperature", JInt (10 ^ 400))]) api_manifest
  = Err (OtherExn OverflowError).
Proof. vm_compute. reflexivity. Qed.

(** C37: A server-sent event is one line of JSON between [data: ] and a blank
    line: whatever the text of a chunk, its newlines are escaped, so the event
    ends exactly where it should, and what the client reads back is the value
    that was sent. *)
Theorem sse_roundtrip v b :
  encode_sse v = Ok b -> json_wf v = true -> floatless v = true ->
  exists t, b = chars "data: " ++ t ++ [newline; newline] /\ no_newline t
            /\ json_loads false t = Ok v.
Proof.
  intros Hb Hwf Hf. exists (dumps_text v). split; [by apply encode_sse_Ok|].
  split; [by apply dumps_no_newline|by apply json_loads_dumps].
Qed.

Definition sample_chunk : json :=
  chat_completion_chunk_json "chatcmpl-1" 7 "qwen"
    [("content", JStr (str (chars "a" ++ [newline] ++ chars "b")))] None.

Lemma sse_roundtrip_witness :
  exists t, chars "data: " ++ dumps_text sample_chunk ++ [newline; newline]
            = chars "data: " ++ t ++ [newline; newline]
            /\ no_newline t /\ json_loads false t = Ok sample_chunk.
Proof. apply sse_roundtrip; vm_compute; reflexivity. Defined.
