(* ===== verification/TokenizerModel.v ===== *)
(** The tokenizer adapter (gateway/python/kim_llm_gateway/tokenizer.py): what it
    lets through of the transformers library, its fingerprints, and the check
    against the Worker's manifest.  The transformers tokenizer, SHA-256 and the
    file system are parameters. *)
From Stdlib Require Import ZArith Lia Ascii String SpecFloat.
From stdpp Require Import base list strings gmap.
From S2P Require Import Prelude PyFloat Json Protocol Framing GatewayBase.
Local Open Scope Z_scope.

(** ** The adapter *)

(** What a call of the library returns: a plain Python value, or an object that
    has [tolist] (an array or a tensor).  Lists and tuples are both [JList]. *)
Inductive library_value :=
| Plain (v : json)
| HasToList (v : json).

(** The transformers tokenizer: its attributes, and its methods, which return or
    raise some [Exception] with a text. *)
Record transformers_tokenizer := mkTransformers {
  tk_eos_token_id : json;
  tk_pad_token_id : json;
  tk_chat_template : json;
  apply_chat_template : list chat_message -> result string library_value;
  tk_encode : string -> result string library_value;
  tk_decode : list Z -> result string text }.

Definition tolist (v : library_value) : json :=
  match v with Plain v => v | HasToList v => v end.

(** [type(token_id) is int and token_id >= 0]. *)
Definition token_id_of (v : json) : option Z :=
  match v with JInt z => if z <? 0 then None else Some z | _ => None end.

Definition _normalize_token_ids (value : library_value) (description : string) : result gexn (list Z) :=
  let invalid := Err (TokenizerError (description +:+ " produced invalid Token IDs")) in
  match tolist value with
  | JList l => if bool_decide (l = []) then invalid
               else match mapM token_id_of l with Some ids => Ok ids | None => invalid end
  | _ => invalid
  end.

(** [try: ... except Exception as exception: raise TokenizerError(...)]. *)
Definition wrap {A} (prefix : string) (r : result string A) : result gexn A :=
  match r with Ok a => Ok a | Err e => Err (TokenizerError (prefix +:+ e)) end.

Definition hf_encode_chat (t : transformers_tokenizer) (messages : list chat_message) : result gexn (list Z) :=
  ids ← wrap "failed to apply chat template: " (apply_chat_template t messages);
  _normalize_token_ids ids "chat template".

Definition hf_encode_text (t : transformers_tokenizer) (s : string) : result gexn (list Z) :=
  ids ← wrap "failed to tokenize stop sequence: " (tk_encode t s);
  _normalize_token_ids ids "text".

Definition hf_decode (t : transformers_tokenizer) (ids : list Z) : result gexn text :=
  wrap "failed to decode generated tokens: " (tk_decode t ids).

Definition HuggingFace (t : transformers_tokenizer) : Tokenizer := {|
  encode_chat := hf_encode_chat t;
  encode_text := hf_encode_text t;
  decode := hf_decode t |}.

(** ** Fingerprints *)

Definition TOKENIZER_FINGERPRINT_VERSION : text :=
  chars "kim-llm-tokenizer-fingerprint-v1" ++ [Ascii.zero].
Definition CHAT_TEMPLATE_FINGERPRINT_VERSION : text :=
  chars "kim-llm-chat-template-v1" ++ [Ascii.zero].
Definition TOKENIZER_ASSET_NAMES : list string :=
  ["tokenizer.json"; "tokenizer.model"; "spiece.model"; "tokenizer_config.json";
   "special_tokens_map.json"; "added_tokens.json"].

(** [n.to_bytes(k, "big")] of a number that fits. *)
Fixpoint to_bytes (k : nat) (n : Z) : text :=
  match k with
  | O => []
  | S k => byte_of_Z (Z.land (Z.shiftr n (8 * Z.of_nat k)) 255) :: to_bytes k n
  end.

Section Fingerprints.
(** The hexadecimal SHA-256 digest; the path of the tokenizer directory and its
    files, [None] if it is not a directory. *)
Context (sha256 : text -> string) (root : string) (directory : option (string -> option text)).

(** What one asset adds to the digest. *)
Definition asset_record (name : string) (content : text) : result gexn text :=
  let size := Z.of_nat (List.length content) in
  if u64_max <? size then Err (OtherExn OverflowError)
  else Ok (to_bytes 4 (Z.of_nat (String.length name)) ++ chars name ++ to_bytes 8 size ++ content).

(** The assets that exist, in the order of the table. *)
Definition present_assets (files : string -> option text) : list (string * text) :=
  omap (fun name => content ← files name; Some (name, content)) TOKENIZER_ASSET_NAMES.

Definition digest_input (files : string -> option text) : result gexn text :=
  records ← mapM (fun a => asset_record a.1 a.2) (present_assets files);
  Ok (TOKENIZER_FINGERPRINT_VERSION ++ concat records).

Definition fingerprint_tokenizer_assets : result gexn string :=
  match directory with
  | None => Err (TokenizerError ("Tokenizer directory does not exist: " +:+ root))
  | Some files =>
      _ ← raise_if (negb (existsb (fun a => bool_decide
              (a.1 ∈ ["tokenizer.json"; "tokenizer.model"; "spiece.model"])) (present_assets files)))
            (TokenizerError "Tokenizer directory has no tokenizer.json, tokenizer.model, or spiece.model");
      input ← digest_input files;
      Ok ("sha256:" +:+ sha256 input)
  end.

Definition fingerprint_chat_template (chat_template : string) : result gexn string :=
  _ ← raise_if (bool_decide (chat_template = "")) (TokenizerError "Tokenizer does not define a chat template");
  Ok ("sha256:" +:+ sha256 (CHAT_TEMPLATE_FINGERPRINT_VERSION ++ chars chat_template)).

(** ** The object *)

Record HuggingFaceTokenizer := mkHF {
  hf_backend : transformers_tokenizer;
  hf_eos_token_id : Z;
  hf_pad_token_id : Z;
  hf_tokenizer_fingerprint : string;
  hf_chat_template_fingerprint : string }.

(** [__init__]. *)
Definition new_HuggingFaceTokenizer (t : transformers_tokenizer) : result gexn HuggingFaceTokenizer :=
  match token_id_of (tk_eos_token_id t) with
  | None => Err (TokenizerError "Tokenizer eos_token_id is missing or invalid")
  | Some eos =>
      match token_id_of (match tk_pad_token_id t with JNull => JInt eos | pad => pad end) with
      | None => Err (TokenizerError "Tokenizer pad_token_id is invalid")
      | Some pad =>
          match tk_chat_template t with
          | JStr chat_template =>
              _ ← raise_if (bool_decide (chat_template = ""))
                    (TokenizerError "Tokenizer chat_template is missing");
              assets ← fingerprint_tokenizer_assets;
              template ← fingerprint_chat_template chat_template;
              Ok (mkHF t eos pad assets template)
          | _ => Err (TokenizerError "Tokenizer chat_template is missing")
          end
      end
  end.

End Fingerprints.

(** The text of [validate_manifest]'s error; numbers and strings as [repr] prints
    those without characters to escape. *)
Definition mismatch {A} `{EqDecision A} (repr : A -> string) (name : string) (actual expected : A)
  : list string :=
  if bool_decide (actual = expected) then []
  else [name +:+ ": expected " +:+ repr expected +:+ ", got " +:+ repr actual].

Definition quoted (s : string) : string := "'" +:+ s +:+ "'".

Definition mismatches (h : HuggingFaceTokenizer) (m : ModelManifest) : list string :=
  mismatch quoted "tokenizer_fingerprint" (hf_tokenizer_fingerprint h) (tokenizer_fingerprint m)
  ++ mismatch quoted "chat_template_fingerprint" (hf_chat_template_fingerprint h)
       (chat_template_fingerprint m)
  ++ mismatch int_str "eos_token_id" (hf_eos_token_id h) (eos_token_id m)
  ++ mismatch int_str "pad_token_id" (hf_pad_token_id h) (pad_token_id m).

Definition validate_manifest (h : HuggingFaceTokenizer) (m : ModelManifest) : result gexn unit :=
  let l := mismatches h m in
  raise_if (negb (bool_decide (l = [])))
    (TokenizerError ("Tokenizer/Worker manifest mismatch: " +:+ String.concat "; " l)).

(** ** The adapter keeps its promises *)

Lemma token_ids_of_Some l ids : mapM token_id_of l = Some ids <->
  l = JInt <$> ids /\ Forall (fun t => 0 <= t) ids.
Proof.
  rewrite mapM_Some. revert ids. induction l as [|v l IH]; intros ids.
  - split; [intros H; inversion H; subst; by split|]. intros [H _]. destruct ids; [constructor|done].
  - split.
    + intros (z & ids' & Hv & Hl & ->)%Forall2_cons_inv_l. apply IH in Hl as [-> Hf].
      destruct v as [| |z0| | | |]; simplify_eq/=. destruct (Z.ltb_spec z0 0); simplify_eq.
      split; [done|]. by constructor.
    + intros [H Hf]. destruct ids as [|z ids]; [done|]. simplify_eq/=. apply Forall_cons in Hf as [Hz Hf].
      constructor; [|by apply IH]. simpl. by destruct (Z.ltb_spec z 0); [lia|].
Qed.

Lemma normalize_Ok v d ids : _normalize_token_ids v d = Ok ids <->
  tolist v = JList (JInt <$> ids) /\ ids <> [] /\ Forall (fun t => 0 <= t) ids.
Proof.
  unfold _normalize_token_ids. destruct (tolist v) as [| | | | |l|];
    try (split; [done|by intros [? _]]).
  case_bool_decide as Hl.
  - subst l. split; [done|]. intros ([= H] & Hne & _). by destruct ids.
  - destruct (mapM token_id_of l) as [ids'|] eqn:Hm.
    + apply token_ids_of_Some in Hm as [-> Hf]. split.
      * intros [= <-]. split_and!; [done| |done]. by intros ->.
      * intros ([= H] & _ & _). f_equal. clear -H. revert ids H. induction ids' as [|z l IH];
          intros [|z' ids] H; try done. injection H as <- H. f_equal. by apply IH.
    + split; [done|]. intros ([= ->] & _ & Hf).
      by rewrite (proj2 (token_ids_of_Some _ ids)) in Hm.
Qed.

Lemma normalize_Err v d e : _normalize_token_ids v d = Err e ->
  e = TokenizerError (d +:+ " produced invalid Token IDs").
Proof. unfold _normalize_token_ids. intros H. repeat case_in H; congruence. Qed.

Lemma wrap_Err {A} p (r : result string A) e : wrap p r = Err e -> exists m, e = TokenizerError m.
Proof. destruct r; [done|]. intros [= <-]. eauto. Qed.

(** Whatever the library does, the adapter is a tokenizer the Gateway can use. *)
#[global] Instance HuggingFace_ok t : TokenizerOk (HuggingFace t).
Proof.
  constructor; cbn; unfold hf_encode_chat, hf_encode_text.
  1,2: intros x l H; inv_ok; match goal with H : _normalize_token_ids _ _ = Ok _ |- _ =>
         apply normalize_Ok in H as (_ & ? & ?) end; done.
  1,2: intros x e H; apply bind_Err_inv in H as [H|(v & _ & H)];
         [by eapply wrap_Err|apply normalize_Err in H; eauto].
  intros l e H. by eapply wrap_Err.
Qed.

(** ** The digest input determines the assets *)

Definition from_bytes (b : text) (acc : Z) : Z :=
  fold_left (fun acc c => acc * 256 + char_code c) b acc.

Lemma from_to_bytes k n acc : from_bytes (to_bytes k n) acc = acc * 256 ^ Z.of_nat k + n mod 256 ^ Z.of_nat k.
Proof.
  revert acc. induction k as [|k IH]; intros acc.
  - cbn. rewrite Z.mod_1_r. lia.
  - cbn [to_bytes from_bytes fold_left]. fold (from_bytes (to_bytes k n)).
    change (fold_left _ _ ?a) with (from_bytes (to_bytes k n) a). rewrite IH.
    rewrite land_255, byte_code by (apply Z.mod_pos_bound; lia).
    rewrite Z.shiftr_div_pow2 by lia. rewrite Z.pow_mul_r by lia. change (2 ^ 8) with 256.
    rewrite Nat2Z.inj_succ, Z.pow_succ_r by lia.
    rewrite (Z.mul_comm 256 (256 ^ _)), Z.rem_mul_r by (first [apply Z.pow_nonzero; lia|lia]). lia.
Qed.

Lemma to_bytes_inj k n n' : 0 <= n < 256 ^ Z.of_nat k -> 0 <= n' < 256 ^ Z.of_nat k ->
  to_bytes k n = to_bytes k n' -> n = n'.
Proof.
  intros Hn Hn' H. apply (f_equal (fun b => from_bytes b 0)) in H.
  rewrite !from_to_bytes, !Z.mod_small in H by lia. lia.
Qed.

Lemma length_to_bytes k n : List.length (to_bytes k n) = k.
Proof. induction k; simpl; congruence. Qed.

Lemma chars_inj s s' : chars s = chars s' -> s = s'.
Proof.
  intros H. rewrite <-(string_of_list_ascii_of_string s), <-(string_of_list_ascii_of_string s').
  unfold chars in H. by rewrite H.
Qed.

Lemma length_chars s : List.length (chars s) = String.length s.
Proof. induction s; simpl; congruence. Qed.

(** Two records at the start of the same bytes are the same record. *)
Lemma asset_record_inj n c n' c' r r' k k' :
  Z.of_nat (String.length n) <= u32_max -> Z.of_nat (String.length n') <= u32_max ->
  asset_record n c = Ok r -> asset_record n' c' = Ok r' -> r ++ k = r' ++ k' ->
  (n, c) = (n', c') /\ k = k'.
Proof.
  unfold asset_record. intros Hn Hn' H H'.
  destruct (Z.ltb_spec u64_max (Z.of_nat (List.length c))); [done|].
  destruct (Z.ltb_spec u64_max (Z.of_nat (List.length c'))); [done|].
  apply Ok_inj in H as <-. apply Ok_inj in H' as <-. intros Heq. rewrite <-!app_assoc in Heq.
  apply app_inj_1 in Heq as [Hlen Heq]; [|by rewrite !length_to_bytes].
  apply to_bytes_inj in Hlen; [|change u32_max with 4294967295 in *; simpl; lia..].
  apply app_inj_1 in Heq as [Hname Heq]; [|rewrite !length_chars; lia].
  apply chars_inj in Hname as ->. apply app_inj_1 in Heq as [Hsize Heq]; [|by rewrite !length_to_bytes].
  apply to_bytes_inj in Hsize; [|change u64_max with 18446744073709551615 in *; simpl; lia..].
  apply app_inj_1 in Heq as [-> ->]; [done|lia].
Qed.

Lemma asset_record_nonempty n c r : asset_record n c = Ok r -> r <> [].
Proof. unfold asset_record. case_match; [done|]. by intros [= <-]. Qed.

Lemma records_inj l l' rs rs' :
  Forall (fun a => Z.of_nat (String.length a.1) <= u32_max) l ->
  Forall (fun a => Z.of_nat (String.length a.1) <= u32_max) l' ->
  Forall2 (fun a r => asset_record a.1 a.2 = Ok r) l rs ->
  Forall2 (fun a r => asset_record a.1 a.2 = Ok r) l' rs' -> concat rs = concat rs' -> l = l'.
Proof.
  intros Hl Hl' H. revert l' rs' Hl Hl'. induction H as [|[n c] r l rs Hr _ IH]; intros l' rs' Hl Hl' H' Heq;
    destruct H' as [|[n' c'] r' l' rs' Hr' H']; simpl in *; [done| | |].
  - by destruct r'; [apply asset_record_nonempty in Hr'|].
  - by destruct r; [apply asset_record_nonempty in Hr|].
  - apply Forall_cons in Hl as [Hn Hl]. apply Forall_cons in Hl' as [Hn' Hl'].
    destruct (asset_record_inj n c n' c' r r' _ _ Hn Hn' Hr Hr' Heq) as [-> Heq'].
    f_equal. by eapply IH.
Qed.

Lemma present_assets_spec files n c :
  (n, c) ∈ present_assets files <-> n ∈ TOKENIZER_ASSET_NAMES /\ files n = Some c.
Proof.
  unfold present_assets. rewrite list_elem_of_omap. split.
  - intros (name & Hin & H). destruct (files name) as [c'|] eqn:Hf; simplify_eq/=. done.
  - intros [Hin Hf]. exists n. by rewrite Hf.
Qed.

Lemma present_assets_short files :
  Forall (fun a => Z.of_nat (String.length a.1) <= u32_max) (present_assets files).
Proof.
  apply Forall_forall. intros [n c] [Hn _]%present_assets_spec. simpl. revert n Hn.
  apply Forall_forall. repeat constructor; done.
Qed.

(** ** Theorems *)

(** C39: [encode_chat] returns exactly the Token IDs the library produced, and only
    when they are a non-empty list of non-negative ints. *)
Theorem encode_chat_exact t ms ids : hf_encode_chat t ms = Ok ids <->
  exists v, apply_chat_template t ms = Ok v
    /\ tolist v = JList (JInt <$> ids) /\ ids <> [] /\ Forall (fun z => 0 <= z) ids.
Proof.
  unfold hf_encode_chat. destruct (apply_chat_template t ms) as [v|e]; simpl; [|naive_solver].
  rewrite normalize_Ok. naive_solver.
Qed.

(** C38: The bytes hashed into the tokenizer fingerprint determine the tokenizer's
    assets: two directories with the same digest input have, for each asset
    name, the same file or both none.  So only a SHA-256 collision can give two
    different tokenizers the same fingerprint. *)
Theorem digest_input_injective files files' input name :
  digest_input files = Ok input -> digest_input files' = Ok input ->
  name ∈ TOKENIZER_ASSET_NAMES -> files name = files' name.
Proof.
  unfold digest_input. intros H H' Hname.
  apply bind_Ok_inv in H as (rs & Hrs%mapM_Ok_Forall2 & H%Ok_inj).
  apply bind_Ok_inv in H' as (rs' & Hrs'%mapM_Ok_Forall2 & H'%Ok_inj).
  rewrite <-H' in H. apply app_inv_head in H.
  assert (present_assets files = present_assets files') as Heq
    by (eapply records_inj; eauto using present_assets_short).
  destruct (files name) as [c|] eqn:Hf.
  - symmetry. apply (present_assets_spec files'). rewrite <-Heq. by apply present_assets_spec.
  - destruct (files' name) as [c'|] eqn:Hf'; [|done]. exfalso.
    assert ((name, c') ∈ present_assets files) as Hin by (rewrite Heq; by apply present_assets_spec).
    apply present_assets_spec in Hin as [_ Hin]. congruence.
Qed.

Definition sample_assets (name : string) : option text :=
  if bool_decide (name = "tokenizer.json") then Some (chars "{}") else None.

Definition same_assets (name : string) : option text :=
  if bool_decide (name = "README.md") then Some [] else sample_assets name.

Lemma digest_input_injective_witness :
  sample_assets "tokenizer.json" = same_assets "tokenizer.json".
Proof.
  eapply (digest_input_injective sample_assets same_assets _ "tokenizer.json");
    [vm_compute; reflexivity|vm_compute; reflexivity|].
  refine (bool_decide_eq_true_1 _ _). vm_compute. reflexivity.
Defined.

(** [validate_manifest] passes exactly when both fingerprints and both special
    Token IDs of the tokenizer are those of the manifest, and raises
    [TokenizerError] otherwise. *)
Theorem validate_manifest_exact h m :
  match validate_manifest h m with
  | Ok _ => hf_tokenizer_fingerprint h = tokenizer_fingerprint m
      /\ hf_chat_template_fingerprint h = chat_template_fingerprint m
      /\ hf_eos_token_id h = eos_token_id m /\ hf_pad_token_id h = pad_token_id m
  | Err e => (exists msg, e = TokenizerError msg)
      /\ (hf_tokenizer_fingerprint h <> tokenizer_fingerprint m
          \/ hf_chat_template_fingerprint h <> chat_template_fingerprint m
          \/ hf_eos_token_id h <> eos_token_id m \/ hf_pad_token_id h <> pad_token_id m)
  end.
Proof.
  unfold validate_manifest, mismatches, mismatch.
  repeat case_bool_decide; simplify_eq/=; naive_solver.
Qed.
