(* ===== verification/Config.v ===== *)
(** The Gateway's configuration (gateway/python/kim_llm_gateway/config.py): what
    [GatewayConfig.load] reads, checks and raises.  The file system and pathlib's
    resolution of paths are parameters. *)
From Stdlib Require Import ZArith Lia Ascii String SpecFloat.
From stdpp Require Import base list strings gmap sorting.
From S2P Require Import Prelude PyFloat Json Protocol ProtocolFacts.
Local Open Scope Z_scope.

(** [GatewayConfigError], which is a [ValueError], and what else may escape. *)
Inductive config_exn :=
| GatewayConfigError (msg : string)
| UnicodeDecodeError
| PlainValueError
| ConfigOverflowError.

#[global] Instance config_exn_eq_dec : EqDecision config_exn.
Proof. solve_decision. Defined.

Abbreviation cresult := (result config_exn).

(** ** Checks of single values *)

(** [", ".join(sorted(s))]. *)
Definition sorted_names (s : gset string) : string :=
  String.concat ", " (merge_sort String.le (elements s)).

Definition _require_fields (value : list (string * json)) (required optional : list string)
  (description : string) : cresult unit :=
  let fields := dict_keys value in
  let missing := list_to_set required ∖ fields in
  let unexpected := fields ∖ list_to_set required ∖ list_to_set optional in
  _ ← raise_if (negb (bool_decide (missing = ∅)))
        (GatewayConfigError (description +:+ " is missing fields: " +:+ sorted_names missing));
  raise_if (negb (bool_decide (unexpected = ∅)))
    (GatewayConfigError (description +:+ " contains unexpected fields: " +:+ sorted_names unexpected)).

Definition _string (value : json) (description : string) : cresult string :=
  let e := GatewayConfigError (description +:+ " must be a non-empty string") in
  match value with
  | JStr s => if bool_decide (s = "") then Err e else Ok s
  | _ => Err e
  end.

Definition _integer (value : json) (description : string) (minimum maximum : Z) : cresult Z :=
  let e := GatewayConfigError (description +:+ " is outside the supported range") in
  match value with
  | JInt z => if (z <? minimum) || (maximum <? z) then Err e else Ok z
  | _ => Err e
  end.

Definition _number (value : json) (description : string) (minimum_exclusive : pyfloat) : cresult pyfloat :=
  let check converted :=
    _ ← raise_if (negb (isfinite converted) || fleb converted minimum_exclusive)
          (GatewayConfigError (description +:+ " must be finite and positive"));
    Ok converted in
  match value with
  | JInt z => match float_of_int z with Some f => check f | None => Err ConfigOverflowError end
  | JFloat f => check f
  | _ => Err (GatewayConfigError (description +:+ " must be numeric"))
  end.

(** ** The Worker's manifest *)

Definition _manifest (value : json) : cresult ModelManifest :=
  match value with
  | JObj d =>
      _ ← _require_fields d manifest_fields [] "worker manifest";
      model_id ← _string (dict_item d "model_id") "manifest.model_id";
      revision ← _string (dict_item d "revision") "manifest.revision";
      tokenizer_fingerprint ←
        _string (dict_item d "tokenizer_fingerprint") "manifest.tokenizer_fingerprint";
      chat_template_fingerprint ←
        _string (dict_item d "chat_template_fingerprint") "manifest.chat_template_fingerprint";
      engine_fingerprint ← _string (dict_item d "engine_fingerprint") "manifest.engine_fingerprint";
      eos_token_id ← _integer (dict_item d "eos_token_id") "manifest.eos_token_id" 0 i32_max;
      pad_token_id ← _integer (dict_item d "pad_token_id") "manifest.pad_token_id" 0 i32_max;
      max_input_tokens ←
        _integer (dict_item d "max_input_tokens") "manifest.max_input_tokens" 1 i32_max;
      max_output_tokens ←
        _integer (dict_item d "max_output_tokens") "manifest.max_output_tokens" 1 i32_max;
      max_sequence_tokens ←
        _integer (dict_item d "max_sequence_tokens") "manifest.max_sequence_tokens" 1 i32_max;
      precision ← _string (dict_item d "precision") "manifest.precision";
      max_batch_size ← _integer (dict_item d "max_batch_size") "manifest.max_batch_size" 1 i32_max;
      _ ← raise_if ((max_sequence_tokens <? max_input_tokens)
                    || (max_sequence_tokens <? max_output_tokens))
            (GatewayConfigError "manifest token limits exceed max_sequence_tokens");
      Ok (mkManifest model_id revision tokenizer_fingerprint chat_template_fingerprint
            engine_fingerprint eos_token_id pad_token_id max_input_tokens max_output_tokens
            max_sequence_tokens precision max_batch_size)
  | _ => Err (GatewayConfigError "worker manifest must be a JSON object")
  end.

(** ** The configuration *)

Record GatewayConfig := mkGatewayConfig {
  gc_worker_config_path : string;
  gc_tokenizer_path : string;
  gc_socket_path : string;
  gc_manifest : ModelManifest;
  gc_host : string;
  gc_port : Z;
  gc_log_level : string;
  gc_accept_timeout_seconds : pyfloat;
  gc_request_timeout_seconds : pyfloat;
  gc_health_timeout_seconds : pyfloat;
  gc_event_poll_seconds : pyfloat;
  gc_cancel_drain_timeout_seconds : pyfloat;
  gc_shutdown_grace_seconds : pyfloat;
  gc_max_http_body_bytes : Z;
  gc_max_pending_requests : Z;
  gc_max_client_delta_events_per_request : Z;
  gc_max_sse_delta_events_per_request : Z;
  gc_sampling_top_k : Z }.

Definition required_fields : list string := ["worker_config_path"; "tokenizer_path"].
Definition optional_fields : list string :=
  ["host"; "port"; "log_level"; "accept_timeout_seconds"; "request_timeout_seconds";
   "health_timeout_seconds"; "event_poll_seconds"; "cancel_drain_timeout_seconds";
   "shutdown_grace_seconds"; "max_http_body_bytes"; "max_pending_requests";
   "max_client_delta_events_per_request"; "max_sse_delta_events_per_request"; "sampling_top_k"].

(** The floats 10.0, 120.0, 30.0 and 0.1. *)
Definition f10 : pyfloat := S754_finite false 5629499534213120 (-49).
Definition f120 : pyfloat := S754_finite false 8444249301319680 (-46).
Definition f30 : pyfloat := S754_finite false 8444249301319680 (-48).
Definition f0_1 : pyfloat := S754_finite false 7205759403792794 (-56).

(** [root.get(key, default)]. *)
Definition get_default (d : list (string * json)) (key : string) (default_ : json) : json :=
  default default_ (dict_get d key).

Section Load.
(** What [read_text] finds: the bytes of a file, or [None] for an [OSError]. *)
Context (files : string -> option text).
(** [Path.parent]; [Path(value).expanduser()], joined to the base if it is
    relative, resolved; and the absolute form of the path [load] gets. *)
Context (parent : string -> string) (_resolve_path : string -> string -> string)
  (absolute : string -> string).

Definition _load_json_object (path description : string) : cresult (list (string * json)) :=
  match files path with
  | None => Err (GatewayConfigError ("failed to read " +:+ description +:+ ": " +:+ path))
  | Some payload =>
      if utf8_valid payload then
        match json_loads true payload with
        | Ok (JObj d) => Ok d
        | Ok _ => Err (GatewayConfigError (description +:+ " must be a JSON object"))
        | Err (JsonConstant c) => Err (GatewayConfigError ("invalid JSON constant " +:+ c))
        | Err JsonIntTooLong => Err PlainValueError
        | Err _ => Err (GatewayConfigError ("failed to parse " +:+ description))
        end
      else Err UnicodeDecodeError
  end.

(** The values that come from the Gateway's own file, after the paths and the
    Worker's part. *)
Definition gateway_values (root : list (string * json)) (worker_config_path tokenizer_path socket_path : string)
  (manifest : ModelManifest) : cresult GatewayConfig :=
  let integer key default_ maximum := _integer (get_default root key (JInt default_)) key 1 maximum in
  let number key default_ := _number (get_default root key (JFloat default_)) key f0 in
  host ← _string (get_default root "host" (JStr "127.0.0.1")) "host";
  port ← integer "port" 8000 65535;
  log_level ← _string (get_default root "log_level" (JStr "info")) "log_level";
  accept_timeout_seconds ← number "accept_timeout_seconds" f10;
  request_timeout_seconds ← number "request_timeout_seconds" f120;
  health_timeout_seconds ← number "health_timeout_seconds" f1;
  event_poll_seconds ← number "event_poll_seconds" f0_1;
  cancel_drain_timeout_seconds ← number "cancel_drain_timeout_seconds" f30;
  shutdown_grace_seconds ← number "shutdown_grace_seconds" f30;
  max_http_body_bytes ← integer "max_http_body_bytes" 1048576 i32_max;
  max_pending_requests ← integer "max_pending_requests" 8 i32_max;
  max_client_delta_events_per_request ← integer "max_client_delta_events_per_request" 64 i32_max;
  max_sse_delta_events_per_request ← integer "max_sse_delta_events_per_request" 32 i32_max;
  sampling_top_k ← integer "sampling_top_k" 1 i32_max;
  Ok (mkGatewayConfig worker_config_path tokenizer_path socket_path manifest host port log_level
        accept_timeout_seconds request_timeout_seconds health_timeout_seconds event_poll_seconds
        cancel_drain_timeout_seconds shutdown_grace_seconds max_http_body_bytes max_pending_requests
        max_client_delta_events_per_request max_sse_delta_events_per_request sampling_top_k).

Definition log_levels : list string := ["critical"; "error"; "warning"; "info"; "debug"].

Definition load (path : string) : cresult GatewayConfig :=
  let config_path := absolute path in
  root ← _load_json_object config_path "Gateway configuration";
  _ ← _require_fields root required_fields optional_fields "Gateway configuration";
  let base := parent config_path in
  worker_value ← _string (dict_item root "worker_config_path") "worker_config_path";
  let worker_config_path := _resolve_path base worker_value in
  tokenizer_value ← _string (dict_item root "tokenizer_path") "tokenizer_path";
  let tokenizer_path := _resolve_path base tokenizer_value in
  worker ← _load_json_object worker_config_path "Worker configuration";
  _ ← raise_if (negb (bool_decide ("socket_path" ∈ dict_keys worker))
                || negb (bool_decide ("manifest" ∈ dict_keys worker)))
        (GatewayConfigError "Worker configuration must contain socket_path and manifest");
  socket_value ← _string (dict_item worker "socket_path") "worker socket_path";
  let socket_path := _resolve_path (parent worker_config_path) socket_value in
  manifest ← _manifest (dict_item worker "manifest");
  result ← gateway_values root worker_config_path tokenizer_path socket_path manifest;
  _ ← raise_if (gc_max_client_delta_events_per_request result <? gc_max_sse_delta_events_per_request result)
        (GatewayConfigError "max_sse_delta_events_per_request must not exceed the GenerationClient delta capacity");
  _ ← raise_if (negb (bool_decide (gc_log_level result ∈ log_levels)))
        (GatewayConfigError "log_level is unsupported");
  Ok result.

End Load.

(** ** What is accepted *)

Lemma cfg_string_Ok v d s : _string v d = Ok s <-> v = JStr s /\ s <> "".
Proof. unfold _string. destruct v; try naive_solver. case_bool_decide; naive_solver. Qed.

Lemma cfg_integer_Ok v d lo hi z : _integer v d lo hi = Ok z <-> v = JInt z /\ lo <= z <= hi.
Proof.
  unfold _integer. destruct v as [| |z'| | | |]; try (split; [done|by intros [? _]]).
  destruct (Z.ltb_spec z' lo), (Z.ltb_spec hi z'); simpl; split; intros; destruct_and?; simplify_eq;
    try done; lia.
Qed.

(** A usable number of seconds. *)
Definition seconds_ok (f : pyfloat) : Prop := isfinite f = true /\ fleb f f0 = false.

Lemma cfg_number_Ok v d f : _number v d f0 = Ok f -> seconds_ok f.
Proof.
  unfold _number. destruct v as [| |z|f'| | |]; try done; [destruct (float_of_int z); [|done]|];
    intros H; inv_ok; by split_bools.
Qed.

Lemma diff_empty (X Y : gset string) : X ∖ Y = ∅ -> X ⊆ Y.
Proof. intros H x Hx. destruct (decide (x ∈ Y)); [done|]. set_solver. Qed.

Lemma cfg_fields_Ok d req opt desc u : _require_fields d req opt desc = Ok u <->
  list_to_set req ⊆ dict_keys d /\ dict_keys d ⊆ list_to_set (req ++ opt).
Proof.
  unfold _require_fields. destruct u. rewrite list_to_set_app_L.
  destruct (decide (list_to_set req ∖ dict_keys d = ∅)) as [Hm|Hm];
    [rewrite (bool_decide_true (_ ∖ dict_keys d = ∅)) by done
    |rewrite (bool_decide_false (_ ∖ dict_keys d = ∅)) by done]; simpl.
  - case_bool_decide as Hu; simpl; split; try done.
    + intros _. rewrite difference_difference_l_L in Hu. by split; apply diff_empty.
    + intros [_ Hs]. destruct Hu. set_solver.
  - split; [done|]. intros [Hs _]. destruct Hm. set_solver.
Qed.

Ltac use_cfg_checks :=
  repeat match goal with
  | H : _string _ _ = Ok _ |- _ => apply cfg_string_Ok in H as [? ?]
  | H : _integer _ _ _ _ = Ok _ |- _ => apply cfg_integer_Ok in H as [? ?]
  | H : _number _ _ _ = Ok _ |- _ => apply cfg_number_Ok in H
  end.

(** The configuration's manifest limits are at most 31 bits wide. *)
Definition manifest_small (m : ModelManifest) : Prop :=
  max_input_tokens m <= i32_max /\ max_output_tokens m <= i32_max
  /\ max_sequence_tokens m <= i32_max /\ max_batch_size m <= i32_max.

Lemma manifest_from_config v m : _manifest v = Ok m ->
  manifest_small m /\ manifest_wf m /\ json_equiv v (manifestJson m).
Proof.
  unfold _manifest. destruct v; try done. intros H. inv_ok. split_bools.
  match goal with H : _require_fields _ _ _ _ = Ok _ |- _ => apply cfg_fields_Ok in H as [Hr Ho] end.
  rewrite app_nil_r in Ho. use_cfg_checks. split; [split_and!; simpl; lia|].
  split.
  - repeat split; simpl; try done; change u32_max with 4294967295; change i32_max with 2147483647 in *; lia.
  - apply obj_equiv_intro; [by apply set_eq_subseteq|]. members.
Qed.

Lemma cfg_string_in s d : s <> "" -> _string (JStr s) d = Ok s.
Proof. intros. by apply cfg_string_Ok. Qed.
Lemma cfg_integer_in z d lo hi : lo <= z <= hi -> _integer (JInt z) d lo hi = Ok z.
Proof. intros. by apply cfg_integer_Ok. Qed.

Lemma config_from_manifest v m : _manifest_from_json v = Ok m -> manifest_small m -> _manifest v = Ok m.
Proof.
  unfold _manifest_from_json. intros H Hs. inv_ok. use_checks. split_bools. subst.
  destruct Hs as (? & ? & ? & ?). simpl in *. unfold _manifest.
  rewrite (proj2 (cfg_fields_Ok _ _ _ _ tt)) by (rewrite app_nil_r; match goal with
    H : dict_keys _ = _ |- _ => by rewrite H end). rewrite bind_Ok_l.
  repeat match goal with H : dict_item ?d ?k = _ |- _ => rewrite H; clear H end.
  repeat first [ rewrite bind_Ok_l | rewrite cfg_string_in by auto | rewrite cfg_integer_in by lia
               | rewrite raise_if_no by (rewrite ?orb_false_iff; lia) ].
  done.
Qed.

(** ** What a loaded configuration satisfies *)

Record config_wf (c : GatewayConfig) : Prop := {
  cf_manifest : manifest_wf (gc_manifest c) /\ manifest_small (gc_manifest c);
  cf_host : gc_host c <> "";
  cf_port : 1 <= gc_port c <= 65535;
  cf_log_level : gc_log_level c ∈ log_levels;
  cf_seconds : Forall seconds_ok
    [gc_accept_timeout_seconds c; gc_request_timeout_seconds c; gc_health_timeout_seconds c;
     gc_event_poll_seconds c; gc_cancel_drain_timeout_seconds c; gc_shutdown_grace_seconds c];
  cf_sizes : Forall (fun z => 1 <= z <= i32_max)
    [gc_max_http_body_bytes c; gc_max_pending_requests c; gc_max_client_delta_events_per_request c;
     gc_max_sse_delta_events_per_request c; gc_sampling_top_k c];
  cf_capacity : gc_max_sse_delta_events_per_request c <= gc_max_client_delta_events_per_request c }.

Lemma gateway_values_wf root wp tp sp m c : manifest_wf m -> manifest_small m ->
  gateway_values root wp tp sp m = Ok c -> gc_log_level c ∈ log_levels ->
  gc_max_sse_delta_events_per_request c <= gc_max_client_delta_events_per_request c ->
  config_wf c /\ gc_manifest c = m /\ gc_socket_path c = sp /\ gc_tokenizer_path c = tp.
Proof.
  intros Hm Hs H Hl Hcap. unfold gateway_values in H. inv_ok. use_cfg_checks. simpl in *.
  split; [|done]. constructor; simpl; try done; repeat (constructor; [done|]); constructor.
Qed.

(** *** Errors *)

(** Which exceptions other than [GatewayConfigError] escape, and why. *)
Definition config_error_explained (files : string -> option text) (e : config_exn) : Prop :=
  match e with
  | GatewayConfigError _ => True
  | UnicodeDecodeError => exists p t, files p = Some t /\ utf8_valid t = false
  | PlainValueError => exists p t, files p = Some t /\ json_loads true t = Err JsonIntTooLong
  | ConfigOverflowError => exists p t d k z, files p = Some t /\ json_loads true t = Ok (JObj d)
      /\ dict_get d k = Some (JInt z) /\ float_of_int z = None
  end.

Section LoadFacts.
Context (files : string -> option text) (parent : string -> string)
  (_resolve_path : string -> string -> string) (absolute : string -> string).

(** Only explained errors. *)
Definition explained {A} (m : cresult A) : Prop :=
  forall e, m = Err e -> config_error_explained files e.

Lemma explained_ok {A} (a : A) : explained (Ok a).
Proof. done. Qed.
Lemma explained_error {A} msg : explained (@Err _ A (GatewayConfigError msg)).
Proof. by intros e [= <-]. Qed.
Lemma explained_raise b msg : explained (raise_if b (GatewayConfigError msg)).
Proof. intros e H. apply raise_if_Err in H as [_ ->]. done. Qed.
Lemma explained_bind {A B} (m : cresult A) (k : A -> cresult B) :
  explained m -> (forall a, m = Ok a -> explained (k a)) -> explained (m ≫= k).
Proof. intros Hm Hk e H. apply bind_Err_inv in H as [H|(a & Ha & H)]; [by apply Hm|by eapply Hk]. Qed.
Lemma explained_string v d : explained (_string v d).
Proof. unfold _string. repeat case_match; auto using explained_ok, explained_error. Qed.
Lemma explained_integer v d lo hi : explained (_integer v d lo hi).
Proof. unfold _integer. repeat case_match; auto using explained_ok, explained_error. Qed.
Lemma explained_fields d req opt desc : explained (_require_fields d req opt desc).
Proof. apply explained_bind; intros; apply explained_raise. Qed.
Hint Resolve explained_ok explained_error explained_raise explained_string explained_integer
  explained_fields : core.

Lemma explained_manifest v : explained (_manifest v).
Proof. unfold _manifest. destruct v; auto. repeat (apply explained_bind; [auto|intros]); auto. Qed.

Lemma explained_load_object p d : explained (_load_json_object files p d).
Proof.
  unfold _load_json_object. destruct (files p) as [t|] eqn:Hf; [|auto].
  destruct (utf8_valid t) eqn:Hu; [|intros e [= <-]; by exists p, t].
  destruct (json_loads true t) as [[]|[]] eqn:Hj; auto. intros e [= <-]. by exists p, t.
Qed.

Lemma load_object_Ok p desc d : _load_json_object files p desc = Ok d ->
  exists t, files p = Some t /\ json_loads true t = Ok (JObj d).
Proof.
  unfold _load_json_object. destruct (files p) as [t|]; [|done]. destruct (utf8_valid t); [|done].
  destruct (json_loads true t) as [[]|[]] eqn:Hj; try done. intros [= <-]. eauto.
Qed.

Lemma explained_number p desc root key f : _load_json_object files p desc = Ok root ->
  explained (_number (get_default root key (JFloat f)) key f0).
Proof.
  intros (t & Hf & Hj)%load_object_Ok. unfold get_default.
  destruct (dict_get root key) as [v|] eqn:Hk; simpl;
    [|apply explained_bind; auto]. unfold _number. destruct v as [| |z|g| | |]; auto.
  - destruct (float_of_int z) eqn:Hz; [apply explained_bind; auto|].
    intros e [= <-]. by exists p, t, root, key, z.
  - apply explained_bind; auto.
Qed.

Lemma explained_values p desc root wp tp sp m : _load_json_object files p desc = Ok root ->
  explained (gateway_values root wp tp sp m).
Proof.
  intros Hr. unfold gateway_values.
  repeat (apply explained_bind; [first [by eapply explained_number | auto]|intros]). auto.
Qed.

Lemma load_explained path : explained (load files parent _resolve_path absolute path).
Proof.
  unfold load. apply explained_bind; [apply explained_load_object|]. intros root Hroot.
  repeat (apply explained_bind;
    [first [by eapply explained_values | apply explained_load_object | apply explained_manifest | auto]|intros]).
  auto.
Qed.

Lemma load_wf path c : load files parent _resolve_path absolute path = Ok c ->
  config_wf c /\ exists wp sv tv, gc_socket_path c = _resolve_path (parent wp) sv
    /\ gc_tokenizer_path c = _resolve_path (parent (absolute path)) tv.
Proof.
  unfold load. intros H. inv_ok. split_bools.
  match goal with H : _manifest _ = Ok _ |- _ => apply manifest_from_config in H as (Hs & Hm & _) end.
  match goal with H : gateway_values _ _ _ _ _ = Ok _ |- _ =>
    apply gateway_values_wf in H as (Hwf & _ & Hsp & Htp); [|done|done| |lia] end.
  - split; [done|]. eauto.
  - rewrite bool_decide_eq_true in *. done.
Qed.

End LoadFacts.

(** ** Theorems *)

(** C31: The configuration's manifest reader and the protocol's agree: a manifest
    from the Worker's configuration file is accepted exactly when the decoder of
    the Worker's HelloAck would accept the same JSON value with the same result and
    its limits fit 31 bits; so the manifest the Gateway expects is one a Worker
    can announce. *)
Theorem config_manifest_agrees v m :
  _manifest v = Ok m <-> _manifest_from_json v = Ok m /\ manifest_small m.
Proof.
  split.
  - intros (Hs & Hm & Hv)%manifest_from_config. split; [|done]. by apply manifest_Ok.
  - intros [? ?]. by apply config_from_manifest.
Qed.

(** C33: A configuration that loads is usable: the manifest is well-formed, all
    durations are finite and positive, all capacities are positive and fit 31
    bits, the port is a port, the log level is known and the SSE capacity does
    not exceed the client's. *)
Theorem config_load_sound files parent resolve absolute path c :
  load files parent resolve absolute path = Ok c -> config_wf c.
Proof. intros H. by apply load_wf in H as [? _]. Qed.


(** *** A concrete configuration *)

Definition sample_manifest_text : string :=
  "{'model_id':'qwen','revision':'r1','tokenizer_fingerprint':'t','chat_template_fingerprint':'c','engine_fingerprint':'e','eos_token_id':2,'pad_token_id':0,'max_input_tokens':64,'max_output_tokens':64,'max_sequence_tokens':128,'precision':'fp16','max_batch_size':4}".
(** The text with double quotes. *)
Definition quote_json (s : string) : text :=
  map (fun c => if decide (c = "'"%char) then byte_of_Z 34 else c) (chars s).
Definition sample_files (p : string) : option text :=
  if bool_decide (p = "/etc/gateway.json") then
    Some (quote_json "{'worker_config_path':'worker.json','tokenizer_path':'tok','request_timeout_seconds':60}")
  else if bool_decide (p = "/etc/worker.json") then
    Some (quote_json ("{'socket_path':'w.sock','manifest':" +:+ sample_manifest_text +:+ ",'threads':4}"))
  else if bool_decide (p = "/etc/latin1.json") then Some (byte_of_Z 233 :: quote_json "{}")
  else None.
Definition sample_resolve (base value : string) : string := base +:+ "/" +:+ value.
Definition sample_load (p : string) : cresult GatewayConfig :=
  load sample_files (fun _ => "/etc") sample_resolve (fun p => p) p.
Definition sample_gateway_config : GatewayConfig :=
  Eval vm_compute in match sample_load "/etc/gateway.json" with
                     | Ok c => c
                     | Err _ => mkGatewayConfig "" "" "" (mkManifest "" "" "" "" "" 0 0 0 0 0 "" 0) "" 0 ""
                                  f0 f0 f0 f0 f0 f0 0 0 0 0 0
                     end.

Lemma config_load_sound_witness : config_wf sample_gateway_config.
Proof.
  apply (config_load_sound sample_files (fun _ => "/etc") sample_resolve (fun p => p) "/etc/gateway.json").
  vm_compute. reflexivity.
Defined.


(** A configuration file that is not UTF-8 is not reported as
    [GatewayConfigError]: [read_text] raises before the [try] whose handler names
    [UnicodeError]. *)
Theorem undecodable_config_escapes :
  exists files path, load files (fun _ => "/etc") sample_resolve (fun p => p) path = Err UnicodeDecodeError
    /\ is_Some (files path).
Proof. exists sample_files, "/etc/latin1.json". split; vm_compute; [reflexivity|by eexists]. Qed.
