(* ===== verification/Metrics.v ===== *)
(** The Gateway's counters and their Prometheus rendering (class
    [GatewayMetrics] of gateway/python/kim_llm_gateway/runtime.py).  Every
    method runs under the object's lock, so each is one function. *)
From Stdlib Require Import ZArith Lia Ascii String.
From stdpp Require Import base list sorting strings gmap.
From S2P Require Import Prelude PyFloat Json Protocol.
Local Open Scope Z_scope.

Record GatewayMetrics := mkMetrics {
  m_offered : Z;
  m_accepted : Z;
  m_active : Z;
  m_active_high_watermark : Z;
  m_rejected : gmap string Z;
  m_terminals : gmap string Z;
  m_disconnect_cancels : Z;
  m_backpressure_cancels : Z;
  m_drain_timeouts : Z;
  m_sse_buffered_events : Z;
  m_sse_buffer_high_watermark : Z }.

Definition new_metrics : GatewayMetrics := mkMetrics 0 0 0 0 ∅ ∅ 0 0 0 0 0.

(** [counter[code] += 1]. *)
Definition count (code : string) (c : gmap string Z) : gmap string Z :=
  <[code := default 0 (c !! code) + 1]> c.

(** The sum of a counter. *)
Definition total (c : gmap string Z) : Z := map_fold (fun _ v acc => v + acc) 0 c.

Definition set_requests_m (m : GatewayMetrics) (offered accepted active high : Z) : GatewayMetrics :=
  mkMetrics offered accepted active high (m_rejected m) (m_terminals m) (m_disconnect_cancels m)
    (m_backpressure_cancels m) (m_drain_timeouts m) (m_sse_buffered_events m)
    (m_sse_buffer_high_watermark m).
Definition set_counters_m (m : GatewayMetrics) (rejected terminals : gmap string Z) : GatewayMetrics :=
  mkMetrics (m_offered m) (m_accepted m) (m_active m) (m_active_high_watermark m) rejected terminals
    (m_disconnect_cancels m) (m_backpressure_cancels m) (m_drain_timeouts m)
    (m_sse_buffered_events m) (m_sse_buffer_high_watermark m).
Definition set_cancels_m (m : GatewayMetrics) (disconnect backpressure drains : Z) : GatewayMetrics :=
  mkMetrics (m_offered m) (m_accepted m) (m_active m) (m_active_high_watermark m) (m_rejected m)
    (m_terminals m) disconnect backpressure drains (m_sse_buffered_events m)
    (m_sse_buffer_high_watermark m).
Definition set_sse_m (m : GatewayMetrics) (buffered high : Z) : GatewayMetrics :=
  mkMetrics (m_offered m) (m_accepted m) (m_active m) (m_active_high_watermark m) (m_rejected m)
    (m_terminals m) (m_disconnect_cancels m) (m_backpressure_cancels m) (m_drain_timeouts m)
    buffered high.

Definition offered (m : GatewayMetrics) : GatewayMetrics :=
  set_requests_m m (m_offered m + 1) (m_accepted m) (m_active m) (m_active_high_watermark m).

Definition metric_accepted (m : GatewayMetrics) : GatewayMetrics :=
  set_requests_m m (m_offered m) (m_accepted m + 1) (m_active m + 1)
    (Z.max (m_active_high_watermark m) (m_active m + 1)).

Definition metric_rejected (code : string) (m : GatewayMetrics) : GatewayMetrics :=
  set_counters_m m (count code (m_rejected m)) (m_terminals m).

Definition metric_terminal (code : string) (m : GatewayMetrics) : GatewayMetrics :=
  let m := set_counters_m m (m_rejected m) (count code (m_terminals m)) in
  set_requests_m m (m_offered m) (m_accepted m) (Z.max 0 (m_active m - 1)) (m_active_high_watermark m).

Definition metric_cancel (reason : string) (m : GatewayMetrics) : GatewayMetrics :=
  if bool_decide (reason = "http_disconnect") then
    set_cancels_m m (m_disconnect_cancels m + 1) (m_backpressure_cancels m) (m_drain_timeouts m)
  else if bool_decide (reason = "sse_backpressure") then
    set_cancels_m m (m_disconnect_cancels m) (m_backpressure_cancels m + 1) (m_drain_timeouts m)
  else m.

Definition drain_timeout (m : GatewayMetrics) : GatewayMetrics :=
  set_cancels_m m (m_disconnect_cancels m) (m_backpressure_cancels m) (m_drain_timeouts m + 1).

Definition sse_delta_enqueued (m : GatewayMetrics) : GatewayMetrics :=
  set_sse_m m (m_sse_buffered_events m + 1)
    (Z.max (m_sse_buffer_high_watermark m) (m_sse_buffered_events m + 1)).

Definition sse_deltas_released (n : Z) (m : GatewayMetrics) : GatewayMetrics :=
  set_sse_m m (Z.max 0 (m_sse_buffered_events m - n)) (m_sse_buffer_high_watermark m).

(** [dict(counter)]; its order is the order of the keys' first counts, which
    nothing depends on. *)
Definition counter_json (c : gmap string Z) : json := JObj ((fun kv => (kv.1, JInt kv.2)) <$> map_to_list c).

Definition metrics_snapshot (m : GatewayMetrics) : json :=
  JObj [("offered", JInt (m_offered m)); ("accepted", JInt (m_accepted m)); ("active", JInt (m_active m));
        ("active_high_watermark", JInt (m_active_high_watermark m));
        ("rejected", counter_json (m_rejected m)); ("terminals", counter_json (m_terminals m));
        ("disconnect_cancels", JInt (m_disconnect_cancels m));
        ("backpressure_cancels", JInt (m_backpressure_cancels m));
        ("drain_timeouts", JInt (m_drain_timeouts m));
        ("sse_buffered_events", JInt (m_sse_buffered_events m));
        ("sse_buffer_high_watermark", JInt (m_sse_buffer_high_watermark m))].

(** ** Prometheus text *)

(** [sorted(counter.items())]. *)
Definition item_le (a b : string * Z) : Prop := String.leb a.1 b.1 = true.
#[global] Instance item_le_dec : RelDecision item_le := fun a b => decide (String.leb a.1 b.1 = true).
Definition sorted_items (c : gmap string Z) : list (string * Z) := merge_sort item_le (map_to_list c).

Definition bool_text (b : bool) : string := if b then "1" else "0".

Definition gateway_lines (m : GatewayMetrics) (connected ready : bool) : list string :=
  ["# HELP kim_llm_gateway_connected Whether the IPC client is connected.";
   "# TYPE kim_llm_gateway_connected gauge";
   "kim_llm_gateway_connected " +:+ bool_text connected;
   "# HELP kim_llm_gateway_ready Whether the Worker passed readiness.";
   "# TYPE kim_llm_gateway_ready gauge";
   "kim_llm_gateway_ready " +:+ bool_text ready;
   "# TYPE kim_llm_gateway_requests_offered_total counter";
   "kim_llm_gateway_requests_offered_total " +:+ int_str (m_offered m);
   "# TYPE kim_llm_gateway_requests_accepted_total counter";
   "kim_llm_gateway_requests_accepted_total " +:+ int_str (m_accepted m);
   "# TYPE kim_llm_gateway_active_requests gauge";
   "kim_llm_gateway_active_requests " +:+ int_str (m_active m);
   "# TYPE kim_llm_gateway_active_requests_high_watermark gauge";
   "kim_llm_gateway_active_requests_high_watermark " +:+ int_str (m_active_high_watermark m);
   "# TYPE kim_llm_gateway_http_disconnect_cancels_total counter";
   "kim_llm_gateway_http_disconnect_cancels_total " +:+ int_str (m_disconnect_cancels m);
   "# TYPE kim_llm_gateway_sse_backpressure_cancels_total counter";
   "kim_llm_gateway_sse_backpressure_cancels_total " +:+ int_str (m_backpressure_cancels m);
   "# TYPE kim_llm_gateway_terminal_drain_timeouts_total counter";
   "kim_llm_gateway_terminal_drain_timeouts_total " +:+ int_str (m_drain_timeouts m);
   "# TYPE kim_llm_gateway_sse_buffered_events gauge";
   "kim_llm_gateway_sse_buffered_events " +:+ int_str (m_sse_buffered_events m);
   "# TYPE kim_llm_gateway_sse_buffer_high_watermark gauge";
   "kim_llm_gateway_sse_buffer_high_watermark " +:+ int_str (m_sse_buffer_high_watermark m)].

Definition worker_lines (s : Stats) : list string :=
  ["# TYPE kim_llm_worker_active_requests gauge";
   "kim_llm_worker_active_requests " +:+ int_str (active_requests s);
   "# TYPE kim_llm_worker_reserved_input_tokens gauge";
   "kim_llm_worker_reserved_input_tokens " +:+ int_str (reserved_input_tokens s);
   "# TYPE kim_llm_worker_reserved_output_tokens gauge";
   "kim_llm_worker_reserved_output_tokens " +:+ int_str (reserved_output_tokens s);
   "# TYPE kim_llm_worker_session_egress_frames gauge";
   "kim_llm_worker_session_egress_frames " +:+ int_str (session_egress_frames s);
   "# TYPE kim_llm_worker_session_egress_bytes gauge";
   "kim_llm_worker_session_egress_bytes " +:+ int_str (session_egress_bytes s);
   "# TYPE kim_llm_worker_session_egress_high_watermark_frames gauge";
   "kim_llm_worker_session_egress_high_watermark_frames "
     +:+ int_str (session_egress_high_watermark_frames s);
   "# TYPE kim_llm_worker_session_egress_high_watermark_bytes gauge";
   "kim_llm_worker_session_egress_high_watermark_bytes "
     +:+ int_str (session_egress_high_watermark_bytes s);
   "# TYPE kim_llm_worker_requests_rejected_total counter";
   "kim_llm_worker_requests_rejected_total " +:+ int_str (rejected_requests s);
   "# TYPE kim_llm_worker_backpressure_requests_total counter";
   "kim_llm_worker_backpressure_requests_total " +:+ int_str (backpressure_requests s);
   "# TYPE kim_llm_worker_cancelled_requests_total counter";
   "kim_llm_worker_cancelled_requests_total " +:+ int_str (cancelled_requests s)].

Definition quote_str : string := str [ascii_of_N 34].

Definition counter_lines (name : string) (c : gmap string Z) : list string :=
  ("# TYPE " +:+ name +:+ " counter")
  :: map (fun kv => name +:+ "{code=" +:+ quote_str +:+ kv.1 +:+ quote_str +:+ "} " +:+ int_str kv.2)
       (sorted_items c).

(** The lines, before they are joined. *)
Definition metric_lines (m : GatewayMetrics) (connected ready : bool) (stats : option Stats) : list string :=
  gateway_lines m connected ready
  ++ match stats with Some s => worker_lines s | None => [] end
  ++ counter_lines "kim_llm_gateway_requests_rejected_total" (m_rejected m)
  ++ counter_lines "kim_llm_gateway_terminals_total" (m_terminals m).

Definition newline_str : string := str [ascii_of_N 10].

Fixpoint join_lines (l : list string) : string :=
  match l with
  | [] => ""
  | [x] => x
  | x :: l => x +:+ newline_str +:+ join_lines l
  end.

Definition render_prometheus (m : GatewayMetrics) (connected ready : bool) (stats : option Stats) : string :=
  join_lines (metric_lines m connected ready stats) +:+ newline_str.

(** ** Sums *)

Lemma total_count code c : total (count code c) = total c + 1.
Proof.
  unfold total, count.
  assert (forall (j1 j2 : string) (z1 z2 y : Z), z1 + (z2 + y) = z2 + (z1 + y)) as Hcomm by lia.
  destruct (c !! code) as [v|] eqn:Hv; simpl.
  - rewrite <-(insert_delete_id c code v Hv) at 2. rewrite <-insert_delete_eq.
    rewrite !map_fold_insert_L; [lia| | | |]; intros; first [lia | by rewrite lookup_delete_eq].
  - rewrite map_fold_insert_L; [lia| |done]. intros. lia.
Qed.

Lemma total_empty : total ∅ = 0.
Proof. done. Qed.
