(* ===== verification/Gateway.v ===== *)
(** The Gateway runtime (gateway/python/kim_llm_gateway/runtime.py): the event
    buffer of a session, the incremental decoder, the pump that moves events from
    the client's handle to the buffer, request ids, and the service.

    Everything runs on one event loop, so the code between two points where a
    coroutine can be suspended is one atomic region.  A coroutine never suspends
    while it holds a buffer's condition, so acquiring the condition never suspends
    and the buffer's methods are atomic; the cancel lock and the connection lock
    are held across awaits and are modelled.  The client library is asked through
    [greply]: whatever its calls may return or raise.  The handlers that call the
    service are in [System]. *)
From Stdlib Require Import ZArith Lia Ascii String SpecFloat.
From stdpp Require Import base list strings gmap.
From S2P Require Import Prelude PyFloat Json Protocol Threads GatewayBase OpenAI Metrics.
Local Open Scope Z_scope.

(** ** The event buffer of a session *)

Record _AsyncEventBuffer := mkABuffer {
  ab_max_delta_events : Z;
  ab_deltas : list text;
  ab_terminal : option GatewayTerminal;
  ab_terminal_delivered : bool;
  ab_abandoned : bool }.

Definition new_abuffer (max_delta_events : Z) : _AsyncEventBuffer :=
  mkABuffer max_delta_events [] None false false.

Definition aput_delta (b : _AsyncEventBuffer) (delta : text) : _AsyncEventBuffer * bool :=
  if bool_decide (is_Some (ab_terminal b)) || ab_abandoned b then (b, false)
  else if ab_max_delta_events b <=? Z.of_nat (List.length (ab_deltas b)) then (b, false)
  else (mkABuffer (ab_max_delta_events b) (ab_deltas b ++ [delta]) (ab_terminal b)
          (ab_terminal_delivered b) (ab_abandoned b), true).

Definition aput_terminal (b : _AsyncEventBuffer) (t : GatewayTerminal) : _AsyncEventBuffer * bool :=
  match ab_terminal b with
  | Some _ => (b, false)
  | None => (mkABuffer (ab_max_delta_events b) (ab_deltas b) (Some t) (ab_terminal_delivered b)
               (ab_abandoned b), true)
  end.

Definition amust_wait (b : _AsyncEventBuffer) : bool :=
  bool_decide (ab_deltas b = []) && bool_decide (ab_terminal b = None).

(** [get] once its wait is over; how many deltas it released. *)
Definition aget (b : _AsyncEventBuffer) : _AsyncEventBuffer * Z * result gexn GatewayEvent :=
  if amust_wait b then (b, 0, Err (OtherExn (TimeoutError "timed out waiting for Gateway event")))
  else match ab_deltas b with
       | d :: ds =>
           (mkABuffer (ab_max_delta_events b) ds (ab_terminal b) (ab_terminal_delivered b)
              (ab_abandoned b), 1, Ok (GTextDelta d))
       | [] =>
           if ab_terminal_delivered b then (b, 0, Err (OtherExn StopAsyncIteration))
           else (mkABuffer (ab_max_delta_events b) [] (ab_terminal b) true (ab_abandoned b), 0,
                 match ab_terminal b with
                 | Some t => Ok (GTerminal t)
                 | None => Err (OtherExn AssertionError)
                 end)
       end.

Definition aabandon (b : _AsyncEventBuffer) : _AsyncEventBuffer * Z :=
  (mkABuffer (ab_max_delta_events b) [] (ab_terminal b) (ab_terminal_delivered b) true,
   Z.of_nat (List.length (ab_deltas b))).

(** ** The incremental decoder *)

Record _IncrementalDecoder := mkDecoder { dec_tokens : list Z; dec_decoded : text }.

Definition new_decoder : _IncrementalDecoder := mkDecoder [] [].

(** [append]; the Token IDs are kept even when it raises. *)
Definition append `{Tokenizer} (dec : _IncrementalDecoder) (token_ids : list Z)
  : _IncrementalDecoder * result gexn text :=
  let tokens := dec_tokens dec ++ token_ids in
  match decode tokens with
  | Err e => (mkDecoder tokens (dec_decoded dec), Err e)
  | Ok decoded =>
      if bool_decide (dec_decoded dec `prefix_of` decoded)
      then (mkDecoder tokens decoded, Ok (drop (List.length (dec_decoded dec)) decoded))
      else (mkDecoder tokens (dec_decoded dec),
            Err (TokenizerError "incremental decode changed text that was already emitted"))
  end.

(** ** Request ids *)

Definition id_limit : Z := Z.shiftl 1 63.

(** [_RequestIdAllocator.next]: the id and the new [_next]. *)
Definition next_request_id (next : Z) : Z * Z :=
  (next, if id_limit <=? next + 1 then 1 else next + 1).

(** ** Sessions and the world *)

Record GatewaySession := mkSession {
  gs_request_id : Z;
  gs_decoder : _IncrementalDecoder;
  gs_buffer : _AsyncEventBuffer;
  gs_cancel_lock : bool;
  gs_cancel_sent : bool;
  gs_done : bool;
  gs_terminal : option GatewayTerminal;
  gs_dropping_deltas : bool;
  gs_local_failure : option Status;      (* local variable of [_pump] *)
  gs_emitted : list text;                (* history: texts put into the buffer *)
  gs_taken : list text }.                (* history: texts taken out of it *)

Definition new_session (request_id max_delta_events : Z) : GatewaySession :=
  mkSession request_id new_decoder (new_abuffer max_delta_events) false false false None false None [] [].

Record gworld := mkGWorld {
  g_metrics : GatewayMetrics;
  g_next_id : Z;
  g_active : gmap Z nat;
  g_sessions : list GatewaySession;
  g_detached_tasks : gset nat;           (* drains of sessions whose client went away *)
  g_gathered : gset nat;                 (* drains a [stop] waits for *)
  g_next_task : nat;
  g_connection_lock : bool;
  g_stopping : bool;
  g_ready : bool;
  g_last_readiness_error : option string;
  g_app : _ApplicationState;             (* of the HTTP layer *)
  g_allocated : list Z;                  (* history: request ids handed out *)
  g_submitted : list GenerationRequest }. (* history: requests given to the client *)

Definition init_gworld (first_id : Z) : gworld :=
  mkGWorld new_metrics first_id ∅ [] ∅ ∅ 0 false false false (Some "Gateway has not started")
    (mkApplication false None) [] [].

Definition set_metrics (w : gworld) (m : GatewayMetrics) : gworld :=
  mkGWorld m (g_next_id w) (g_active w) (g_sessions w) (g_detached_tasks w) (g_gathered w) (g_next_task w)
    (g_connection_lock w) (g_stopping w) (g_ready w) (g_last_readiness_error w) (g_app w) (g_allocated w)
    (g_submitted w).
Definition set_ids (w : gworld) (next : Z) (allocated : list Z) : gworld :=
  mkGWorld (g_metrics w) next (g_active w) (g_sessions w) (g_detached_tasks w) (g_gathered w) (g_next_task w)
    (g_connection_lock w) (g_stopping w) (g_ready w) (g_last_readiness_error w) (g_app w) allocated
    (g_submitted w).
Definition set_sessions (w : gworld) (active : gmap Z nat) (sessions : list GatewaySession) : gworld :=
  mkGWorld (g_metrics w) (g_next_id w) active sessions (g_detached_tasks w) (g_gathered w) (g_next_task w)
    (g_connection_lock w) (g_stopping w) (g_ready w) (g_last_readiness_error w) (g_app w) (g_allocated w)
    (g_submitted w).
Definition set_tasks (w : gworld) (detached gathered : gset nat) (next : nat) : gworld :=
  mkGWorld (g_metrics w) (g_next_id w) (g_active w) (g_sessions w) detached gathered next
    (g_connection_lock w) (g_stopping w) (g_ready w) (g_last_readiness_error w) (g_app w) (g_allocated w)
    (g_submitted w).
Definition set_service (w : gworld) (lock stopping ready : bool) (error : option string) : gworld :=
  mkGWorld (g_metrics w) (g_next_id w) (g_active w) (g_sessions w) (g_detached_tasks w) (g_gathered w)
    (g_next_task w) lock stopping ready error (g_app w) (g_allocated w) (g_submitted w).

Definition set_app (app : _ApplicationState) (w : gworld) : gworld :=
  mkGWorld (g_metrics w) (g_next_id w) (g_active w) (g_sessions w) (g_detached_tasks w) (g_gathered w)
    (g_next_task w) (g_connection_lock w) (g_stopping w) (g_ready w) (g_last_readiness_error w) app
    (g_allocated w) (g_submitted w).

Definition note_submitted (r : GenerationRequest) (w : gworld) : gworld :=
  mkGWorld (g_metrics w) (g_next_id w) (g_active w) (g_sessions w) (g_detached_tasks w) (g_gathered w)
    (g_next_task w) (g_connection_lock w) (g_stopping w) (g_ready w) (g_last_readiness_error w) (g_app w)
    (g_allocated w) (g_submitted w ++ [r]).

Definition update_session (w : gworld) (s : nat) (f : GatewaySession -> GatewaySession) : gworld :=
  set_sessions w (g_active w) (alter f s (g_sessions w)).

Definition with_buffer (x : GatewaySession) (b : _AsyncEventBuffer) : GatewaySession :=
  mkSession (gs_request_id x) (gs_decoder x) b (gs_cancel_lock x) (gs_cancel_sent x) (gs_done x)
    (gs_terminal x) (gs_dropping_deltas x) (gs_local_failure x) (gs_emitted x) (gs_taken x).
Definition with_taken (x : GatewaySession) (taken : list text) : GatewaySession :=
  mkSession (gs_request_id x) (gs_decoder x) (gs_buffer x) (gs_cancel_lock x) (gs_cancel_sent x) (gs_done x)
    (gs_terminal x) (gs_dropping_deltas x) (gs_local_failure x) (gs_emitted x) taken.
Definition with_cancel (x : GatewaySession) (lock sent : bool) : GatewaySession :=
  mkSession (gs_request_id x) (gs_decoder x) (gs_buffer x) lock sent (gs_done x) (gs_terminal x)
    (gs_dropping_deltas x) (gs_local_failure x) (gs_emitted x) (gs_taken x).
Definition with_end (x : GatewaySession) (done : bool) (t : option GatewayTerminal) : GatewaySession :=
  mkSession (gs_request_id x) (gs_decoder x) (gs_buffer x) (gs_cancel_lock x) (gs_cancel_sent x)
    done t (gs_dropping_deltas x) (gs_local_failure x) (gs_emitted x) (gs_taken x).
Definition with_pump (x : GatewaySession) (dec : _IncrementalDecoder) (dropping : bool)
  (failure : option Status) (emitted : list text) : GatewaySession :=
  mkSession (gs_request_id x) dec (gs_buffer x) (gs_cancel_lock x) (gs_cancel_sent x) (gs_done x)
    (gs_terminal x) dropping failure emitted (gs_taken x).

(** What the client library and the HTTP server answer; the server may cancel a
    handler where it waits. *)
Inductive greply :=
| RUnit (r : result exn unit)
| RBool (r : result exn bool)
| RStats (r : result exn Stats)
| REvent (r : result exn GenerationEvent)
| RCancelled.

(** The names of the coroutines the Gateway starts: the pump of a session; the
    drain of a session for [stop]; that of a session whose consumer left; and the
    two ways of delivering a completion, whose names hold what they have done so
    far: the texts taken, the frames yielded, the position in the generator. *)
Inductive gtask :=
| TaskPump (s : nat)
| TaskDrain (task s : nat)
| TaskDetach (task s : nat) (reason : string)
| TaskCollect (d : delivery) (chunks : list text)
| TaskStream (d : delivery) (taken : list text) (frames : list bytes) (phase : stream_phase).

(** What a coroutine returns.  [GVNext k]: it is not over, it goes on as [k]: a
    pump with its next round, a request with the delivery of its completion.
    [GVNeverStarted s]: the server gave the response up before it asked the stream
    of the session [s] for its first frame. *)
Inductive gvalue :=
| GVUnit
| GVBool (b : bool)
| GVNext (k : gtask)
| GVStop
| GVCancelled
| GVResponse (r : response)
| GVText (t : string)
| GVNeverStarted (s : nat).

Abbreviation gprog := (Threads.prog gtask gworld gexn greply).
Definition graise {A} (e : gexn) : gprog A := Done (Err e).
Definition greturn {A} (a : A) : gprog A := Done (Ok a).

Declare Scope gprog_scope.
Notation "x <- p ;; k" := (pbind p (fun x => k))
  (at level 100, p at next level, right associativity) : gprog_scope.
Notation "p ;;; k" := (pbind p (fun _ => k)) (at level 100, right associativity) : gprog_scope.
Open Scope gprog_scope.

Definition other {A} (r : result exn A) : result gexn A :=
  match r with Ok a => Ok a | Err e => Err (OtherExn e) end.

(** [await asyncio.to_thread(...)] of a client call. *)
Definition ask_unit : gprog unit :=
  Ask (fun a => Done (match a with RUnit r => other r | _ => Err (OtherExn (RuntimeError "")) end)).
Definition ask_bool : gprog bool :=
  Ask (fun a => Done (match a with RBool r => other r | _ => Err (OtherExn (RuntimeError "")) end)).
Definition ask_stats : gprog Stats :=
  Ask (fun a => Done (match a with RStats r => other r | _ => Err (OtherExn (RuntimeError "")) end)).
Definition ask_event : gprog GenerationEvent :=
  Ask (fun a => Done (match a with REvent r => other r | _ => Err (OtherExn (RuntimeError "")) end)).

Definition is_GenerationClientError (e : exn) : bool :=
  match e with
  | GenerationClientError _ | WorkerUnavailableError _ | ClientCapacityError _
  | RequestRejectedError _ _ => true
  | _ => false
  end.

(** [str(exception)]. *)
Definition exn_str (e : exn) : string :=
  match e with
  | ProtocolError m | ValueError m | GenerationClientError m | WorkerUnavailableError m
  | ClientCapacityError m | TimeoutError m | EOFError m | OSError m | RuntimeError m => m
  | RequestRejectedError rid s =>
      "request " +:+ int_str rid +:+ " was rejected: " +:+ code s +:+ ": " +:+ message s
  | _ => ""
  end.
Definition gexn_str (e : gexn) : string :=
  match e with
  | GatewayRaise ge => ge_message ge
  | TokenizerError m => m
  | OtherExn e => exn_str e
  end.

Section Gateway.
Context `{T : Tokenizer}.

(** ** [GatewaySession.cancel] *)

Definition session_flag (f : GatewaySession -> bool) (s : nat) (w : gworld) : bool :=
  match g_sessions w !! s with Some x => f x | None => false end.

(** [async with self._cancel_lock]. *)
Definition with_cancel_lock {A} (s : nat) (p : gprog A) : gprog A :=
  Atomic (fun w => negb (session_flag gs_cancel_lock s w))
    (fun w => update_session w s (fun x => with_cancel x true (gs_cancel_sent x)))
    (fun _ => pfinally p
       (region (fun w => (update_session w s (fun x => with_cancel x false (gs_cancel_sent x)), Ok tt)))).

(** The end of [cancel], after the client answered. *)
Definition cancel_sent_to_worker (s : nat) (reason : string) (sent : bool) (w : gworld)
  : gworld * result gexn bool :=
  let w := update_session w s (fun x => with_cancel x (gs_cancel_lock x) sent) in
  (if sent then set_metrics w (metric_cancel reason (g_metrics w)) else w, Ok sent).

Definition cancel (s : nat) (reason : string) : gprog bool :=
  with_cancel_lock s (
    flags <- region (fun w => (w, Ok (session_flag gs_done s w, session_flag gs_cancel_sent s w)));;
    if flags.1 then greturn false
    else if flags.2 then greturn true
    else
      sent <- ptry ask_bool (fun e => match e with
                                      | OtherExn x => if is_GenerationClientError x then greturn false
                                                      else graise e
                                      | _ => graise e
                                      end);;
      region (cancel_sent_to_worker s reason sent)).

(** The wait for [_done] may end at any time: done, or timed out. *)
Definition drain_wait (s : nat) (w : gworld) : gworld * result gexn bool :=
  if session_flag gs_done s w then (w, Ok true)
  else (set_metrics w (drain_timeout (g_metrics w)), Ok false).

Definition cancel_and_drain (s : nat) (reason : string) : gprog bool :=
  cancel s reason;;;
  region (drain_wait s).

(** [wait_done]: [timed] if it has a timeout, which may expire at any time. *)
Definition wait_done (s : nat) (timed : bool) : gprog unit :=
  Atomic (fun w => session_flag gs_done s w || timed) (fun w => w)
    (fun w => if session_flag gs_done s w then greturn tt else graise (OtherExn (TimeoutError ""))).

Definition abandon (s : nat) (w : gworld) : gworld :=
  match g_sessions w !! s with
  | None => w
  | Some x =>
      let '(b, released) := aabandon (gs_buffer x) in
      let w := update_session w s (fun x => with_buffer x b) in
      if 0 <? released then set_metrics w (sse_deltas_released released (g_metrics w)) else w
  end.

(** ** The pump *)

(** [_finish]. *)
Definition _finish (s : nat) (t : GatewayTerminal) (w : gworld) : gworld * result gexn unit :=
  match g_sessions w !! s with
  | None => (w, Ok tt)
  | Some x =>
      let '(b, stored) := aput_terminal (gs_buffer x) t in
      let w := update_session w s (fun x => with_buffer (with_end x (gs_done x) (Some t)) b) in
      if stored then (set_metrics w (metric_terminal (code (gt_status t)) (g_metrics w)), Ok tt)
      else (w, Err (OtherExn (RuntimeError "Gateway Session received duplicate Terminal")))
  end.

(** [_session_finished]. *)
Definition session_finished (s : nat) (w : gworld) : gworld :=
  match g_sessions w !! s with
  | None => w
  | Some x =>
      if bool_decide (g_active w !! gs_request_id x = Some s)
      then set_sessions w (delete (gs_request_id x) (g_active w)) (g_sessions w)
      else w
  end.

(** The [finally] of the pump. *)
Definition pump_exit (s : nat) (w : gworld) : gworld :=
  session_finished s (update_session w s (fun x => with_end x true (gs_terminal x))).

(** The [except] clauses. *)
Definition failure_of (e : gexn) : GatewayTerminal :=
  match e with
  | OtherExn StopIteration =>
      mkGatewayTerminal (mkStatus "internal_error" "generation ended without Terminal") None (mkUsage 0 0)
  | _ =>
      mkGatewayTerminal
        (mkStatus (match e with OtherExn (WorkerUnavailableError _) => "unavailable" | _ => "internal_error" end)
           (gexn_str e)) None (mkUsage 0 0)
  end.

Definition pump_failed (s : nat) (e : gexn) (w : gworld) : gworld * result gexn gvalue :=
  let '(w, r) := _finish s (failure_of e) w in
  (pump_exit s w, match r with Ok _ => Ok GVStop | Err e => Err e end).

(** A Terminal arrived: [_finish], or the handler if it raises; then [finally]. *)
Definition pump_terminal (s : nat) (t : Terminal) (w : gworld) : gworld * result gexn gvalue :=
  let failure := g_sessions w !! s ≫= gs_local_failure in
  let terminal := mkGatewayTerminal (default (tm_status t) failure)
                    (match failure with Some _ => None | None => finish_reason t end) (usage t) in
  match _finish s terminal w with
  | (w, Ok _) => (pump_exit s w, Ok GVStop)
  | (w, Err e) => pump_failed s e w
  end.

(** What the pump does after a TokenDelta. *)
Inductive pump_action := PContinue | PCancel (reason : string).

Definition pump_delta (s : nat) (d : TokenDelta) (w : gworld) : gworld * result gexn pump_action :=
  match g_sessions w !! s with
  | None => (w, Ok PContinue)
  | Some x =>
      if gs_dropping_deltas x then (w, Ok PContinue)
      else
        let '(dec, r) := append (gs_decoder x) (token_ids d) in
        match r with
        | Err (TokenizerError msg) =>
            (update_session w s (fun x => with_pump x dec true (Some (mkStatus "internal_error" msg))
                                            (gs_emitted x)),
             Ok (PCancel "decode_failure"))
        | Err e =>
            (update_session w s (fun x => with_pump x dec (gs_dropping_deltas x) (gs_local_failure x)
                                            (gs_emitted x)), Err e)
        | Ok t =>
            if bool_decide (t = []) then
              (update_session w s (fun x => with_pump x dec (gs_dropping_deltas x) (gs_local_failure x)
                                              (gs_emitted x)), Ok PContinue)
            else
              let '(b, stored) := aput_delta (gs_buffer x) t in
              if stored then
                (set_metrics
                   (update_session w s (fun x =>
                      with_buffer (with_pump x dec (gs_dropping_deltas x) (gs_local_failure x)
                                     (gs_emitted x ++ [t])) b))
                   (sse_delta_enqueued (g_metrics w)), Ok PContinue)
              else
                (update_session w s (fun x => with_pump x dec true (gs_local_failure x) (gs_emitted x)),
                 Ok (PCancel "sse_backpressure"))
        end
  end.

(** One round of the loop of [_pump]: the next event, up to the point where the
    Terminal or an exception ends the pump. *)
Definition pump_event (s : nat) : gprog (option Terminal) :=
  event <- ask_event;;
  match event with
  | EDelta d =>
      action <- region (pump_delta s d);;
      match action with
      | PContinue => greturn None
      | PCancel reason => cancel s reason;;; greturn None
      end
  | ETerminal t => greturn (Some t)
  end.

Definition _pump (s : nat) : gprog gvalue :=
  pseq (pump_event s) (fun r =>
    match r with
    | Ok None => greturn (GVNext (TaskPump s))
    | Ok (Some t) => region (pump_terminal s t)
    | Err e => region (pump_failed s e)
    end).

(** ** [next_event] of a session *)

Definition event_available (s : nat) (w : gworld) : bool :=
  match g_sessions w !! s with Some x => negb (amust_wait (gs_buffer x)) | None => false end.

(** A text that was taken joins the history of the session. *)
Definition note_taken (r : result gexn GatewayEvent) (taken : list text) : list text :=
  match r with Ok (GTextDelta t) => taken ++ [t] | _ => taken end.

Definition take_gevent (s : nat) (w : gworld) : gworld * result gexn GatewayEvent :=
  match g_sessions w !! s with
  | None => (w, Err (OtherExn StopAsyncIteration))
  | Some x =>
      let '(b, released, r) := aget (gs_buffer x) in
      let w := update_session w s (fun x => with_taken (with_buffer x b) (note_taken r (gs_taken x))) in
      (if 0 <? released then set_metrics w (sse_deltas_released released (g_metrics w)) else w, r)
  end.

Definition gnext_event (s : nat) (timed : bool) : gprog GatewayEvent :=
  Atomic (fun w => event_available s w || timed) (fun w => (take_gevent s w).1)
    (fun w => Done (take_gevent s w).2).

(** ** The service *)

Context (manifest : ModelManifest) (options : GatewayRuntimeOptions).

Definition server_error (msg : string) (code : string) : gexn :=
  GatewayRaise (mkGatewayError msg 503 "server_error" code None).

(** [async with self._connection_lock]. *)
Definition with_connection_lock {A} (p : gprog A) : gprog A :=
  Atomic (fun w => negb (g_connection_lock w))
    (fun w => set_service w true (g_stopping w) (g_ready w) (g_last_readiness_error w))
    (fun _ => pfinally p (region (fun w =>
       (set_service w false (g_stopping w) (g_ready w) (g_last_readiness_error w), Ok tt)))).

Definition set_readiness (ready : bool) (error : option string) (w : gworld) : gworld :=
  set_service w (g_connection_lock w) (g_stopping w) ready error.

(** The two checks on the Worker's Stats. *)
Definition check_stats (st : Stats) : result gexn Stats :=
  _ ← raise_if (negb (ready st) || negb (status_ok (st_status st)))
        (server_error (if bool_decide (message (st_status st) = "") then "Worker is not ready"
                       else message (st_status st))
           (if negb (status_ok (st_status st)) then code (st_status st) else "not_ready"));
  Ok st.

Definition check_readiness : gprog Stats :=
  stopping <- region (fun w => (w, Ok (g_stopping w)));;
  if (stopping : bool) then graise (server_error "Gateway is stopping" "not_ready")
  else with_connection_lock (
    st <- ptry
      (connected <- ask_bool;;
       (if (connected : bool) then greturn tt else ask_unit);;;
       st <- ask_stats;;
       Done (check_stats st))
      (fun e =>
         region (fun w => (set_readiness false (Some (gexn_str e)) w, Ok tt));;;
         graise (match e with
                 | GatewayRaise _ => e
                 | _ => server_error ("Worker readiness failed: " +:+ gexn_str e) "unavailable"
                 end));;
    region (fun w => (set_readiness true None w, Ok st))).

Definition start : gprog bool :=
  region (fun w => (set_service w (g_connection_lock w) false (g_ready w) (g_last_readiness_error w),
                    Ok tt));;;
  ptry (check_readiness;;; greturn true)
    (fun e => match e with GatewayRaise _ => greturn false | _ => graise e end).

Definition collect_worker_stats : gprog (option Stats) :=
  connected <- ask_bool;;
  if (connected : bool) then ptry (st <- ask_stats;; greturn (Some st)) (fun _ => greturn None)
  else greturn None.

(** The property [ready]: [self._ready and self._client.connected]. *)
Definition service_ready : gprog bool :=
  was_ready <- region (fun w => (w, Ok (g_ready w)));;
  if (was_ready : bool) then ask_bool else greturn false.

(** [render_metrics]: [connected] and [ready] are asked of the client. *)
Definition render_metrics (worker_stats : option Stats) : gprog string :=
  connected <- ask_bool;;
  is_ready <- service_ready;;
  region (fun w => (w, Ok (render_prometheus (g_metrics w) connected is_ready worker_stats))).

(** *** [submit] *)

Definition count_rejected (code : string) (w : gworld) : gworld :=
  set_metrics w (metric_rejected code (g_metrics w)).

(** [self._metrics.rejected(code); raise e]. *)
Definition reject {A} (code : string) (e : gexn) : gprog A :=
  region (fun w => (count_rejected code w, Ok tt));;; graise e.

Definition invalid_input (msg : string) (p : option string) : gexn :=
  GatewayRaise (mkGatewayError msg 400 "invalid_request_error" "invalid_input" p).

(** The quotes are those [repr] puts around a name that needs no escape. *)
Definition model_not_found (model : string) : gexn :=
  GatewayRaise (mkGatewayError ("model '" +:+ model +:+ "' is not served by this Gateway") 404
                  "invalid_request_error" "model_not_found" (Some "model")).

(** The Token IDs of the prompt and of the stop strings. *)
Definition encode_inputs (r : GatewayRequest) : result gexn (list Z * list (list Z)) :=
  input_token_ids ← encode_chat (gr_messages r);
  stop_sequences ← mapM encode_text (gr_stop r);
  Ok (input_token_ids, stop_sequences).

(** The checks on them. *)
Definition check_inputs (r : GatewayRequest) (ids : list Z) (stops : list (list Z)) : result gexn unit :=
  let n := Z.of_nat (List.length ids) in
  _ ← raise_if (existsb (fun s => bool_decide (s = [])) stops)
        (invalid_input "stop sequence must produce at least one Token ID" (Some "stop"));
  _ ← raise_if (max_input_tokens manifest <? n)
        (invalid_input "tokenized prompt exceeds max_input_tokens" (Some "messages"));
  _ ← raise_if (max_output_tokens manifest <? gr_max_new_tokens r)
        (invalid_input "max_tokens exceeds the model output limit" (Some "max_tokens"));
  raise_if (max_sequence_tokens manifest <? n + gr_max_new_tokens r)
    (invalid_input "prompt and requested output exceed max_sequence_tokens" (Some "max_tokens")).

Definition f1000 : pyfloat := S754_finite false 8796093022208000 (-43).

(** [int(self._options.request_timeout_seconds * 1000)]. *)
Definition timeout_millis : result gexn Z :=
  let f := fmul (request_timeout_seconds options) f1000 in
  if isfinite f then Ok (int_of_float f) else Err (OtherExn OverflowError).

Definition generation_request (r : GatewayRequest) (rid timeout : Z) (ids : list Z) (stops : list (list Z))
  : GenerationRequest :=
  mkRequest rid ids (gr_max_new_tokens r) 0 (Some timeout) (gr_trace_id r) (gr_streaming r)
    (mkSampling (PFloat (gr_temperature r)) (sampling_top_k options) (PFloat (gr_top_p r))
       (gr_random_seed r))
    (Some (eos_token_id manifest)) (Some (pad_token_id manifest)) stops.

Definition allocate_id (w : gworld) : gworld * result gexn Z :=
  let '(rid, next) := next_request_id (g_next_id w) in
  (set_ids w next (g_allocated w ++ [rid]), Ok rid).

(** The [except] clauses around the client's [submit]: what is counted and what
    is raised. *)
Definition submit_refused {A} (e : gexn) : gprog A :=
  match e with
  | OtherExn (RequestRejectedError _ status) =>
      reject (code status) (GatewayRaise (gateway_error_from_status status))
  | OtherExn (ClientCapacityError m) =>
      reject "queue_full" (GatewayRaise (mkGatewayError m 429 "invalid_request_error" "queue_full" None))
  | OtherExn x =>
      if is_GenerationClientError x then
        region (fun w => (count_rejected "unavailable" (set_readiness false (Some (exn_str x)) w), Ok tt));;;
        graise (server_error (exn_str x) "unavailable")
      else if is_ValueError x then reject "invalid_input" (invalid_input (exn_str x) None)
      else graise e
  | _ => graise e
  end.

(** The session is registered, counted and started without a suspension. *)
Definition register_session (rid : Z) (w : gworld) : gworld :=
  let s := List.length (g_sessions w) in
  set_metrics
    (set_sessions w (<[rid := s]> (g_active w))
       (g_sessions w ++ [new_session rid (max_sse_delta_events_per_request options)]))
    (metric_accepted (g_metrics w)).

Definition submit (r : GatewayRequest) : gprog nat :=
  region (fun w => (set_metrics w (offered (g_metrics w)), Ok tt));;;
  stopping <- region (fun w => (w, Ok (g_stopping w)));;
  if (stopping : bool) then reject "not_ready" (server_error "Gateway is stopping" "not_ready")
  else if negb (bool_decide (gr_model r = model_id manifest)) then
    reject "model_not_found" (model_not_found (gr_model r))
  else
    is_ready <- service_ready;;
    (if (is_ready : bool) then greturn tt
     else ptry (check_readiness;;; greturn tt)
            (fun e => match e with GatewayRaise ge => reject (ge_code ge) e | _ => graise e end));;;
    enc <- ptry (Done (encode_inputs r))
             (fun e => match e with
                       | TokenizerError msg => reject "invalid_input" (invalid_input msg (Some "messages"))
                       | _ => graise e
                       end);;
    ptry (Done (check_inputs r enc.1 enc.2)) (fun e => reject "invalid_input" e);;;
    rid <- region allocate_id;;
    timeout <- Done timeout_millis;;
    region (fun w => (note_submitted (generation_request r rid timeout enc.1 enc.2) w, Ok tt));;;
    ptry ask_unit (fun e => submit_refused e);;;
    Atomic (fun _ => true) (register_session rid)
      (fun w => let s := List.length (g_sessions w) in Fork (TaskPump s) (greturn s)).

(** *** Draining and shutdown *)

Definition enter_task (w : gworld) : gworld * result gexn nat :=
  (set_tasks w ({[g_next_task w]} ∪ g_detached_tasks w) (g_gathered w) (S (g_next_task w)), Ok (g_next_task w)).
Definition leave_task (task : nat) (w : gworld) : gworld :=
  set_tasks w (g_detached_tasks w ∖ {[task]}) (g_gathered w) (g_next_task w).

Definition _cancel_drain_and_abandon (s : nat) (reason : string) : gprog gvalue :=
  drained <- cancel_and_drain s reason;;
  region (fun w => (abandon s w, Ok tt));;;
  greturn (GVBool drained).

(** The task that is created, which is removed from the set when it is done. *)
Definition detach_task (task s : nat) (reason : string) : gprog gvalue :=
  pfinally (_cancel_drain_and_abandon s reason) (region (fun w => (leave_task task w, Ok tt))).

Definition detach_cancel_and_drain (s : nat) (reason : string) : gprog unit :=
  task <- region enter_task;;
  Fork (TaskDetach task s reason) (greturn tt).

(** [stop] up to its first suspension: the sessions to drain, or [None] if
    the Gateway is already stopping. *)
Definition begin_stop (w : gworld) : gworld * result gexn (option (list nat)) :=
  if g_stopping w then (w, Ok None)
  else (set_service w (g_connection_lock w) true false (g_last_readiness_error w),
        Ok (Some (map_to_list (g_active w)).*2)).

(** [asyncio.gather] wraps each coroutine it is given in a task. *)
Definition enter_drain (w : gworld) : gworld * result gexn nat :=
  (set_tasks w (g_detached_tasks w) ({[g_next_task w]} ∪ g_gathered w) (S (g_next_task w)), Ok (g_next_task w)).
Definition leave_drain (task : nat) (w : gworld) : gworld :=
  set_tasks w (g_detached_tasks w) (g_gathered w ∖ {[task]}) (g_next_task w).

Definition drain_task (task s : nat) : gprog gvalue :=
  pfinally (cancel_and_drain s "gateway_shutdown";;; greturn GVStop)
    (region (fun w => (leave_drain task w, Ok tt))).

Fixpoint start_drains (sessions : list nat) : gprog (list nat) :=
  match sessions with
  | [] => greturn []
  | s :: sessions =>
      task <- region enter_drain;;
      Fork (TaskDrain task s) (tasks <- start_drains sessions;; greturn (task :: tasks))
  end.

(** Waiting for a set of tasks, whatever they return or raise. *)
Definition gathered (tasks : list nat) (w : gworld) : bool :=
  bool_decide (Forall (fun t => t ∉ g_gathered w) tasks).
Definition all_detached (tasks : gset nat) (w : gworld) : bool :=
  bool_decide (tasks ∩ g_detached_tasks w = ∅).
Definition wait_tasks (ready : gworld -> bool) : gprog unit := Atomic ready (fun w => w) (fun _ => greturn tt).

Definition stop : gprog gvalue :=
  sessions <- region begin_stop;;
  match sessions with
  | None => greturn GVUnit
  | Some sessions =>
      tasks <- start_drains sessions;;
      wait_tasks (gathered tasks);;;
      ask_unit;;;
      pfor sessions (fun s => region (fun w => (abandon s w, Ok tt)));;;
      tasks <- region (fun w => (w, Ok (g_detached_tasks w)));;
      wait_tasks (all_detached tasks);;;
      greturn GVUnit
  end.

End Gateway.
