(* ===== verification/Api.v ===== *)
(** The HTTP layer (gateway/python/kim_llm_gateway/api.py): building the service,
    reading a request body, the endpoints, and the two ways a completion is
    delivered.

    A coroutine of this layer owns local variables only; what its awaits give it
    is its input.  The loops over the events of a session are therefore step
    functions on what one round of awaits gave ([wait]).  [System] runs them as
    coroutines that share the service; here they are folded over the list of all
    that a coroutine was given, which yields what it has done when the list is
    used up: waiting for more, returned or raised, with the bytes it yielded and
    the sessions it detached. *)
From Stdlib Require Import ZArith Lia Ascii String SpecFloat.
From stdpp Require Import base list strings gmap.
From S2P Require Import Prelude PyFloat Json JsonFacts Protocol ProtocolFacts Framing.
From S2P Require Import EventBuffer Threads Client GatewayBase OpenAI OpenAIFacts.
From S2P Require Import TokenizerModel Config Metrics Gateway.
Local Open Scope Z_scope.

(** ** [build_gateway_service] *)

(** Why transformers gives no tokenizer. *)
Inductive library_failure :=
| NotInstalled
| LoadFailed (msg : string).

(** The parts the service is made of. *)
Record gateway_parts := mkParts {
  gp_client : GenerationClientConfig;
  gp_tokenizer : HuggingFaceTokenizer;
  gp_manifest : ModelManifest;
  gp_options : GatewayRuntimeOptions }.

Section Build.
Context (sha256 : text -> string).
(** [AutoTokenizer.from_pretrained], and the directory at a path. *)
Context (from_pretrained : string -> result library_failure transformers_tokenizer)
  (directory : string -> option (string -> option text)) (absolute : string -> string).

(** [HuggingFaceTokenizer.load]. *)
Definition load_tokenizer (tokenizer_path : string) : result gexn HuggingFaceTokenizer :=
  let path := absolute tokenizer_path in
  match from_pretrained path with
  | Err NotInstalled => Err (TokenizerError "transformers is required to load the Gateway tokenizer")
  | Err (LoadFailed e) => Err (TokenizerError ("failed to load Tokenizer from " +:+ path +:+ ": " +:+ e))
  | Ok t => new_HuggingFaceTokenizer sha256 path (directory path) t
  end.

Definition client_config_of (c : GatewayConfig) : GenerationClientConfig :=
  mkConfig (gc_socket_path c) (gc_manifest c) (gc_accept_timeout_seconds c) (gc_accept_timeout_seconds c)
    DEFAULT_MAX_FRAME_PAYLOAD_BYTES (gc_max_pending_requests c) (gc_max_client_delta_events_per_request c).

Definition options_of (c : GatewayConfig) : GatewayRuntimeOptions :=
  mkOptions (gc_accept_timeout_seconds c) (gc_request_timeout_seconds c) (gc_health_timeout_seconds c)
    (gc_cancel_drain_timeout_seconds c) (gc_shutdown_grace_seconds c)
    (gc_max_sse_delta_events_per_request c) (gc_sampling_top_k c).

Definition build_gateway_service (c : GatewayConfig) : result gexn gateway_parts :=
  tokenizer ← load_tokenizer (gc_tokenizer_path c);
  _ ← validate_manifest tokenizer (gc_manifest c);
  _ ← other (_validate_config (client_config_of c));
  _ ← other (check_options (options_of c));
  Ok (mkParts (client_config_of c) tokenizer (gc_manifest c) (options_of c)).

End Build.

(** ** Request bodies *)

Definition too_large : gexn :=
  GatewayRaise (mkGatewayError "request body exceeds the configured limit" 413 "invalid_request_error"
                  "request_too_large" None).
Definition invalid_json (msg : string) : gexn :=
  GatewayRaise (mkGatewayError msg 400 "invalid_request_error" "invalid_json" None).

(** The loop over [request.stream()]; the bytes kept so far. *)
Fixpoint read_chunks (body : bytes) (chunks : list bytes) (max_bytes : Z) : result gexn bytes :=
  match chunks with
  | [] => Ok body
  | chunk :: rest =>
      if max_bytes <? Z.of_nat (List.length body) + Z.of_nat (List.length chunk) then Err too_large
      else read_chunks (body ++ chunk) rest max_bytes
  end.

Definition _read_bounded_body (chunks : list bytes) (max_bytes : Z) : result gexn bytes :=
  body ← read_chunks [] chunks max_bytes;
  _ ← raise_if (bool_decide (body = [])) (invalid_json "request body must not be empty");
  Ok body.

(** [json.loads(body.decode("utf-8"), parse_constant=...)] and its handler; the
    text of the decoder's exception is left out. *)
Definition parse_body (body : bytes) : result gexn json :=
  if utf8_valid body then
    match json_loads true body with
    | Ok v => Ok v
    | Err (JsonConstant c) => Err (invalid_json ("invalid JSON request body: invalid JSON constant " +:+ c))
    | Err _ => Err (invalid_json "invalid JSON request body")
    end
  else Err (invalid_json "invalid JSON request body").

(** The part of [chat_completions] before the submission. *)
Definition read_command (chunks : list bytes) (max_bytes : Z) (manifest : ModelManifest)
  : result gexn ChatCompletionCommand :=
  body ← _read_bounded_body chunks max_bytes;
  value ← parse_body body;
  parse_chat_completion_request value manifest.

(** ** Responses *)

Definition error_response (e : GatewayError) : response := mkResponse (http_status e) (error_json e).

Definition unavailable_error (startup_error : option string) : GatewayError :=
  mkGatewayError (match startup_error with
                  | Some m => if bool_decide (m = "") then "Gateway is not initialized" else m
                  | None => "Gateway is not initialized"
                  end) 503 "server_error" "not_ready" None.

(** The answers of [/healthz], of [/readyz], of [/v1/models], and of [/metrics]
    without a service. *)
Definition health_response : response := mkResponse 200 (JObj [("status", JStr "ok")]).

Definition ready_response (manifest : ModelManifest) (connected : bool) (stats : Stats) : response :=
  mkResponse 200 (JObj [("status", JStr "ready"); ("model", JStr (model_id manifest));
                        ("worker_connected", JBool connected);
                        ("active_requests", JInt (active_requests stats))]).
Definition not_ready_response (e : GatewayError) : response :=
  mkResponse 503 (JObj [("status", JStr "not_ready"); ("reason", JStr (ge_message e))]).

Definition models_response (m : ModelManifest) : response :=
  mkResponse 200 (JObj [("object", JStr "list");
    ("data", JList [JObj [("id", JStr (model_id m)); ("object", JStr "model"); ("created", JInt 0);
                          ("owned_by", JStr "kim-llm-serving")]])]).

Definition unavailable_metrics : string :=
  "kim_llm_gateway_connected 0" +:+ newline_str +:+ "kim_llm_gateway_ready 0" +:+ newline_str.

(** ** Delivering a completion *)

(** What one round of awaits gives: [is_disconnected()] is true; [next_event]
    raises [TimeoutError], returns an event, or raises something else; or the
    task is cancelled. *)
Inductive wait :=
| WDisconnected
| WTimeout
| WEvent (e : GatewayEvent)
| WRaise (e : gexn)
| WCancelled.

(** Where a coroutine is: [None] is [CancelledError]. *)
Inductive progress (A : Type) :=
| Waiting
| Returned (a : A)
| Raised (e : option gexn).
Arguments Waiting {A}.
Arguments Returned {A} a.
Arguments Raised {A} e.

Definition disconnected_error : gexn :=
  GatewayRaise (mkGatewayError "HTTP client disconnected" 499 "server_error" "client_disconnected" None).

(** One round of [_collect_non_streaming]: the texts to go on with, or its end and
    the calls of [detach_cancel_and_drain].  [detached] and [terminal] are only
    read in the [finally], so each exit shows the calls made on its way out. *)
Definition collect_step (chunks : list text) (w : wait)
  : list text + progress (text * GatewayTerminal) * list string :=
  match w with
  | WDisconnected => inr (Raised (Some disconnected_error), ["http_disconnect"])
  | WTimeout => inl chunks
  | WEvent (GTextDelta t) => inl (chunks ++ [t])
  | WEvent (GTerminal t) => inr (Returned (concat chunks, t), [])
  | WRaise e => inr (Raised (Some e), ["http_disconnect"])
  | WCancelled => inr (Raised None, ["http_disconnect"])
  end.

Fixpoint collect_rounds (chunks : list text) (ws : list wait)
  : progress (text * GatewayTerminal) * list string :=
  match ws with
  | [] => (Waiting, [])
  | w :: ws => match collect_step chunks w with
               | inl chunks => collect_rounds chunks ws
               | inr r => r
               end
  end.

Definition _collect_non_streaming (ws : list wait) : progress (text * GatewayTerminal) * list string :=
  collect_rounds [] ws.

(** The rest of the endpoint for a request that is not streamed. *)
Definition complete_response (completion_id : string) (created : Z) (model : string)
  (collected : progress (text * GatewayTerminal)) : progress response :=
  match collected with
  | Waiting => Waiting
  | Returned (t, terminal) =>
      if status_ok (gt_status terminal)
      then Returned (mkResponse 200 (chat_completion_json completion_id created model t terminal))
      else Returned (error_response (gateway_error_from_status (gt_status terminal)))
  | Raised (Some (GatewayRaise e)) => Returned (error_response e)
  | Raised e => Raised e
  end.

Definition done_frame : bytes := chars "data: [DONE]" ++ [newline; newline].

(** *** The stream *)

(** What happens to the generator: an await gives something, or the consumer takes
    the frame that was yielded and resumes it.  It is cancelled at an await or at
    a [yield]. *)
Inductive signal :=
| Await (w : wait)
| Resume.

(** The frames yielded so far, the progress, the detached sessions. *)
Definition stream_state : Type := list bytes * progress unit * list string.

(** The [finally] of the generator. *)
Definition leave (frames : list bytes) (completed : bool) (p : progress unit) : stream_state :=
  (frames, p, if completed then [] else ["http_disconnect"]).

(** The generator is at an await or a [yield], or it is over. *)
Inductive stream_next :=
| SNext (frames : list bytes) (phase : stream_phase)
| SEnd (st : stream_state).

Definition completed (terminal : option GatewayTerminal) : bool :=
  match terminal with Some _ => true | None => false end.

(** The Terminal a generator in this position has taken. *)
Definition phase_terminal (phase : stream_phase) : option GatewayTerminal :=
  match phase with SLooping => None | SSuspended terminal _ => terminal end.

(** Yield [values] one after the other, then go back to the loop, or return if a
    Terminal was taken.  A value is computed before it is yielded, and then the
    generator is suspended. *)
Definition yield_values (frames : list bytes) (terminal : option GatewayTerminal)
  (values : list (result gexn bytes)) : stream_next :=
  match values with
  | [] => if completed terminal then SEnd (leave frames true (Returned tt)) else SNext frames SLooping
  | Err e :: _ => SEnd (leave frames (completed terminal) (Raised (Some e)))
  | Ok frame :: rest => SNext (frames ++ [frame]) (SSuspended terminal rest)
  end.

Section Stream.
Context (completion_id : string) (created : Z) (model : string) (include_usage : bool).

Definition content_chunk (t : text) : json :=
  chat_completion_chunk_json completion_id created model [("content", JStr (str t))] None.
Definition role_chunk : json :=
  chat_completion_chunk_json completion_id created model [("role", JStr "assistant")] None.
Definition final_chunk (t : GatewayTerminal) : json :=
  chat_completion_chunk_json completion_id created model [] (Some (openai_finish_reason (gt_finish_reason t))).
Definition usage_chunk (t : GatewayTerminal) : json :=
  usage_chunk_json completion_id created model (gt_usage t).
Definition failure_chunk (t : GatewayTerminal) : json :=
  error_json (gateway_error_from_status (gt_status t)).

Definition sse (v : json) : result gexn bytes := other (encode_sse v).

(** What is yielded after a Terminal. *)
Definition terminal_frames (t : GatewayTerminal) : list (result gexn bytes) :=
  if status_ok (gt_status t)
  then [sse (final_chunk t)] ++ (if include_usage then [sse (usage_chunk t)] else []) ++ [Ok done_frame]
  else [sse (failure_chunk t); Ok done_frame].

(** What the generator does when it is resumed or an await of its loop gives
    something; a suspended generator gets no awaits and a waiting one is not
    resumed. *)
Definition stream_step (frames : list bytes) (phase : stream_phase) (s : signal) : stream_next :=
  match phase, s with
  | SSuspended terminal rest, Resume => yield_values frames terminal rest
  | SSuspended terminal _, Await WCancelled => SEnd (leave frames (completed terminal) (Raised None))
  | SLooping, Await w =>
      match w with
      | WDisconnected => SEnd (leave frames false (Returned tt))
      | WTimeout => SNext frames SLooping
      | WEvent (GTextDelta t) => yield_values frames None [sse (content_chunk t)]
      | WEvent (GTerminal t) => yield_values frames (Some t) (terminal_frames t)
      | WRaise e => SEnd (leave frames false (Raised (Some e)))
      | WCancelled => SEnd (leave frames false (Raised None))
      end
  | _, _ => SEnd (frames, Waiting, [])
  end.

(** The first thing it does. *)
Definition stream_start : stream_next := yield_values [] None [sse role_chunk].

Fixpoint stream_rounds (next : stream_next) (signals : list signal) : stream_state :=
  match next with
  | SEnd st => st
  | SNext frames phase =>
      match signals with
      | [] => (frames, Waiting, [])
      | s :: signals => stream_rounds (stream_step frames phase s) signals
      end
  end.

Definition _stream_chat_completion (signals : list signal) : stream_state :=
  stream_rounds stream_start signals.

End Stream.
