(* ===== verification/ApiFacts.v ===== *)
(** What the HTTP layer guarantees: bodies are bounded, a loaded configuration
    builds, a session is detached exactly when its end was not delivered, and a
    client that reads the stream gets the text. *)
From Stdlib Require Import ZArith Lia Ascii String SpecFloat.
From stdpp Require Import base list strings gmap.
From S2P Require Import Prelude PyFloat Json JsonFacts Protocol ProtocolFacts ProtocolWire.
From S2P Require Import Framing EventBuffer Threads Client GatewayBase OpenAI OpenAIFacts.
From S2P Require Import TokenizerModel Config Metrics Gateway Api.
Local Open Scope Z_scope.

(** ** Building *)

Lemma client_config_valid c : config_wf c -> gc_socket_path c <> "" -> _validate_config (client_config_of c) = Ok tt.
Proof.
  intros [_ _ _ _ Hs Hz _] Hp. unfold _validate_config, client_config_of. cbn.
  rewrite bool_decide_false by done. repeat (apply Forall_cons in Hs as [[? ?] Hs]).
  repeat (apply Forall_cons in Hz as [? Hz]).
  repeat match goal with H : fleb _ _ = false |- _ => rewrite H; clear H end. cbn.
  rewrite raise_if_no; [done|]. rewrite !orb_false_iff. change DEFAULT_MAX_FRAME_PAYLOAD_BYTES with 1048576. lia.
Qed.

Lemma options_valid c : config_wf c -> check_options (options_of c) = Ok tt.
Proof.
  intros [_ _ _ _ Hs Hz _]. unfold check_options, options_of. cbn.
  repeat (apply Forall_cons in Hs as [[? ?] Hs]). repeat (apply Forall_cons in Hz as [? Hz]).
  repeat match goal with H : isfinite _ = true |- _ => rewrite H; clear H end.
  repeat match goal with H : fleb _ _ = false |- _ => rewrite H; clear H end. cbn.
  by rewrite !raise_if_no by (rewrite ?orb_false_iff; lia).
Qed.

(** ** Bodies *)

Lemma read_chunks_spec body chunks max : Z.of_nat (List.length body) <= max ->
  read_chunks body chunks max =
  if max <? Z.of_nat (List.length (body ++ concat chunks)) then Err too_large else Ok (body ++ concat chunks).
Proof.
  revert body. induction chunks as [|c rest IH]; intros body Hb; cbn [read_chunks concat].
  - rewrite app_nil_r. by destruct (Z.ltb_spec max (Z.of_nat (List.length body))); [lia|].
  - rewrite <-Nat2Z.inj_add, <-length_app.
    destruct (Z.ltb_spec max (Z.of_nat (List.length (body ++ c)))) as [H|H].
    + destruct (Z.ltb_spec max (Z.of_nat (List.length (body ++ c ++ concat rest)))); [done|].
      rewrite !length_app in *. lia.
    + rewrite IH, <-app_assoc by done. done.
Qed.

Lemma only_bad_parse_body big b : only_bad big (parse_body b).
Proof.
  unfold parse_body. intros x H. left. repeat case_in H; try done; by injection H as <-.
Qed.

(** ** The non-streaming answer *)

(** Rounds that deliver these texts and nothing else. *)
Inductive delivered : list text -> list wait -> Prop :=
| delivered_nil : delivered [] []
| delivered_timeout ts ws : delivered ts ws -> delivered ts (WTimeout :: ws)
| delivered_delta t ts ws : delivered ts ws -> delivered (t :: ts) (WEvent (GTextDelta t) :: ws).

Lemma collect_delivered chunks ws p ds : collect_rounds chunks ws = (p, ds) ->
  match p with
  | Waiting => ds = []
  | Returned (t, terminal) => ds = [] /\ exists ts ws1 ws2,
      ws = ws1 ++ WEvent (GTerminal terminal) :: ws2 /\ delivered ts ws1 /\ t = concat (chunks ++ ts)
  | Raised _ => ds = ["http_disconnect"]
  end.
Proof.
  revert chunks. induction ws as [|[| |[t|t]|e|] ws IH]; intros chunks H; simpl in H.
  - by injection H as <- <-.
  - by injection H as <- <-.
  - apply IH in H. destruct p as [|[t terminal]|e]; try done.
    destruct H as (Hd & ts & ws1 & ws2 & -> & Hdel & ->). split; [done|].
    exists ts, (WTimeout :: ws1), ws2. split_and!; [done|by constructor|done].
  - apply IH in H. destruct p as [|[t' terminal]|e]; try done.
    destruct H as (Hd & ts & ws1 & ws2 & -> & Hdel & ->). split; [done|].
    exists (t :: ts), (WEvent (GTextDelta t) :: ws1), ws2.
    split_and!; [done|by constructor|by rewrite <-app_assoc].
  - injection H as <- <-. split; [done|]. exists [], [], ws.
    split_and!; [done|constructor|by rewrite app_nil_r].
  - by injection H as <- <-.
  - by injection H as <- <-.
Qed.

(** ** The stream *)

(** The generator is over. *)
Definition ended (p : progress unit) : bool := match p with Waiting => false | _ => true end.

Definition is_terminal (s : signal) : bool :=
  match s with Await (WEvent (GTerminal _)) => true | _ => false end.

(** A suspended generator has detached nothing; one that is over has detached its
    session unless it took the Terminal; [seen]: a Terminal has come. *)
Definition detach_rule (seen : bool) (st : stream_state) : Prop :=
  let '(_, p, ds) := st in
  if ended p then ds = ["http_disconnect"] \/ (ds = [] /\ seen = true) else ds = [].

Definition next_rule (seen : bool) (next : stream_next) : Prop :=
  match next with
  | SNext _ phase => completed (phase_terminal phase) = true -> seen = true
  | SEnd st => detach_rule seen st
  end.

Section StreamFacts.
Context (completion_id : string) (created : Z) (model : string) (include_usage : bool).

Abbreviation rounds := (stream_rounds completion_id created model include_usage).
Abbreviation content := (content_chunk completion_id created model).

Lemma leave_rule frames terminal p seen : (completed terminal = true -> seen = true) ->
  ended p = true -> detach_rule seen (leave frames (completed terminal) p).
Proof. intros Ht Hp. unfold leave, detach_rule. rewrite Hp. destruct (completed terminal); auto. Qed.

Lemma yield_rule frames terminal values seen : (completed terminal = true -> seen = true) ->
  next_rule seen (yield_values frames terminal values).
Proof.
  intros Ht. destruct values as [|[b|e] rest]; cbn [yield_values].
  - destruct (completed terminal) eqn:Hc; [|done]. right. auto.
  - exact Ht.
  - by apply leave_rule.
Qed.

Lemma step_rule frames phase s seen : next_rule seen (SNext frames phase) ->
  next_rule (is_terminal s || seen) (stream_step completion_id created model include_usage frames phase s).
Proof.
  cbn [next_rule]. intros H.
  assert (completed (phase_terminal phase) = true -> is_terminal s || seen = true) as H'
    by (intros Hc; rewrite H by done; apply orb_true_r).
  destruct phase as [|terminal rest], s as [[| |[t|t]|e|]|]; cbn [stream_step]; try done;
    try (by apply (leave_rule _ None)); try (by apply yield_rule); by apply leave_rule.
Qed.

Lemma stream_rounds_rule signals next seen : next_rule seen next ->
  detach_rule (existsb is_terminal signals || seen) (rounds next signals).
Proof.
  revert next seen. induction signals as [|s signals IH]; intros [frames phase|st] seen H; try done.
  - cbn [stream_rounds existsb]. rewrite (orb_comm (is_terminal s)), <-orb_assoc. by apply IH, step_rule.
  - destruct st as [[f p] ds]. cbn in *. destruct (ended p); [|done]. destruct H as [?|[? ->]]; [by left|].
    right. by rewrite orb_true_r.
Qed.

(** ** Reading the stream *)

(** Signals that deliver these texts to a consumer that takes every frame. *)
Inductive streamed : list text -> list signal -> Prop :=
| streamed_nil : streamed [] []
| streamed_timeout ts ss : streamed ts ss -> streamed ts (Await WTimeout :: ss)
| streamed_delta t ts ss : streamed ts ss -> streamed (t :: ts) (Await (WEvent (GTextDelta t)) :: Resume :: ss).

Lemma mapM_cons_Ok {A B E} (f : A -> result E B) a l bs : mapM f (a :: l) = Ok bs ->
  exists b bs', f a = Ok b /\ mapM f l = Ok bs' /\ bs = b :: bs'.
Proof.
  change (mapM f (a :: l)) with (b ← f a; bs ← mapM f l; mret (b :: bs)). intros H.
  apply bind_Ok_inv in H as (b & Hb & H). apply bind_Ok_inv in H as (bs' & Hbs & [= <-]). eauto.
Qed.

Lemma rounds_step frames phase s signals :
  rounds (SNext frames phase) (s :: signals)
  = rounds (stream_step completion_id created model include_usage frames phase s) signals.
Proof. done. Qed.

Lemma stream_rounds_texts ts ss frames fs rest : streamed ts ss ->
  mapM (fun t => sse (content t)) ts = Ok fs ->
  rounds (SNext frames SLooping) (ss ++ rest) = rounds (SNext (frames ++ fs) SLooping) rest.
Proof.
  intros H. revert frames fs. induction H as [|ts ss H IH|t ts ss H IH]; intros frames fs Hfs.
  - injection Hfs as <-. by rewrite app_nil_r.
  - by apply IH.
  - apply mapM_cons_Ok in Hfs as (b & bs & Hb & Hbs & ->).
    cbn [app stream_rounds stream_step]. rewrite Hb. cbn [yield_values stream_rounds stream_step completed].
    rewrite (IH _ bs) by done. by rewrite <-app_assoc.
Qed.

Lemma yield_values_resumed frames t values fs n : mapM id values = Ok fs -> (List.length values <= n)%nat ->
  rounds (yield_values frames (Some t) values) (replicate n Resume) = (frames ++ fs, Returned tt, []).
Proof.
  revert frames fs n. induction values as [|v values IH]; intros frames fs n Hfs Hn.
  - injection Hfs as <-. rewrite app_nil_r. by destruct n.
  - apply mapM_cons_Ok in Hfs as (b & bs & Hb & Hbs & ->). cbn [id] in Hb. subst v.
    destruct n as [|n]; simpl in Hn; [lia|]. cbn [replicate yield_values stream_rounds stream_step].
    rewrite (IH _ bs) by (done || lia). by rewrite <-app_assoc.
Qed.

End StreamFacts.

(** What a client makes of a frame: the JSON value of the event ... *)
Definition sse_data (frame : bytes) : option json :=
  match strip_prefix (chars "data: ") frame with
  | Some r => match json_loads false (take (List.length r - 2) r) with Ok v => Some v | Err _ => None end
  | None => None
  end.

Definition member (k : string) (v : json) : option json :=
  match v with JObj d => dict_get d k | _ => None end.
Definition first_item (v : json) : option json :=
  match v with JList (x :: _) => Some x | _ => None end.

(** ... and the text of its first choice. *)
Definition value_text (v : json) : option text :=
  choices ← member "choices" v; choice ← first_item choices;
  delta ← member "delta" choice; content ← member "content" delta;
  match content with JStr s => Some (chars s) | _ => None end.
Definition frame_text (frame : bytes) : option text := sse_data frame ≫= value_text.

Lemma chunk_text completion_id created model delta fr :
  value_text (chat_completion_chunk_json completion_id created model delta fr)
  = (content ← dict_get delta "content"; match content with JStr s => Some (chars s) | _ => None end).
Proof. reflexivity. Qed.

Lemma strip_prefix_app p t : strip_prefix p (p ++ t) = Some t.
Proof. induction p; simpl; [by destruct t|]. by rewrite decide_True. Qed.

Lemma sse_data_encoded v b : sse v = Ok b -> json_wf v = true -> sse_data b = Some v.
Proof.
  unfold sse, other. destruct (encode_sse v) as [b'|] eqn:He; [|done]. intros [= <-] Hwf.
  apply encode_sse_Ok in He as ->. unfold sse_data. rewrite strip_prefix_app.
  rewrite length_app. simpl. rewrite Nat.add_sub, take_app_length. by rewrite json_loads_dumps.
Qed.

(** Names and times that can be sent. *)
Definition sendable (completion_id model : string) (created : Z) : Prop :=
  utf8_valid (chars completion_id) = true /\ utf8_valid (chars model) = true /\ 0 <= created <= u64_max.

Lemma sse_sent v : json_utf8 v = true -> dumps_allowed true v = true -> exists b, sse v = Ok b.
Proof.
  intros Hu Ha. unfold sse, encode_sse, json_dumps. rewrite Ha. cbv zeta.
  rewrite utf8_valid_app; [|done|rewrite utf8_valid_app; [done|by apply dumps_utf8|done]]. by eexists.
Qed.

Lemma printable_created z : 0 <= z <= u64_max -> int_printable z = true.
Proof. intros. apply small_printable. lia. Qed.

Section Sent.
Context (completion_id model : string) (created : Z) (Hs : sendable completion_id model created).

Lemma chunk_wf delta fr : json_wf (JObj delta) = true ->
  json_wf (chat_completion_chunk_json completion_id created model delta fr) = true.
Proof.
  intros Hd. destruct Hs as (_ & _ & Hc). unfold chat_completion_chunk_json. wf_members; try done;
    [by apply printable_created|].
  cbn [json_wf forallb]. rewrite andb_true_r. change (json_wf (JObj delta)) with (json_wf (JObj delta)) in Hd.
  wf_members; try done. by destruct fr.
Qed.

Lemma chunk_sent delta fr : json_utf8 (JObj delta) = true -> dumps_allowed true (JObj delta) = true ->
  utf8_valid (chars (default "" fr)) = true ->
  exists b, sse (chat_completion_chunk_json completion_id created model delta fr) = Ok b.
Proof.
  intros Hu Ha Hf. destruct Hs as (Hi & Hm & Hc). apply sse_sent.
  - cbn [chat_completion_chunk_json json_utf8 forallb fst snd] in *. rewrite Hi, Hm, Hu.
    destruct fr as [s|]; [|reflexivity]. change (utf8_valid (chars s) = true) in Hf.
    cbn [str_or_null json_utf8]. by rewrite Hf.
  - cbn [chat_completion_chunk_json dumps_allowed forallb snd] in *. rewrite Ha, printable_created by done. by destruct fr.
Qed.

Lemma content_sent t : utf8_valid t = true -> exists b, sse (content_chunk completion_id created model t) = Ok b
  /\ frame_text b = Some t.
Proof.
  intros Ht. destruct (chunk_sent [("content", JStr (str t))] None) as [b Hb]; [|done..|].
  - cbn [json_utf8 forallb fst snd]. by rewrite chars_str, Ht.
  - exists b. split; [exact Hb|]. unfold frame_text.
    rewrite (sse_data_encoded _ _ Hb) by (apply chunk_wf; done). cbn [mbind option_bind].
    rewrite chunk_text. change (Some (chars (str t)) = Some t). by rewrite chars_str.
Qed.

Lemma no_content_text delta fr b : dict_get delta "content" = None -> json_wf (JObj delta) = true ->
  sse (chat_completion_chunk_json completion_id created model delta fr) = Ok b -> frame_text b = None.
Proof.
  intros Hd Hwf Hb. unfold frame_text. rewrite (sse_data_encoded _ _ Hb) by by apply chunk_wf.
  cbn [mbind option_bind]. by rewrite chunk_text, Hd.
Qed.

Lemma contents_sent ts : Forall (fun t => utf8_valid t = true) ts ->
  exists fs, mapM (fun t => sse (content_chunk completion_id created model t)) ts = Ok fs
    /\ omap frame_text fs = ts.
Proof.
  induction 1 as [|t ts Ht _ (fs & Hfs & Ho)]; [by exists []|].
  destruct (content_sent t Ht) as (b & Hb & Hx). exists (b :: fs). split.
  - apply mapM_Ok_Forall2. constructor; [done|]. by apply mapM_Ok_Forall2.
  - cbn. by rewrite Hx, Ho.
Qed.

End Sent.

(** ** Theorems *)

(** C32: A configuration that loads also builds: neither the client's nor the
    runtime's constructor refuses its values, so only the tokenizer, missing or
    not the manifest's, keeps the service from being built.  ([resolve] is
    pathlib's, which returns absolute paths, never the empty string.) *)
Theorem loaded_config_builds files parent resolve absolute sha256 from_pretrained directory path c :
  load files parent resolve absolute path = Ok c -> (forall base v, resolve base v <> "") ->
  build_gateway_service sha256 from_pretrained directory absolute c
  = (tokenizer ← load_tokenizer sha256 from_pretrained directory absolute (gc_tokenizer_path c);
     _ ← validate_manifest tokenizer (gc_manifest c);
     Ok (mkParts (client_config_of c) tokenizer (gc_manifest c) (options_of c))).
Proof.
  intros H Hres. apply load_wf in H as (Hwf & wp & sv & tv & Hsp & _). unfold build_gateway_service.
  rewrite client_config_valid, options_valid by (done || rewrite Hsp; apply Hres). done.
Qed.

Definition sample_backend : transformers_tokenizer :=
  mkTransformers (JInt 2) (JInt 0) (JStr "t") (fun _ => Ok (Plain (JList [JInt 1])))
    (fun _ => Ok (Plain (JList [JInt 1]))) (fun _ => Ok []).

Lemma loaded_config_builds_witness :
  build_gateway_service (fun _ => "00") (fun _ => Ok sample_backend) (fun _ => Some sample_assets)
    (fun p => p) sample_gateway_config
  = (tokenizer ← load_tokenizer (fun _ => "00") (fun _ => Ok sample_backend) (fun _ => Some sample_assets)
                   (fun p => p) (gc_tokenizer_path sample_gateway_config);
     _ ← validate_manifest tokenizer (gc_manifest sample_gateway_config);
     Ok (mkParts (client_config_of sample_gateway_config) tokenizer (gc_manifest sample_gateway_config)
           (options_of sample_gateway_config))).
Proof.
  apply (loaded_config_builds sample_files (fun _ => "/etc") sample_resolve (fun p => p) _ _ _
    "/etc/gateway.json" sample_gateway_config); [vm_compute; reflexivity|].
  intros base v. unfold sample_resolve. by destruct base.
Defined.

(** C35: [_read_bounded_body] is the whole body if it is not empty and within the
    limit, however the server splits it into chunks; the limit is enforced before
    a chunk is kept, with HTTP 413, and an empty body is HTTP 400. *)
Theorem bounded_body_exact chunks max_bytes : 0 <= max_bytes ->
  _read_bounded_body chunks max_bytes =
  let body := concat chunks in
  if max_bytes <? Z.of_nat (List.length body) then Err too_large
  else if bool_decide (body = []) then Err (invalid_json "request body must not be empty")
  else Ok body.
Proof.
  intros Hm. unfold _read_bounded_body. rewrite read_chunks_spec by (simpl; lia). cbn [app].
  cbv zeta. case_match; [done|]. cbn [mbind result_bind]. by case_bool_decide.
Qed.

Lemma bounded_body_exact_witness : _read_bounded_body [chars "{"; []; chars "}"] 2 = Ok (chars "{}").
Proof. rewrite (bounded_body_exact [chars "{"; []; chars "}"] 2); [vm_compute; reflexivity|lia]. Defined.



(** [_collect_non_streaming] returns the concatenated text of the deltas that
    came before the Terminal, together with that Terminal; it detaches the session
    exactly once when it leaves any other way, and never otherwise. *)
Theorem collect_non_streaming_exact ws :
  match _collect_non_streaming ws with
  | (Waiting, detached) => detached = []
  | (Returned (t, terminal), detached) => detached = [] /\ exists ts ws1 ws2,
      ws = ws1 ++ WEvent (GTerminal terminal) :: ws2 /\ delivered ts ws1 /\ t = concat ts
  | (Raised _, detached) => detached = ["http_disconnect"]
  end.
Proof.
  unfold _collect_non_streaming. destruct (collect_rounds [] ws) as [p ds] eqn:H.
  apply collect_delivered in H. by destruct p as [|[t tm]|e].
Qed.


(** *** A stream that is read to its end *)

Section Delivered.
Context (completion_id model : string) (created : Z) (Hs : sendable completion_id model created).

Lemma usage_sent t : 0 <= prompt_tokens (gt_usage t) <= u32_max -> 0 <= completion_tokens (gt_usage t) <= u32_max ->
  exists b, sse (usage_chunk completion_id created model t) = Ok b /\ frame_text b = None.
Proof.
  intros Hp Hc. assert (0 <= prompt_tokens (gt_usage t) + completion_tokens (gt_usage t) <= u64_max) as Hsum
    by (change u32_max with 4294967295 in *; change u64_max with 18446744073709551615; lia).
  assert (forall z, 0 <= z <= u32_max -> int_printable z = true) as Hpr
    by (intros; apply printable_created; change u32_max with 4294967295 in *;
        change u64_max with 18446744073709551615; lia).
  pose proof Hs as (Hi & Hm & Hcr).
  assert (json_wf (usage_chunk completion_id created model t) = true) as Hwf.
  { unfold usage_chunk, usage_chunk_json. wf_members; try done; [by apply printable_created|].
    unfold usage_json. wf_members; cbn [json_wf]; first [by apply Hpr | by apply printable_created | done]. }
  destruct (sse_sent (usage_chunk completion_id created model t)) as [b Hb].
  - cbn [usage_chunk usage_chunk_json usage_json json_utf8 forallb fst snd]. by rewrite Hi, Hm.
  - cbn [usage_chunk usage_chunk_json usage_json dumps_allowed forallb snd].
    by rewrite (printable_created created), (Hpr (prompt_tokens _)), (Hpr (completion_tokens _)),
      (printable_created (_ + _)) by done.
  - exists b. split; [done|]. unfold frame_text. by rewrite (sse_data_encoded _ _ Hb Hwf).
Qed.

Lemma terminal_sent include_usage t : status_ok (gt_status t) = true ->
  0 <= prompt_tokens (gt_usage t) <= u32_max -> 0 <= completion_tokens (gt_usage t) <= u32_max ->
  exists fs, mapM id (terminal_frames completion_id created model include_usage t) = Ok (fs ++ [done_frame])
    /\ omap frame_text (fs ++ [done_frame]) = [].
Proof.
  intros Hok Hp Hc. assert (frame_text done_frame = None) as Hdone by (vm_compute; reflexivity).
  destruct (chunk_sent _ _ _ Hs [] (Some (openai_finish_reason (gt_finish_reason t)))) as [b Hb]; [done..| |].
  { unfold openai_finish_reason. by case_bool_decide. }
  assert (frame_text b = None) as Hbt.
  { eapply (no_content_text _ _ _ Hs); [| |exact Hb]; done. }
  unfold terminal_frames. rewrite Hok. fold (final_chunk completion_id created model t) in Hb.
  destruct (usage_sent t Hp Hc) as (u & Hu & Hut). destruct include_usage.
  - exists [b; u]. rewrite Hb, Hu. split; [done|]. cbn [omap list_omap app]. by rewrite Hbt, Hut, Hdone.
  - exists [b]. rewrite Hb. split; [done|]. cbn [omap list_omap app]. by rewrite Hbt, Hdone.
Qed.

End Delivered.


Definition streamed_terminal : GatewayTerminal :=
  mkGatewayTerminal (mkStatus "ok" "") (Some "length") (mkUsage 3 2).

