(* ===== verification/CommandLine.v ===== *)
(** The command line (gateway/python/kim_llm_gateway/__main__.py): [serve], which
    runs the application of [System] for a configuration, and [inspect-tokenizer],
    which prints what a Worker's manifest has to say of the tokenizer.

    argparse, the import system and uvicorn are parameters: what the arguments parse
    to, which packages are there, and that the server runs the application it is
    given. *)
From Stdlib Require Import ZArith Lia Ascii String SpecFloat.
From stdpp Require Import base list strings gmap.
From S2P Require Import Prelude PyFloat Json JsonFacts Protocol Framing GatewayBase OpenAI OpenAIFacts.
From S2P Require Import TokenizerModel Config Metrics Gateway Api ApiFacts.
Local Open Scope Z_scope.

(** ** [json.dumps(value, ensure_ascii=False, indent=2)] of a dict of scalars *)

Definition line_break : text := newline :: chars "  ".
Definition indented_member (kv : string * json) : text := quote kv.1 ++ chars ": " ++ dumps_text kv.2.

Definition dumps_indented (d : list (string * json)) : option text :=
  if dumps_allowed true (JObj d) then
    Some (match d with
          | [] => chars "{}"
          | _ => "{"%char :: line_break ++ intersperse (","%char :: line_break) (map indented_member d)
                 ++ [newline; "}"%char]
          end)
  else None.

(** ** [main] *)

(** The arguments, as the parser of [_parser] gives them. *)
Inductive command :=
| Serve (config : string)
| InspectTokenizer (tokenizer_path : string).

Inductive main_exn :=
| MainConfig (e : config_exn)
| MainGateway (e : gexn)
| MainRuntime (e : exn).

(** What [uvicorn.run] is called with: the application of a configuration, and
    where it listens. *)
Record server := mkServer {
  sv_app : GatewayConfig;
  sv_host : string;
  sv_port : Z;
  sv_log_level : string;
  sv_workers : Z }.

Inductive outcome :=
| Printed (t : text)
| Served (s : server).

Section Main.
Context (installed : string -> bool) (sha256 : text -> string).
Context (from_pretrained : string -> result library_failure transformers_tokenizer)
  (directory : string -> option (string -> option text)).
Context (files : string -> option text) (parent : string -> string)
  (resolve : string -> string -> string) (absolute : string -> string).

(** What [inspect-tokenizer] prints of a tokenizer. *)
Definition tokenizer_members (h : HuggingFaceTokenizer) : list (string * json) :=
  [("tokenizer_fingerprint", JStr (hf_tokenizer_fingerprint h));
   ("chat_template_fingerprint", JStr (hf_chat_template_fingerprint h));
   ("eos_token_id", JInt (hf_eos_token_id h));
   ("pad_token_id", JInt (hf_pad_token_id h))].

Definition inspect_tokenizer (tokenizer_path : string) : result main_exn text :=
  match load_tokenizer sha256 from_pretrained directory absolute tokenizer_path with
  | Err e => Err (MainGateway e)
  | Ok h =>
      match dumps_indented (tokenizer_members h) with
      | Some t => Ok t
      | None => Err (MainRuntime (ValueError "Exceeds the limit (4300 digits) for integer string conversion"))
      end
  end.

(** [create_app] up to the application object. *)
Definition create_app (c : GatewayConfig) : result main_exn GatewayConfig :=
  _ ← raise_if (negb (installed "fastapi"))
        (MainRuntime (RuntimeError "FastAPI is required to create the Gateway application"));
  Ok c.

Definition serve (config_path : string) : result main_exn server :=
  match load files parent resolve absolute config_path with
  | Err e => Err (MainConfig e)
  | Ok c =>
      _ ← raise_if (negb (installed "uvicorn"))
            (MainRuntime (RuntimeError "uvicorn is required to serve the Gateway"));
      app ← create_app c;
      Ok (mkServer app (gc_host c) (gc_port c) (gc_log_level c) 1)
  end.

(** The exit status and what was done. *)
Definition main (args : command) : result main_exn (Z * outcome) :=
  match args with
  | InspectTokenizer tokenizer_path =>
      text ← inspect_tokenizer tokenizer_path;
      Ok (0, Printed (text ++ [newline]))
  | Serve config_path =>
      s ← serve config_path;
      Ok (0, Served s)
  end.

End Main.

(** ** Reading an indented dict *)

Lemma skip_ws_break t rest : value_start t -> skip_ws (line_break ++ t ++ rest) = t ++ rest.
Proof. intros Hs. change (skip_ws (t ++ rest) = t ++ rest). by apply skip_ws_start. Qed.

Lemma members_start d : d <> [] ->
  value_start (intersperse (","%char :: line_break) (map indented_member d)).
Proof. destruct d as [|kv d]; [done|]. intros _. exists dquote. destruct d; eexists; (split; [reflexivity|by repeat split]). Qed.

(** A member whose value can be followed by [tail]. *)
Lemma parse_indented_member reject k v tail f : json_wf v = true -> delim tail ->
  (List.length (dumps_text v) < f)%nat ->
  parse_members reject (S f) (indented_member (k, v) ++ tail)
  = match eat "}" (skip_ws tail) with
    | Some r => Ok ([(k, v)], r)
    | None => match eat "," (skip_ws tail) with
              | None => Err JSONDecodeError
              | Some t5 => '(ms, r) ← parse_members reject f (skip_ws t5); Ok ((k, v) :: ms, r)
              end
    end.
Proof.
  intros Hwf Htail Hf. unfold indented_member. cbn [fst snd].
  rewrite <-!app_assoc, quote_app. cbn [parse_members].
  change (char_code dquote =? 34) with true. cbv iota.
  rewrite scan_string_escapes, str_chars.
  change (eat ":" (skip_ws (chars ": " ++ dumps_text v ++ tail))) with (Some (" "%char :: dumps_text v ++ tail)).
  cbv iota. change (skip_ws (" "%char :: dumps_text v ++ tail)) with (skip_ws (dumps_text v ++ tail)).
  rewrite skip_ws_start by by apply dumps_start. by rewrite (reads_back_wf reject v Hwf).
Qed.

Lemma parse_indented_members reject d rest : d <> [] -> Forall (fun kv => json_wf kv.2 = true) d ->
  forall f, (S (List.length (intersperse (","%char :: line_break) (map indented_member d))) < f)%nat ->
  parse_members reject f (intersperse (","%char :: line_break) (map indented_member d) ++ newline :: "}"%char :: rest)
  = Ok (d, rest).
Proof.
  intros Hne Hall. induction Hall as [|[k v] d Hwf Hall IH]; [done|]. cbn in Hwf. intros [|f] Hf; [lia|].
  assert (List.length (dumps_text v) <= List.length (indented_member (k, v)))%nat as Hlen
    by (unfold indented_member; rewrite !length_app; cbn [snd]; lia).
  destruct d as [|kv d].
  - cbn [map intersperse] in *. rewrite parse_indented_member by first [done | lia | by simpl; auto]. done.
  - change (intersperse (","%char :: line_break) (map indented_member ((k, v) :: kv :: d))) with
      (indented_member (k, v) ++ (","%char :: line_break)
       ++ intersperse (","%char :: line_break) (map indented_member (kv :: d))) in *.
    rewrite !length_app in Hf. cbn [List.length line_break] in Hf.
    rewrite <-!app_assoc, parse_indented_member by first [done | lia | by simpl; auto].
    rewrite <-app_comm_cons.
    match goal with |- context [eat "," (skip_ws (_ :: ?x))] =>
      change (eat "}" (skip_ws (","%char :: x))) with (@None text);
      change (eat "," (skip_ws (","%char :: x))) with (Some x) end.
    cbv iota. rewrite skip_ws_break by by apply members_start. rewrite IH by (done || lia). done.
Qed.

(** What [print] writes, which ends the line. *)
Lemma json_loads_indented reject d t : d <> [] -> json_wf (JObj d) = true ->
  dumps_indented d = Some t -> json_loads reject (t ++ [newline]) = Ok (JObj d).
Proof.
  intros Hne Hwf Ht. unfold dumps_indented in Ht. case_match; [|done]. apply (inj Some) in Ht as <-.
  cbn [json_wf] in Hwf. apply andb_true_iff in Hwf as [Hnd%bool_decide_eq_true Hm].
  assert (Forall (fun kv => json_wf kv.2 = true) d) as Hall.
  { apply Forall_forall. intros kv Hkv. rewrite forallb_forall in Hm. by apply Hm, list_elem_of_In. }
  destruct d as [|kv d]; [done|]. unfold json_loads.
  set (ms := intersperse (","%char :: line_break) (map indented_member (kv :: d))).
  change (("{"%char :: line_break ++ ms ++ [newline; "}"%char]) ++ [newline])
    with ("{"%char :: line_break ++ (ms ++ [newline; "}"%char]) ++ [newline]).
  rewrite <-(app_assoc ms). change ([newline; "}"%char] ++ [newline]) with [newline; "}"%char; newline].
  change (skip_ws ("{"%char :: line_break ++ ms ++ [newline; "}"%char; newline]))
    with ("{"%char :: line_break ++ ms ++ [newline; "}"%char; newline]).
  cbn [parse_value]. change (char_code "{"%char =? 34) with false. cbv iota.
  rewrite decide_True by done.
  rewrite skip_ws_break by by apply members_start.
  rewrite eat_start_app by (try apply members_start; auto).
  unfold ms. rewrite parse_indented_members; [|done|done|].
  - cbn [mbind result_bind]. by rewrite dict_of_pairs_nodup.
  - fold ms. cbn [List.length]. rewrite !length_app. cbn. lia.
Qed.

(** ** What an operator can rely on *)

(** The manifest says of the tokenizer what [inspect-tokenizer] prints. *)
Definition manifest_has (m : ModelManifest) (members : list (string * json)) : Prop :=
  dict_get members "tokenizer_fingerprint" = Some (JStr (tokenizer_fingerprint m))
  /\ dict_get members "chat_template_fingerprint" = Some (JStr (chat_template_fingerprint m))
  /\ dict_get members "eos_token_id" = Some (JInt (eos_token_id m))
  /\ dict_get members "pad_token_id" = Some (JInt (pad_token_id m)).

Lemma mismatch_nil {A} `{EqDecision A} (repr : A -> string) name (a b : A) : mismatch repr name a b = [] <-> a = b.
Proof. unfold mismatch. by case_bool_decide. Qed.

Lemma validate_manifest_ok h m :
  is_ok (validate_manifest h m) = true <-> manifest_has m (tokenizer_members h).
Proof.
  assert (is_ok (validate_manifest h m) = true <-> mismatches h m = []) as ->
    by (unfold validate_manifest; by case_bool_decide).
  unfold mismatches. rewrite !app_nil, !mismatch_nil. unfold manifest_has, tokenizer_members. cbn [dict_get].
  split; [by intros (-> & -> & -> & ->)|]. by intros ([= ->] & [= ->] & [= ->] & [= ->]).
Qed.

Section Inspect.
Context (installed : string -> bool) (sha256 : text -> string).
Context (from_pretrained : string -> result library_failure transformers_tokenizer)
  (directory : string -> option (string -> option text)).
Context (files : string -> option text) (parent : string -> string)
  (resolve : string -> string -> string) (absolute : string -> string).

(** C40: [inspect-tokenizer] prints what the Gateway will check: whatever it prints
    reads back as a JSON object, and the service of a configuration that loads and
    names this tokenizer can be built if and only if the manifest has the printed
    values.  ([resolve] is pathlib's, which returns absolute paths, never the empty
    string.) *)
Theorem inspect_tokenizer_decides path t config_path c :
  main installed sha256 from_pretrained directory files parent resolve absolute (InspectTokenizer path)
    = Ok (0, Printed t) ->
  load files parent resolve absolute config_path = Ok c -> gc_tokenizer_path c = path ->
  (forall base v, resolve base v <> "") ->
  exists members, json_loads false t = Ok (JObj members)
    /\ (is_ok (build_gateway_service sha256 from_pretrained directory absolute c) = true
        <-> manifest_has (gc_manifest c) members).
Proof.
  cbn [main]. unfold inspect_tokenizer.
  destruct (load_tokenizer sha256 from_pretrained directory absolute path) as [h|e] eqn:Hh; [|done].
  destruct (dumps_indented (tokenizer_members h)) as [text|] eqn:Hd; [|done].
  intros [= <-] Hload <- Hres. exists (tokenizer_members h). split.
  - apply json_loads_indented; [done| |done]. unfold dumps_indented in Hd. case_match; [|done].
    cbn in *. split_bools. by repeat (apply andb_true_iff; split).
  - apply load_wf in Hload as (Hwf & wp & sv & tv & Hsp & _). unfold build_gateway_service.
    rewrite Hh, client_config_valid, options_valid by (done || rewrite Hsp; apply Hres).
    rewrite <-validate_manifest_ok. cbn [mbind result_bind other].
    by destruct (validate_manifest h (gc_manifest c)).
Qed.

End Inspect.

Definition inspect_sample : result main_exn (Z * outcome) :=
  main (fun _ => true) (fun _ => "00") (fun _ => Ok sample_backend) (fun _ => Some sample_assets)
    sample_files (fun _ => "/etc") sample_resolve (fun p => p) (InspectTokenizer (gc_tokenizer_path sample_gateway_config)).
Definition inspect_sample_text : text :=
  match inspect_sample with Ok (_, Printed t) => t | _ => [] end.

(** The manifest of the sample configuration was not made for this tokenizer. *)
Lemma inspect_tokenizer_decides_witness :
  exists members, json_loads false inspect_sample_text = Ok (JObj members)
    /\ (is_ok (build_gateway_service (fun _ => "00") (fun _ => Ok sample_backend) (fun _ => Some sample_assets)
                 (fun p => p) sample_gateway_config) = true
        <-> manifest_has (gc_manifest sample_gateway_config) members).
Proof.
  apply (inspect_tokenizer_decides (fun _ => true) (fun _ => "00") (fun _ => Ok sample_backend)
    (fun _ => Some sample_assets) sample_files (fun _ => "/etc") sample_resolve (fun p => p)
    (gc_tokenizer_path sample_gateway_config) inspect_sample_text "/etc/gateway.json");
    [vm_compute; reflexivity|vm_compute; reflexivity|reflexivity|].
  intros base v. unfold sample_resolve. by destruct base.
Defined.
