(* ===== verification/System.v ===== *)
(** The application (create_app in gateway/python/kim_llm_gateway/api.py): the
    endpoints and the lifespan as coroutines that share the service with the pumps
    and drains of [Gateway], the two ways of delivering a completion among them,
    and everything that can happen to the process.

    A request starts as a coroutine without a name; a completion it has submitted
    is delivered by the same coroutine, under the name of the delivery. *)
From Stdlib Require Import ZArith Lia Ascii String SpecFloat.
From stdpp Require Import base list strings gmap relations.
From S2P Require Import Prelude PyFloat Json Protocol Threads GatewayBase OpenAI Config Metrics.
From S2P Require Import Gateway Api.
Local Open Scope Z_scope.

Section System.
Context `{T : Tokenizer}.
Context (manifest : ModelManifest) (options : GatewayRuntimeOptions) (max_http_body_bytes : Z).

(** ** What the application keeps *)

Definition set_startup_error (error : option string) (w : gworld) : gworld :=
  set_app (mkApplication (has_service (g_app w)) error) w.
Definition set_service_built (w : gworld) : gworld :=
  set_app (mkApplication true (startup_error (g_app w))) w.

Definition note_startup_error (error : gworld -> option string) : gprog unit :=
  region (fun w => (set_startup_error (error w) w, Ok tt)).

Definition require_service : gprog unit :=
  region (fun w => (w, if has_service (g_app w) then Ok tt
                       else Err (GatewayRaise (unavailable_error (startup_error (g_app w)))))).

Definition find_service : gprog bool := region (fun w => (w, Ok (has_service (g_app w)))).

(** [except GatewayError as exception: return error_response(exception)]. *)
Definition or_error_response (p : gprog gvalue) : gprog gvalue :=
  ptry p (fun e => match e with
                   | GatewayRaise ge => greturn (GVResponse (error_response ge))
                   | _ => graise e
                   end).

(** ** [lifespan] *)

(** Up to its [yield]; [built] is what [build_gateway_service] gives. *)
Definition lifespan_startup (built : result gexn unit) : gprog gvalue :=
  ptry (service <- find_service;;
        (if (service : bool) then greturn tt
         else Done built;;; region (fun w => (set_service_built w, Ok tt)));;;
        started <- start;;
        (if (started : bool) then note_startup_error (fun _ => None)
         else note_startup_error g_last_readiness_error);;;
        greturn GVUnit)
    (fun e => note_startup_error (fun _ => Some (gexn_str e));;; greturn GVUnit).

Definition lifespan_shutdown : gprog gvalue :=
  service <- find_service;;
  if (service : bool) then stop else greturn GVUnit.

(** ** The endpoints other than completions *)

Definition healthz : gprog gvalue := greturn (GVResponse health_response).

Definition readyz : gprog gvalue :=
  ptry (require_service;;;
        stats <- check_readiness;;
        note_startup_error (fun _ => None);;;
        connected <- ask_bool;;
        greturn (GVResponse (ready_response manifest connected stats)))
    (fun e => match e with
              | GatewayRaise ge =>
                  note_startup_error (fun _ => Some (ge_message ge));;;
                  greturn (GVResponse (not_ready_response ge))
              | _ => graise e
              end).

Definition metrics : gprog gvalue :=
  service <- find_service;;
  if (service : bool) then
    worker_stats <- collect_worker_stats;;
    text <- render_metrics worker_stats;;
    greturn (GVText text)
  else greturn (GVText unavailable_metrics).

Definition models : gprog gvalue :=
  or_error_response (require_service;;; greturn (GVResponse (models_response manifest))).

(** ** Delivering a completion *)

(** What [next_event] gave. *)
Definition event_wait (r : result gexn GatewayEvent) : wait :=
  match r with
  | Ok e => WEvent e
  | Err (OtherExn (TimeoutError _)) => WTimeout
  | Err e => WRaise e
  end.

(** One round of awaits: [is_disconnected] and [next_event] with a timeout; the
    task may be cancelled in either. *)
Definition await_round (s : nat) : gprog wait :=
  Ask (fun a =>
    match a with
    | RCancelled => greturn WCancelled
    | RBool (Ok true) => greturn WDisconnected
    | RBool (Ok false) =>
        Ask (fun a => match a with
                      | RCancelled => greturn WCancelled
                      | _ => pseq (gnext_event s true) (fun r => greturn (event_wait r))
                      end)
    | RBool (Err e) => greturn (WRaise (OtherExn e))
    | _ => greturn (WRaise (OtherExn (RuntimeError "")))
    end).

Definition detach_all (s : nat) (reasons : list string) : gprog unit :=
  pfor reasons (fun reason => detach_cancel_and_drain s reason).

(** What the coroutine comes to when it is over. *)
Definition finish {A} (p : progress A) (value : A -> gvalue) : gprog gvalue :=
  match p with
  | Waiting => greturn GVUnit
  | Returned a => greturn (value a)
  | Raised None => greturn GVCancelled
  | Raised (Some e) => graise e
  end.

(** A round of [_collect_non_streaming] and, after the last, the rest of the
    endpoint. *)
Definition collect_round (d : delivery) (chunks : list text) : gprog gvalue :=
  w <- await_round (dl_session d);;
  match collect_step chunks w with
  | inl chunks => greturn (GVNext (TaskCollect d chunks))
  | inr (p, detached) =>
      detach_all (dl_session d) detached;;;
      finish (complete_response (dl_completion_id d) (dl_created d) (dl_model d) p) GVResponse
  end.

(** [_stream_chat_completion] between two suspensions. *)
Definition stream_go (d : delivery) (taken : list text) (next : stream_next) : gprog gvalue :=
  match next with
  | SNext frames phase => greturn (GVNext (TaskStream d taken frames phase))
  | SEnd (_, p, detached) =>
      detach_all (dl_session d) detached;;;
      finish p (fun _ => GVUnit)
  end.

Definition stream_signal (s : nat) (phase : stream_phase) : gprog signal :=
  match phase with
  | SLooping => w <- await_round s;; greturn (Await w)
  | SSuspended _ _ => Ask (fun a => greturn (match a with RCancelled => Await WCancelled | _ => Resume end))
  end.

Definition note_signal (taken : list text) (sig : signal) : list text :=
  match sig with Await (WEvent (GTextDelta t)) => taken ++ [t] | _ => taken end.

Definition stream_round (d : delivery) (taken : list text) (frames : list bytes) (phase : stream_phase)
  : gprog gvalue :=
  sig <- stream_signal (dl_session d) phase;;
  stream_go d (note_signal taken sig)
    (stream_step (dl_completion_id d) (dl_created d) (dl_model d) (dl_include_usage d) frames phase sig).

(** *** [POST /v1/chat/completions] *)

(** The first [try]: the command and its session, or the answer to an error. *)
Definition accept_completion (chunks : list bytes) (completion_id : string)
  : gprog (ChatCompletionCommand * nat + response) :=
  ptry (require_service;;;
        command <- Done (read_command chunks max_http_body_bytes manifest);;
        session <- submit manifest options (to_gateway_request command completion_id);;
        greturn (inl (command, session)))
    (fun e => match e with GatewayRaise ge => greturn (inr (error_response ge)) | _ => graise e end).

(** [chunks] is the body as the server delivers it; [completion_id] and [created]
    come from [uuid] and [time].  The generator of a [StreamingResponse] runs when
    the server asks it for the first frame. *)
Definition chat_completions (chunks : list bytes) (completion_id : string) (created : Z) : gprog gvalue :=
  accepted <- accept_completion chunks completion_id;;
  match accepted with
  | inr r => greturn (GVResponse r)
  | inl (command, s) =>
      let d := mkDelivery s completion_id created (cc_model command) (cc_include_usage command) in
      if negb (cc_stream command) then greturn (GVNext (TaskCollect d []))
      else Ask (fun a => match a with
                         | RCancelled => greturn (GVNeverStarted s)
                         | _ => stream_go d [] (stream_start completion_id created (cc_model command))
                         end)
  end.

(** ** The system *)

Definition task_prog (k : gtask) : gprog gvalue :=
  match k with
  | TaskPump s => _pump s
  | TaskDrain task s => drain_task task s
  | TaskDetach task s reason => detach_task task s reason
  | TaskCollect d chunks => collect_round d chunks
  | TaskStream d taken frames phase => stream_round d taken frames phase
  end.

Definition goes_on (_ : option gtask) (v : gvalue) : option gtask :=
  match v with GVNext k => Some k | _ => None end.

(** What the server calls. *)
Inductive gcall :=
| CStartup (built : result gexn unit)
| CHealthz
| CReadyz
| CMetrics
| CModels
| CChatCompletions (chunks : list bytes) (completion_id : string) (created : Z)
| CShutdown.

Definition call_prog (c : gcall) : gprog gvalue :=
  match c with
  | CStartup built => lifespan_startup built
  | CHealthz => healthz
  | CReadyz => readyz
  | CMetrics => metrics
  | CModels => models
  | CChatCompletions chunks completion_id created => chat_completions chunks completion_id created
  | CShutdown => lifespan_shutdown
  end.

Abbreviation gthread := (option gtask * gprog gvalue)%type.
Definition gconfig : Type := gworld * list gthread.

(** Any coroutine moves, or the server calls, any time. *)
Inductive gateway_step : gconfig -> gconfig -> Prop :=
| gateway_internal c c' : step task_prog goes_on c c' -> gateway_step c c'
| gateway_call w ts cl : gateway_step (w, ts) (w, ts ++ [(None, call_prog cl)]).

(** The allocator starts at [secrets.randbits(62) + 1]. *)
Definition greachable (first_id : Z) (c : gconfig) : Prop :=
  1 <= first_id <= Z.shiftl 1 62 /\ rtc gateway_step (init_gworld first_id, []) c.

End System.
