(* ===== verification/GatewayInv.v ===== *)
(** The invariant of the Gateway under any interleaving of HTTP handlers,
    pumps, drains and shutdown, and how each atomic region keeps it. *)
From Stdlib Require Import ZArith Lia Ascii String SpecFloat.
From stdpp Require Import base list numbers strings gmap.
From S2P Require Import Prelude PyFloat Json JsonFacts Protocol ProtocolFacts ProtocolWire Threads.
From S2P Require Import GatewayBase OpenAI OpenAIFacts Metrics Gateway.
Local Open Scope Z_scope.

(** What other coroutines may be waiting for: the cancel lock of a session, the
    connection lock, the end of a detached drain and of a gathered one. *)
Inductive ghold :=
| HCancel (s : nat)
| HConn
| HTask (task : nat)
| HDrain (task : nat).

(** Tokens: the pump of a session that has not ended; the one who takes the
    events of a session, with the texts taken so far, while the session is
    delivered, once it is given to a drain, and once the Terminal was taken; a
    submission that is neither accepted nor rejected; a request id that has no
    session yet; and what others may wait for. *)
Inductive gtoken :=
| TPump (s : nat)
| TReader (s : nat) (taken : list text)
| TDetach (s : nat)
| TDone (s : nat) (taken : list text) (t : GatewayTerminal)
| TOffer
| TId (rid : Z)
| THold (h : ghold).

#[global] Instance ghold_eq_dec : EqDecision ghold.
Proof. solve_decision. Defined.
#[global] Instance gtoken_eq_dec : EqDecision gtoken.
Proof. solve_decision. Defined.

Definition pumps (G : list gtoken) : list nat :=
  omap (fun g => match g with TPump s => Some s | _ => None end) G.
Definition readers (G : list gtoken) : list nat :=
  omap (fun g => match g with TReader s _ | TDetach s | TDone s _ _ => Some s | _ => None end) G.
Definition offers (G : list gtoken) : list unit :=
  omap (fun g => match g with TOffer => Some tt | _ => None end) G.
Definition tids (G : list gtoken) : list Z :=
  omap (fun g => match g with TId rid => Some rid | _ => None end) G.
Definition gholds (G : list gtoken) : list ghold :=
  omap (fun g => match g with THold h => Some h | _ => None end) G.

#[global] Instance pumps_perm : Proper ((≡ₚ) ==> (≡ₚ)) pumps.
Proof. intros G G' H. unfold pumps. by rewrite H. Qed.
#[global] Instance readers_perm : Proper ((≡ₚ) ==> (≡ₚ)) readers.
Proof. intros G G' H. unfold readers. by rewrite H. Qed.
#[global] Instance offers_perm : Proper ((≡ₚ) ==> (≡ₚ)) offers.
Proof. intros G G' H. unfold offers. by rewrite H. Qed.
#[global] Instance tids_perm : Proper ((≡ₚ) ==> (≡ₚ)) tids.
Proof. intros G G' H. unfold tids. by rewrite H. Qed.

#[global] Instance gholds_perm : Proper ((≡ₚ) ==> (≡ₚ)) gholds.
Proof. intros G G' H. unfold gholds. by rewrite H. Qed.

Lemma pumps_spec G s : s ∈ pumps G <-> TPump s ∈ G.
Proof.
  unfold pumps. rewrite list_elem_of_omap. split.
  - intros (g & Hg & H). destruct g; simplify_eq. done.
  - intros H. by exists (TPump s).
Qed.

Lemma readers_app G G' : readers (G ++ G') = readers G ++ readers G'.
Proof. apply omap_app. Qed.

(** The tokens that speak of the session [s]. *)
Definition about (s : nat) (g : gtoken) : bool :=
  match g with
  | TPump s' | TReader s' _ | TDetach s' | TDone s' _ _ => bool_decide (s' = s)
  | _ => false
  end.

Lemma readers_about G s g : g ∈ G -> about s g = true -> g <> TPump s -> s ∈ readers G.
Proof.
  intros Hg Ha Hp. unfold readers. rewrite list_elem_of_omap. exists g. split; [done|].
  by destruct g; simpl in *; try apply bool_decide_eq_true in Ha as ->.
Qed.

(** [G'] has the tokens of [G] but for those that speak of [s]. *)
Definition same_but (s : nat) (G G' : list gtoken) : Prop :=
  forall s' g, s' <> s -> about s' g = true -> (g ∈ G' <-> g ∈ G).

Lemma same_but_refl s G : same_but s G G.
Proof. by intros s' g. Qed.

Lemma same_but_cons s g g' G : (forall s', s' <> s -> about s' g = false /\ about s' g' = false) ->
  same_but s (g :: G) (g' :: G).
Proof.
  intros H s' g0 Hs Ha. destruct (H s' Hs) as [H1 H2].
  rewrite !elem_of_cons. split; (intros [->|?]; [congruence|by right]).
Qed.

Lemma same_but_drop s g G : (forall s', s' <> s -> about s' g = false) -> same_but s (g :: G) G.
Proof.
  intros H s' g0 Hs Ha. specialize (H s' Hs). rewrite elem_of_cons.
  split; [by right|]. intros [->|?]; [congruence|done].
Qed.

(** A change of the tokens that speak of [s] which leaves its pump, the submissions
    and the ids alone, and adds no reader. *)
Definition moves (s : nat) (G G' : list gtoken) : Prop :=
  same_but s G G' /\ pumps G' = pumps G /\ tids G' = tids G /\ offers G' = offers G
  /\ readers G' ⊆+ readers G.

Lemma moves_refl s G : moves s G G.
Proof. by split_and!. Qed.

Definition is_reader (s : nat) (g : gtoken) : Prop := readers [g] = [s].

Lemma is_reader_inv s g : is_reader s g ->
  (exists c, g = TReader s c) \/ g = TDetach s \/ (exists c t, g = TDone s c t).
Proof. intros Hg. destruct g; try done; injection Hg as ->; eauto. Qed.

Ltac reader_cases H := apply is_reader_inv in H as [[? ->]|[->|(? & ? & ->)]].

Lemma reader_about s g s' : is_reader s g -> s' <> s -> about s' g = false.
Proof. intros Hg Hs. reader_cases Hg; by apply bool_decide_eq_false. Qed.

Lemma moves_reader s g g' G : is_reader s g -> is_reader s g' -> moves s (g :: G) (g' :: G).
Proof.
  intros Hg Hg'. split; [apply same_but_cons; eauto using reader_about|].
  reader_cases Hg; reader_cases Hg'; by split_and!.
Qed.

Lemma moves_drop s g G : is_reader s g -> moves s (g :: G) G.
Proof.
  intros Hg. split; [apply same_but_drop; eauto using reader_about|].
  reader_cases Hg; split_and!; try done; by apply submseteq_cons.
Qed.

(** ** Request ids *)

Definition id_period : Z := id_limit - 1.

(** The [k]-th id handed out. *)
Definition id_at (first : Z) (k : nat) : Z := (first - 1 + Z.of_nat k) mod id_period + 1.

Lemma id_at_range first k : 1 <= id_at first k < id_limit.
Proof.
  unfold id_at, id_period. change id_limit with 9223372036854775808.
  pose proof (Z.mod_pos_bound (first - 1 + Z.of_nat k) (9223372036854775808 - 1)). lia.
Qed.

Lemma id_at_next first k : next_request_id (id_at first k) = (id_at first k, id_at first (S k)).
Proof.
  unfold next_request_id, id_at, id_period. change id_limit with 9223372036854775808. f_equal.
  replace (first - 1 + Z.of_nat (S k)) with (first - 1 + Z.of_nat k + 1) by lia.
  set (x := first - 1 + Z.of_nat k).
  assert (9223372036854775808 - 1 = 9223372036854775807) as -> by done.
  rewrite <-(Zplus_mod_idemp_l x 1). pose proof (Z.mod_pos_bound x 9223372036854775807).
  set (y := x mod 9223372036854775807) in *.
  destruct (Z.leb_spec 9223372036854775808 (y + 1 + 1)).
  - assert (y = 9223372036854775806) as -> by lia. done.
  - rewrite Z.mod_small by lia. done.
Qed.

Lemma id_at_inj first i j : (i < j)%nat -> Z.of_nat j < id_period -> id_at first i <> id_at first j.
Proof.
  unfold id_at, id_period. change id_limit with 9223372036854775808. intros Hij Hj Heq.
  assert ((first - 1 + Z.of_nat j - (first - 1 + Z.of_nat i)) mod (9223372036854775808 - 1) = 0) as H0.
  { rewrite Zminus_mod. replace ((first - 1 + Z.of_nat j) mod (9223372036854775808 - 1))
      with ((first - 1 + Z.of_nat i) mod (9223372036854775808 - 1)) by lia.
    by rewrite Z.sub_diag. }
  rewrite Z.mod_small in H0; lia.
Qed.

Definition ids_upto (first : Z) (n : nat) : list Z := id_at first <$> seq 0 n.

Lemma ids_upto_nodup first n : Z.of_nat n <= id_period -> NoDup (ids_upto first n).
Proof.
  intros Hn. apply NoDup_fmap_2_strong; [|apply NoDup_seq].
  intros i j Hi%elem_of_seq Hj%elem_of_seq Heq.
  destruct (lt_eq_lt_dec i j) as [[Hlt|?]|Hlt]; [|done|]; exfalso;
    (eapply (id_at_inj first); [exact Hlt|lia|congruence]).
Qed.

(** ** Counters *)

Record metrics_ok (m : GatewayMetrics) (sessions open offers : nat) (buffered : nat) : Prop := {
  mo_active : m_active m = Z.of_nat open;
  mo_accepted : m_accepted m = Z.of_nat sessions;
  mo_terminals : total (m_terminals m) + Z.of_nat open = Z.of_nat sessions;
  mo_offered : m_offered m = m_accepted m + total (m_rejected m) + Z.of_nat offers;
  mo_buffered : m_sse_buffered_events m = Z.of_nat buffered;
  mo_active_high : m_active m <= m_active_high_watermark m;
  mo_buffered_high : m_sse_buffered_events m <= m_sse_buffer_high_watermark m }.

Section MetricLemmas.
Context (m : GatewayMetrics) (ns np no nb : nat) (Hm : metrics_ok m ns np no nb).

Lemma metrics_offered : metrics_ok (offered m) ns np (S no) nb.
Proof. destruct Hm. constructor; cbn -[Z.of_nat total count]; try done. lia. Qed.
Lemma metrics_accepted no' : no = S no' -> metrics_ok (metric_accepted m) (S ns) (S np) no' nb.
Proof. intros ->. destruct Hm. constructor; cbn -[Z.of_nat total count]; try done; lia. Qed.
Lemma metrics_rejected code no' : no = S no' -> metrics_ok (metric_rejected code m) ns np no' nb.
Proof.
  intros ->. destruct Hm. constructor; cbn -[Z.of_nat total count]; try done.
  rewrite total_count. lia.
Qed.
Lemma metrics_terminal code np' : np = S np' -> metrics_ok (metric_terminal code m) ns np' no nb.
Proof.
  intros ->. destruct Hm. constructor; cbn -[Z.of_nat total count]; try done; try lia.
  rewrite total_count. lia.
Qed.
Lemma metrics_cancel reason : metrics_ok (metric_cancel reason m) ns np no nb.
Proof. destruct Hm. unfold metric_cancel. by repeat case_bool_decide. Qed.
Lemma metrics_drain : metrics_ok (drain_timeout m) ns np no nb.
Proof. by destruct Hm. Qed.
Lemma metrics_enqueued : metrics_ok (sse_delta_enqueued m) ns np no (S nb).
Proof. destruct Hm. constructor; cbn -[Z.of_nat total count]; try done; lia. Qed.
Lemma metrics_released k nb' : (nb = k + nb')%nat ->
  metrics_ok (sse_deltas_released (Z.of_nat k) m) ns np no nb'.
Proof. intros ->. destruct Hm. constructor; cbn -[Z.of_nat total count]; try done; lia. Qed.
End MetricLemmas.

Definition buffered (x : GatewaySession) : nat := List.length (ab_deltas (gs_buffer x)).

Lemma sum_alter (f : GatewaySession -> GatewaySession) s x l : l !! s = Some x ->
  (sum_list_with buffered (alter f s l) + buffered x
   = sum_list_with buffered l + buffered (f x))%nat.
Proof.
  revert s. induction l as [|y l IH]; intros [|s] Hs; try done.
  - injection Hs as ->. cbn. lia.
  - change (alter f (S s) (y :: l)) with (y :: alter f s l). cbn [sum_list_with].
    specialize (IH s Hs). lia.
Qed.

Lemma sum_ge s x l : l !! s = Some x -> (buffered x <= sum_list_with buffered l)%nat.
Proof.
  revert s. induction l as [|y l IH]; intros [|s] Hs; simplify_eq/=; [lia|].
  specialize (IH s Hs). lia.
Qed.

Section Inv.
Context `{T : Tokenizer} (manifest : ModelManifest) (options : GatewayRuntimeOptions) (first : Z).
Implicit Types (w : gworld) (G F : list gtoken) (s : nat) (x : GatewaySession).

(** Where the decoded text comes from: no tokens yet, or the tokenizer's text of
    the tokens up to the last successful decode. *)
Definition decoder_ok (x : GatewaySession) : Prop :=
  exists toks, toks `prefix_of` dec_tokens (gs_decoder x)
    /\ (toks = [] /\ dec_decoded (gs_decoder x) = [] \/ decode toks = Ok (dec_decoded (gs_decoder x)))
    /\ (gs_dropping_deltas x = false -> toks = dec_tokens (gs_decoder x)).

(** The consumer needs nothing more of it: it has the Terminal, or it is gone. *)
Definition settled (x : GatewaySession) : Prop :=
  ab_deltas (gs_buffer x) = []
  /\ (ab_terminal_delivered (gs_buffer x) = true \/ ab_abandoned (gs_buffer x) = true).

(** Every session has someone who takes its events or abandons it. *)
Definition owned (G : list gtoken) (s : nat) : Prop := (exists c, TReader s c ∈ G) \/ TDetach s ∈ G.

Record session_ok (w : gworld) (G : list gtoken) (s : nat) (x : GatewaySession) : Prop := {
  sk_max : ab_max_delta_events (gs_buffer x) = max_sse_delta_events_per_request options;
  sk_len : Z.of_nat (buffered x) <= max_sse_delta_events_per_request options;
  sk_open : TPump s ∈ G ->
    gs_terminal x = None /\ ab_terminal (gs_buffer x) = None /\ gs_done x = false;
  sk_closed : TPump s ∉ G ->
    gs_done x = true /\ is_Some (gs_terminal x) /\ ab_terminal (gs_buffer x) = gs_terminal x;
  sk_table : g_active w !! gs_request_id x = Some s -> TPump s ∈ G;
  sk_reach : Z.of_nat (List.length (g_allocated w)) <= id_period -> TPump s ∈ G ->
    g_active w !! gs_request_id x = Some s;
  sk_text : concat (gs_emitted x) `prefix_of` dec_decoded (gs_decoder x)
    /\ (gs_dropping_deltas x = false -> concat (gs_emitted x) = dec_decoded (gs_decoder x));
  sk_decoder : decoder_ok x;
  sk_utf8 : decodes_utf8 -> Forall (fun t => utf8_valid t = true) (gs_emitted x);
  sk_taken : gs_taken x ++ ab_deltas (gs_buffer x) `prefix_of` gs_emitted x
    /\ (ab_abandoned (gs_buffer x) = false -> gs_taken x ++ ab_deltas (gs_buffer x) = gs_emitted x);
  sk_abandoned : ab_abandoned (gs_buffer x) = true -> ab_deltas (gs_buffer x) = [];
  sk_delivered : ab_terminal_delivered (gs_buffer x) = true ->
    ab_deltas (gs_buffer x) = [] /\ is_Some (ab_terminal (gs_buffer x));
  sk_reader c : TReader s c ∈ G -> gs_taken x = c;
  sk_done c t : TDone s c t ∈ G ->
    gs_taken x = c /\ gs_terminal x = Some t /\ ab_terminal_delivered (gs_buffer x) = true;
  sk_owned : owned G s \/ settled x }.

(** How a request given to the client was built. *)
Definition submitted_ok (q : GenerationRequest) : Prop :=
  exists body c trace_id rid timeout ids stops,
    parse_chat_completion_request body manifest = Ok c
    /\ encode_inputs (to_gateway_request c trace_id) = Ok (ids, stops)
    /\ check_inputs manifest (to_gateway_request c trace_id) ids stops = Ok tt
    /\ timeout_millis options = Ok timeout /\ 1 <= rid < id_limit
    /\ q = generation_request manifest options (to_gateway_request c trace_id) rid timeout ids stops.

Record gateway_inv (w : gworld) (G : list gtoken) : Prop := {
  gi_ids : (gs_request_id <$> g_sessions w) ++ tids G ⊆+ g_allocated w;
  gi_alloc : g_allocated w = ids_upto first (List.length (g_allocated w))
             /\ g_next_id w = id_at first (List.length (g_allocated w));
  gi_table : forall rid s, g_active w !! rid = Some s ->
    exists x, g_sessions w !! s = Some x /\ gs_request_id x = rid;
  gi_sessions : forall s x, g_sessions w !! s = Some x -> session_ok w G s x;
  gi_pumps : NoDup (pumps G) /\ Forall (fun s => (s < List.length (g_sessions w))%nat) (pumps G);
  gi_readers : NoDup (readers G) /\ Forall (fun s => (s < List.length (g_sessions w))%nat) (readers G);
  gi_metrics : metrics_ok (g_metrics w) (List.length (g_sessions w)) (List.length (pumps G))
                 (List.length (offers G)) (sum_list_with buffered (g_sessions w));
  gi_submitted : Forall submitted_ok (g_submitted w) }.

(** ** Generic updates *)

Lemma session_ok_frame w w' G G' s x :
  (g_active w' !! gs_request_id x = Some s <-> g_active w !! gs_request_id x = Some s) ->
  (List.length (g_allocated w) <= List.length (g_allocated w'))%nat ->
  (forall g, about s g = true -> (g ∈ G' <-> g ∈ G)) -> session_ok w G s x -> session_ok w' G' s x.
Proof.
  intros Ha Hl Hg []. assert (forall g, about s g = true -> g ∈ G' -> g ∈ G) as Hg' by (intros; by apply Hg).
  assert (forall s0, about s0 (TPump s0) = true) as Hp by (intros; by apply bool_decide_eq_true).
  constructor; rewrite ?Ha, ?(Hg (TPump s)) by (by apply bool_decide_eq_true); try done.
  - intros Hlen. apply sk_reach0. lia.
  - intros c Hc. apply sk_reader0, Hg'; [|done]. by apply bool_decide_eq_true.
  - intros c t Hc. apply sk_done0, Hg'; [|done]. by apply bool_decide_eq_true.
  - destruct sk_owned0 as [[[c Hc]|Hd]|?]; [| |by right]; left; [left; exists c|right];
      (apply Hg; [by apply bool_decide_eq_true|done]).
Qed.

Lemma gateway_inv_perm w G G' : G ≡ₚ G' -> gateway_inv w G -> gateway_inv w G'.
Proof.
  intros HG []. constructor; try done.
  - by rewrite <-HG.
  - intros s x Hx. eapply session_ok_frame; [done|done| |by eauto]. intros g _. by rewrite HG.
  - by rewrite <-HG.
  - by rewrite <-HG.
  - by rewrite <-HG.
Qed.

Lemma ginv_same w w' G :
  g_sessions w' = g_sessions w -> g_active w' = g_active w -> g_allocated w' = g_allocated w ->
  g_next_id w' = g_next_id w -> g_submitted w' = g_submitted w ->
  metrics_ok (g_metrics w') (List.length (g_sessions w)) (List.length (pumps G))
    (List.length (offers G)) (sum_list_with buffered (g_sessions w)) ->
  gateway_inv w G -> gateway_inv w' G.
Proof.
  intros Hs Ha Hal Hn Hsub Hm []. constructor; rewrite ?Hs, ?Ha, ?Hal, ?Hn, ?Hsub; try done.
  intros s x Hx. eapply session_ok_frame; [by rewrite Ha|by rewrite Hal|done|auto].
Qed.

Lemma gids_alter s (f : GatewaySession -> GatewaySession) (l : list GatewaySession) x :
  l !! s = Some x -> gs_request_id (f x) = gs_request_id x ->
  gs_request_id <$> alter f s l = gs_request_id <$> l.
Proof.
  intros Hx Hf. apply list_eq. intros i. rewrite !list_lookup_fmap.
  destruct (decide (s = i)) as [<-|]; [|by rewrite list_lookup_alter_ne].
  rewrite list_lookup_alter_eq, Hx. simpl. by rewrite Hf.
Qed.

(** One session changes, with the tokens that speak of it, and the counters. *)
Lemma ginv_update w w' G G' s x (f : GatewaySession -> GatewaySession) :
  gateway_inv w G -> g_sessions w !! s = Some x ->
  g_sessions w' = alter f s (g_sessions w) -> g_active w' = g_active w ->
  g_allocated w' = g_allocated w -> g_next_id w' = g_next_id w -> g_submitted w' = g_submitted w ->
  gs_request_id (f x) = gs_request_id x -> session_ok w G' s (f x) ->
  moves s G G' ->
  metrics_ok (g_metrics w') (List.length (g_sessions w)) (List.length (pumps G))
    (List.length (offers G)) (sum_list_with buffered (g_sessions w) - buffered x + buffered (f x)) ->
  gateway_inv w' G'.
Proof.
  intros HI Hx Hs Ha Hal Hn Hsub Hid Hok (HG & Hpu & Hti & Hof & Hrd) Hm.
  pose proof (gids_alter s f (g_sessions w) x Hx Hid) as Hids. destruct HI.
  constructor; rewrite ?Hs, ?Ha, ?Hal, ?Hn, ?Hsub, ?Hids, ?length_alter, ?Hpu, ?Hti, ?Hof; try done.
  - intros rid s' Hr. destruct (gi_table0 rid s' Hr) as (y & Hy & Hyid).
    destruct (decide (s = s')) as [<-|].
    + exists (f x). rewrite list_lookup_alter_eq, Hx. split; [done|].
      assert (y = x) as -> by congruence. by rewrite Hid.
    + exists y. by rewrite list_lookup_alter_ne.
  - intros s' y Hy. destruct (decide (s = s')) as [<-|].
    + rewrite list_lookup_alter_eq, Hx in Hy. injection Hy as <-.
      eapply session_ok_frame; [by rewrite Ha|by rewrite Hal|done|done].
    + rewrite list_lookup_alter_ne in Hy by done.
      eapply session_ok_frame; [by rewrite Ha|by rewrite Hal|intros g; by apply HG|by eauto].
  - destruct gi_readers0 as [Hnd Hlt]. split.
    + apply submseteq_Permutation in Hrd as [k Hk]. rewrite Hk in Hnd. by apply NoDup_app in Hnd as [? _].
    + rewrite Forall_forall in Hlt |- *. intros s' Hs'. apply Hlt. by eapply elem_of_submseteq.
  - pose proof (sum_alter f s x (g_sessions w) Hx) as Hsum.
    pose proof (sum_ge s x (g_sessions w) Hx) as Hge.
    replace (sum_list_with buffered (alter f s (g_sessions w)))
      with (sum_list_with buffered (g_sessions w) - buffered x + buffered (f x))%nat by lia. done.
Qed.

(** The sum over the sessions when the changed session buffers as much as before. *)
Lemma sum_same w s x y : g_sessions w !! s = Some x -> buffered y = buffered x ->
  (sum_list_with buffered (g_sessions w) - buffered x + buffered y
   = sum_list_with buffered (g_sessions w))%nat.
Proof. intros Hx ->. pose proof (sum_ge s x (g_sessions w) Hx). lia. Qed.

(** ** Cancels *)

Lemma ginv_cancel_flags w w' G s (f : GatewaySession -> GatewaySession) :
  (forall x, exists l c, f x = with_cancel x l c) ->
  g_sessions w' = alter f s (g_sessions w) -> g_active w' = g_active w ->
  g_allocated w' = g_allocated w -> g_next_id w' = g_next_id w -> g_submitted w' = g_submitted w ->
  (forall ns np no nb, metrics_ok (g_metrics w) ns np no nb -> metrics_ok (g_metrics w') ns np no nb) ->
  gateway_inv w G -> gateway_inv w' G.
Proof.
  intros Hf Hs Ha Hal Hn Hsub Hm HI. destruct (g_sessions w !! s) as [x|] eqn:Hx.
  - destruct (Hf x) as (l & c & Hfx).
    eapply (ginv_update w w' G G s x f); try done.
    + by rewrite Hfx.
    + rewrite Hfx. by destruct (gi_sessions _ _ HI s x Hx).
    + rewrite (sum_same w s x); [|done|by rewrite Hfx]. apply Hm, (gi_metrics _ _ HI).
  - assert (alter f s (g_sessions w) = g_sessions w) as Heq.
    { apply list_eq. intros i. destruct (decide (s = i)) as [<-|];
        [by rewrite list_lookup_alter_eq, Hx|by rewrite list_lookup_alter_ne]. }
    eapply (ginv_same w); [by rewrite Hs|done..| |done]. apply Hm, (gi_metrics _ _ HI).
Qed.

Lemma ginv_cancel_lock w G s b : gateway_inv w G ->
  gateway_inv (update_session w s (fun x => with_cancel x b (gs_cancel_sent x))) G.
Proof. apply (ginv_cancel_flags _ _ _ s (fun x => with_cancel x b (gs_cancel_sent x))); eauto. Qed.

Lemma ginv_cancel_sent w G s reason sent : gateway_inv w G ->
  gateway_inv (cancel_sent_to_worker s reason sent w).1 G.
Proof.
  unfold cancel_sent_to_worker. cbn [fst].
  apply (ginv_cancel_flags _ _ _ s (fun x => with_cancel x (gs_cancel_lock x) sent));
    try by destruct sent. 1: eauto.
  intros. destruct sent; cbn; [by apply metrics_cancel|done].
Qed.

Lemma ginv_drain w G s : gateway_inv w G -> gateway_inv (drain_wait s w).1 G.
Proof.
  intros HI. unfold drain_wait. case_match; [done|]. eapply (ginv_same w); [done..| |done].
  apply metrics_drain, (gi_metrics _ _ HI).
Qed.

(** ** Buffers *)

(** Deltas leave the buffer of [s], and its tokens may move. *)
Lemma ginv_release w G G' s x (f : GatewaySession -> GatewaySession) (n : Z) :
  gateway_inv w G -> g_sessions w !! s = Some x -> gs_request_id (f x) = gs_request_id x ->
  session_ok w G' s (f x) -> moves s G G' ->
  Z.of_nat (buffered x) = n + Z.of_nat (buffered (f x)) -> 0 <= n ->
  let w1 := update_session w s f in
  gateway_inv (if 0 <? n then set_metrics w1 (sse_deltas_released n (g_metrics w1)) else w1) G'.
Proof.
  intros HI Hx Hid Hok Hmv Hlen Hn w1. pose proof (sum_ge s x (g_sessions w) Hx) as Hge.
  assert (n = Z.of_nat (Z.to_nat n)) as Hnat by lia.
  destruct (Z.ltb_spec 0 n); (eapply (ginv_update w _ G G' s x f); try done).
  - cbn [g_metrics set_metrics]. rewrite Hnat.
    eapply metrics_released; [apply (gi_metrics _ _ HI)|]. lia.
  - rewrite (sum_same w s x); [apply (gi_metrics _ _ HI)|done|]. lia.
Qed.

(** Who takes the events of a session takes them alone. *)
Lemma reader_alone w g G s : gateway_inv w (g :: G) -> is_reader s g -> s ∉ readers G.
Proof.
  intros HI Hg. destruct (gi_readers _ _ HI) as [Hnd _]. change (g :: G) with ([g] ++ G) in Hnd.
  rewrite readers_app, Hg in Hnd. by apply NoDup_cons in Hnd as [? _].
Qed.

(** What is true of a session whoever takes its events. *)
Lemma session_ok_reader w g G s x x' g' :
  session_ok w (g :: G) s x -> is_reader s g -> is_reader s g' -> s ∉ readers G ->
  gs_request_id x' = gs_request_id x -> gs_terminal x' = gs_terminal x -> gs_done x' = gs_done x ->
  gs_emitted x' = gs_emitted x -> gs_decoder x' = gs_decoder x ->
  gs_dropping_deltas x' = gs_dropping_deltas x ->
  ab_max_delta_events (gs_buffer x') = ab_max_delta_events (gs_buffer x) ->
  ab_terminal (gs_buffer x') = ab_terminal (gs_buffer x) ->
  ab_abandoned (gs_buffer x') = ab_abandoned (gs_buffer x) ->
  gs_taken x' ++ ab_deltas (gs_buffer x') = gs_taken x ++ ab_deltas (gs_buffer x) ->
  (buffered x' <= buffered x)%nat ->
  (ab_terminal_delivered (gs_buffer x') = true ->
    ab_deltas (gs_buffer x') = [] /\ is_Some (ab_terminal (gs_buffer x'))) ->
  match g' with
  | TReader _ c => gs_taken x' = c
  | TDone _ c t => gs_taken x' = c /\ gs_terminal x' = Some t /\ ab_terminal_delivered (gs_buffer x') = true
                   /\ ab_deltas (gs_buffer x') = []
  | _ => True
  end -> session_ok w (g' :: G) s x'.
Proof.
  intros [] Hg Hg' Halone E1 E2 E3 E4 E5 E6 E7 E8 E9 Et Hle Hdel Hnew. unfold is_reader in Hg, Hg'.
  assert (forall g0, is_reader s g0 -> TPump s ∈ g0 :: G <-> TPump s ∈ G) as Hp.
  { intros g0 Hg0. rewrite elem_of_cons. split; [|by right]. by intros [<-|?]. }
  rewrite (Hp g) in * by done.
  assert (forall g0, g0 ∈ g' :: G -> is_reader s g0 -> g0 = g') as Hnow.
  { intros g0 [->|Hin]%elem_of_cons Hg0; [done|]. destruct Halone. unfold readers.
    rewrite list_elem_of_omap. exists g0. split; [done|]. by reader_cases Hg0. }
  constructor; rewrite ?(Hp g') by done; rewrite ?E1, ?E2, ?E3, ?E4, ?E5, ?E6, ?E7, ?E8, ?E9, ?Et; try done.
  - lia.
  - unfold decoder_ok in *. by rewrite E5, E6.
  - intros Ha. specialize (sk_abandoned0 Ha). unfold buffered in Hle. rewrite sk_abandoned0 in Hle.
    destruct (ab_deltas (gs_buffer x')); [done|]. simpl in Hle. lia.
  - by rewrite <-E8.
  - intros c Hc. by apply Hnow in Hc as <-.
  - intros c t Hc. apply Hnow in Hc as <-; [|done]. rewrite <-E2. naive_solver.
  - reader_cases Hg'; [left; left; eexists; left|left; right; left|].
    right. destruct Hnew as (_ & _ & Hd & Hn). split; [done|by left].
Qed.

Lemma reader_session w g G s : gateway_inv w (g :: G) -> is_reader s g -> exists x, g_sessions w !! s = Some x.
Proof.
  intros HI Hg. apply lookup_lt_is_Some_2. destruct (gi_readers _ _ HI) as [_ Hlt].
  change (g :: G) with ([g] ++ G) in Hlt. rewrite readers_app, Hg in Hlt. by apply Forall_cons in Hlt as [? _].
Qed.

(** The token of the consumer after [next_event]. *)
Definition after_take (s : nat) (c : list text) (r : result gexn GatewayEvent) : gtoken :=
  match r with
  | Ok (GTextDelta t) => TReader s (c ++ [t])
  | Ok (GTerminal t) => TDone s c t
  | Err _ => TReader s c
  end.

(** [get] releases the oldest delta, or delivers the Terminal after the last, or
    changes nothing. *)
Inductive aget_case (b : _AsyncEventBuffer) : _AsyncEventBuffer * Z * result gexn GatewayEvent -> Prop :=
| aget_delta d ds : ab_deltas b = d :: ds ->
    aget_case b (mkABuffer (ab_max_delta_events b) ds (ab_terminal b) (ab_terminal_delivered b) (ab_abandoned b),
                 1, Ok (GTextDelta d))
| aget_end t : ab_deltas b = [] -> ab_terminal b = Some t ->
    aget_case b (mkABuffer (ab_max_delta_events b) [] (Some t) true (ab_abandoned b), 0, Ok (GTerminal t))
| aget_nothing e : aget_case b (b, 0, Err (OtherExn e)).

Lemma aget_spec b : aget_case b (aget b).
Proof.
  unfold aget, amust_wait. destruct (ab_deltas b) as [|d ds] eqn:Hd; cbn [bool_decide andb].
  - rewrite bool_decide_true by done. destruct (ab_terminal b) as [t|] eqn:Ht; cbn [andb]; [|constructor].
    rewrite bool_decide_false by done. destruct (ab_terminal_delivered b); by constructor.
  - rewrite bool_decide_false by done. by constructor.
Qed.

(** A session that has no pump has the Terminal of its buffer. *)
Lemma session_terminal w G s x : session_ok w G s x ->
  is_Some (ab_terminal (gs_buffer x)) -> gs_terminal x = ab_terminal (gs_buffer x).
Proof.
  intros [] Ht. destruct (decide (TPump s ∈ G)) as [Hp|Hp].
  - destruct (sk_open0 Hp) as (_ & Hn & _). rewrite Hn in Ht. by destruct Ht.
  - symmetry. by apply sk_closed0.
Qed.

Lemma ginv_take_gevent w G s c : gateway_inv w (TReader s c :: G) ->
  gateway_inv (take_gevent s w).1 (after_take s c (take_gevent s w).2 :: G).
Proof.
  intros HI. destruct (reader_session w _ G s HI eq_refl) as [x Hx].
  pose proof (reader_alone w _ G s HI eq_refl) as Halone.
  pose proof (gi_sessions _ _ HI s x Hx) as Hok. pose proof (sk_delivered _ _ _ _ Hok) as Hdel.
  assert (gs_taken x = c) as <- by (apply (sk_reader _ _ _ _ Hok); left).
  unfold take_gevent. rewrite Hx. destruct (aget_spec (gs_buffer x)) as [d ds Hd|t Hd Ht|e]; cbn [fst snd after_take];
    apply (ginv_release w (TReader s (gs_taken x) :: G) _ s x _ _); try done; try by apply moves_reader.
  - eapply (session_ok_reader _ _ _ _ x); try done; unfold buffered; cbn; rewrite ?Hd; simpl; try lia.
    + by rewrite <-app_assoc.
    + intros Hdel'. apply Hdel in Hdel' as [? _]. congruence.
  - unfold buffered. cbn. rewrite Hd. simpl. lia.
  - eapply (session_ok_reader _ _ _ _ x); try done; cbn; rewrite ?Hd; try done; [lia|].
    rewrite (session_terminal _ _ _ _ Hok), Ht by (rewrite Ht; eauto). done.
  - unfold buffered. cbn. by rewrite Hd.
  - eapply (session_ok_reader _ _ _ _ x); done.
Qed.

(** The consumer of a session gives it to a drain. *)
Lemma ginv_detached w G s c : gateway_inv w (TReader s c :: G) -> gateway_inv w (TDetach s :: G).
Proof.
  intros HI. destruct (reader_session w _ G s HI eq_refl) as [x Hx].
  pose proof (reader_alone w _ G s HI eq_refl) as Halone.
  pose proof (gi_sessions _ _ HI s x Hx) as Hok.
  assert (update_session w s (fun x => x) = w) as <-.
  { unfold update_session. assert (alter (fun x => x) s (g_sessions w) = g_sessions w) as ->; [|by destruct w].
    apply list_eq. intros i. destruct (decide (s = i)) as [<-|];
      [by rewrite list_lookup_alter_eq, Hx|by rewrite list_lookup_alter_ne]. }
  apply (ginv_release w (TReader s c :: G) _ s x (fun x => x) 0); try done; [|by apply moves_reader].
  eapply (session_ok_reader _ _ _ _ x); try done. apply (sk_delivered _ _ _ _ Hok).
Qed.

Lemma session_ok_abandon w G G' s x : session_ok w G s x ->
  (TPump s ∈ G' <-> TPump s ∈ G) -> (forall g, g ∈ G' -> g ∈ G) ->
  session_ok w G' s (with_buffer x (aabandon (gs_buffer x)).1).
Proof.
  intros [] Hp HG. constructor; rewrite ?Hp; cbn; try done.
  - unfold buffered in *. cbn. lia.
  - split; [|done]. destruct sk_taken0 as [Hpre _]. rewrite app_nil_r. etrans; [|exact Hpre].
    by apply prefix_app_r.
  - intros Hd. split; [done|]. by apply sk_delivered0.
  - intros c Hc. by apply sk_reader0, HG.
  - intros c t Hc. by apply sk_done0, HG.
  - right. split; [done|by right].
Qed.

(** A drain abandons its session, and [stop] any session. *)
Lemma ginv_abandon_moves w G G' s : gateway_inv w G -> moves s G G' -> (forall g, g ∈ G' -> g ∈ G) ->
  is_Some (g_sessions w !! s) -> gateway_inv (abandon s w) G'.
Proof.
  intros HI Hmv HG [x Hx]. unfold abandon. rewrite Hx. cbn [aabandon].
  eapply (ginv_release w G G' s x); try done; cbn; unfold buffered; cbn; try lia.
  eapply (session_ok_abandon w G); [by apply (gi_sessions _ _ HI)| |done].
  destruct Hmv as (_ & Hp & _). rewrite <-!pumps_spec. by rewrite Hp.
Qed.

Lemma ginv_abandon w G s : gateway_inv w G -> gateway_inv (abandon s w) G.
Proof.
  intros HI. destruct (g_sessions w !! s) as [x|] eqn:Hx.
  - eapply ginv_abandon_moves; [done|apply moves_refl|done|by rewrite Hx].
  - unfold abandon. by rewrite Hx.
Qed.

Lemma ginv_abandon_detached w G s : gateway_inv w (TDetach s :: G) -> gateway_inv (abandon s w) G.
Proof.
  intros HI. destruct (reader_session w _ G s HI eq_refl) as [x Hx].
  eapply ginv_abandon_moves; [done|by apply moves_drop|by right|by rewrite Hx].
Qed.

(** ** The pump *)

Lemma append_spec dec ids : let '(dec', r) := append dec ids in
  dec_tokens dec' = dec_tokens dec ++ ids
  /\ match r with
     | Ok t => dec_decoded dec' = dec_decoded dec ++ t /\ decode (dec_tokens dec') = Ok (dec_decoded dec')
     | Err _ => dec_decoded dec' = dec_decoded dec
     end.
Proof.
  unfold append. destruct (decode (dec_tokens dec ++ ids)) as [t|e] eqn:Hd; [|done].
  case_bool_decide as Hp; cbn; [|done]. split; [done|]. rewrite <-prefix_drop by done. done.
Qed.

Lemma append_raises `{TOk : !TokenizerOk T} dec ids e :
  (append dec ids).2 = Err e -> exists msg, e = TokenizerError msg.
Proof.
  unfold append. destruct (decode (dec_tokens dec ++ ids)) as [t|e'] eqn:Hd.
  - case_bool_decide; cbn; [done|]. intros [= <-]. eauto.
  - cbn. intros [= <-]. by eapply decode_raises.
Qed.

(** The session after a round of the pump; [keep] says whether it goes on
    without dropping. *)
Lemma session_ok_pump w G s x dec ids failure (drop_ : bool) :
  session_ok w G s x -> gs_dropping_deltas x = false ->
  dec = (append (gs_decoder x) ids).1 ->
  (drop_ = false -> (append (gs_decoder x) ids).2 = Ok []) ->
  session_ok w G s (with_pump x dec drop_ failure (gs_emitted x)).
Proof.
  intros [] Hd -> Hr. pose proof (append_spec (gs_decoder x) ids) as Ha.
  destruct (append (gs_decoder x) ids) as [dec r]. destruct Ha as [Htok Hres].
  destruct sk_text0 as [Hpre Heq]. specialize (Heq Hd).
  destruct sk_decoder0 as (toks & Htoks & Hdec & Hall). specialize (Hall Hd). subst toks.
  cbn [fst snd] in *. constructor; cbn; try done.
  - rewrite Heq. destruct r as [t|e]; [destruct Hres as [-> Hdd]|rewrite Hres]; split; try done.
    + by apply prefix_app_r.
    + intros Hx. apply Hr in Hx. injection Hx as ->. by rewrite app_nil_r.
  - unfold decoder_ok; cbn. destruct r as [t|e].
    + destruct Hres as [_ Hdd]. exists (dec_tokens dec). auto.
    + exists (dec_tokens (gs_decoder x)). rewrite Hres, Htok. split_and!; [by apply prefix_app_r|done|].
      intros Hx. by apply Hr in Hx.
Qed.

Lemma ginv_session w G s x (f : GatewaySession -> GatewaySession) :
  gateway_inv w G -> g_sessions w !! s = Some x -> gs_request_id (f x) = gs_request_id x ->
  gs_buffer (f x) = gs_buffer x -> session_ok w G s (f x) -> gateway_inv (update_session w s f) G.
Proof.
  intros HI Hx Hid Hb Hok. eapply (ginv_update w _ G G s x f); try done.
  rewrite (sum_same w s x); [apply (gi_metrics _ _ HI)|done|]. unfold buffered. by rewrite Hb.
Qed.

Lemma aput_delta_spec b t : (aput_delta b t).2 = true ->
  (aput_delta b t).1 = mkABuffer (ab_max_delta_events b) (ab_deltas b ++ [t]) (ab_terminal b)
                         (ab_terminal_delivered b) (ab_abandoned b)
  /\ Z.of_nat (List.length (ab_deltas b)) < ab_max_delta_events b
  /\ ab_terminal b = None /\ ab_abandoned b = false.
Proof.
  unfold aput_delta. destruct (bool_decide _) eqn:Ht, (ab_abandoned b) eqn:Ha; try done. cbn [orb].
  apply bool_decide_eq_false, eq_None_not_Some in Ht. destruct (Z.leb_spec (ab_max_delta_events b)
    (Z.of_nat (List.length (ab_deltas b)))); [done|]. by split.
Qed.

Lemma session_ok_emit w G s x dec ids t :
  session_ok w G s x -> gs_dropping_deltas x = false ->
  append (gs_decoder x) ids = (dec, Ok t) -> (aput_delta (gs_buffer x) t).2 = true ->
  session_ok w G s (with_buffer (with_pump x dec false (gs_local_failure x) (gs_emitted x ++ [t]))
                      (aput_delta (gs_buffer x) t).1).
Proof.
  intros [] Hd Happ Hput. pose proof (append_spec (gs_decoder x) ids) as Ha.
  rewrite Happ in Ha. destruct Ha as [Htok [Hdec Hdd]].
  destruct (aput_delta_spec _ _ Hput) as (-> & Hlt & Hnt & Hna).
  destruct sk_text0 as [Hpre Heq]. specialize (Heq Hd). constructor; cbn; try done.
  - unfold buffered in *. cbn. rewrite length_app. simpl. lia.
  - rewrite concat_app. cbn. rewrite app_nil_r, Heq, Hdec. done.
  - exists (dec_tokens dec). cbn. auto.
  - intros Hu. apply Forall_app. split; [auto|]. constructor; [|done].
    rewrite <-(utf8_valid_app_l (dec_decoded (gs_decoder x)) t), <-Hdec; [by eapply Hu|].
    destruct sk_decoder0 as (toks & _ & [[_ ->]|Hold] & _); [done|by eapply Hu].
  - destruct sk_taken0 as [_ Ht]. by rewrite app_assoc, Ht.
  - congruence.
  - intros Hdl. apply sk_delivered0 in Hdl as [_ [? Ht]]. congruence.
  - left. destruct sk_owned0 as [?|[_ [Hdl|?]]]; [done| |congruence].
    apply sk_delivered0 in Hdl as [_ [? Ht]]. congruence.
Qed.

Lemma ginv_pump_delta `{TOk : !TokenizerOk T} w G s d : gateway_inv w G ->
  gateway_inv (pump_delta s d w).1 G.
Proof.
  intros HI. unfold pump_delta. destruct (g_sessions w !! s) as [x|] eqn:Hx; [|done].
  destruct (gs_dropping_deltas x) eqn:Hdrop; [done|].
  pose proof (gi_sessions _ _ HI s x Hx) as Hok.
  destruct (append (gs_decoder x) (token_ids d)) as [dec r] eqn:Happ.
  assert (forall (drop_ : bool) failure, (drop_ = false -> r = Ok []) ->
    session_ok w G s (with_pump x dec drop_ failure (gs_emitted x))) as Hpump.
  { intros drop_ failure Hr. eapply session_ok_pump; rewrite ?Happ; try done. }
  destruct r as [t|e].
  - case_bool_decide as Ht.
    + subst t. cbn [fst]. eapply (ginv_session w G s x); try done. cbn. rewrite Hdrop. by apply Hpump.
    + destruct (aput_delta (gs_buffer x) t) as [b stored] eqn:Hput. destruct stored; cbn [fst].
      * pose proof (session_ok_emit w G s x dec (token_ids d) t Hok Hdrop Happ) as Hemit.
        rewrite Hput in Hemit. specialize (Hemit eq_refl).
        eapply (ginv_update w _ G G s x); try done; [cbn beta; rewrite Hdrop; exact Hemit|].
        cbn [g_metrics set_metrics]. pose proof (aput_delta_spec (gs_buffer x) t) as Hspec.
        rewrite Hput in Hspec. destruct (Hspec eq_refl) as (Hb & _). cbn [fst] in Hb. subst b.
        pose proof (sum_ge s x (g_sessions w) Hx).
        replace (_ - _ + _)%nat with (S (sum_list_with buffered (g_sessions w)))
          by (unfold buffered in *; cbn; rewrite length_app; simpl; lia).
        apply metrics_enqueued, (gi_metrics _ _ HI).
      * eapply (ginv_session w G s x); try done. by apply Hpump.
  - destruct (append_raises (gs_decoder x) (token_ids d) e) as [msg ->]; [by rewrite Happ|].
    cbn [fst]. eapply (ginv_session w G s x); try done. by apply Hpump.
Qed.

Lemma finish_open w G s x t : gateway_inv w (TPump s :: G) -> g_sessions w !! s = Some x ->
  exists w1, _finish s t w = (w1, Ok tt) /\ g_sessions w1 = alter (fun x0 =>
      with_buffer (with_end x0 (gs_done x0) (Some t)) (aput_terminal (gs_buffer x) t).1) s (g_sessions w)
    /\ g_active w1 = g_active w /\ g_allocated w1 = g_allocated w /\ g_next_id w1 = g_next_id w
    /\ g_submitted w1 = g_submitted w
    /\ g_metrics w1 = metric_terminal (code (gt_status t)) (g_metrics w).
Proof.
  intros HI Hx. destruct (sk_open _ _ _ _ (gi_sessions _ _ HI s x Hx) ltac:(set_solver)) as (_ & Hb & _).
  unfold _finish. rewrite Hx. unfold aput_terminal. rewrite Hb. eexists. split; [done|]. done.
Qed.

Lemma pump_exit_spec w s x : g_sessions w !! s = Some x ->
  g_sessions (pump_exit s w) = alter (fun x => with_end x true (gs_terminal x)) s (g_sessions w)
  /\ g_active (pump_exit s w)
     = (if bool_decide (g_active w !! gs_request_id x = Some s)
        then delete (gs_request_id x) (g_active w) else g_active w)
  /\ g_allocated (pump_exit s w) = g_allocated w /\ g_next_id (pump_exit s w) = g_next_id w
  /\ g_submitted (pump_exit s w) = g_submitted w /\ g_metrics (pump_exit s w) = g_metrics w.
Proof.
  intros Hx. unfold pump_exit, session_finished. cbn. rewrite list_lookup_alter_eq, Hx. cbn.
  by case_bool_decide.
Qed.

Lemma list_alter_twice {A} (f g : A -> A) (i : nat) (l : list A) :
  alter f i (alter g i l) = alter (fun a => f (g a)) i l.
Proof.
  apply list_eq. intros j. destruct (decide (i = j)) as [<-|].
  - rewrite !list_lookup_alter_eq. by destruct (l !! i).
  - by rewrite !list_lookup_alter_ne.
Qed.

Lemma session_ok_ended w w' G s x t :
  session_ok w (TPump s :: G) s x -> TPump s ∉ G ->
  g_active w' !! gs_request_id x <> Some s ->
  session_ok w' G s (with_end (with_buffer (with_end x (gs_done x) (Some t))
                                 (aput_terminal (gs_buffer x) t).1) true (Some t)).
Proof.
  intros [] Hp Ha. pose proof sk_open0 as Hopen. destruct Hopen as (_ & Hb & _); [by left|].
  destruct sk_open0 as (Ht & _); [by left|].
  unfold aput_terminal. rewrite Hb. constructor; cbn; try done.
  - intros Hd. split; [by apply sk_delivered0|done].
  - intros c Hc. apply sk_reader0. by right.
  - intros c t' Hc. destruct (sk_done0 c t') as (_ & Hx & _); [by right|congruence].
  - destruct sk_owned0 as [[[c Hc]|Hd]|?]; [| |by right]; left.
    + apply elem_of_cons in Hc as [?|Hc]; [done|]. left. by exists c.
    + apply elem_of_cons in Hd as [?|Hd]; [done|]. by right.
Qed.

Lemma ginv_end w G s x t : gateway_inv w (TPump s :: G) -> g_sessions w !! s = Some x ->
  exists w1, _finish s t w = (w1, Ok tt) /\ gateway_inv (pump_exit s w1) G.
Proof.
  intros HI Hx. destruct (finish_open w G s x t HI Hx) as (w1 & Hf & Hs1 & Ha1 & Hal1 & Hn1 & Hsub1 & Hm1).
  exists w1. split; [done|].
  assert (g_sessions w1 !! s = Some (with_buffer (with_end x (gs_done x) (Some t))
            (aput_terminal (gs_buffer x) t).1)) as Hx1 by by rewrite Hs1, list_lookup_alter_eq, Hx.
  destruct (pump_exit_spec w1 s _ Hx1) as (Hs2 & Ha2 & Hal2 & Hn2 & Hsub2 & Hm2).
  cbn [gs_request_id with_buffer with_end] in Ha2.
  rewrite Hs1, list_alter_twice in Hs2. cbn in Hs2. rewrite Ha1 in Ha2. rewrite Hal1 in Hal2.
  rewrite Hn1 in Hn2. rewrite Hsub1 in Hsub2. rewrite Hm1 in Hm2.
  pose proof HI as []. cbn in gi_pumps0, gi_metrics0, gi_ids0. fold (pumps G) in *.
  fold (offers G) in *. fold (tids G) in *.
  destruct gi_pumps0 as [Hnd Hlt]. apply NoDup_cons in Hnd as [Hno Hnd]. apply Forall_cons in Hlt as [Hlt0 Hlt].
  rewrite pumps_spec in Hno.
  assert (forall rid s', g_active (pump_exit s w1) !! rid = Some s' -> g_active w !! rid = Some s') as Hsubm.
  { intros rid s'. rewrite Ha2. case_bool_decide; [|done]. intros H'. by apply lookup_delete_Some in H' as [_ ?]. }
  assert (g_active (pump_exit s w1) !! gs_request_id x <> Some s) as Hgone.
  { rewrite Ha2. case_bool_decide; [by rewrite lookup_delete_eq|done]. }
  set (f := fun x0 => with_end (with_buffer (with_end x0 (gs_done x0) (Some t))
      (aput_terminal (gs_buffer x) t).1) true (Some t)).
  assert (g_sessions (pump_exit s w1) = alter f s (g_sessions w)) as Hs3 by done.
  assert (gs_request_id <$> alter f s (g_sessions w) = gs_request_id <$> g_sessions w) as Hids
    by by apply (gids_alter s f _ x).
  constructor; rewrite ?Hs3, ?Hal2, ?Hn2, ?Hsub2, ?Hids, ?length_alter; try done.
  - intros rid s' Hr. apply Hsubm in Hr. destruct (gi_table0 rid s' Hr) as (y & Hy & Hyid).
    destruct (decide (s = s')) as [<-|]; [|exists y; by rewrite list_lookup_alter_ne].
    exists (f x). rewrite list_lookup_alter_eq, Hx. assert (y = x) as -> by congruence. done.
  - intros s' y Hy. destruct (decide (s = s')) as [<-|Hne].
    + rewrite list_lookup_alter_eq, Hx in Hy. injection Hy as <-.
      eapply session_ok_ended; [by apply gi_sessions0|done|done].
    + rewrite list_lookup_alter_ne in Hy by done.
      eapply (session_ok_frame w _ (TPump s :: G)); [| | |by apply gi_sessions0].
      * split; [apply Hsubm|]. rewrite Ha2. intros Hy'. case_bool_decide as Hc; [|done].
        rewrite lookup_delete_ne; [done|]. intros Heq. rewrite Heq in Hc. congruence.
      * by rewrite Hal2.
      * intros g Hg. refine (same_but_drop s (TPump s) G _ s' g _ Hg); [|done].
        intros s2 ?. by apply bool_decide_eq_false.
  - rewrite Hm2. pose proof (sum_alter f s x _ Hx) as Hsum.
    assert (buffered (f x) = buffered x) as Hbx 
      by (unfold buffered, f, aput_terminal; by destruct (ab_terminal (gs_buffer x))).
    replace (sum_list_with buffered (alter f s (g_sessions w)))
      with (sum_list_with buffered (g_sessions w)) by lia.
    eapply metrics_terminal; [exact gi_metrics0|done].
Qed.

(** However the pump ends, it ends once and with a Terminal. *)
Lemma ginv_pump_failed w G s e : gateway_inv w (TPump s :: G) ->
  gateway_inv (pump_failed s e w).1 G /\ (pump_failed s e w).2 = Ok GVStop.
Proof.
  intros HI. destruct (lookup_lt_is_Some_2 (g_sessions w) s) as [x Hx].
  { pose proof (gi_pumps _ _ HI) as [_ H]. by apply Forall_cons in H as [? _]. }
  destruct (ginv_end w G s x (failure_of e) HI Hx) as (w1 & Hf & HI1).
  unfold pump_failed. by rewrite Hf.
Qed.

Lemma ginv_pump_terminal w G s t : gateway_inv w (TPump s :: G) ->
  gateway_inv (pump_terminal s t w).1 G /\ (pump_terminal s t w).2 = Ok GVStop.
Proof.
  intros HI. destruct (lookup_lt_is_Some_2 (g_sessions w) s) as [x Hx].
  { pose proof (gi_pumps _ _ HI) as [_ H]. by apply Forall_cons in H as [? _]. }
  unfold pump_terminal. match goal with |- context [_finish s ?t' w] =>
    destruct (ginv_end w G s x t' HI Hx) as (w1 & Hf & HI1) end.
  by rewrite Hf.
Qed.

(** ** [submit] *)

(** Only tokens that speak of no session change. *)
Lemma ginv_tokens w w' G G' :
  (forall s g, about s g = true -> (g ∈ G' <-> g ∈ G)) -> pumps G' = pumps G -> readers G' = readers G ->
  g_sessions w' = g_sessions w -> g_active w' = g_active w -> g_submitted w' = g_submitted w ->
  (List.length (g_allocated w) <= List.length (g_allocated w'))%nat ->
  (gs_request_id <$> g_sessions w) ++ tids G' ⊆+ g_allocated w' ->
  g_allocated w' = ids_upto first (List.length (g_allocated w'))
    /\ g_next_id w' = id_at first (List.length (g_allocated w')) ->
  metrics_ok (g_metrics w') (List.length (g_sessions w)) (List.length (pumps G))
    (List.length (offers G')) (sum_list_with buffered (g_sessions w)) ->
  gateway_inv w G -> gateway_inv w' G'.
Proof.
  intros Hp Hpu Hrd Hs Ha Hsub Hlen Hids Hal Hm []. constructor; rewrite ?Hs, ?Ha, ?Hpu, ?Hrd, ?Hsub; try done.
  intros s x Hx. eapply session_ok_frame; [by rewrite Ha|done|intros g; apply Hp|auto].
Qed.

Lemma silent_cons g G : (forall s, about s g = false) -> forall s g', about s g' = true -> (g' ∈ g :: G <-> g' ∈ G).
Proof. intros Hg s g' Ha. rewrite elem_of_cons. split; [|by right]. intros [->|?]; [congruence|done]. Qed.


Lemma ginv_offered w G : gateway_inv w G ->
  gateway_inv (set_metrics w (offered (g_metrics w))) (TOffer :: G).
Proof.
  intros HI. eapply (ginv_tokens w _ G); try done; [by apply silent_cons|apply HI|apply HI|].
  apply metrics_offered, (gi_metrics _ _ HI).
Qed.

Lemma ginv_rejected w G code : gateway_inv w (TOffer :: G) -> gateway_inv (count_rejected code w) G.
Proof.
  intros HI. eapply (ginv_tokens w _ (TOffer :: G)); try done; [|apply HI|apply HI|].
  { intros s g Hg. symmetry. by apply (silent_cons TOffer G) with s. }
  eapply metrics_rejected; [apply (gi_metrics _ _ HI)|done].
Qed.

Lemma ginv_drop_id w G rid : gateway_inv w (TId rid :: G) -> gateway_inv w G.
Proof.
  intros HI. eapply (ginv_tokens w _ (TId rid :: G)); try done; [| |apply HI|apply HI].
  { intros s g Hg. symmetry. by apply (silent_cons (TId rid) G) with s. }
  pose proof (gi_ids _ _ HI) as H. etrans; [|exact H]. apply submseteq_app; [done|].
  apply submseteq_cons. done.
Qed.

Lemma ids_upto_S n : ids_upto first (S n) = ids_upto first n ++ [id_at first n].
Proof. unfold ids_upto. by rewrite seq_S, fmap_app. Qed.

Lemma ginv_allocate w G : gateway_inv w G ->
  exists rid, (allocate_id w).2 = Ok rid /\ 1 <= rid < id_limit
    /\ gateway_inv (allocate_id w).1 (TId rid :: G).
Proof.
  intros HI. pose proof (gi_alloc _ _ HI) as [Hal Hn]. unfold allocate_id.
  rewrite Hn, id_at_next. cbn [fst snd]. eexists. split; [done|]. split; [apply id_at_range|].
  eapply (ginv_tokens w _ G); try done.
  - by apply silent_cons.
  - cbn. rewrite length_app. lia.
  - cbn. fold (tids G). rewrite <-Permutation_middle, <-Permutation_cons_append. apply submseteq_skip, (gi_ids _ _ HI).
  - cbn [set_ids g_allocated g_next_id]. rewrite length_app, Nat.add_1_r. split; [|done]. by rewrite ids_upto_S, <-Hal.
  - apply (gi_metrics _ _ HI).
Qed.

Lemma ginv_note w G q : submitted_ok q -> gateway_inv w G -> gateway_inv (note_submitted q w) G.
Proof.
  intros Hq []. constructor; try done.
  - intros s x Hx. by eapply session_ok_frame; [..|by apply gi_sessions0].
  - cbn. apply Forall_app. split; [done|by repeat constructor].
Qed.

Lemma ginv_register w G rid : 0 <= max_sse_delta_events_per_request options ->
  gateway_inv w (TOffer :: TId rid :: G) ->
  gateway_inv (register_session options rid w)
    (TPump (List.length (g_sessions w)) :: TReader (List.length (g_sessions w)) [] :: G).
Proof.
  intros Hcap HI. set (s := List.length (g_sessions w)). pose proof HI as [].
  cbn in gi_ids0, gi_pumps0, gi_metrics0. fold (tids G) (pumps G) (offers G) in *.
  assert (TPump s ∉ G) as Hnew.
  { intros Hin%pumps_spec. destruct gi_pumps0 as [_ Hlt]. rewrite Forall_forall in Hlt.
    specialize (Hlt s Hin). unfold s in *. lia. }
  assert (s ∉ readers G) as Hnewr.
  { intros Hin. destruct gi_readers0 as [_ Hlt]. rewrite Forall_forall in Hlt.
    specialize (Hlt s Hin). unfold s in *. lia. }
  assert (forall s', s' <> s -> forall g, about s' g = true ->
    (g ∈ TPump s :: TReader s [] :: G <-> g ∈ TOffer :: TId rid :: G)) as Habout.
  { intros s' Hs' g Hg. assert (about s' (TPump s) = false /\ about s' (TReader s []) = false) as [H1 H2]
      by (split; by apply bool_decide_eq_false).
    rewrite !elem_of_cons. split; (intros [->|[->|?]]; [simpl in *; congruence..|by do 2 right]). }
  assert (Z.of_nat (List.length (g_allocated w)) <= id_period -> forall s' x,
    g_sessions w !! s' = Some x -> gs_request_id x <> rid) as Hdist.
  { intros Hlen s' x Hx Heq. destruct gi_alloc0 as [Hal _].
    pose proof (ids_upto_nodup first _ Hlen) as Hnd. rewrite <-Hal in Hnd.
    apply submseteq_Permutation in gi_ids0 as [rest Hperm]. rewrite Hperm in Hnd.
    apply NoDup_app in Hnd as (Hnd & _). apply NoDup_app in Hnd as (_ & Hdis & _).
    apply (Hdis rid); [|set_solver]. apply list_elem_of_fmap. exists x. split; [done|].
    by eapply list_elem_of_lookup_2. }
  constructor; cbn [register_session set_metrics set_sessions g_sessions g_active g_allocated
    g_next_id g_submitted g_metrics].
  - rewrite fmap_app, <-app_assoc. exact gi_ids0.
  - done.
  - intros rid' s' Hr. apply lookup_insert_Some in Hr as [[<- <-]|[Hne Hr]].
    + eexists. rewrite lookup_app_r, Nat.sub_diag by done. done.
    + destruct (gi_table0 rid' s' Hr) as (x & Hx & Hid). exists x.
      by rewrite lookup_app_l by by eapply lookup_lt_Some.
  - intros s' x Hx. apply lookup_app_Some in Hx as [Hx|[Hle Hx]].
    + assert (s' <> s) by (apply lookup_lt_Some in Hx; unfold s; lia).
      assert (session_ok w (TPump s :: TReader s [] :: G) s' x) as Hok.
      { eapply session_ok_frame; [done|done| |by apply gi_sessions0]. by apply Habout. }
      destruct (decide (gs_request_id x = rid)) as [Hid|Hid].
      * destruct Hok. constructor; cbn; try done.
        -- rewrite Hid, lookup_insert_eq. intros [= Hs']. by destruct (eq_sym Hs').
        -- intros Hlen. by destruct (Hdist Hlen s' x Hx).
      * eapply (session_ok_frame w); [|done|done|exact Hok]. cbn. by rewrite lookup_insert_ne.
    + apply list_lookup_singleton_Some in Hx as [Heq <-].
      assert (s' = s) as -> by (unfold s; lia). constructor; cbn; try done.
      * intros []. left.
      * intros _. left.
      * by rewrite lookup_insert_eq.
      * exists []. split_and!; auto using prefix_nil.
      * intros c [?|[[= ->]|Hc]%elem_of_cons]%elem_of_cons; [done|done|].
        destruct Hnewr. by eapply readers_about; [exact Hc|apply bool_decide_eq_true|].
      * intros c t [?|[?|Hc]%elem_of_cons]%elem_of_cons; [done|done|].
        destruct Hnewr. by eapply readers_about; [exact Hc|apply bool_decide_eq_true|].
      * left. left. exists []. right. left.
  - cbn. fold (pumps G). rewrite length_app. destruct gi_pumps0 as [Hnd Hlt]. split.
    + apply NoDup_cons. by rewrite pumps_spec.
    + constructor; [simpl; lia|]. eapply Forall_impl; [exact Hlt|]. simpl. lia.
  - change (readers _) with (s :: readers G). rewrite length_app. destruct gi_readers0 as [Hnd Hlt]. split.
    + by apply NoDup_cons.
    + constructor; [simpl; lia|]. eapply Forall_impl; [exact Hlt|]. simpl. lia.
  - cbn -[metric_accepted]. fold (pumps G) (offers G).
    rewrite length_app, sum_list_with_app, Nat.add_1_r. cbn [sum_list_with buffered].
    replace (sum_list_with buffered (g_sessions w) + (buffered _ + 0))%nat
      with (sum_list_with buffered (g_sessions w)) by (cbn; lia).
    eapply metrics_accepted; [exact gi_metrics0|done].
  - done.
Qed.

Lemma ginv_init : gateway_inv (init_gworld (id_at first 0)) [].
Proof.
  constructor; cbn; try done; by repeat constructor.
Qed.

(** A token for what others may wait for says nothing about the sessions. *)
Lemma ginv_hold w h G : gateway_inv w (THold h :: G) <-> gateway_inv w G.
Proof.
  split; intros HI; (eapply (ginv_tokens w _ _ _); [..|exact HI]); try done; try apply HI; intros s g Hg;
    [symmetry|]; by apply (silent_cons (THold h) G) with s.
Qed.

End Inv.

(** ** Locks and tasks *)

(** Whatever a coroutine may wait for has an owner. *)
Definition glocks_ok (w : gworld) (G : list gtoken) : Prop :=
  (g_connection_lock w = true -> HConn ∈ gholds G)
  /\ (forall s, session_flag gs_cancel_lock s w = true -> HCancel s ∈ gholds G)
  /\ (forall t, t ∈ g_detached_tasks w -> HTask t ∈ gholds G)
  /\ (forall t, t ∈ g_gathered w -> HDrain t ∈ gholds G).

(** [w'] has no lock taken and no task running that [w] has not. *)
Definition locks_le (w' w : gworld) : Prop :=
  (g_connection_lock w' = true -> g_connection_lock w = true)
  /\ (forall s, session_flag gs_cancel_lock s w' = true -> session_flag gs_cancel_lock s w = true)
  /\ g_detached_tasks w' ⊆ g_detached_tasks w /\ g_gathered w' ⊆ g_gathered w.

#[global] Instance locks_le_preorder : PreOrder locks_le.
Proof.
  split; [by intros w|]. intros w1 w2 w3 (A1 & A2 & A3 & A4) (B1 & B2 & B3 & B4).
  split_and!; [auto|auto|set_solver|set_solver].
Qed.

Lemma glocks_mono w w' G G' : gholds G' = gholds G -> locks_le w' w -> glocks_ok w G -> glocks_ok w' G'.
Proof.
  intros HG (A1 & A2 & A3 & A4) (H1 & H2 & H3 & H4). unfold glocks_ok. rewrite HG. split_and!; auto.
Qed.

Lemma glocks_perm w G G' : G ≡ₚ G' -> glocks_ok w G -> glocks_ok w G'.
Proof.
  intros HG (H1 & H2 & H3 & H4). unfold glocks_ok. split_and!; intros; rewrite <-HG; auto.
Qed.

(** Assignments to one session that do not take its lock. *)
Lemma locks_le_update w w' s (f : GatewaySession -> GatewaySession) :
  g_sessions w' = alter f s (g_sessions w) -> (forall x, gs_cancel_lock (f x) = gs_cancel_lock x) ->
  g_connection_lock w' = g_connection_lock w -> g_detached_tasks w' = g_detached_tasks w ->
  g_gathered w' = g_gathered w -> locks_le w' w.
Proof.
  intros Hs Hf Hc Hd Hg. unfold locks_le, session_flag. rewrite Hs, Hc, Hd, Hg. split_and!; try done.
  intros s'. destruct (decide (s = s')) as [<-|]; [|by rewrite list_lookup_alter_ne].
  rewrite list_lookup_alter_eq. destruct (g_sessions w !! s) as [x|]; [|done]. simpl. by rewrite Hf.
Qed.

Lemma locks_le_same w w' : g_sessions w' = g_sessions w -> g_connection_lock w' = g_connection_lock w ->
  g_detached_tasks w' = g_detached_tasks w -> g_gathered w' = g_gathered w -> locks_le w' w.
Proof. intros Hs Hc Hd Hg. unfold locks_le, session_flag. by rewrite Hs, Hc, Hd, Hg. Qed.

Ltac locks := first [reflexivity | by apply locks_le_same | by eapply locks_le_update].

Section Regions.
Context `{T : Tokenizer} (options : GatewayRuntimeOptions).

Lemma cancel_sent_locks s reason sent w : locks_le (cancel_sent_to_worker s reason sent w).1 w.
Proof. unfold cancel_sent_to_worker. destruct sent; locks. Qed.
Lemma drain_wait_locks s w : locks_le (drain_wait s w).1 w.
Proof. unfold drain_wait. case_match; locks. Qed.
Lemma take_gevent_locks s w : locks_le (take_gevent s w).1 w.
Proof. unfold take_gevent. repeat (case_match; try locks). Qed.
Lemma abandon_locks s w : locks_le (abandon s w) w.
Proof. unfold abandon. repeat (case_match; try locks). Qed.
Lemma pump_delta_locks s d w : locks_le (pump_delta s d w).1 w.
Proof. unfold pump_delta. repeat (case_match; try locks). Qed.
Lemma finish_locks s t w : locks_le (_finish s t w).1 w.
Proof. unfold _finish. repeat (case_match; try locks). Qed.
Lemma pump_exit_locks s w : locks_le (pump_exit s w) w.
Proof.
  unfold pump_exit, session_finished. etrans; [|by apply (locks_le_update w (update_session w s
    (fun x => with_end x true (gs_terminal x))) s (fun x => with_end x true (gs_terminal x)))].
  repeat (case_match; try locks).
Qed.
Lemma pump_failed_locks s e w : locks_le (pump_failed s e w).1 w.
Proof.
  unfold pump_failed. pose proof (finish_locks s (failure_of e) w) as Hf. destruct (_finish _ _ w) as [w' r].
  etrans; [apply pump_exit_locks|done].
Qed.
Lemma pump_terminal_locks s t w : locks_le (pump_terminal s t w).1 w.
Proof.
  unfold pump_terminal. cbn zeta. match goal with |- context [_finish s ?t' w] =>
    pose proof (finish_locks s t' w) as Hf; destruct (_finish s t' w) as [w' r] end.
  destruct r; (etrans; [|exact Hf]); [apply pump_exit_locks|apply pump_failed_locks].
Qed.
Lemma register_locks rid w : locks_le (register_session options rid w) w.
Proof.
  split_and!; try done. unfold session_flag. cbn. intros s. destruct (decide (s < length (g_sessions w))%nat).
  - by rewrite lookup_app_l.
  - rewrite lookup_app_r by lia. by destruct (s - _)%nat.
Qed.
End Regions.
