(* ===== verification/GatewaySafe.v ===== *)
(** Every coroutine of the service (the pump, the drains, start, readiness, submit's
    parts, detach and stop) keeps the invariant of [GatewayInv] under every
    interleaving.  [SystemSafe] does the same for the coroutines of the HTTP layer. *)
From Stdlib Require Import ZArith Lia Ascii String SpecFloat.
From stdpp Require Import base list numbers strings gmap.
From S2P Require Import Prelude PyFloat Json Protocol ProtocolFacts ProtocolWire Threads.
From S2P Require Import GatewayBase OpenAI OpenAIFacts Metrics Gateway.
From S2P Require Import Api System GatewayInv.
Local Open Scope Z_scope.

Section Safe.
Context `{T : Tokenizer} `{TOk : !TokenizerOk T}.
Context (manifest : ModelManifest) (options : GatewayRuntimeOptions) (first : Z).
Context (Hcap : 0 <= max_sse_delta_events_per_request options).

Definition ginv (w : gworld) (G : list gtoken) : Prop :=
  gateway_inv manifest options first w G /\ glocks_ok w G.

Lemma ginv_perm w G G' : G ≡ₚ G' -> ginv w G -> ginv w G'.
Proof. intros HG [? ?]. split; [by eapply gateway_inv_perm|by eapply glocks_perm]. Qed.

(** What a stream has yielded and is about to yield, when it has taken these texts
    and perhaps the Terminal. *)
Definition stream_script (d : delivery) (taken : list text) (terminal : option GatewayTerminal)
  : list (result gexn bytes) :=
  sse (role_chunk (dl_completion_id d) (dl_created d) (dl_model d)) ::
  ((fun t => sse (content_chunk (dl_completion_id d) (dl_created d) (dl_model d) t)) <$> taken) ++
  match terminal with
  | Some t => terminal_frames (dl_completion_id d) (dl_created d) (dl_model d) (dl_include_usage d) t
  | None => []
  end.

Definition phase_rest (phase : stream_phase) : list (result gexn bytes) :=
  match phase with SLooping => [] | SSuspended _ rest => rest end.

(** A stream that goes on has kept to the script. *)
Definition delivery_ok (k : gtask) : Prop :=
  match k with
  | TaskStream d taken frames phase =>
      (Ok <$> frames) ++ phase_rest phase = stream_script d taken (phase_terminal phase)
  | _ => True
  end.

(** The consumer of a session until it has the Terminal, and from then on. *)
Definition stream_tokens (s : nat) (taken : list text) (terminal : option GatewayTerminal) : list gtoken :=
  match terminal with Some t => [TDone s taken t] | None => [TReader s taken] end.

(** The pump of a session owns the session's end until it ends; a gathered drain
    owns its end, a detached one also has to abandon its session; a delivery takes
    the events of its session. *)
Definition task_res (k : gtask) : list gtoken :=
  match k with
  | TaskPump s => [TPump s]
  | TaskDrain task _ => [THold (HDrain task)]
  | TaskDetach task s _ => [THold (HTask task); TDetach s]
  | TaskCollect d chunks => [TReader (dl_session d) chunks]
  | TaskStream d taken _ phase => stream_tokens (dl_session d) taken (phase_terminal phase)
  end.

(** No lock is held. *)
Definition patient (O : list gtoken) : Prop := (forall s, HCancel s ∉ gholds O) /\ HConn ∉ gholds O.

(** Where a coroutine may wait, and with what: for a lock without holding one;
    for tasks with nothing another could wait for. *)
Inductive gwait : (gworld -> bool) -> list gtoken -> Prop :=
| gwait_cancel s O : patient O -> gwait (fun w => negb (session_flag gs_cancel_lock s w)) O
| gwait_connection O : patient O -> gwait (fun w => negb (g_connection_lock w)) O
| gwait_gathered tasks : gwait (gathered tasks) []
| gwait_detached tasks : gwait (all_detached tasks) [].

Abbreviation gsafe := (safe (E := gexn) (I := greply) ginv gwait delivery_ok task_res).
Implicit Types (O : list gtoken) (w : gworld).

(** A region that keeps the invariant whatever the tokens. *)
Definition keeps (f : gworld -> gworld) : Prop :=
  forall w, (forall G, gateway_inv manifest options first w G -> gateway_inv manifest options first (f w) G)
            /\ locks_le (f w) w.

Lemma keeps_ginv f w G : keeps f -> ginv w G -> ginv (f w) G.
Proof. intros Hf [HI HL]. destruct (Hf w) as [H1 H2]. split; [auto|by eapply glocks_mono]. Qed.

Lemma gsafe_keeps {A} (f : gworld -> gworld * result gexn A) O
  (post : result gexn A -> list gtoken -> Prop) :
  keeps (fun w => (f w).1) -> (forall w, post (f w).2 O) -> gsafe (region f) O post.
Proof.
  intros Hf Hp. apply safe_region. intros w F HI. exists O. split; [|done].
  by apply (keeps_ginv (fun w => (f w).1)).
Qed.

(** A region that also changes tokens, other than those of locks and tasks. *)
Lemma gsafe_tokens {A} (f : gworld -> gworld * result gexn A) O O' (post : result gexn A -> list gtoken -> Prop) :
  gholds O' = gholds O -> (forall w, locks_le (f w).1 w) ->
  (forall w F, gateway_inv manifest options first w (O ++ F) ->
     gateway_inv manifest options first (f w).1 (O' ++ F) /\ post (f w).2 O') ->
  gsafe (region f) O post.
Proof.
  intros HO Hl Hf. apply safe_region. intros w F [HI HL]. destruct (Hf w F HI) as [HI' Hp].
  exists O'. split; [split; [done|]|done]. eapply glocks_mono; [|apply Hl|exact HL].
  unfold gholds in *. by rewrite !omap_app, HO.
Qed.

(** Regions that touch nothing the invariant of the sessions mentions. *)
Lemma ginv_unchanged w w' G :
  g_sessions w' = g_sessions w -> g_active w' = g_active w -> g_allocated w' = g_allocated w ->
  g_next_id w' = g_next_id w -> g_submitted w' = g_submitted w -> g_metrics w' = g_metrics w ->
  gateway_inv manifest options first w G -> gateway_inv manifest options first w' G.
Proof. intros ? ? ? ? ? Hm HI. eapply (ginv_same _ _ _ w); [done..| |exact HI]. rewrite Hm. apply HI. Qed.

Ltac guntouched := intros ?; split; [intros ?; by apply ginv_unchanged|by apply locks_le_same].

Lemma keeps_id : keeps (fun w => w).
Proof. done. Qed.

(** *** Taking and giving up what others may wait for *)

Lemma ginv_take h w w' G : gateway_inv manifest options first w' G ->
  (g_connection_lock w' = true -> h = HConn \/ g_connection_lock w = true) ->
  (forall s, session_flag gs_cancel_lock s w' = true -> h = HCancel s \/ session_flag gs_cancel_lock s w = true) ->
  (forall t, t ∈ g_detached_tasks w' -> h = HTask t \/ t ∈ g_detached_tasks w) ->
  (forall t, t ∈ g_gathered w' -> h = HDrain t \/ t ∈ g_gathered w) ->
  glocks_ok w G -> ginv w' (THold h :: G).
Proof.
  intros HI A1 A2 A3 A4 (H1 & H2 & H3 & H4). split; [by apply ginv_hold|].
  unfold glocks_ok. cbn. fold (gholds G). split_and!.
  - intros Hc. rewrite elem_of_cons. destruct (A1 Hc) as [->|?]; auto.
  - intros s Hs. rewrite elem_of_cons. destruct (A2 s Hs) as [->|?]; auto.
  - intros t Ht. rewrite elem_of_cons. destruct (A3 t Ht) as [->|?]; auto.
  - intros t Ht. rewrite elem_of_cons. destruct (A4 t Ht) as [->|?]; auto.
Qed.

Lemma ginv_give h w w' G : (gateway_inv manifest options first w G -> gateway_inv manifest options first w' G) ->
  locks_le w' w -> 
  (h = HConn -> g_connection_lock w' = false) ->
  (forall s, h = HCancel s -> session_flag gs_cancel_lock s w' = false) ->
  (forall t, h = HTask t -> t ∉ g_detached_tasks w') -> (forall t, h = HDrain t -> t ∉ g_gathered w') ->
  ginv w (THold h :: G) -> ginv w' G.
Proof.
  intros HI (L1 & L2 & L3 & L4) A1 A2 A3 A4 [HI' (H1 & H2 & H3 & H4)].
  split; [by apply HI, (ginv_hold manifest options first w h G)|]. clear HI HI'.
  cbn in H1, H2, H3, H4. fold (gholds G) in *. setoid_rewrite elem_of_cons in H2.
  setoid_rewrite elem_of_cons in H3. setoid_rewrite elem_of_cons in H4. rewrite elem_of_cons in H1.
  unfold glocks_ok. split_and!.
  - intros Hc. destruct (H1 (L1 Hc)) as [<-|?]; [|done]. by rewrite A1 in Hc.
  - intros s Hs. destruct (H2 s (L2 s Hs)) as [<-|?]; [|done]. by rewrite A2 in Hs.
  - intros t Ht. destruct (H3 t (L3 t Ht)) as [<-|?]; [|done]. by destruct (A3 t).
  - intros t Ht. destruct (H4 t (L4 t Ht)) as [<-|?]; [|done]. by destruct (A4 t).
Qed.

(** *** Programs that need and change no token; [P] are the tokens they may be
    run with *)

Definition quiet {A} (P : list gtoken -> Prop) (p : gprog A) : Prop :=
  forall O, P O -> gsafe p O (fun _ O' => O' = O).

Definition anything (O : list gtoken) : Prop := True.

Lemma quiet_post {A} P (p : gprog A) O (post : result gexn A -> list gtoken -> Prop) :
  quiet P p -> P O -> (forall r, post r O) -> gsafe p O post.
Proof. intros Hq HO Hp. eapply safe_mono; [|by apply Hq]. by intros r O' ->. Qed.

Lemma quiet_anything {A} P (p : gprog A) : quiet anything p -> quiet P p.
Proof. intros Hq O _. by apply Hq. Qed.

Section Quiet.
Context (P : list gtoken -> Prop).

Lemma quiet_done {A} (r : result gexn A) : quiet P (Done r).
Proof. done. Qed.
Lemma quiet_ask {A} (k : greply -> gprog A) : (forall a, quiet P (k a)) -> quiet P (Ask k).
Proof. intros Hk O HO a. by apply Hk. Qed.
Lemma quiet_seq {A B} (p : gprog A) (k : result gexn A -> gprog B) :
  quiet P p -> (forall r, quiet P (k r)) -> quiet P (pseq p k).
Proof. intros Hp Hk O HO. apply safe_seq. eapply quiet_post; [done..|]. intros r. by apply Hk. Qed.
Lemma quiet_bind {A B} (p : gprog A) (k : A -> gprog B) :
  quiet P p -> (forall a, quiet P (k a)) -> quiet P (pbind p k).
Proof. intros Hp Hk. apply quiet_seq; [done|]. by intros [a|e]. Qed.
Lemma quiet_try {A} (p : gprog A) h : quiet P p -> (forall e, quiet P (h e)) -> quiet P (ptry p h).
Proof. intros Hp Hh. apply quiet_seq; [done|]. by intros [a|e]. Qed.
Lemma quiet_region {A} (f : gworld -> gworld * result gexn A) : keeps (fun w => (f w).1) -> quiet P (region f).
Proof. intros Hf O HO. by apply gsafe_keeps. Qed.
Lemma quiet_for {B} (l : list B) body : (forall b, quiet P (body b)) -> quiet P (pfor l body).
Proof. intros Hb. induction l; simpl; [done|]. by apply quiet_bind. Qed.
Lemma quiet_ask_unit : quiet P ask_unit.
Proof. apply quiet_ask. intros. apply quiet_done. Qed.
Lemma quiet_ask_bool : quiet P ask_bool.
Proof. apply quiet_ask. intros. apply quiet_done. Qed.
Lemma quiet_ask_stats : quiet P ask_stats.
Proof. apply quiet_ask. intros. apply quiet_done. Qed.
Lemma quiet_ask_event : quiet P ask_event.
Proof. apply quiet_ask. intros. apply quiet_done. Qed.
End Quiet.

(** [try: p finally: release] where the release gives up the token [h]. *)
Lemma gsafe_release {A} h (p : gprog A) (f : gworld -> gworld) O (post : result gexn A -> list gtoken -> Prop) :
  gsafe p (THold h :: O) (fun r O' => exists O1, O' = THold h :: O1 /\ post r O1) ->
  (forall w G, ginv w (THold h :: G) -> ginv (f w) G) ->
  gsafe (pfinally p (region (fun w => (f w, Ok tt)))) (THold h :: O) post.
Proof.
  intros Hp Hf. apply safe_finally. eapply safe_mono; [|exact Hp]. intros r O' (O1 & -> & Hr).
  apply safe_region. intros w F HI. exists O1. split; [by apply Hf|done].
Qed.

(** *** Locks *)

Lemma update_flag w s s' f : session_flag gs_cancel_lock s' (update_session w s f) = true ->
  s' = s \/ session_flag gs_cancel_lock s' w = true.
Proof.
  unfold session_flag. cbn. destruct (decide (s = s')) as [<-|]; [by left|].
  rewrite list_lookup_alter_ne by done. by right.
Qed.

Lemma released_flag w s : session_flag gs_cancel_lock s
  (update_session w s (fun x => with_cancel x false (gs_cancel_sent x))) = false.
Proof. unfold session_flag. cbn. rewrite list_lookup_alter_eq. by destruct (g_sessions w !! s). Qed.

Lemma released_locks w s :
  locks_le (update_session w s (fun x => with_cancel x false (gs_cancel_sent x))) w.
Proof.
  split_and!; try done. intros s' Hs'. destruct (update_flag _ _ _ _ Hs') as [->|?]; [|done].
  by rewrite released_flag in Hs'.
Qed.

Lemma quiet_cancel_lock {A} s (p : gprog A) : quiet anything p -> quiet patient (with_cancel_lock s p).
Proof.
  intros Hp O HO. apply safe_atomic; [right; by constructor|]. intros w F _ [HI HL].
  exists (THold (HCancel s) :: O). split.
  { apply (ginv_take _ w); try (intros; by right); [by apply ginv_cancel_lock| |done].
    intros s' [->|?]%update_flag; auto. }
  apply gsafe_release.
  - eapply quiet_post; [exact Hp|done|]. intros r. by exists O.
  - intros w' G. apply ginv_give; try done.
    + apply ginv_cancel_lock.
    + apply released_locks.
    + intros s' [= <-]. apply released_flag.
Qed.

Lemma quiet_connection_lock {A} (p : gprog A) : quiet anything p -> quiet patient (with_connection_lock p).
Proof.
  intros Hp O HO. apply safe_atomic; [right; by constructor|]. intros w F _ [HI HL].
  exists (THold HConn :: O). split.
  { apply (ginv_take _ w); try (intros; by right); [|by left|done]. by eapply ginv_unchanged, HI. }
  apply gsafe_release.
  - eapply quiet_post; [exact Hp|done|]. intros r. by exists O.
  - intros w' G. apply ginv_give; try done.
    by apply ginv_unchanged.
Qed.

Lemma quiet_cancel s reason : quiet patient (cancel s reason).
Proof.
  apply quiet_cancel_lock. apply quiet_bind; [by apply quiet_region|]. intros [d c]. cbn [fst snd].
  destruct d; [apply quiet_done|]. destruct c; [apply quiet_done|]. apply quiet_bind.
  - apply quiet_try; [apply quiet_ask_bool|]. intros e. repeat case_match; apply quiet_done.
  - intros sent. apply quiet_region. intros w. split; [intros; by apply ginv_cancel_sent|apply cancel_sent_locks].
Qed.

Lemma quiet_drain s reason : quiet patient (cancel_and_drain s reason).
Proof.
  apply quiet_bind; [apply quiet_cancel|]. intros. apply quiet_region.
  intros w. split; [intros; by apply ginv_drain|apply drain_wait_locks].
Qed.

Lemma quiet_readiness : quiet patient check_readiness.
Proof.
  apply quiet_bind; [by apply quiet_region|]. intros stopping. destruct stopping; [apply quiet_done|].
  apply quiet_connection_lock, quiet_bind; [|intros; apply quiet_region; guntouched]. apply quiet_try.
  - apply quiet_bind; [apply quiet_ask_bool|]. intros connected.
    apply quiet_bind; [destruct connected; [apply quiet_done|apply quiet_ask_unit]|].
    intros u. apply quiet_bind; [apply quiet_ask_stats|]. intros. apply quiet_done.
  - intros e. apply quiet_bind; [apply quiet_region; guntouched|intros; apply quiet_done].
Qed.

Lemma quiet_start : quiet patient start.
Proof.
  apply quiet_bind; [apply quiet_region; guntouched|]. intros u. apply quiet_try.
  - apply quiet_bind; [apply quiet_readiness|intros; apply quiet_done].
  - intros e. destruct e; apply quiet_done.
Qed.

Lemma keeps_abandon s : keeps (abandon s).
Proof. intros w. split; [intros; by apply ginv_abandon|apply abandon_locks]. Qed.

(** ** Tasks *)

Lemma patient_nil : patient [].
Proof. split; intros; apply not_elem_of_nil. Qed.

Definition no_locks (O : list gtoken) : Prop := Forall (fun g => match g with THold (HCancel _) | THold HConn => False | _ => True end) O.

Lemma no_locks_patient O : no_locks O -> patient O.
Proof using Type.
  intros HO. assert (forall h, h ∈ gholds O -> match h with HCancel _ | HConn => False | _ => True end) as H.
  { induction HO as [|g O Hg _ IH]; [by intros h ?%not_elem_of_nil|]. intros h. destruct g; cbn; try apply IH.
    rewrite elem_of_cons. intros [->|?]; [done|by apply IH]. }
  split; [intros s Hs|intros Hs]; by apply H in Hs.
Qed.

Lemma leave_task_ginv task w G : ginv w (THold (HTask task) :: G) -> ginv (leave_task task w) G.
Proof.
  apply ginv_give; try done.
  - by apply ginv_unchanged.
  - split_and!; try done. cbn. set_solver.
  - intros t [= <-]. cbn. set_solver.
Qed.

Lemma leave_drain_ginv task w G : ginv w (THold (HDrain task) :: G) -> ginv (leave_drain task w) G.
Proof.
  apply ginv_give; try done.
  - by apply ginv_unchanged.
  - split_and!; try done. cbn. set_solver.
  - intros t [= <-]. cbn. set_solver.
Qed.

Lemma enter_task_ginv w G : ginv w G -> exists t, (enter_task w).2 = Ok t
  /\ ginv (enter_task w).1 (THold (HTask t) :: G).
Proof.
  intros [HI HL]. eexists. split; [done|]. apply (ginv_take _ w); try done; try (intros; by right).
  - by eapply ginv_unchanged, HI.
  - intros t. cbn. rewrite elem_of_union, elem_of_singleton. naive_solver.
Qed.

Lemma enter_drain_ginv w G : ginv w G -> exists t, (enter_drain w).2 = Ok t
  /\ ginv (enter_drain w).1 (THold (HDrain t) :: G).
Proof.
  intros [HI HL]. eexists. split; [done|]. apply (ginv_take _ w); try done; try (intros; by right).
  - by eapply ginv_unchanged, HI.
  - intros t. cbn. rewrite elem_of_union, elem_of_singleton. naive_solver.
Qed.

(** ** Detached drains *)

(** The tokens of [O] change by a step that keeps the invariant of the sessions. *)
Lemma ginv_step w w' O O' G : gholds O' = gholds O -> locks_le w' w ->
  (gateway_inv manifest options first w (O ++ G) -> gateway_inv manifest options first w' (O' ++ G)) ->
  ginv w (O ++ G) -> ginv w' (O' ++ G).
Proof.
  intros HO Hl Hf [HI HL]. split; [by apply Hf|]. eapply glocks_mono; [|exact Hl|exact HL].
  unfold gholds in *. by rewrite !omap_app, HO.
Qed.

Lemma gsafe_detach s reason c :
  gsafe (detach_cancel_and_drain s reason) [TReader s c] (fun r O => r = Ok tt /\ O = []).
Proof.
  apply safe_bind, safe_region. intros w F HI.
  assert (ginv w (TDetach s :: F)) as HI1.
  { apply (ginv_step w w [TReader s c] [TDetach s] F); [done|reflexivity|apply ginv_detached|done]. }
  destruct (enter_task_ginv w _ HI1) as (t & Ht & HI').
  exists [THold (HTask t); TDetach s]. split; [exact HI'|]. rewrite Ht.
  split; [done|]. by exists [].
Qed.

Lemma gsafe_detach_task task s reason :
  gsafe (detach_task task s reason) [THold (HTask task); TDetach s]
    (fun r O => match r with Ok (GVBool _) => O = [] | Ok _ => False | Err _ => O = [TDetach s] end).
Proof.
  apply gsafe_release; [|intros; by apply leave_task_ginv].
  apply safe_bind. eapply quiet_post; [apply quiet_drain|apply no_locks_patient; by repeat constructor|].
  intros [b|e]; [|by eexists]. apply safe_bind, (gsafe_tokens _ _ [THold (HTask task)]);
    [done|intros; apply abandon_locks|]. intros w F HI. split; [|by eexists].
  apply ginv_abandon_detached. eapply gateway_inv_perm; [|exact HI]. by constructor.
Qed.

(** ** Shutdown *)

Lemma gsafe_start_drains sessions :
  gsafe (start_drains sessions) [] (fun r O => O = [] /\ exists tasks, r = Ok tasks).
Proof.
  induction sessions as [|s sessions IH]; [by split; [|exists []]|].
  apply safe_bind, safe_region. intros w F HI. destruct (enter_drain_ginv w F HI) as (t & Ht & HI').
  exists [THold (HDrain t)]. split; [exact HI'|]. rewrite Ht. split; [done|]. exists []. split; [done|].
  apply safe_bind. eapply safe_mono; [|exact IH]. intros r O (-> & tasks & ->). split; [done|]. by exists (t :: tasks).
Qed.

Lemma gsafe_wait ready O (post : result gexn unit -> list gtoken -> Prop) :
  gwait ready O -> post (Ok tt) O -> gsafe (wait_tasks ready) O post.
Proof. intros Hw Hp. apply safe_atomic; [by right|]. intros w F _ HI. by exists O. Qed.

(** A coroutine that answers: it owns nothing then, and does not go on. *)
Definition answer (v : gvalue) : Prop := match v with GVNext _ | GVNeverStarted _ => False | _ => True end.
Definition answers (p : gprog gvalue) : Prop :=
  gsafe p [] (fun r O => O = [] /\ match r with Ok v => answer v | Err _ => True end).

Lemma answers_bind {A} (p : gprog A) k : quiet patient p -> (forall a, answers (k a)) -> answers (pbind p k).
Proof.
  intros Hp Hk. apply safe_bind. eapply quiet_post; [exact Hp|apply patient_nil|]. intros [a|e]; [apply Hk|done].
Qed.
Lemma answers_try p h : answers p -> (forall e, answers (h e)) -> answers (ptry p h).
Proof. intros Hp Hh. apply safe_try. eapply safe_mono; [|exact Hp]. by intros [v|e] O [-> Hv]; [|apply Hh]. Qed.
Lemma answers_value v : answer v -> answers (greturn v).
Proof. by split. Qed.
Lemma answers_raise e : answers (graise e).
Proof. by split. Qed.

Lemma answers_stop : answers stop.
Proof.
  apply answers_bind.
  { apply quiet_region. intros w. unfold begin_stop. destruct (g_stopping w); [done|]. revert w. guntouched. }
  intros [sessions|]; [|by apply answers_value].
  apply safe_bind. eapply safe_mono; [|apply gsafe_start_drains]. intros r O (-> & tasks & ->).
  apply safe_bind, gsafe_wait; [constructor|]. apply answers_bind; [apply quiet_ask_unit|]. intros u.
  apply answers_bind; [apply quiet_for; intros s; apply quiet_region, keeps_abandon|]. intros u'.
  apply answers_bind; [by apply quiet_region|]. intros tasks'.
  apply safe_bind, gsafe_wait; [constructor|]. by apply answers_value.
Qed.

(** ** The pump and the drains of [stop] *)

Lemma quiet_pump_event s : quiet patient (pump_event s).
Proof.
  apply quiet_bind; [apply quiet_ask_event|]. intros [d|t]; [|apply quiet_done].
  apply quiet_bind.
  { apply quiet_region. intros w. split; [intros; by apply ginv_pump_delta|apply pump_delta_locks]. }
  intros [|reason]; [apply quiet_done|].
  apply quiet_bind; [apply quiet_cancel|intros; apply quiet_done].
Qed.

Lemma gsafe_pump s : gsafe (_pump s) [TPump s] (fun r O =>
  (r = Ok (GVNext (TaskPump s)) /\ O = [TPump s]) \/ (r = Ok GVStop /\ O = [])).
Proof.
  apply safe_seq. eapply quiet_post; [apply quiet_pump_event|apply no_locks_patient; by repeat constructor|].
  intros [[t|]|e].
  - apply (gsafe_tokens _ _ []); [done|intros; apply pump_terminal_locks|]. intros w F HI.
    destruct (ginv_pump_terminal manifest options first w F s t HI) as [HI' ->]. split; [done|]. by right.
  - by left.
  - apply (gsafe_tokens _ _ []); [done|intros; apply pump_failed_locks|]. intros w F HI.
    destruct (ginv_pump_failed manifest options first w F s e HI) as [HI' ->]. split; [done|]. by right.
Qed.

Lemma gsafe_drain_task task s : gsafe (drain_task task s) [THold (HDrain task)]
  (fun r O => match r with Ok v => v = GVStop | Err _ => True end /\ O = []).
Proof.
  apply gsafe_release; [|intros; by apply leave_drain_ginv].
  apply safe_bind. eapply quiet_post; [apply quiet_drain|apply no_locks_patient; by repeat constructor|].
  intros [b|e]; by eexists.
Qed.

End Safe.
