(* ===== verification/SystemSafe.v ===== *)
(** Every coroutine of the application keeps the invariant of [GatewayInv] under
    every interleaving: the deliveries, submissions and endpoints, on top of the
    service's in [GatewaySafe]; hence the invariant of all reachable states, and
    what coroutines that are over leave behind. *)
From Stdlib Require Import ZArith Lia Ascii String SpecFloat.
From stdpp Require Import base list numbers strings gmap.
From S2P Require Import Prelude PyFloat Json Protocol ProtocolFacts ProtocolWire Threads.
From S2P Require Import GatewayBase OpenAI OpenAIFacts Metrics Gateway.
From S2P Require Import Api System GatewayInv GatewaySafe.
Local Open Scope Z_scope.

Section Safe.
Context `{T : Tokenizer} `{TOk : !TokenizerOk T}.
Context (manifest : ModelManifest) (options : GatewayRuntimeOptions) (first : Z).
Context (Hcap : 0 <= max_sse_delta_events_per_request options).

Abbreviation ginv := (ginv manifest options first).
Abbreviation gsafe := (safe (E := gexn) (I := greply) ginv gwait delivery_ok task_res).
Abbreviation answers := (answers manifest options first).
Abbreviation quiet := (quiet manifest options first).
Implicit Types (O : list gtoken) (w : gworld).

Ltac guntouched := intros ?; split; [intros ?; by apply ginv_unchanged|by apply locks_le_same].

(** ** Deliveries *)

Lemma take_gevent_raises s w e : (take_gevent s w).2 = Err e -> exists x, e = OtherExn x.
Proof.
  unfold take_gevent. destruct (g_sessions w !! s) as [x|]; [|intros [= <-]; eauto].
  destruct (aget_spec (gs_buffer x)); cbn; try done. intros [= <-]. eauto.
Qed.

Lemma gsafe_next_event s c (post : result gexn GatewayEvent -> list gtoken -> Prop) :
  (forall t, post (Ok (GTextDelta t)) [TReader s (c ++ [t])]) ->
  (forall t, post (Ok (GTerminal t)) [TDone s c t]) ->
  (forall x, post (Err (OtherExn x)) [TReader s c]) ->
  gsafe (gnext_event s true) [TReader s c] post.
Proof.
  intros Hd Ht He. apply safe_atomic; [left; intros; apply orb_true_r|]. intros w F _ HI.
  exists [after_take s c (take_gevent s w).2]. split.
  - eapply (ginv_step manifest options first w _ [TReader s c]); [|apply take_gevent_locks|apply ginv_take_gevent|exact HI].
    by destruct (take_gevent s w).2 as [[]|].
  - cbn [safe]. destruct (take_gevent s w).2 as [[t|t]|e] eqn:Hr; cbn [after_take]; [apply Hd|apply Ht|].
    destruct (take_gevent_raises _ _ _ Hr) as [x ->]. apply He.
Qed.

(** What a round of awaits leaves of the consumer's token. *)
Definition round_tokens (s : nat) (c : list text) (a : wait) : list gtoken :=
  match a with
  | WEvent (GTextDelta t) => [TReader s (c ++ [t])]
  | WEvent (GTerminal t) => [TDone s c t]
  | _ => [TReader s c]
  end.

Lemma gsafe_await_round s c (post : result gexn wait -> list gtoken -> Prop) :
  (forall a, (forall ge, a <> WRaise (GatewayRaise ge)) -> post (Ok a) (round_tokens s c a)) ->
  gsafe (await_round s) [TReader s c] post.
Proof.
  intros Hp a. destruct a as [r|[[|]|e]|r|r|]; try by apply (Hp (WRaise _)).
  - by apply (Hp WDisconnected).
  - intros a'. assert (gsafe (pseq (gnext_event s true) (fun r => greturn (event_wait r)))
      [TReader s c] post) as Hnext.
    { apply safe_seq, gsafe_next_event; intros x; cbn [event_wait].
      - by apply (Hp (WEvent (GTextDelta x))).
      - by apply (Hp (WEvent (GTerminal x))).
      - destruct x; by apply (Hp (WRaise (OtherExn _))) || by apply (Hp WTimeout). }
    destruct a'; (exact Hnext || by apply (Hp WCancelled)).
  - by apply (Hp WCancelled).
Qed.

(** The end of a delivery: the session is given up unless the Terminal was taken. *)
Definition ended_tokens (s : nat) (c : list text) (terminal : option GatewayTerminal) : list gtoken :=
  match terminal with Some t => [TDone s c t] | None => [] end.

Lemma gsafe_leave {A} s c terminal (p : progress A) value post :
  p <> Waiting ->
  (forall a, p = Returned a -> post (Ok (value a)) (ended_tokens s c terminal)) ->
  (p = Raised None -> post (Ok GVCancelled) (ended_tokens s c terminal)) ->
  (forall e, p = Raised (Some e) -> post (Err e) (ended_tokens s c terminal)) ->
  gsafe (detach_all s (if completed terminal then [] else ["http_disconnect"]);;; finish p value)
    (stream_tokens s c terminal) post.
Proof.
  intros Hw Hr Hc He.
  assert (gsafe (finish p value) (ended_tokens s c terminal) post) as Hf by
    (destruct p as [|a|[e|]]; [done|by apply Hr|by apply He|by apply Hc]).
  destruct terminal as [t|]; [exact Hf|].
  apply safe_bind, safe_bind. eapply safe_mono; [|apply gsafe_detach]. intros r O [-> ->]. exact Hf.
Qed.

(** A delivery that is not streamed: with status 200 it has the texts it took and
    the Terminal of the session. *)
Definition collected (d : delivery) (c : list text) (r : response) (O : list gtoken) : Prop :=
  status_code r = 200 -> exists t, O = [TDone (dl_session d) c t] /\ status_ok (gt_status t) = true
    /\ r = mkResponse 200 (chat_completion_json (dl_completion_id d) (dl_created d) (dl_model d) (concat c) t).

(** No token that others rely on is left. *)
Definition over (O : list gtoken) : Prop :=
  pumps O = [] /\ gholds O = [] /\ offers O = []
  /\ (forall s, TDetach s ∉ O) /\ (forall s c, TReader s c ∉ O).

Lemma over_ended s c terminal : over (ended_tokens s c terminal).
Proof. clear. destruct terminal; split_and!; try done; intros; set_solver. Qed.

Definition collect_post (d : delivery) (c : list text) (r : result gexn gvalue) (O : list gtoken) : Prop :=
  match r with
  | Ok (GVNext k) => (exists c', k = TaskCollect d c') /\ O = task_res k
  | Ok (GVResponse r) => over O /\ collected d c r O
  | Ok GVCancelled => over O
  | Ok _ => False
  | Err _ => over O
  end.

Lemma status_http_not_200 c : status_http c <> 200.
Proof. unfold status_http. by repeat case_bool_decide. Qed.

Lemma gsafe_collect_round d c :
  gsafe (collect_round d c) [TReader (dl_session d) c] (collect_post d c).
Proof.
  apply safe_bind, gsafe_await_round. intros a Hw.
  destruct a as [| |[t|t]|e|]; cbn [collect_step round_tokens].
  - apply (gsafe_leave _ c None); try done. intros a [= <-]. by split; [apply (over_ended 0 [] None)|].
  - split; [by eexists|done].
  - split; [by eexists|done].
  - apply (gsafe_leave _ c (Some t)); cbn [complete_response]; try (by case_match).
    intros a Ha. split; [apply (over_ended _ _ (Some t))|]. case_match; injection Ha as <-; intros Hs.
    + by exists t.
    + by apply status_http_not_200 in Hs.
  - apply (gsafe_leave _ c None); destruct e as [ge| |]; try done; try (by destruct (Hw ge));
      intros; apply (over_ended 0 [] None).
  - apply (gsafe_leave _ c None); try done. intros _. apply (over_ended 0 [] None).
Qed.

(** *** Streams *)

(** A stream that returned after the Terminal has yielded everything. *)
Definition stream_post (d : delivery) (taken : list text) (phase : stream_phase)
  (r : result gexn gvalue) (O : list gtoken) : Prop :=
  match r with
  | Ok (GVNext k) => delivery_ok k /\ (exists c f ph, k = TaskStream d c f ph) /\ O = task_res k
  | Ok GVUnit => over O /\ match phase with
                           | SSuspended (Some t) rest => rest = [] /\ O = [TDone (dl_session d) taken t]
                           | _ => True
                           end
  | Ok GVCancelled => over O
  | Ok _ => False
  | Err _ => over O
  end.

Lemma gsafe_yield d taken frames terminal values (post : result gexn gvalue -> list gtoken -> Prop) :
  (Ok <$> frames) ++ values = stream_script d taken terminal ->
  (forall k, delivery_ok k -> (exists c f ph, k = TaskStream d c f ph) -> post (Ok (GVNext k)) (task_res k)) ->
  (values = [] -> post (Ok GVUnit) (ended_tokens (dl_session d) taken terminal)) ->
  (forall e, post (Err e) (ended_tokens (dl_session d) taken terminal)) ->
  gsafe (stream_go d taken (yield_values frames terminal values)) (stream_tokens (dl_session d) taken terminal) post.
Proof.
  intros Hs Hnext Hend Herr. destruct values as [|[frame|e] rest]; cbn [yield_values stream_go].
  - destruct terminal as [t|]; cbn [completed].
    + apply (gsafe_leave _ taken (Some t)); [done| |done|done]. intros a _. by apply Hend.
    + apply (Hnext (TaskStream d taken frames SLooping)); [done|by repeat eexists].
  - apply (Hnext (TaskStream d taken (frames ++ [frame]) (SSuspended terminal rest))); [|by repeat eexists].
    cbn. by rewrite fmap_app, <-app_assoc.
  - by apply gsafe_leave.
Qed.

Lemma stream_script_text d taken t :
  stream_script d (taken ++ [t]) None
  = stream_script d taken None ++ [sse (content_chunk (dl_completion_id d) (dl_created d) (dl_model d) t)].
Proof. unfold stream_script. by rewrite fmap_app, !app_nil_r, app_comm_cons. Qed.

Lemma stream_script_end d taken t :
  stream_script d taken (Some t)
  = stream_script d taken None
    ++ terminal_frames (dl_completion_id d) (dl_created d) (dl_model d) (dl_include_usage d) t.
Proof. unfold stream_script. by rewrite app_nil_r, app_comm_cons. Qed.

Lemma gsafe_stream_round d taken frames phase : delivery_ok (TaskStream d taken frames phase) ->
  gsafe (stream_round d taken frames phase) (task_res (TaskStream d taken frames phase))
    (stream_post d taken phase).
Proof.
  intros Hok. cbn [delivery_ok] in Hok. unfold stream_round.
  assert (forall c terminal, over (ended_tokens (dl_session d) c terminal)) as Hover by (intros; apply over_ended).
  destruct phase as [|terminal rest]; cbn [phase_terminal phase_rest task_res stream_signal] in *.
  - rewrite app_nil_r in Hok. apply safe_bind, safe_bind, gsafe_await_round. intros a Hw.
    destruct a as [| |[t|t]|e|]; cbn [note_signal stream_step round_tokens stream_go].
    + by apply (gsafe_leave _ taken None).
    + split; [cbn; by rewrite app_nil_r|]. split; [by repeat eexists|done].
    + apply (gsafe_yield d (taken ++ [t]) frames None); [by rewrite Hok, stream_script_text| |done|].
      * intros k Hk Hd. by split.
      * intros e. apply (Hover taken None).
    + apply (gsafe_yield d taken frames (Some t)); [by rewrite Hok, stream_script_end| | |].
      * intros k Hk Hd. by split.
      * intros Hv. unfold terminal_frames in Hv. by case_match.
      * intros e. apply (Hover taken (Some t)).
    + apply (gsafe_leave _ taken None); try done. intros. apply (Hover taken None).
    + apply (gsafe_leave _ taken None); try done. intros. apply (Hover taken None).
  - apply safe_bind. intros a. assert (gsafe (stream_go d taken (yield_values frames terminal rest))
      (stream_tokens (dl_session d) taken terminal) (stream_post d taken (SSuspended terminal rest))) as Hresume.
    { apply gsafe_yield; [done| | |intros; apply Hover].
      - intros k Hk Hd. by split.
      - intros ->. split; [apply Hover|]. by destruct terminal. }
    destruct a; cbn [note_signal stream_step]; try exact Hresume.
    apply gsafe_leave; try done. intros. apply Hover.
Qed.

(** ** Submissions *)

(** A submission that was accepted gives its caller the events of the session; one
    that raised a [GatewayError] was counted. *)
Definition submit_post (r : result gexn nat) (O : list gtoken) : Prop :=
  match r with
  | Ok s => O = [TReader s []]
  | Err (GatewayRaise _) => over O
  | Err _ => pumps O = [] /\ gholds O = [] /\ readers O = []
  end.

Lemma over_nil : over [].
Proof. apply (over_ended 0 [] None). Qed.

Lemma over_id rid : over [TId rid].
Proof. clear. split_and!; try done; intros; set_solver. Qed.

Lemma gsafe_reject {A} code e O (post : result gexn A -> list gtoken -> Prop) :
  post (Err e) O -> gsafe (reject code e) (TOffer :: O) post.
Proof.
  intros Hp. apply safe_bind, (gsafe_tokens manifest options first _ _ O); [done|intros; by apply locks_le_same|].
  intros w F HI. split; [by apply ginv_rejected|done].
Qed.

(** The handlers around the client's [submit] count what they answer. *)
Lemma gsafe_refused {A} e rid (post : result gexn A -> list gtoken -> Prop) :
  (forall e', post (Err (GatewayRaise e')) [TId rid]) ->
  post (Err e) [TOffer; TId rid] ->
  (forall ge, e <> GatewayRaise ge) -> gsafe (submit_refused e) [TOffer; TId rid] post.
Proof.
  intros Hg Ho Hne. unfold submit_refused. destruct e as [ge|msg|x]; [by destruct (Hne ge)|exact Ho|].
  assert (forall x, gsafe (pbind (region (fun w => (count_rejected "unavailable"
       (set_readiness false (Some (exn_str x)) w), Ok tt)))
       (fun _ => graise (server_error (exn_str x) "unavailable"))) [TOffer; TId rid] post) as Hun.
  { intros y. apply safe_bind, (gsafe_tokens manifest options first _ _ [TId rid]); [done|intros; by apply locks_le_same|].
    intros w F HI. split; [|apply Hg]. apply ginv_rejected. by eapply ginv_unchanged, HI. }
  destruct x; cbn [is_GenerationClientError is_ValueError];
    lazymatch goal with
    | |- context [reject] => apply gsafe_reject, Hg
    | |- context [count_rejected] => apply Hun
    | _ => exact Ho
    end.
Qed.

Lemma encode_inputs_raises r e : encode_inputs r = Err e -> exists msg, e = TokenizerError msg.
Proof.
  unfold encode_inputs. intros H. apply bind_Err_inv in H as [H|(ids & _ & H)].
  { by eapply encode_chat_raises. }
  apply bind_Err_inv in H as [H|(stops & _ & H)]; [|done].
  revert H. generalize (gr_stop r). intros l. induction l as [|s l IH]; [done|].
  change (mapM encode_text (s :: l)) with (b ← encode_text s; bs ← mapM encode_text l; mret (b :: bs)).
  intros H. apply bind_Err_inv in H as [H|(b & _ & H)]; [by eapply encode_text_raises|].
  apply bind_Err_inv in H as [H|(bs & _ & H)]; [auto|done].
Qed.

Lemma check_inputs_raises r ids stops e : check_inputs manifest r ids stops = Err e ->
  exists ge, e = GatewayRaise ge.
Proof.
  unfold check_inputs. intros H.
  repeat (apply bind_Err_inv in H as [H|(? & _ & H)]; [apply raise_if_Err in H as [_ ->]; eexists; done|]).
  apply raise_if_Err in H as [_ ->]. eexists; done.
Qed.

(** The end of [submit]: the id, the client's answer, the registration. *)
Definition register (rid : Z) : gprog nat :=
  Atomic (fun _ => true) (register_session options rid)
    (fun w => let s := List.length (g_sessions w) in Fork (TaskPump s) (greturn s)).

Lemma gsafe_register rid : gsafe (register rid) [TOffer; TId rid] submit_post.
Proof.
  apply safe_atomic; [by left|]. intros w F _ [HI HL].
  exists [TPump (List.length (g_sessions w)); TReader (List.length (g_sessions w)) []].
  split; [split; [by apply ginv_register|by eapply glocks_mono; [|apply register_locks|exact HL]]|].
  split; [done|]. by exists [TReader (List.length (g_sessions w)) []].
Qed.

Lemma gsafe_submit_rest body c trace ids stops :
  parse_chat_completion_request body manifest = Ok c ->
  encode_inputs (to_gateway_request c trace) = Ok (ids, stops) ->
  check_inputs manifest (to_gateway_request c trace) ids stops = Ok tt ->
  gsafe (rid <- region allocate_id;;
         timeout <- Done (timeout_millis options);;
         region (fun w => (note_submitted (generation_request manifest options
                             (to_gateway_request c trace) rid timeout ids stops) w, Ok tt));;;
         ptry ask_unit (fun e => submit_refused e);;;
         register rid)
    [TOffer] submit_post.
Proof.
  intros Hparse Henc Hcheck. apply safe_bind, safe_region. intros w F [HI HL].
  destruct (ginv_allocate manifest options first w (TOffer :: F) HI) as (rid & -> & Hrid & HI1).
  exists [TOffer; TId rid]. split.
  { split; [|by eapply glocks_mono; [| |exact HL]; [|apply locks_le_same]].
    eapply gateway_inv_perm; [|exact HI1]. by constructor. }
  apply safe_bind. cbn [safe]. destruct (timeout_millis options) as [timeout|e] eqn:Ht.
  2:{ unfold timeout_millis in Ht. case_match; [done|]. by injection Ht as <-. }
  apply safe_bind, gsafe_keeps.
  { intros w2. split; [|by apply locks_le_same]. intros G2 HI2.
    apply ginv_note; [|done]. by exists body, c, trace, rid, timeout, ids, stops. }
  intros w2. cbn [snd]. apply safe_bind, safe_try. intros a.
  assert (forall e, (forall ge, e <> GatewayRaise ge) -> gsafe (submit_refused (A := unit) e) [TOffer; TId rid]
    (fun r O' => match r with
     | Ok a => gsafe (register rid) O' submit_post
     | Err e => submit_post (Err e) O' end)) as Href.
  { intros e He. apply gsafe_refused; [intros; apply over_id| |done].
    by destruct e as [ge| |]; [destruct (He ge)|..]. }
  destruct a as [[u|e]|r|r|r|]; [apply gsafe_register|by apply (Href (OtherExn e))|
    by apply (Href (OtherExn (RuntimeError "")))..].
Qed.

Lemma gsafe_submit_checks body c trace :
  parse_chat_completion_request body manifest = Ok c ->
  gsafe (let r := to_gateway_request c trace in
    enc <- ptry (Done (encode_inputs r))
             (fun e => match e with
                       | TokenizerError msg => reject "invalid_input" (invalid_input msg (Some "messages"))
                       | _ => graise e
                       end);;
    ptry (Done (check_inputs manifest r enc.1 enc.2)) (fun e => reject "invalid_input" e);;;
    rid <- region allocate_id;;
    timeout <- Done (timeout_millis options);;
    region (fun w => (note_submitted (generation_request manifest options r rid timeout enc.1 enc.2) w, Ok tt));;;
    ptry ask_unit (fun e => submit_refused e);;;
    register rid)
    [TOffer] submit_post.
Proof.
  intros Hparse. cbn zeta. apply safe_bind, safe_try. cbn [safe].
  destruct (encode_inputs (to_gateway_request c trace)) as [[ids stops]|e] eqn:Henc.
  2:{ destruct (encode_inputs_raises _ _ Henc) as [msg ->]. apply gsafe_reject, over_nil. }
  apply safe_bind, safe_try. cbn [safe fst snd].
  destruct (check_inputs manifest (to_gateway_request c trace) ids stops) as [[]|e] eqn:Hchk.
  - by eapply gsafe_submit_rest.
  - destruct (check_inputs_raises _ _ _ _ Hchk) as [ge ->]. apply gsafe_reject, over_nil.
Qed.

Lemma gsafe_submit body c trace : parse_chat_completion_request body manifest = Ok c ->
  gsafe (submit manifest options (to_gateway_request c trace)) [] submit_post.
Proof.
  intros Hparse.
  apply safe_bind, (gsafe_tokens manifest options first _ _ [TOffer]); [done|intros; by apply locks_le_same|].
  intros w F HI. split; [by apply ginv_offered|]. cbn [snd].
  apply safe_bind, gsafe_keeps; [done|]. intros w1. cbn [snd].
  destruct (g_stopping w1); [apply gsafe_reject, over_nil|].
  destruct (bool_decide _); cbn [negb]; [|apply gsafe_reject, over_nil].
  pose proof (gsafe_submit_checks body c trace Hparse) as Hchecks. cbn zeta in Hchecks.
  assert (gsafe (ptry (check_readiness;;; greturn tt)
      (fun e => match e with GatewayRaise ge => reject (ge_code ge) e | _ => graise e end)) [TOffer]
      (fun r O => match r with Ok _ => O = [TOffer] | Err e => submit_post (Err e) O end)) as Hready.
  { apply safe_try, safe_bind.
    eapply quiet_post; [apply quiet_readiness|apply no_locks_patient; by repeat constructor|].
    intros [st|e]; [done|].
    destruct e as [ge|msg|x]; [apply gsafe_reject, over_nil|done|done]. }
  assert (forall b : bool, gsafe (if b then greturn tt
       else ptry (check_readiness;;; greturn tt)
          (fun e => match e with GatewayRaise ge => reject (ge_code ge) e | _ => graise e end)) [TOffer]
       (fun r O => match r with Ok _ => O = [TOffer] | Err e => submit_post (Err e) O end)) as Hb
    by by intros [].
  apply safe_bind.
  apply (safe_mono _ _ _ _ _ _ (fun r O => O = [TOffer] /\ forall ge, r <> Err (GatewayRaise ge))).
  - intros [b|e] O [-> Hne]; [|by destruct e as [ge| |]; [destruct (Hne ge)|..]].
    apply safe_bind. eapply safe_mono; [|apply Hb]. intros [u|e] O; [by intros ->|done].
  - apply safe_bind, gsafe_keeps; [done|]. intros w2. cbn [snd].
    destruct (g_ready w2); [|done]. intros [r|[b|x]|r|r|]; by split.
Qed.

(** ** The endpoints *)

Lemma quiet_note error : quiet patient (note_startup_error error).
Proof. apply quiet_region. guntouched. Qed.

Lemma answers_note error v : answer v -> answers (note_startup_error error;;; greturn v).
Proof. intros Hv. apply answers_bind; [apply quiet_note|]. intros u. by apply answers_value. Qed.

Lemma answers_startup built : answers (lifespan_startup built).
Proof.
  apply answers_try; [|intros e; by apply answers_note].
  apply answers_bind; [by apply quiet_region|]. intros service. apply answers_bind.
  { destruct service; [apply quiet_done|]. apply quiet_bind; [apply quiet_done|].
    intros u. apply quiet_region. guntouched. }
  intros u. apply answers_bind; [apply quiet_start|]. intros started.
  apply answers_bind; [destruct started; apply quiet_note|]. intros u'. by apply answers_value.
Qed.

Lemma answers_shutdown : answers lifespan_shutdown.
Proof.
  apply answers_bind; [by apply quiet_region|]. intros [|]; [apply answers_stop|by apply answers_value].
Qed.

Lemma answers_readyz : answers (readyz manifest).
Proof.
  apply answers_try.
  - apply answers_bind; [by apply quiet_region|]. intros u. apply answers_bind; [apply quiet_readiness|].
    intros st. apply answers_bind; [apply quiet_note|]. intros u'.
    apply answers_bind; [apply quiet_ask_bool|]. intros connected. by apply answers_value.
  - intros [ge|m|x]; [by apply answers_note|apply answers_raise..].
Qed.

Lemma quiet_service_ready P : quiet P service_ready.
Proof.
  apply quiet_bind; [by apply quiet_region|]. intros [|]; [apply quiet_ask_bool|apply quiet_done].
Qed.

Lemma answers_metrics : answers metrics.
Proof.
  apply answers_bind; [by apply quiet_region|]. intros [|]; [|by apply answers_value].
  apply answers_bind.
  { apply quiet_bind; [apply quiet_ask_bool|]. intros [|]; [|apply quiet_done].
    apply quiet_try; [|intros; apply quiet_done]. apply quiet_bind; [apply quiet_ask_stats|intros; apply quiet_done]. }
  intros st. apply answers_bind; [|intros text; by apply answers_value].
  apply quiet_bind; [apply quiet_ask_bool|]. intros connected.
  apply quiet_bind; [apply quiet_service_ready|]. intros ready. by apply quiet_region.
Qed.

Lemma answers_models : answers (models manifest).
Proof.
  apply answers_try; [|intros [ge|m|x]; [by apply answers_value|apply answers_raise..]].
  apply answers_bind; [by apply quiet_region|]. intros u. by apply answers_value.
Qed.

(** A request that goes on as a delivery has the session to itself, and so has a
    stream that never starts. *)
Definition handler_post (r : result gexn gvalue) (O : list gtoken) : Prop :=
  match r with
  | Ok (GVNext k) =>
      delivery_ok k /\ match k with TaskCollect _ _ | TaskStream _ _ _ _ => True | _ => False end /\ O = task_res k
  | Ok (GVNeverStarted s) => O = [TReader s []]
  | Ok _ => over O
  | Err _ => pumps O = [] /\ gholds O = [] /\ readers O = []
  end.

Lemma answers_handler p : answers p -> gsafe p [] handler_post.
Proof.
  apply safe_mono. intros [v|e] O [-> Hv]; [|done]. destruct v; try done; apply over_nil.
Qed.

Lemma gsafe_accept chunks max_bytes id :
  gsafe (accept_completion manifest options max_bytes chunks id) [] (fun r O =>
    match r with
    | Ok (inl (_, s)) => O = [TReader s []]
    | Ok (inr _) => over O
    | Err _ => pumps O = [] /\ gholds O = [] /\ readers O = []
    end).
Proof.
  apply safe_try, safe_bind.
  eapply (quiet_post manifest options first anything); [by apply quiet_region|done|]. intros [u|[ge|m|x]]; try done; [|apply over_nil].
  apply safe_bind. cbn [safe]. destruct (read_command chunks max_bytes manifest) as [command|e] eqn:Hread.
  2:{ by destruct e as [ge|m|x]; [apply over_nil|..]. }
  unfold read_command in Hread. inv_ok. apply safe_bind.
  eapply safe_mono; [|by eapply gsafe_submit]. by intros [s|[ge|msg|y]] O HO.
Qed.

Lemma gsafe_chat chunks max_bytes id created :
  gsafe (chat_completions manifest options max_bytes chunks id created) [] handler_post.
Proof.
  apply safe_bind. eapply safe_mono; [|apply gsafe_accept]. intros [[[command s]|r]|e] O; try done.
  intros ->. cbv zeta. destruct (cc_stream command); cbn [negb]; [|by split_and!].
  intros a. assert (forall d, dl_session d = s ->
    gsafe (stream_go d [] (stream_start (dl_completion_id d) (dl_created d) (dl_model d)))
    [TReader s []] handler_post) as Hstart.
  { intros d <-. apply (gsafe_yield d [] [] None); [done| | |].
    - intros k Hk (c & f & ph & ->). by split_and!.
    - intros _. apply over_nil.
    - intros e. done. }
  destruct a; try by apply Hstart. done.
Qed.

Lemma gsafe_call max_bytes cl : gsafe (call_prog manifest options max_bytes cl) [] handler_post.
Proof.
  destruct cl; cbn [call_prog]; try apply gsafe_chat; apply answers_handler.
  - apply answers_startup.
  - by apply answers_value.
  - apply answers_readyz.
  - apply answers_metrics.
  - apply answers_models.
  - apply answers_shutdown.
Qed.

(** ** All coroutines *)

Definition task_post (k : gtask) (r : result gexn gvalue) (O : list gtoken) : Prop :=
  match k with
  | TaskPump s => (r = Ok (GVNext (TaskPump s)) /\ O = [TPump s]) \/ (r = Ok GVStop /\ O = [])
  | TaskDrain _ _ => match r with Ok v => v = GVStop | Err _ => True end /\ O = []
  | TaskDetach _ s _ => match r with Ok (GVBool _) => O = [] | Ok _ => False | Err _ => O = [TDetach s] end
  | TaskCollect d c => collect_post d c r O
  | TaskStream d taken _ phase => stream_post d taken phase r O
  end.

Lemma gsafe_task k : delivery_ok k -> gsafe (task_prog k) (task_res k) (task_post k).
Proof.
  destruct k as [s|task s|task s reason|d c|d taken frames phase]; intros Hk; cbn [task_prog].
  - by apply gsafe_pump.
  - by apply gsafe_drain_task.
  - by apply gsafe_detach_task.
  - apply gsafe_collect_round.
  - by apply gsafe_stream_round.
Qed.

Abbreviation gpool := (pool_safe ginv gwait delivery_ok task_res task_post handler_post).

Lemma goes_on_restarts l v k O : goes_on l v = Some k -> from_option delivery_ok True l ->
  promise task_post handler_post l (Ok v) O -> delivery_ok k /\ O = task_res k.
Proof.
  destruct v; try done. intros [= <-] _. destruct l as [[s|task s|task s reason|d c|d taken frames phase]|]; cbn.
  - by intros [[[= ->] ->]|[? _]].
  - by intros [? _].
  - done.
  - by intros [[c' ->] ->].
  - by intros (? & _ & ->).
  - by intros (? & _ & ->).
Qed.

Context (max_http_body_bytes : Z).

Lemma gateway_step_safe c c' : gateway_step manifest options max_http_body_bytes c c' -> gpool c -> gpool c'.
Proof.
  intros [c1 c2 H|w ts cl] Hs.
  - eapply (pool_safe_step task_prog goes_on);
      [apply ginv_perm|apply gsafe_task|apply goes_on_restarts|exact H|exact Hs].
  - eapply (pool_safe_spawn ginv gwait); [apply ginv_perm| |apply gsafe_call|exact Hs].
    by intros F HI.
Qed.

Lemma greachable_safe c : greachable manifest options max_http_body_bytes first c -> gpool c.
Proof.
  intros [Hf Hr]. assert (gpool ((init_gworld first, []) : gconfig)) as H0.
  { exists []. split; [|constructor]. replace (init_gworld first) with (init_gworld (id_at first 0));
      [split; [apply ginv_init|]; unfold glocks_ok; cbn; split_and!; set_solver|]. f_equal. unfold id_at. rewrite Z.mod_small; [lia|].
    change (Z.shiftl 1 62) with 4611686018427387904 in Hf. change id_period with 9223372036854775807. lia. }
  revert H0. induction Hr; eauto using gateway_step_safe.
Qed.

(** ** What an idle Gateway owes *)

(** The coroutine is over and did what it is for: a handler answered; a drain for a
    client that left abandoned its session; drains of [stop] and deliveries end in
    any way. *)
Definition at_rest (t : option gtask * gprog gvalue) : bool :=
  match t.2 with
  | Done (Ok (GVNext _)) => false
  | Done (Ok _) => true
  | Done (Err _) =>
      match t.1 with Some (TaskDrain _ _) | Some (TaskCollect _ _) | Some (TaskStream _ _ _ _) => true | _ => false end
  | _ => false
  end.

Definition never_started (t : option gtask * gprog gvalue) : bool :=
  match t with (None, Done (Ok (GVNeverStarted _))) => true | _ => false end.

Abbreviation gthread_safe := (thread_safe ginv gwait delivery_ok task_res task_post handler_post).

Lemma at_rest_over t O : at_rest t = true -> gthread_safe t O ->
  over O \/ (never_started t = true /\ exists s, O = [TReader s []]).
Proof.
  destruct t as [l [r| | |]]; try done. intros Hr [_ Hp]. unfold at_rest in Hr. cbn in *.
  destruct l as [[s|task s|task s reason|d c|d taken frames phase]|]; cbn in Hp.
  - left. destruct Hp as [[-> ->]|[-> ->]]; [done|apply over_nil].
  - left. destruct Hp as [_ ->]. apply over_nil.
  - left. destruct r as [[]|]; try done. rewrite Hp. apply over_nil.
  - left. destruct r as [[]|]; try done. by destruct Hp.
  - left. destruct r as [[]|]; try done. by destruct Hp.
  - destruct r as [[]|]; try done; [by left..|]. right. split; [done|]. by eexists.
Qed.

Lemma idle_over ts Os : Forall (fun t => at_rest t = true) ts -> Forall2 gthread_safe ts Os ->
  pumps (concat Os) = [] /\ offers (concat Os) = [] /\ (forall s, TDetach s ∉ concat Os)
  /\ (forall s c, TReader s c ∈ concat Os -> existsb never_started ts = true).
Proof.
  intros Hf. induction 1 as [|t O ts Os Ht _ IH]; [split_and!; try done; by intros ? ?%not_elem_of_nil || by intros ? ? ?%not_elem_of_nil|].
  apply Forall_cons in Hf as [Hr Hf]. destruct (IH Hf) as (IHp & IHo & IHd & IHr). simpl.
  assert (forall G G', pumps (G ++ G') = pumps G ++ pumps G' /\ offers (G ++ G') = offers G ++ offers G') as Happ
    by (split; apply omap_app).
  destruct (Happ O (concat Os)) as [-> ->]. rewrite IHp, IHo. setoid_rewrite elem_of_app.
  destruct (at_rest_over t O Hr Ht) as [(-> & _ & -> & Hd & Hc)|[Hn [s ->]]].
  - split_and!; [done..| |].
    + intros s [?|?]; [by apply (Hd s)|by apply (IHd s)].
    + intros s c [?|?]; [by destruct (Hc s c)|]. rewrite (IHr s c) by done. apply orb_true_r.
  - rewrite Hn. split_and!; try done. intros s' [?%list_elem_of_singleton|?]; [done|by apply (IHd s')].
Qed.

End Safe.

(** ** Sessions that are not over *)

Definition is_open (x : GatewaySession) : bool := negb (gs_done x).
Definition open_sessions (w : gworld) : list GatewaySession := List.filter is_open (g_sessions w).

Lemma filter_indices {A} (P : A -> bool) (l : list A) :
  List.length (List.filter (fun i => from_option P false (l !! i)) (seq 0 (List.length l)))
  = List.length (List.filter P l).
Proof.
  induction l as [|a l IH] using rev_ind; [done|].
  rewrite length_app, Nat.add_1_r, seq_S, !List.filter_app, !length_app. f_equal.
  - rewrite <-IH. f_equal. apply filter_ext_in. intros i Hi%in_seq. by rewrite lookup_app_l by lia.
  - simpl. rewrite lookup_app_r, Nat.sub_diag by lia. simpl. by destruct (P a).
Qed.

Section Open.
Context `{T : Tokenizer} (manifest : ModelManifest) (options : GatewayRuntimeOptions) (first : Z).
Context (w : gworld) (G : list gtoken) (HI : gateway_inv manifest options first w G).

Lemma open_pump s x : g_sessions w !! s = Some x -> is_open x = true <-> TPump s ∈ G.
Proof.
  intros Hx. pose proof (gi_sessions _ _ _ _ _ HI s x Hx) as Hok. unfold is_open.
  destruct (decide (TPump s ∈ G)) as [Hin|Hn].
  - by destruct (sk_open _ _ _ _ _ Hok Hin) as (_ & _ & ->).
  - by destruct (sk_closed _ _ _ _ _ Hok Hn) as (-> & _).
Qed.

Lemma open_count : List.length (pumps G) = List.length (open_sessions w).
Proof.
  unfold open_sessions. rewrite <-filter_indices. apply Permutation_length, NoDup_Permutation.
  - apply (gi_pumps _ _ _ _ _ HI).
  - apply NoDup_ListNoDup, List.NoDup_filter, NoDup_ListNoDup, NoDup_seq.
  - intros s. rewrite (list_elem_of_In (List.filter _ _)), filter_In, in_seq, pumps_spec. split.
    + intros Hs. pose proof (gi_pumps _ _ _ _ _ HI) as [_ Hlt]. rewrite Forall_forall in Hlt.
      specialize (Hlt s (proj2 (pumps_spec G s) Hs)). destruct (lookup_lt_is_Some_2 _ _ Hlt) as [x Hx].
      rewrite Hx. split; [lia|]. by eapply open_pump.
    + intros [_ Hs]. destruct (g_sessions w !! s) as [x|] eqn:Hx; [|done]. by eapply open_pump.
Qed.

End Open.
