(* ===== verification/GatewayRuns.v ===== *)
(** What holds of the Gateway in every reachable state, and runs that show how it
    behaves at its edges. *)
From Stdlib Require Import ZArith Lia Ascii String SpecFloat.
From stdpp Require Import base list numbers strings gmap.
From S2P Require Import Prelude PyFloat Json Protocol ProtocolFacts ProtocolWire Threads.
From S2P Require Import GatewayBase Client OpenAI OpenAIFacts TokenizerModel Metrics Gateway.
From S2P Require Import Api ApiFacts System GatewayInv GatewaySafe SystemSafe.
Local Open Scope Z_scope.

(** ** Scenarios *)

(** The server calls, or coroutine [i] makes at most [n] moves and gets the answer
    [a] when it asks. *)
Inductive gaction :=
| HCall (cl : gcall)
| HRun (n : nat) (i : nat) (a : greply).

Section Scenario.
Context `{T : Tokenizer} (manifest : ModelManifest) (options : GatewayRuntimeOptions) (first : Z).

(** Enough for the bodies of the scenarios. *)
Definition run_body_limit : Z := 4096.

Fixpoint grun_thread (n : nat) (i : nat) (a : greply) (c : gconfig) : gconfig :=
  match n with
  | O => c
  | S n => match exec task_prog goes_on i a c with
           | Some c' => grun_thread n i a c'
           | None => c
           end
  end.

Definition gdrive_one (c : gconfig) (act : gaction) : gconfig :=
  match act with
  | HCall cl => (c.1, c.2 ++ [(None, call_prog manifest options run_body_limit cl)])
  | HRun n i a => grun_thread n i a c
  end.

Definition gdrive (acts : list gaction) : gconfig :=
  fold_left gdrive_one acts (init_gworld first, []).

Abbreviation gsteps := (rtc (gateway_step manifest options run_body_limit)).

Lemma grun_thread_steps n i a c : gsteps c (grun_thread n i a c).
Proof.
  revert c. induction n as [|n IH]; intros c; simpl; [apply rtc_refl|].
  destruct (exec _ _ i a c) as [c'|] eqn:He; [|apply rtc_refl].
  eapply rtc_l; [|apply IH]. constructor. by eapply exec_step.
Qed.

Lemma gdrive_one_steps c act : gsteps c (gdrive_one c act).
Proof.
  destruct c as [w ts], act as [cl|n i a]; cbn [gdrive_one fst snd]; [|apply grun_thread_steps].
  apply rtc_once, gateway_call.
Qed.

Lemma gdrive_reachable acts : 1 <= first <= Z.shiftl 1 62 ->
  greachable manifest options run_body_limit first (gdrive acts).
Proof.
  intros Hf. split; [done|]. unfold gdrive. generalize (init_gworld first, [] : list (option gtask * gprog gvalue)).
  induction acts as [|act acts IH]; intros c; simpl; [apply rtc_refl|].
  etrans; [apply gdrive_one_steps|apply IH].
Qed.
End Scenario.

(** A tokenizer with one byte per Token ID. *)
Definition byte_backend : transformers_tokenizer :=
  mkTransformers (JInt 2) JNull (JStr "{{ messages }}")
    (fun _ => Ok (Plain (JList [JInt 11; JInt 12]))) (fun _ => Ok (HasToList (JList [JInt 7])))
    (fun ids => Ok (map byte_of_Z ids)).
#[local] Instance byte_tokenizer : Tokenizer := HuggingFace byte_backend.

Definition run_manifest : ModelManifest :=
  mkManifest "qwen" "r1" "t" "c" "e" 2 0 64 64 128 "fp16" 4.
Definition f120 : pyfloat := S754_finite false 8444249301319680 (-46).
Definition run_options (capacity : Z) : GatewayRuntimeOptions :=
  mkOptions f1 f120 f1 f1 f1 capacity 1.

Definition chat_body (streaming : bool) : bytes :=
  dumps_text
    (JObj [("model", JStr "qwen");
           ("messages", JList [JObj [("role", JStr "user"); ("content", JStr "hi")]]);
           ("stream", JBool streaming); ("max_tokens", JInt 8)]).

Definition ready_stats : Stats :=
  mkStats 1 true (mkStatus "ok" "") 0 0 0 0 0 0 0 0 0 0 0.

Definition ok_end : Terminal := mkTerminal 1 (mkStatus "ok" "") (Some "eos") (mkUsage 2 3).
Definition delta (n : Z) (ids : list Z) : greply := REvent (Ok (EDelta (mkDelta 1 n ids))).
Definition ok_reply : greply := RBool (Ok true).

(** Coroutine 0 starts the application on a ready Worker; coroutine 1 is a request
    that is accepted, its body sent in two chunks, and coroutine 2 its pump. *)
Definition started_run : list gaction :=
  [HCall (CStartup (Ok tt)); HRun 6 0 ok_reply; HRun 1 0 (RStats (Ok ready_stats)); HRun 20 0 ok_reply].
Definition accepted_run (streaming : bool) : list gaction :=
  started_run ++
  [HCall (CChatCompletions [take 10 (chat_body streaming); drop 10 (chat_body streaming)] "chatcmpl-1" 1700000000);
   HRun 5 1 ok_reply; HRun 5 1 (RUnit (Ok tt))].

(** The client is still connected. *)
Definition present : greply := RBool (Ok false).
(** A round of the loop of the delivery; the client takes a frame. *)
Definition round : gaction := HRun 4 1 present.
Definition frame_taken : gaction := HRun 2 1 present.

(** The answer arrives in two deltas, the delivery takes both and the Terminal. *)
Definition finished_run : list gaction :=
  accepted_run false ++
  [HRun 2 2 (delta 0 [72; 105]); round; round; HRun 3 2 (delta 1 [33]); round;
   HRun 3 2 (REvent (Ok (ETerminal ok_end))); round].

(** The same answer streamed. *)
Definition streamed_run : list gaction :=
  accepted_run true ++ [HRun 1 1 present; frame_taken] ++
  [HRun 2 2 (delta 0 [72; 105]); round; frame_taken; HRun 3 2 (delta 1 [33]); round; frame_taken;
   HRun 3 2 (REvent (Ok (ETerminal ok_end))); round; frame_taken; frame_taken].

(** ... or the delivery is late: the second delta finds the buffer full, the
    pump asks for a cancel, and the Worker, already done, ends with success. *)
Definition late_run : list gaction :=
  accepted_run false ++
  [HRun 2 2 (delta 0 [72; 105]); HRun 3 2 (delta 1 [33]); HRun 5 2 (RBool (Ok true));
   HRun 3 2 (REvent (Ok (ETerminal ok_end))); round; round].

(** A byte-level tokenizer that decodes an incomplete character to U+FFFD. *)
Definition replacing_backend : transformers_tokenizer :=
  mkTransformers (JInt 2) JNull (JStr "{{ messages }}")
    (fun _ => Ok (Plain (JList [JInt 11; JInt 12]))) (fun _ => Ok (HasToList (JList [JInt 7])))
    (fun ids => let b := map byte_of_Z ids in Ok (if utf8_valid b then b else map byte_of_Z [239; 191; 189])).

(** The three bytes of the euro sign arrive in two deltas. *)
Definition split_character_run : list gaction :=
  accepted_run false ++
  [HRun 2 2 (delta 0 [226; 130]); round;
   HRun 3 2 (delta 1 [172]); HRun 5 2 (RBool (Ok true)); HRun 3 2 (REvent (Ok (ETerminal ok_end))); round].

(** A readiness check is past its test of [_stopping] when the Gateway stops. *)
Definition reconnect_run : list gaction :=
  started_run ++
  [HCall CReadyz; HRun 2 1 ok_reply; HCall CShutdown; HRun 20 2 (RUnit (Ok tt));
   HRun 2 1 present; HRun 1 1 (RUnit (Ok tt)); HRun 1 1 (RStats (Ok ready_stats)); HRun 10 1 ok_reply].

(** Text is waiting for the delivery when the Gateway stops; the Worker has just
    finished the request. *)
Definition stopped_run : list gaction :=
  accepted_run false ++
  [HRun 2 2 (delta 0 [72; 105]); HCall CShutdown; HRun 4 3 ok_reply;
   HRun 3 2 (REvent (Ok (ETerminal ok_end))); HRun 10 4 (RBool (Ok false)); HRun 20 3 (RUnit (Ok tt)); round].

(** The client is gone before the server asks the stream for its first frame. *)
Definition unstarted_run : list gaction :=
  accepted_run true ++
  [HRun 1 1 RCancelled; HRun 2 2 (delta 0 [72; 105]); HRun 3 2 (REvent (Ok (ETerminal ok_end)))].

(** ** Every reachable state *)

Section Reachable.
Context `{T : Tokenizer} `{TOk : !TokenizerOk T}.
Context (manifest : ModelManifest) (options : GatewayRuntimeOptions) (max_http_body_bytes first : Z).

Abbreviation reached := (greachable manifest options max_http_body_bytes first).

Lemma options_capacity u : check_options options = Ok u -> 1 <= max_sse_delta_events_per_request options.
Proof. unfold check_options. intros H. inv_ok. split_bools. lia. Qed.

Lemma greachable_inv u w ts : check_options options = Ok u ->
  reached (w, ts) -> exists G, gateway_inv manifest options first w G.
Proof.
  intros Hc Hr. pose proof (options_capacity u Hc).
  destruct (greachable_safe manifest options first ltac:(lia) max_http_body_bytes _ Hr) as (Os & [HI _] & _). eauto.
Qed.

Lemma greachable_idle u w ts : check_options options = Ok u ->
  reached (w, ts) -> Forall (fun t => at_rest t = true) ts ->
  exists G, gateway_inv manifest options first w G /\ pumps G = [] /\ offers G = []
    /\ (forall s, TDetach s ∉ G) /\ (forall s c, TReader s c ∈ G -> existsb never_started ts = true).
Proof.
  intros Hc Hr Hidle. pose proof (options_capacity u Hc).
  destruct (greachable_safe manifest options first ltac:(lia) max_http_body_bytes _ Hr) as (Os & [HI _] & Hts).
  exists (concat Os). split; [done|]. by eapply idle_over.
Qed.

(** A coroutine that is over has kept its promise, and its tokens are with the
    others. *)
Lemma greachable_done u w ts l r : check_options options = Ok u ->
  reached (w, ts) -> (l, Done r) ∈ ts -> exists G O,
    gateway_inv manifest options first w G /\ from_option delivery_ok True l
    /\ promise task_post handler_post l r O /\ forall g, g ∈ O -> g ∈ G.
Proof.
  intros Hc Hr [i Hi]%list_elem_of_lookup_1. pose proof (options_capacity u Hc).
  destruct (greachable_safe manifest options first ltac:(lia) max_http_body_bytes _ Hr) as (Os & [HI _] & Hts).
  destruct (Forall2_lookup_l _ _ _ _ _ Hts Hi) as (O & HO & Hl & Hp).
  exists (concat Os), O. split_and!; try done. intros g Hg.
  apply list_elem_of_In, in_concat. exists O. split; apply list_elem_of_In; [by eapply list_elem_of_lookup_2|done].
Qed.

(** The session whose Terminal a delivery has taken. *)
Lemma done_session w G s c t : gateway_inv manifest options first w G -> TDone s c t ∈ G ->
  exists x, g_sessions w !! s = Some x /\ gs_terminal x = Some t /\ gs_taken x = c
    /\ concat c `prefix_of` dec_decoded (gs_decoder x)
    /\ (decodes_utf8 -> Forall (fun t => utf8_valid t = true) c)
    /\ (gs_dropping_deltas x = false -> ab_abandoned (gs_buffer x) = false ->
         concat c = dec_decoded (gs_decoder x)
         /\ (dec_tokens (gs_decoder x) <> [] -> decode (dec_tokens (gs_decoder x)) = Ok (concat c))).
Proof.
  intros HI Hin. assert (s ∈ readers G) as Hs by (by eapply readers_about; [done|apply bool_decide_eq_true|]).
  destruct (gi_readers _ _ _ _ _ HI) as [_ Hlt]. rewrite Forall_forall in Hlt.
  destruct (lookup_lt_is_Some_2 _ _ (Hlt s Hs)) as [x Hx]. exists x.
  pose proof (gi_sessions _ _ _ _ _ HI s x Hx) as Hok. destruct Hok.
  destruct (sk_done c t Hin) as (<- & Ht & Hd). split_and!; try done.
  - destruct sk_text as [Hpre _], sk_taken as [[k Hk] _]. etrans; [|exact Hpre]. rewrite Hk, !concat_app.
    rewrite <-app_assoc. by apply prefix_app_r.
  - intros Hu. destruct sk_taken as [[k Hk] _]. specialize (sk_utf8 Hu). rewrite Hk, <-app_assoc in sk_utf8.
    by apply Forall_app in sk_utf8 as [? _].
  - intros Hdrop Hab. destruct sk_text as [_ Htext], sk_taken as [_ Htaken].
    specialize (Htaken Hab). destruct (sk_delivered Hd) as [Hnil _]. rewrite Hnil, app_nil_r in Htaken.
    rewrite Htaken, (Htext Hdrop). split; [done|]. intros Hne. destruct sk_decoder as (toks & _ & Hcase & Hall).
    specialize (Hall Hdrop). subst toks. by destruct Hcase as [[? _]|?].
Qed.

(** The sessions over the counters. *)
Definition counters_exact (w : gworld) : Prop :=
  let m := g_metrics w in
  let open := Z.of_nat (List.length (open_sessions w)) in
  m_active m = open
  /\ m_accepted m = Z.of_nat (List.length (g_sessions w))
  /\ total (m_terminals m) = m_accepted m - open
  /\ m_accepted m + total (m_rejected m) <= m_offered m
  /\ m_sse_buffered_events m = Z.of_nat (sum_list_with buffered (g_sessions w))
  /\ m_active m <= m_active_high_watermark m
  /\ m_sse_buffered_events m <= m_sse_buffer_high_watermark m.

(** C16: The metrics are exact in every reachable state: the active gauge is the
    number of sessions that have not ended, accepted counts the sessions, the
    terminal counters sum to the ended ones, the buffer gauge is the number of
    deltas in all buffers, offered covers accepted and rejected, and the
    watermarks are not below the gauges. *)
Theorem gateway_counters_exact u w ts : check_options options = Ok u ->
  reached (w, ts) -> counters_exact w.
Proof.
  intros Hc Hr. destruct (greachable_inv u w ts Hc Hr) as [G HI].
  pose proof (gi_metrics _ _ _ _ _ HI) as []. pose proof (open_count _ _ _ _ _ HI).
  unfold counters_exact. cbn zeta. split_and!; lia.
Qed.

(** C5: A session ends exactly as often as it is counted: it is over if and only
    if it has a Terminal, which is the one its consumer gets; it is in the table
    of active sessions only while open, and as long as fewer ids than there are
    have been handed out an open session is in the table, where shutdown finds
    it. *)
Theorem gateway_sessions_end_once u w ts s x : check_options options = Ok u ->
  reached (w, ts) -> g_sessions w !! s = Some x ->
  (gs_done x = true <-> is_Some (gs_terminal x))
  /\ ab_terminal (gs_buffer x) = gs_terminal x
  /\ (g_active w !! gs_request_id x = Some s -> gs_done x = false)
  /\ (Z.of_nat (List.length (g_allocated w)) <= id_limit - 1 -> gs_done x = false ->
      g_active w !! gs_request_id x = Some s).
Proof.
  intros Hc Hr Hx. destruct (greachable_inv u w ts Hc Hr) as [G HI].
  pose proof (gi_sessions _ _ _ _ _ HI s x Hx) as Hok.
  destruct (decide (TPump s ∈ G)) as [Hin|Hn].
  - destruct (sk_open _ _ _ _ _ Hok Hin) as (-> & -> & ->).
    split; [split; [done|by intros [? ?]]|]. do 2 (split; [done|]).
    intros Hlen _. by apply (sk_reach _ _ _ _ _ Hok).
  - destruct (sk_closed _ _ _ _ _ Hok Hn) as (-> & Ht & ->). do 2 (split; [done|]). split; [|done].
    intros Ha. by apply (sk_table _ _ _ _ _ Hok) in Ha.
Qed.

Lemma buffered_settled xs : Forall settled xs -> sum_list_with buffered xs = 0%nat.
Proof.
  induction 1 as [|x xs [Hd _] _ IH]; [done|].
  change (buffered x + sum_list_with buffered xs = 0)%nat. rewrite IH. unfold buffered. by rewrite Hd.
Qed.


(** C6: The text a consumer gets is the tokenizer's: what was put into a
    session's buffer is, in order, a prefix of the decoded text, and all of the
    text of all Token IDs received as long as nothing was dropped; what is still
    buffered is the end of it, and fits the configured capacity. *)
Theorem gateway_text_faithful u w ts s x : check_options options = Ok u ->
  reached (w, ts) -> g_sessions w !! s = Some x ->
  concat (gs_emitted x) `prefix_of` dec_decoded (gs_decoder x)
  /\ (gs_dropping_deltas x = false -> dec_tokens (gs_decoder x) <> [] ->
      decode (dec_tokens (gs_decoder x)) = Ok (concat (gs_emitted x)))
  /\ ab_deltas (gs_buffer x) `suffix_of` gs_emitted x
  /\ Z.of_nat (List.length (ab_deltas (gs_buffer x))) <= max_sse_delta_events_per_request options.
Proof.
  intros Hc Hr Hx. destruct (greachable_inv u w ts Hc Hr) as [G HI].
  pose proof (gi_sessions _ _ _ _ _ HI s x Hx) as [_ Hlen _ _ _ _ [Hpre Heq] Hdec _ [_ Htaken] Hab _ _ _ _].
  split_and!; try done.
  2:{ destruct (ab_abandoned (gs_buffer x)); [rewrite Hab by done; apply suffix_nil|].
      exists (gs_taken x). symmetry. by apply Htaken. }
  intros Hd Hne. destruct Hdec as (toks & _ & Hcase & Hall).
  rewrite (Heq Hd). specialize (Hall Hd). subst toks. by destruct Hcase as [[? _]|?].
Qed.

(** C26: Request ids are positive 63-bit numbers, and none is handed out twice
    before all of them have been; every session has one of them. *)
Theorem gateway_request_ids u w ts : check_options options = Ok u ->
  reached (w, ts) ->
  Forall (fun rid => 1 <= rid < 2 ^ 63) (g_allocated w)
  /\ (Z.of_nat (List.length (g_allocated w)) < 2 ^ 63 ->
      NoDup (g_allocated w) /\ NoDup (gs_request_id <$> g_sessions w))
  /\ gs_request_id <$> g_sessions w ⊆+ g_allocated w.
Proof.
  intros Hc Hr. destruct (greachable_inv u w ts Hc Hr) as [G HI].
  pose proof (gi_alloc _ _ _ _ _ HI) as [Hal _].
  assert (gs_request_id <$> g_sessions w ⊆+ g_allocated w) as Hsub.
  { etrans; [|apply (gi_ids _ _ _ _ _ HI)]. by apply submseteq_inserts_r. }
  split_and!; [| |done].
  - rewrite Hal. apply Forall_fmap, Forall_forall. intros k _. apply id_at_range.
  - intros Hlen. assert (NoDup (g_allocated w)) as Hnd.
    { rewrite Hal. apply ids_upto_nodup. change id_period with (2 ^ 63 - 1). lia. }
    split; [done|]. apply submseteq_Permutation in Hsub as [k Hk]. rewrite Hk in Hnd.
    by apply NoDup_app in Hnd as [? _].
Qed.

(** ** What the client is given *)

Lemma tokens_in l : Forall (fun t => 0 <= t) l -> Forall (fun t => t <= i32_max) l -> Forall token_in l.
Proof. intros H. induction H; intros H'; inversion H'; constructor; [done|auto]. Qed.

(** The tokenizer's vocabulary fits the Token IDs of the protocol. *)
Definition vocabulary_fits : Prop :=
  (forall ms l, encode_chat ms = Ok l -> Forall (fun t => t <= i32_max) l)
  /\ (forall s l, encode_text s = Ok l -> Forall (fun t => t <= i32_max) l).

Lemma encode_inputs_wf r ids stops : vocabulary_fits -> encode_inputs r = Ok (ids, stops) ->
  ids <> [] /\ Forall token_in ids /\ Forall (fun s => s <> [] /\ Forall token_in s) stops.
Proof.
  intros [Hc Ht] H. unfold encode_inputs in H.
  apply bind_Ok_inv in H as (ids' & Hids & H). apply bind_Ok_inv in H as (stops' & Hst & [= <- <-]).
  destruct (encode_chat_ok _ _ Hids) as [Hne Hpos]. split; [done|]. split; [eauto using tokens_in|].
  apply mapM_Ok_Forall2 in Hst. eapply Forall2_Forall_r; [exact Hst|]. apply Forall_forall.
  intros str _ l Hl. destruct (encode_text_ok _ _ Hl). eauto using tokens_in.
Qed.

Lemma submitted_wf u timeout q : manifest_wf manifest -> check_options options = Ok u ->
  timeout_millis options = Ok timeout -> 1 <= timeout <= u64_max -> vocabulary_fits ->
  submitted_ok manifest options q -> request_wf q.
Proof.
  intros Hm Hopt Ht Htr Hv (body & c & tr & rid & t & ids & stops & Hp & He & Hch & Ht' & Hrid & ->).
  assert (t = timeout) as -> by congruence. destruct (parse_wf _ _ _ Hp).
  destruct (encode_inputs_wf _ _ _ Hv He) as (Hne & Hids & Hstops).
  unfold check_options in Hopt. inv_ok. split_bools. unfold manifest_wf in Hm. destruct_and! Hm.
  destruct cw_temperature as (? & ? & ?), cw_top_p as (? & ? & ?).
  change id_limit with 9223372036854775808 in *.
  unfold request_wf; cbn -[Z.le Z.lt]; widths. split_and!; try done; try lia; try (eexists; split; [done|split; [done|]]).
  - by apply negb_true_iff.
  - apply andb_true_iff. by rewrite !negb_true_iff.
Qed.

Lemma submitted_fits q h : submitted_ok manifest options q -> Protocol.manifest h = manifest ->
  _validate_request_against_worker q h = Ok tt.
Proof.
  intros (body & c & tr & rid & t & ids & stops & Hp & He & Hch & Ht' & Hrid & ->) Hh.
  unfold check_inputs in Hch. rewrite <-Hh in Hch. clear Hh. inv_ok.
  unfold _validate_request_against_worker. cbn [generation_request input_token_ids max_new_tokens].
  by repeat match goal with H : _ = false |- _ => rewrite H; clear H end.
Qed.

(** A request passes both checks of the client. *)
Definition request_accepted (m : ModelManifest) (q : GenerationRequest) : Prop :=
  is_ok (_validate_request q) = true
  /\ forall h, Protocol.manifest h = m -> _validate_request_against_worker q h = Ok tt.

Lemma requests_accepted u timeout w ts : manifest_wf manifest -> check_options options = Ok u ->
  timeout_millis options = Ok timeout -> 1 <= timeout <= u64_max -> vocabulary_fits ->
  reached (w, ts) -> Forall (request_accepted manifest) (g_submitted w).
Proof.
  intros Hm Hc Ht Htr Hv Hr. destruct (greachable_inv u w ts Hc Hr) as [G HI].
  eapply Forall_impl; [apply (gi_submitted _ _ _ _ _ HI)|]. intros q Hq. split.
  - apply validate_request_wf. by eapply submitted_wf.
  - intros h. by apply submitted_fits.
Qed.

(** A request the Gateway gives to the client is never one the client
    refuses as invalid: if the manifest is well-formed, the timeout is at least a
    millisecond and the tokenizer's ids fit 31 bits, then every request built from
    an accepted HTTP body passes [_validate_request] and, on a session with the
    configured Worker, [_validate_request_against_worker]. *)
Theorem gateway_requests_valid u timeout w ts : manifest_wf manifest -> check_options options = Ok u ->
  timeout_millis options = Ok timeout -> 1 <= timeout <= u64_max -> vocabulary_fits ->
  reached (w, ts) ->
  Forall (fun q => is_ok (_validate_request q) = true
                   /\ forall h, Protocol.manifest h = manifest ->
                        _validate_request_against_worker q h = Ok tt) (g_submitted w).
Proof. apply requests_accepted. Qed.

(** ** What clients get *)

(** C7: The answer to a completion that is not streamed is the completion: whenever
    a request is answered with HTTP 200, whatever else happens meanwhile, the body
    is the completion object of the session's Terminal and of the texts that were
    taken, the Terminal is ok, the text is a prefix of what the tokenizer decoded,
    and it is the decoding of all Token IDs received unless the pump dropped deltas
    or the session was abandoned. *)
Theorem completion_text_exact u w ts d c r : check_options options = Ok u -> reached (w, ts) ->
  (Some (TaskCollect d c), Done (Ok (GVResponse r))) ∈ ts -> status_code r = 200 ->
  exists x t, g_sessions w !! dl_session d = Some x
    /\ gs_terminal x = Some t /\ status_ok (gt_status t) = true
    /\ body_json r = chat_completion_json (dl_completion_id d) (dl_created d) (dl_model d) (concat c) t
    /\ concat c `prefix_of` dec_decoded (gs_decoder x)
    /\ (gs_dropping_deltas x = false -> ab_abandoned (gs_buffer x) = false ->
         dec_tokens (gs_decoder x) <> [] -> decode (dec_tokens (gs_decoder x)) = Ok (concat c)).
Proof.
  intros Hc Hr Hin Hs. destruct (greachable_done u w ts _ _ Hc Hr Hin) as (G & O & HI & _ & Hp & Hsub).
  destruct Hp as [_ Hcol]. destruct (Hcol Hs) as (t & -> & Hok & ->).
  destruct (done_session w G _ _ _ HI (Hsub _ ltac:(left))) as (x & Hx & Ht & _ & Hpre & _ & Hall).
  exists x, t. split_and!; try done. intros Hd Ha. by apply Hall.
Qed.

(** The text a client of a finished stream reads. *)
Lemma script_text d c t f :
  Ok <$> f = stream_script d c (Some t) -> sendable (dl_completion_id d) (dl_model d) (dl_created d) ->
  Forall (fun x => utf8_valid x = true) c -> status_ok (gt_status t) = true ->
  0 <= prompt_tokens (gt_usage t) <= u32_max -> 0 <= completion_tokens (gt_usage t) <= u32_max ->
  last f = Some done_frame /\ omap frame_text f = c.
Proof.
  intros Hf Hs Hc Hok Hp Hq.
  destruct (chunk_sent _ _ _ Hs [("role", JStr "assistant")] None) as [r Hr]; [done..|].
  assert (frame_text r = None) as Hrt by (eapply (no_content_text _ _ _ Hs); [| |exact Hr]; done).
  destruct (contents_sent _ _ _ Hs c Hc) as (fs & Hfs & Hft).
  destruct (terminal_sent _ _ _ Hs (dl_include_usage d) t Hok Hp Hq) as (gs & Hgs & Hgt).
  assert (f = r :: fs ++ gs ++ [done_frame]) as ->.
  { apply (inj (fmap (@Ok gexn bytes))). apply mapM_Ok_fmap in Hfs, Hgs. rewrite list_fmap_id in Hgs.
    rewrite Hf, fmap_cons, fmap_app, Hfs, Hgs. unfold stream_script, role_chunk. by rewrite Hr. }
  split; [by rewrite app_comm_cons, !app_assoc, last_snoc|].
  rewrite app_comm_cons, omap_app. cbn [omap list_omap]. rewrite Hrt.
  change (omap frame_text fs ++ omap frame_text (gs ++ [done_frame]) = c). by rewrite Hft, Hgt, app_nil_r.
Qed.

(** C8: A stream that ran to its end gave the client the completion: in every
    reachable state, for a stream that returned after the Terminal, the frames it
    yielded are the role chunk, one chunk per text taken and the closing frames of
    the session's Terminal, in this order; the text is a prefix of what the
    tokenizer decoded, and it is the decoding of all Token IDs received unless the
    pump dropped deltas or the session was abandoned; and if the Terminal is ok and
    the tokenizer's strings have a UTF-8 form, a client that parses the frames reads
    exactly this text and then [[DONE]]. *)
Theorem stream_text_exact u w ts d c f t rest : check_options options = Ok u -> reached (w, ts) ->
  (Some (TaskStream d c f (SSuspended (Some t) rest)), Done (Ok GVUnit)) ∈ ts ->
  Ok <$> f = stream_script d c (Some t)
  /\ (exists x, g_sessions w !! dl_session d = Some x /\ gs_terminal x = Some t
      /\ concat c `prefix_of` dec_decoded (gs_decoder x)
      /\ (gs_dropping_deltas x = false -> ab_abandoned (gs_buffer x) = false ->
           dec_tokens (gs_decoder x) <> [] -> decode (dec_tokens (gs_decoder x)) = Ok (concat c)))
  /\ (sendable (dl_completion_id d) (dl_model d) (dl_created d) ->
      decodes_utf8 -> status_ok (gt_status t) = true ->
      0 <= prompt_tokens (gt_usage t) <= u32_max -> 0 <= completion_tokens (gt_usage t) <= u32_max ->
      last f = Some done_frame /\ omap frame_text f = c).
Proof.
  intros Hc Hr Hin. destruct (greachable_done u w ts _ _ Hc Hr Hin) as (G & O & HI & Hk & Hp & Hsub).
  destruct Hp as (_ & -> & ->). cbn in Hk. rewrite app_nil_r in Hk.
  destruct (done_session w G _ _ _ HI (Hsub _ ltac:(left))) as (x & Hx & Ht & _ & Hpre & Hutf & Hall).
  split; [done|]. split.
  - exists x. split_and!; try done. intros Hd Ha. by apply Hall.
  - intros Hs Hu. apply (script_text d c t f); auto.
Qed.

End Reachable.

(** ** Runs *)

Definition late_state : gconfig := gdrive run_manifest (run_options 1) 5 late_run.
Definition finished_state : gconfig := gdrive run_manifest (run_options 1) 5 finished_run.

(** The deliveries of the runs. *)
Definition run_delivery : delivery := mkDelivery 0 "chatcmpl-1" 1700000000 "qwen" false.
Definition streamed_state : gconfig :=
  gdrive (T := HuggingFace replacing_backend) run_manifest (run_options 1) 5 streamed_run.

Lemma streamed_reachable : greachable (T := HuggingFace replacing_backend) run_manifest (run_options 1)
  run_body_limit 5 (streamed_state.1, streamed_state.2).
Proof. rewrite <-surjective_pairing. apply gdrive_reachable. vm_compute. split; discriminate. Qed.
Lemma late_reachable : greachable run_manifest (run_options 1) run_body_limit 5 (late_state.1, late_state.2).
Proof. rewrite <-surjective_pairing. apply gdrive_reachable. vm_compute. split; discriminate. Qed.
Lemma finished_reachable : greachable run_manifest (run_options 1) run_body_limit 5 (finished_state.1, finished_state.2).
Proof. rewrite <-surjective_pairing. apply gdrive_reachable. vm_compute. split; discriminate. Qed.

Lemma gateway_counters_exact_witness : counters_exact late_state.1.
Proof.
  apply (gateway_counters_exact run_manifest (run_options 1) run_body_limit 5 tt late_state.1 late_state.2);
    [vm_compute; reflexivity|apply late_reachable].
Defined.

Lemma gateway_sessions_end_once_witness :
  exists x, g_sessions late_state.1 !! 0%nat = Some x
  /\ (gs_done x = true <-> is_Some (gs_terminal x))
  /\ ab_terminal (gs_buffer x) = gs_terminal x
  /\ (g_active late_state.1 !! gs_request_id x = Some 0%nat -> gs_done x = false)
  /\ (Z.of_nat (List.length (g_allocated late_state.1)) <= id_limit - 1 -> gs_done x = false ->
      g_active late_state.1 !! gs_request_id x = Some 0%nat).
Proof.
  eexists. split; [vm_compute; reflexivity|].
  apply (gateway_sessions_end_once run_manifest (run_options 1) run_body_limit 5 tt late_state.1 late_state.2 0%nat);
    [vm_compute; reflexivity|apply late_reachable|vm_compute; reflexivity].
Defined.


Lemma gateway_text_faithful_witness :
  exists x, g_sessions late_state.1 !! 0%nat = Some x
  /\ concat (gs_emitted x) `prefix_of` dec_decoded (gs_decoder x)
  /\ (gs_dropping_deltas x = false -> dec_tokens (gs_decoder x) <> [] ->
      decode (dec_tokens (gs_decoder x)) = Ok (concat (gs_emitted x)))
  /\ ab_deltas (gs_buffer x) `suffix_of` gs_emitted x
  /\ Z.of_nat (List.length (ab_deltas (gs_buffer x))) <= 1.
Proof.
  eexists. split; [vm_compute; reflexivity|].
  apply (gateway_text_faithful run_manifest (run_options 1) run_body_limit 5 tt late_state.1 late_state.2 0%nat);
    [vm_compute; reflexivity|apply late_reachable|vm_compute; reflexivity].
Defined.

Lemma gateway_request_ids_witness :
  Forall (fun rid => 1 <= rid < 2 ^ 63) (g_allocated late_state.1)
  /\ (Z.of_nat (List.length (g_allocated late_state.1)) < 2 ^ 63 ->
      NoDup (g_allocated late_state.1) /\ NoDup (gs_request_id <$> g_sessions late_state.1))
  /\ gs_request_id <$> g_sessions late_state.1 ⊆+ g_allocated late_state.1.
Proof.
  apply (gateway_request_ids run_manifest (run_options 1) run_body_limit 5 tt late_state.1 late_state.2);
    [vm_compute; reflexivity|apply late_reachable].
Defined.

Lemma byte_vocabulary_fits : vocabulary_fits.
Proof.
  split; intros x l [= <-]; apply Forall_forall; intros t Ht; set_unfold in Ht;
    destruct_or? Ht; subst; vm_compute; discriminate.
Qed.

Lemma gateway_requests_valid_witness :
  Forall (fun q => is_ok (_validate_request q) = true
                   /\ forall h, Protocol.manifest h = run_manifest ->
                        _validate_request_against_worker q h = Ok tt) (g_submitted late_state.1).
Proof.
  apply (gateway_requests_valid run_manifest (run_options 1) run_body_limit 5 tt 120000 late_state.1 late_state.2);
    [unfold manifest_wf; vm_compute; split_and!; discriminate|vm_compute; reflexivity
    |vm_compute; reflexivity|vm_compute; split; discriminate|apply byte_vocabulary_fits|apply late_reachable].
Defined.

Definition ok_gterminal : GatewayTerminal :=
  mkGatewayTerminal (mkStatus "ok" "") (Some "eos") (mkUsage 2 3).

Lemma completion_text_exact_witness :
  exists x t, g_sessions finished_state.1 !! 0%nat = Some x
    /\ gs_terminal x = Some t /\ status_ok (gt_status t) = true
    /\ chat_completion_json "chatcmpl-1" 1700000000 "qwen" (chars "Hi!") ok_gterminal
       = chat_completion_json "chatcmpl-1" 1700000000 "qwen" (chars "Hi!") t
    /\ chars "Hi!" `prefix_of` dec_decoded (gs_decoder x)
    /\ (gs_dropping_deltas x = false -> ab_abandoned (gs_buffer x) = false ->
         dec_tokens (gs_decoder x) <> [] -> decode (dec_tokens (gs_decoder x)) = Ok (chars "Hi!")).
Proof.
  apply (completion_text_exact run_manifest (run_options 1) run_body_limit 5 tt finished_state.1 finished_state.2
    run_delivery [chars "Hi"; chars "!"]
    (mkResponse 200 (chat_completion_json "chatcmpl-1" 1700000000 "qwen" (chars "Hi!") ok_gterminal)));
    [vm_compute; reflexivity|apply finished_reachable| |reflexivity].
  eapply (list_elem_of_lookup_2 _ 1). vm_compute. reflexivity.
Defined.

(** The frames of the streamed run. *)
Definition streamed_frames : list bytes :=
  match streamed_state.2 !! 1%nat with Some (Some (TaskStream _ _ f _), _) => f | _ => [] end.

Lemma replacing_decodes : @decodes_utf8 (HuggingFace replacing_backend).
Proof.
  intros l t. cbn. unfold hf_decode. cbn. intros [= <-].
  destruct (utf8_valid (map byte_of_Z l)) eqn:H; [done|vm_compute; reflexivity].
Qed.

Lemma stream_text_exact_witness :
  Ok <$> streamed_frames = stream_script run_delivery [chars "Hi"; chars "!"] (Some ok_gterminal)
  /\ last streamed_frames = Some done_frame /\ omap frame_text streamed_frames = [chars "Hi"; chars "!"].
Proof.
  destruct (stream_text_exact (T := HuggingFace replacing_backend) run_manifest (run_options 1) run_body_limit 5 tt
    streamed_state.1 streamed_state.2 run_delivery [chars "Hi"; chars "!"] streamed_frames ok_gterminal [])
    as (Hf & _ & Ht);
    [vm_compute; reflexivity|apply streamed_reachable
    |eapply (list_elem_of_lookup_2 _ 1); vm_compute; reflexivity|].
  split; [exact Hf|]. apply Ht; [unfold sendable; vm_compute; repeat split; discriminate|apply replacing_decodes
    |vm_compute; reflexivity|vm_compute; split; discriminate..].
Defined.

(** Backpressure can truncate an answer that is reported as complete: in a
    reachable run the tokens of "Hi!" arrive, the last delta finds the buffer full
    and is dropped, the Worker was already done, and the client gets HTTP 200 with
    the text "Hi". *)
Theorem backpressure_truncates :
  exists c d x, greachable run_manifest (run_options 1) run_body_limit 5 c
    /\ (Some (TaskCollect d [chars "Hi"]), Done (Ok (GVResponse (mkResponse 200
          (chat_completion_json "chatcmpl-1" 1700000000 "qwen" (chars "Hi") ok_gterminal))))) ∈ c.2
    /\ g_sessions c.1 !! dl_session d = Some x
    /\ decode (dec_tokens (gs_decoder x)) = Ok (chars "Hi!").
Proof.
  exists late_state, run_delivery. eexists. split; [apply gdrive_reachable; vm_compute; split; discriminate|].
  split; [|split; vm_compute; reflexivity]. eapply (list_elem_of_lookup_2 _ 1). vm_compute. reflexivity.
Qed.

(** A character whose bytes are spread over two deltas fails the request when
    the tokenizer decodes the incomplete part to U+FFFD: the client gets HTTP 500
    although the Worker ended with success. *)
Theorem split_character_fails :
  exists c l r, greachable (T := HuggingFace replacing_backend) run_manifest (run_options 1) run_body_limit 5 c
    /\ c.2 !! 1%nat = Some (l, Done (Ok (GVResponse r))) /\ status_code r = 500.
Proof.
  exists (gdrive (T := HuggingFace replacing_backend) run_manifest (run_options 1) 5 split_character_run).
  do 2 eexists. split; [apply gdrive_reachable; vm_compute; split; discriminate|].
  split; vm_compute; reflexivity.
Qed.

(** [check_readiness] tests [_stopping] before it waits for the connection
    lock, so a check that overlaps a shutdown reconnects the closed client: in a
    reachable run [stop] has returned, and the Gateway is stopping and ready. *)
Theorem ready_after_stop :
  exists c, greachable run_manifest (run_options 1) run_body_limit 5 c
    /\ c.2 !! 2%nat = Some (None, Done (Ok GVUnit))
    /\ g_stopping c.1 = true /\ g_ready c.1 = true.
Proof.
  exists (gdrive run_manifest (run_options 1) 5 reconnect_run).
  split; [apply gdrive_reachable; vm_compute; split; discriminate|].
  split_and!; vm_compute; reflexivity.
Qed.

(** [stop] abandons the sessions it drained even if their consumers are still
    reading: in a reachable run the Worker finished the answer "Hi" while the
    Gateway stopped, and the client gets HTTP 200 with an empty text. *)
Theorem stop_truncates :
  exists c d x, greachable run_manifest (run_options 1) run_body_limit 5 c
    /\ (Some (TaskCollect d []), Done (Ok (GVResponse (mkResponse 200
          (chat_completion_json "chatcmpl-1" 1700000000 "qwen" [] ok_gterminal))))) ∈ c.2
    /\ g_sessions c.1 !! dl_session d = Some x /\ gs_dropping_deltas x = false
    /\ decode (dec_tokens (gs_decoder x)) = Ok (chars "Hi").
Proof.
  exists (gdrive run_manifest (run_options 1) 5 stopped_run), run_delivery. eexists.
  split; [apply gdrive_reachable; vm_compute; split; discriminate|].
  split; [|split_and!; vm_compute; reflexivity]. eapply (list_elem_of_lookup_2 _ 1). vm_compute. reflexivity.
Qed.

(** The generator of a stream gives its session back in its [finally], which does
    not run if the generator never starts: in a reachable run the client is gone
    before the first frame, everything is over, no cancel was sent, and the text
    stays in the buffer and in the gauge. *)
Theorem unstarted_stream_leaks :
  exists c x, greachable run_manifest (run_options 1) run_body_limit 5 c
    /\ Forall (fun t => at_rest t = true) c.2
    /\ g_sessions c.1 !! 0%nat = Some x /\ gs_cancel_sent x = false
    /\ ab_deltas (gs_buffer x) = [chars "Hi"] /\ m_sse_buffered_events (g_metrics c.1) = 1.
Proof.
  exists (gdrive run_manifest (run_options 1) 5 unstarted_run). eexists.
  split; [apply gdrive_reachable; vm_compute; split; discriminate|].
  split; [refine (bool_decide_eq_true_1 _ _); vm_compute; reflexivity|].
  split_and!; vm_compute; reflexivity.
Qed.

(** A request timeout of half a millisecond. *)
Definition f_half_ms : pyfloat := S754_finite false 4611686018427388 (-63).
Definition tiny_options : GatewayRuntimeOptions := mkOptions f1 f_half_ms f1 f1 f1 1 1.

(** A request timeout below a millisecond passes every check of the
    configuration but makes the Gateway useless: it is truncated to 0 ms, and the
    client then refuses every request. *)
Theorem tiny_timeout_refuses_all r rid ids stops :
  check_options tiny_options = Ok tt /\ timeout_millis tiny_options = Ok 0
  /\ is_ok (_validate_request (generation_request run_manifest tiny_options r rid 0 ids stops)) = false.
Proof.
  split; [vm_compute; reflexivity|]. split; [vm_compute; reflexivity|].
  destruct (is_ok _) eqn:H; [|done]. apply validate_request_wf in H.
  destruct H as (_ & _ & _ & _ & _ & [Ht _] & _). lia.
Qed.
