(* ===== verification/GatewayLive.v ===== *)
(** The application does not deadlock: under every interleaving, as long as the
    calls of the client library return, some coroutine can move until every session
    has its Terminal and every coroutine is over.  Shutdown therefore completes. *)
From Stdlib Require Import ZArith Lia Ascii String.
From stdpp Require Import base list strings gmap.
From S2P Require Import Prelude PyFloat Json Protocol Threads GatewayBase OpenAI Metrics Gateway.
From S2P Require Import Api System GatewayInv GatewaySafe SystemSafe TokenizerModel GatewayRuns.
Local Open Scope Z_scope.

Section Live.
Context `{T : Tokenizer} `{TOk : !TokenizerOk T}.
Context (manifest : ModelManifest) (options : GatewayRuntimeOptions) (max_http_body_bytes first : Z).

Abbreviation ginvariant := (ginv manifest options first).
Abbreviation gthread := (thread_safe (I := greply) ginvariant gwait delivery_ok task_res task_post handler_post).
Abbreviation grests := (resting goes_on gwait).

Lemma gholds_concat Os h : h ∈ gholds (concat Os) -> exists O, O ∈ Os /\ h ∈ gholds O.
Proof.
  induction Os as [|O Os IH]; simpl; [set_solver|]. unfold gholds in *. rewrite omap_app, elem_of_app.
  intros [?|?]; [exists O; set_solver|]. destruct IH as (O' & ? & ?); [done|]. exists O'. set_solver.
Qed.

Lemma over_holds_nothing O : over O -> gholds O = [] /\ pumps O = [].
Proof. by intros (? & ? & _). Qed.

Lemma finished_holds_nothing (t : option gtask * gprog gvalue) O : stopped goes_on t = true -> gthread t O ->
  gholds O = [] /\ pumps O = [].
Proof.
  destruct t as [l [r| | |]]; try done. intros Hs [_ Hp]. cbn in Hs, Hp.
  destruct l as [[s|task s|task s reason|d c|d taken frames phase]|]; cbn in Hp.
  - by destruct Hp as [[-> ->]|[-> ->]].
  - by destruct Hp as [_ ->].
  - destruct r as [[]|]; (done || by rewrite Hp).
  - destruct r as [[]|]; try done; by apply over_holds_nothing; try apply Hp.
  - destruct r as [[]|]; try done; by apply over_holds_nothing; try apply Hp.
  - destruct r as [[]|]; try done; try (by apply over_holds_nothing); [by rewrite Hp|].
    by destruct Hp as (? & ? & _).
Qed.

(** In a state where no coroutine can move. *)
Section Stuck.
Context (w : gworld) (ts : list (option gtask * gprog gvalue)) (Os : list (list gtoken)).
Context (HI : ginvariant w (concat Os)) (Hts : Forall2 gthread ts Os) (Hrest : Forall2 (grests w) ts Os).

Lemma gtoken_owner O : O ∈ Os ->
  (gholds O = [] /\ pumps O = []) \/ exists g, g w = false /\ gwait g O.
Proof.
  intros [i Hi]%list_elem_of_lookup_1.
  destruct (Forall2_lookup_r _ _ _ _ _ Hts Hi) as (t & Ht & Hs).
  destruct (Forall2_lookup_r _ _ _ _ _ Hrest Hi) as (t' & Ht' & Hr). simplify_eq.
  destruct Hr as [Hf|(g & u & f & _ & Hg & Hw)]; [|eauto].
  left. by eapply finished_holds_nothing.
Qed.

(** The locks are free: a coroutine that holds one never waits. *)
Lemma gstuck_patient O : O ∈ Os -> patient O.
Proof.
  intros [(Hn & _)|(g & _ & Hw)]%gtoken_owner; [unfold patient; rewrite Hn; split; set_solver|].
  destruct Hw; try done; apply patient_nil.
Qed.

Lemma gstuck_cancel s : session_flag gs_cancel_lock s w = false.
Proof.
  apply not_true_is_false. intros Hl. destruct HI as [_ HL].
  apply HL in Hl as (O & HO & Hin)%gholds_concat. by destruct (gstuck_patient O HO) as [H _]; destruct (H s).
Qed.

Lemma gstuck_connection : g_connection_lock w = false.
Proof.
  apply not_true_is_false. intros Hl. destruct HI as [_ HL].
  apply HL in Hl as (O & HO & Hin)%gholds_concat. by destruct (gstuck_patient O HO).
Qed.

(** So pumps and drains have all ended. *)
Lemma gstuck_nothing O : O ∈ Os -> gholds O = [] /\ pumps O = [].
Proof.
  intros [?|(g & Hg & Hw)]%gtoken_owner; [done|]. destruct Hw; try done.
  - by rewrite gstuck_cancel in Hg.
  - by rewrite gstuck_connection in Hg.
Qed.

Lemma gstuck_no_hold h : h ∉ gholds (concat Os).
Proof. intros (O & HO & Hin)%gholds_concat. destruct (gstuck_nothing O HO) as [Hn _]. rewrite Hn in Hin. set_solver. Qed.

Lemma gstuck_no_pump s : TPump s ∉ concat Os.
Proof.
  intros (O & HO & Hin)%list_elem_of_In%in_concat. apply list_elem_of_In in HO, Hin.
  destruct (gstuck_nothing O HO) as [_ Hn]. apply pumps_spec in Hin. rewrite Hn in Hin. set_solver.
Qed.

Lemma gstuck_session s x : g_sessions w !! s = Some x ->
  gs_done x = true /\ is_Some (gs_terminal x) /\ ab_terminal (gs_buffer x) = gs_terminal x.
Proof.
  intros Hx. destruct HI as [HG _].
  apply (sk_closed _ _ _ _ _ (gi_sessions _ _ _ _ _ HG s x Hx)), gstuck_no_pump.
Qed.

Lemma gstuck_idle : g_active w = ∅.
Proof.
  destruct HI as [HG _]. apply map_empty. intros rid. destruct (g_active w !! rid) as [s|] eqn:Hl; [|done].
  destruct (gi_table _ _ _ _ _ HG rid s Hl) as (x & Hx & <-).
  apply (sk_table _ _ _ _ _ (gi_sessions _ _ _ _ _ HG s x Hx)) in Hl. by apply gstuck_no_pump in Hl.
Qed.

Lemma gstuck_threads t : t ∈ ts -> stopped goes_on t = true.
Proof.
  intros [i Hi]%list_elem_of_lookup_1.
  destruct (Forall2_lookup_l _ _ _ _ _ Hrest Hi) as (O & HO & Hr). apply list_elem_of_lookup_2 in HO.
  destruct Hr as [Hf|(g & u & f & Ht & Hg & Hw)]; [done|]. destruct HI as [_ HL].
  destruct Hw as [s O|O|tasks|tasks].
  - by rewrite gstuck_cancel in Hg.
  - by rewrite gstuck_connection in Hg.
  - apply bool_decide_eq_false in Hg. destruct Hg. apply Forall_forall. intros t' _ Hin.
    apply HL in Hin. by apply gstuck_no_hold in Hin.
  - apply bool_decide_eq_false in Hg. destruct Hg. apply set_eq. intros t'. rewrite elem_of_intersection.
    split; [|set_solver]. intros [_ Hin]. apply HL in Hin. by apply gstuck_no_hold in Hin.
Qed.
End Stuck.

(** C4: No deadlock: under every interleaving of requests, deliveries, pumps,
    drains and shutdown, and as long as the calls of the client library return, some
    coroutine can move, or every session has ended with its Terminal, none is
    active any more, and every coroutine is over.  In particular [stop] returns. *)
Theorem gateway_deadlock_free u w ts : check_options options = Ok u ->
  greachable manifest options max_http_body_bytes first (w, ts) ->
  (exists c, step task_prog goes_on (w, ts) c)
  \/ (Forall (fun x => gs_done x = true /\ is_Some (gs_terminal x)) (g_sessions w) /\ g_active w = ∅
      /\ forall t, t ∈ ts -> stopped goes_on t = true).
Proof.
  intros Hc Hr. pose proof (options_capacity options u Hc).
  pose proof (greachable_safe manifest options first ltac:(lia) max_http_body_bytes _ Hr) as Hs.
  apply (pool_progress task_prog goes_on) in Hs as [?|(Os & HI & Hts & Hrest)]; [by left| |exact ok_reply].
  right. split_and!.
  - apply Forall_lookup. intros s x Hx. by destruct (gstuck_session w ts Os HI Hts Hrest s x Hx) as (? & ? & _).
  - by eapply gstuck_idle.
  - intros t. by eapply gstuck_threads.
Qed.
End Live.

(** Shutdown with a session that is open and a client that is still there: the
    drain asks for a cancel, the Worker ends the request, [stop] returns, and the
    delivery takes the Terminal. *)
Definition shutdown_run : list gaction :=
  accepted_run false ++
  [HCall CShutdown; HRun 4 3 ok_reply; HRun 10 4 ok_reply; HRun 10 2 (REvent (Ok (ETerminal ok_end)));
   HRun 20 3 (RUnit (Ok tt)); round].

#[local] Instance run_tokenizer : Tokenizer := HuggingFace byte_backend.

Definition shutdown_end : gconfig := gdrive run_manifest (run_options 1) 1 shutdown_run.

Example shutdown_returns : stopped goes_on <$> shutdown_end.2 = [true; true; true; true; true]
  /\ (gs_terminal <$> g_sessions shutdown_end.1)
     = [Some (mkGatewayTerminal (mkStatus "ok" "") (Some "eos") (mkUsage 2 3))].
Proof. vm_compute. by split. Qed.

Lemma gateway_deadlock_free_witness :
  (exists c, step task_prog goes_on (shutdown_end.1, shutdown_end.2) c)
  \/ (Forall (fun x => gs_done x = true /\ is_Some (gs_terminal x)) (g_sessions shutdown_end.1)
      /\ g_active shutdown_end.1 = ∅
      /\ forall t, t ∈ shutdown_end.2 -> stopped goes_on t = true).
Proof.
  apply (gateway_deadlock_free run_manifest (run_options 1) run_body_limit 1 tt); [vm_compute; reflexivity|].
  rewrite <-surjective_pairing. apply gdrive_reachable. vm_compute. split; discriminate.
Defined.
