(* ===== verification/Served.v ===== *)
(** The program as it is served: a configuration that [main] serves, the service that
    is built for it with the real tokenizer adapter, and every state its application
    can reach. *)
From Stdlib Require Import ZArith Lia Ascii String SpecFloat.
From stdpp Require Import base list strings gmap.
From S2P Require Import Prelude PyFloat Json JsonFacts Protocol ProtocolFacts Framing GatewayBase Client.
From S2P Require Import TokenizerModel Config Metrics Gateway Api ApiFacts CommandLine System.
From S2P Require Import GatewayInv GatewaySafe SystemSafe GatewayRuns.
Local Open Scope Z_scope.

(** The states of the application that serves the parts built for a configuration. *)
Definition served_reachable (c : GatewayConfig) (parts : gateway_parts) (first_id : Z) (st : gconfig) : Prop :=
  greachable (T := HuggingFace (hf_backend (gp_tokenizer parts))) (gp_manifest parts) (gp_options parts)
    (gc_max_http_body_bytes c) first_id st.

Section Served.
Context (installed : string -> bool) (sha256 : text -> string).
Context (from_pretrained : string -> result library_failure transformers_tokenizer)
  (directory : string -> option (string -> option text)).
Context (files : string -> option text) (parent : string -> string)
  (resolve : string -> string -> string) (absolute : string -> string).

Abbreviation main := (main installed sha256 from_pretrained directory files parent resolve absolute).
Abbreviation build := (build_gateway_service sha256 from_pretrained directory absolute).

Lemma main_served path n s : main (Serve path) = Ok (n, Served s) ->
  config_wf (sv_app s) /\ sv_host s = gc_host (sv_app s) /\ sv_port s = gc_port (sv_app s).
Proof.
  cbn [CommandLine.main]. unfold serve, create_app.
  destruct (load files parent resolve absolute path) as [c|] eqn:Hc; [|done].
  destruct (installed "uvicorn"), (installed "fastapi"); try done. intros [= _ <-].
  apply load_wf in Hc as [Hwf _]. done.
Qed.

Lemma other_Ok {A} (r : result exn A) a : other r = Ok a -> r = Ok a.
Proof. destruct r; cbn; congruence. Qed.

Lemma build_parts c parts : build c = Ok parts ->
  gp_manifest parts = gc_manifest c /\ gp_options parts = options_of c
  /\ _validate_config (gp_client parts) = Ok tt /\ check_options (gp_options parts) = Ok tt.
Proof.
  unfold build_gateway_service. intros H. inv_ok.
  repeat match goal with u : unit |- _ => destruct u | H : other _ = Ok _ |- _ => apply other_Ok in H end. done.
Qed.


End Served.

(** *** A run of the served program *)

Definition served_files (p : string) : option text :=
  if bool_decide (p = "/etc/gateway.json") then
    Some (quote_json "{'worker_config_path':'worker.json','tokenizer_path':'tok','max_http_body_bytes':4096}")
  else if bool_decide (p = "/etc/worker.json") then
    Some (quote_json "{'socket_path':'w.sock','manifest':{'model_id':'qwen','revision':'r1','tokenizer_fingerprint':'sha256:00','chat_template_fingerprint':'sha256:00','engine_fingerprint':'e','eos_token_id':2,'pad_token_id':2,'max_input_tokens':64,'max_output_tokens':64,'max_sequence_tokens':128,'precision':'fp16','max_batch_size':4}}")
  else None.

Definition served_main : result main_exn (Z * outcome) :=
  main (fun _ => true) (fun _ => "00") (fun _ => Ok byte_backend) (fun _ => Some sample_assets)
    served_files (fun _ => "/etc") sample_resolve (fun p => p) (Serve "/etc/gateway.json").
Definition served_server : server :=
  Eval vm_compute in match served_main with
                     | Ok (_, Served s) => s
                     | _ => mkServer sample_gateway_config "" 0 "" 0
                     end.
Definition served_parts : gateway_parts :=
  match build_gateway_service (fun _ => "00") (fun _ => Ok byte_backend) (fun _ => Some sample_assets)
          (fun p => p) (sv_app served_server) with
  | Ok p => p
  | Err _ => mkParts (client_config_of sample_gateway_config) (mkHF byte_backend 0 0 "" "") run_manifest (run_options 1)
  end.

Definition served_state : gconfig :=
  gdrive (T := HuggingFace byte_backend) (gp_manifest served_parts) (gp_options served_parts) 5 finished_run.

